(* ===== verification/_CoqProject ===== *)
-Q . S2P
Prelude.v
Text.v
GoErrors.v
Runtime.v
Identity.v
Pagination.v
Schema.v
Storage.v
Logic.v
Json.v
HttpApi.v
FederationClient.v
Locker.v
LockerExecution.v
LockerPostgres.v
Queries.v
AuthQueries.v
Owned.v
Tables.v
Projects.v
Tasks.v
ModuleRoutes.v
MailQueries.v
MailOutbox.v
MailDelivery.v
AccountModel.v
Password.v
AppConfig.v
AccountStore.v
AccountCore.v
AccountSessions.v
AccountFlows.v
AccountHttp.v
Dto.v
DtoFacts.v
Contract.v
AccountHistory.v
AccountGuar.v
AccountFacts.v
AccountSecurity.v
Api.v
Identifiers.v
System.v
Replies.v
AccountSignOut.v
AccountProofs.v
AccountAuthority.v
AccountLimits.v
AccountDisclosure.v
Process.v
Infrastructure.v
Lifecycle.v
LifecycleFacts.v
Commands.v
LifecycleParts.v
LifecycleRuns.v
Examples.v
Witnesses.v
AppWitnesses.v
LifecycleWitnesses.v
