(* ===== verification/Prelude.v ===== *)
(** * A verification library for go-starter-kit

    The repository is a Go service: an HTTP API (account management with sessions, passwords,
    federated login and administration; projects; tasks) and a worker that delivers mails from
    a queue in the database, on PostgreSQL. This library is a shallow embedding of its code
    with theorems about it. Names follow the source; each file says which Go files it models.

    ** The program and the files that model it

    - [Text], [Runtime] (strings, [internal/validation]), [GoErrors] ([internal/apperror]:
      error trees, [errors.Is], [errors.As], [errors.Join], diagnostics), [Identity]
      ([internal/identity]), [Pagination] ([internal/pagination]), [Json].
    - [Schema], [Queries], [AuthQueries], [MailQueries]: the tables of the migration and every
      statement of [internal/db/sqlc] as a function of the server's [now()] and of the tables.
      [Storage]: [internal/db/errors.go], [transaction.go] and the monad [M] of the services.
      [Logic]: inversion of runs and [guar R m], relations kept by every run.
    - [Projects], [Tasks] ([internal/modules/project], [task]: service and handlers), over
      [Owned], tables whose rows belong to owners.
    - [MailOutbox] ([internal/modules/mailoutbox]): claim, deliver, finish, and the loop [Run].
    - [internal/modules/account]: [AccountModel] (enums, models, errors, dependencies),
      [AccountStore] (the store and its checks), [AccountCore] (audit, limits, challenges,
      notifications, sessions, authorizations), [AccountSessions] and [AccountFlows] (the
      operations), [AccountHttp] (handlers, outputs, routes).
    - [HttpApi] ([internal/httpapi]), [ModuleRoutes] (routes of projects and tasks), [Dto] (the
      tags of every [dto.go]: the types of the bodies, their JSON, and how a body fills an
      input), [Api] ([internal/app/api]: the account service's parts, the authenticator, the
      catalog of routes, the export of the contract), [AppConfig]
      ([internal/platform/configenv] and the configurations).
    - [Password], [FederationClient] ([internal/platform/password], [federation]), and the
      distributed lock: [Locker] (keys, retries), [LockerExecution] (a task under a lease, two
      goroutines), [LockerPostgres] (leases as advisory locks).
    - The processes: [Process] (contexts, goroutines and the monad [Proc] of what a process does),
      [Infrastructure] ([internal/db/pool.go], [migrate.go], [platform/telemetry],
      [platform/mail]), [Lifecycle] ([internal/app/appfx], [app/api/module.go], [server.go],
      [run.go], [app/worker/module.go], [run.go]: the hooks and the run of an application) and
      [Commands] ([command.go] and [cmd]).

    Theorems are in files of their own: [AccountGuar], [AccountHistory], [AccountFacts],
    [AccountSecurity], [AccountAuthority], [AccountSignOut], [AccountProofs], [AccountLimits],
    [AccountDisclosure] for the account service; [DtoFacts], [Contract] and [Replies] for the
    bodies; [MailDelivery] for the queue; [Identifiers] and [System] for the whole; [LifecycleFacts], [LifecycleParts] and
    [LifecycleRuns] for the processes.

    A request goes through [HttpApi.Requests], the route's middlewares (for protected routes
    [HttpApi.Middleware], which calls the authenticator [Api.sessionAuthenticator], that is
    [AccountSessions.AuthenticateSession]), the handler, and the service; the account service
    calls [Passwords] and [Federation], which [Password.hasher_passwords] and
    [Api.federationAdapter] implement. The account service enqueues mails in the transactions
    of its operations; the worker takes them from the same table. A process ([Commands.main])
    reads its configuration, builds its parts in the order of their hooks ([Lifecycle.Run]) and
    serves or consumes until the signal; requests are what its server hands to the handlers.

    ** How the code is modelled

    - A service operation is a function [M A] of the [World] (database, clock, step counter,
      log). Every statement, start or end of a transaction, drawn value, reading of the clock
      and call of a dependency takes a step. A [Schedule] says for each step what other clients
      committed before it, whether it fails, and how time passes; theorems hold for all
      schedules. Other clients are constrained, where a theorem needs it, by [EnvGuar R]: they
      respect the same relation as the program. Transactions are serial: the code locks the
      rows it depends on, and the model lets others act between transactions, not inside them.
      A failing step may have taken effect with its answer lost ([FaultAfter]), a commit too.
    - Go errors are trees ([GoErrors.error]); a panic of a handler is an error of its
      computation [M (reply D)]. [ctx.Err()] is an oracle by step.
    - Integers are [Z]; [int32] wraps around explicitly where it is computed with. Strings are
      byte strings, decoded as UTF-8 where the code ranges over runes. Times are nanoseconds on
      one axis; [AccountStore.zero_time] is Go's zero. Durations are nanoseconds, and their
      seconds a quotient: [Retry-After] is the ceiling in whole seconds, without the rounding of
      [float64] beyond 97 days.
    - JSON columns are kept as the values they encode, except the protocol state of a flow and
      the provider's configuration, whose text is hashed or stored ([Json]). CHECK constraints
      are implied by the store's checks and not modelled again; [SKIP LOCKED] has no effect
      among serial statements. The user that the callback of a transaction assigns to the
      request ([r.UserID]) is the field [w_user].
    - Libraries and services are parameters with documented laws: [Runtime] (SHA-256, random
      values, mail addresses, URLs, collation), [Passwords], [Federation], [Worker] (the mail
      sender), [Argon2] (which compares only with parameters that [argon2.IDKey] computes with),
      [OAuth], [UrlParser], [AdvisoryLocks], the conversion of environment
      variables, Huma's parsing ([parse]) and its formats ([format_ok]), the deadline of a
      request ([Deadlines]), the fx library ([Fx] with [FxLaws]: a start or stop runs its hooks, or gives up when its
      context ends first) and cobra ([Cobra], for arguments that are neither flags nor the
      library's own commands).
      [Examples] and the witness files instantiate each of them and prove its laws.
    - A process is a function [Proc A] of a [process]: clock, cancelled contexts, the variables
      its hooks share, its goroutines, and the trace of what it acquired, released and logged. A
      [Machine] says for each step how long it takes (at least a nanosecond), what the library
      answers and which goroutine ends.
    - A DTO is one declaration ([struct]) that gives the type in the contract and the encoding,
      as the tags do; [conforms] is the documented meaning of the tags.
    - What an operation has read is stated of the database as the other clients have left it at
      that step ([arrive], [sched_env (w_step w) (w_db w)]) and of the clock then ([w_clock]).
    - Fuel: [MailOutbox.Run_] and [Locker.Run_] are loops that wait for events. They take the
      number of iterations; [Run_terminates] and [Run_terminates_locked] show that what ends
      the loop in the program ends it here, and how much fuel is enough. The waits of a process
      ([Process.await], [select]) take turns of at least a nanosecond, so as many turns as there
      are nanoseconds up to the end of the context suffice ([process_terminates], for runs whose
      hooks are through in time; what an abandoned start leaves behind is not described by fx); a
      run that is still waiting returns nothing, and no theorem counts it as a success. The
      concurrent parts ([LockerExecution], [LockerPostgres], [Password.Slots]) are step relations,
      with invariants by induction and termination by a rank; [LockerExecution.due] tells the steps
      that have to come from those that may, so that progress needs the program to stop its watch.

    ** What the theorems show

    - The whole system ([System.system_run]): any requests to any routes and any runs of the
      worker keep every table valid. It rests on one lemma per operation for an arbitrary
      relation (the classes [AccountGuar], [ProjectGuar], [TaskGuar], [MailGuar]), of which the
      histories and invariants of the parts are instances.
    - Accounts: validity and history of the authentication tables ([AccountHistory],
      [AccountSecurity]); sessions are authenticated soundly and completely ([AccountSecurity],
      [AccountAuthority]); signing out is final ([AccountSignOut]); mailed challenges and
      federated flows are used once, a reset signs out, mail bodies are inert ([AccountProofs]);
      logins, unlinking and administration have checked what they must ([AccountAuthority]);
      no more requests pass than the rate limits allow, the audit of failures ([AccountLimits]).
    - Disclosure: without failures, the answers to a registration and to a forgotten password are
      the same whoever has an account ([AccountDisclosure.entry_undisclosed]).
    - Bodies: every answer conforms to the type the contract declares ([Replies.replies_conform]);
      the tags of the requests and the checks of the services agree ([Contract.contract_agrees]);
      the alternatives of a request are what the service tells apart ([DtoFacts]); the exported
      contract describes the routes served ([Api.OpenAPI_describes_runtime]).
    - HTTP and assembly: protected routes are guarded, and serve whoever presents a valid token;
      the catalog's policies; failures disclose no more than intended; the identity providers
      refine what the account service expects ([Api], [HttpApi]).
    - Projects and tasks: each operation refines its specification on the owner's shelf.
    - Mail: the queue's state machine, what is sent and under which lease and deadline, what is
      recorded of it, termination of the loop ([MailOutbox]);
      in an undisturbed run every due mail is delivered ([MailDelivery]).
    - Platform: exact verification of passwords and the bound on concurrent hashing; the lock's
      truthful results, exclusive release, termination, the waits of its loop and mutual exclusion; the
      configuration that starts.
    - Processes: a run gives back all it acquired, in the opposite order; exit status 0 means a
      graceful run; a run ends once the signal has come ([LifecycleRuns]).
    - Text: token spelling, pagination, closed diagnostics.

    [Witnesses], [AppWitnesses] and [LifecycleWitnesses] apply every theorem that has hypotheses to a run of the
    concrete program of [Examples].

    ** Not modelled

    What only libraries do: the router's matching (chi), the reading of parameters and the
    generation of schemas from the tags with their names (Huma), the wrapper of
    [otelhttp], flags and help (cobra), the dependency graph of fx (the constructors are called
    in the order in which fx calls them), the instruments of [locker/metrics.go]. CHECK
    constraints of the migration. Logged fields other than those of [DiagnosticAttrs] and of the
    request's identifier and status. The helpers of [tests/integration].

    ** Plan

    Further work, in this order: the results of [Callback] and [Reauthenticate] are always
    presentable ([callbackOutput] never fails on them); the answers of the project and task
    routes to a client that sends their bodies, as one specification over HTTP; timing as a
    channel in [entry_undisclosed]. *)
From stdpp Require Export base list gmap strings fin_maps sorting.
From Stdlib Require Export ZArith Lia.

(** ** Results of fallible Go code *)

(** A Go function returning [(T, error)] returns [Ok] when the error is nil. *)
Inductive res (E A : Type) : Type :=
| Ok (a : A)
| Err (e : E).
Arguments Ok {E A} a.
Arguments Err {E A} e.

Definition res_bind {E A B} (r : res E A) (f : A → res E B) : res E B :=
  match r with
  | Ok a => f a
  | Err e => Err e
  end.

Definition is_ok {E A} (r : res E A) : bool :=
  match r with
  | Ok _ => true
  | Err _ => false
  end.

Global Instance res_eq_dec {E A} `{EqDecision E} `{EqDecision A} : EqDecision (res E A).
Proof. solve_decision. Defined.

(** ** Notations *)

Declare Scope go_scope.
Delimit Scope go_scope with go.
Notation "x ==? y" := (bool_decide (x = y)) (at level 70, no associativity) : go_scope.
Notation "x !=? y" := (negb (bool_decide (x = y))) (at level 70, no associativity) : go_scope.
Open Scope go_scope.
Open Scope Z_scope.

(** ** Tactics *)

(** Turns the boolean tests of the code into propositions, in hypotheses and goal. *)
Ltac bool_to_prop :=
  repeat match goal with
  | H : bool_decide _ = true |- _ => apply bool_decide_eq_true in H
  | H : bool_decide _ = false |- _ => apply bool_decide_eq_false in H
  | H : negb _ = true |- _ => apply negb_true_iff in H
  | H : negb _ = false |- _ => apply negb_false_iff in H
  | H : (_ && _)%bool = true |- _ => apply andb_true_iff in H as [? ?]
  | H : (_ || _)%bool = false |- _ => apply orb_false_iff in H as [? ?]
  | H : (_ && _)%bool = false |- _ => apply andb_false_iff in H
  | H : (_ || _)%bool = true |- _ => apply orb_true_iff in H
  | H : (_ <? _) = true |- _ => apply Z.ltb_lt in H
  | H : (_ <? _) = false |- _ => apply Z.ltb_ge in H
  | H : (_ <=? _) = true |- _ => apply Z.leb_le in H
  | H : (_ <=? _) = false |- _ => apply Z.leb_gt in H
  | H : (_ =? _) = true |- _ => apply Z.eqb_eq in H
  | H : (_ =? _) = false |- _ => apply Z.eqb_neq in H
  end.

(** Splits the scrutinee of the first [match] found in hypothesis [H]. *)
Ltac split_match_in H :=
  match type of H with
  | context [match ?x with _ => _ end] =>
    lazymatch x with
    | context [match _ with _ => _ end] => fail
    | _ => let E := fresh "E" in destruct x eqn:E
    end
  end; simplify_eq/=.

Ltac split_matches_in H := repeat split_match_in H.

Create HintDb go discriminated.
Create Rewrite HintDb go.

(** ** Lists *)

(** The first [Some] that [f] yields along [l]. *)
Fixpoint find_map {A B} (f : A → option B) (l : list A) : option B :=
  match l with
  | [] => None
  | x :: l => match f x with Some y => Some y | None => find_map f l end
  end.

Lemma find_map_app {A B} (f : A → option B) l1 l2 :
  find_map f (l1 ++ l2) = match find_map f l1 with Some y => Some y | None => find_map f l2 end.
Proof. induction l1 as [|x l1 IH]; simpl; [done|]. by destruct (f x). Qed.

Lemma find_map_Some {A B} (f : A → option B) l y :
  find_map f l = Some y → ∃ x, x ∈ l ∧ f x = Some y.
Proof.
  induction l as [|x l IH]; simpl; [done|]. destruct (f x) eqn:E; intros; simplify_eq.
  - exists x. split; [left|done].
  - destruct IH as (x' & ? & ?); [done|]. exists x'. split; [by right|done].
Qed.

Lemma find_map_None {A B} (f : A → option B) l :
  find_map f l = None ↔ Forall (λ x, f x = None) l.
Proof.
  induction l as [|x l IH]; simpl; [by split|].
  destruct (f x) eqn:E; rewrite Forall_cons; [naive_solver|]. rewrite IH. naive_solver.
Qed.

Lemma existsb_app_or {A} (f : A → bool) l1 l2 :
  existsb f (l1 ++ l2) = (existsb f l1 || existsb f l2)%bool.
Proof. apply existsb_app. Qed.

(** ** Functional record update: [r <| field := v |>] *)

(** [eta] rebuilds a record from its fields; the setter of a field is read off it. *)
Class Settable (R : Type) := { eta : R → R; eta_id r : eta r = r }.
Class Setter {R E : Type} (proj : R → E) := set_field : (E → E) → R → R.
Global Arguments set_field {R E} proj {_} _ / _.

Ltac solve_setter :=
  match goal with
  | |- @Setter ?R ?E ?p =>
    let i := constr:(_ : Settable R) in
    let e := eval hnf in (@eta R i) in
    let f := eval pattern p in e in
    match f with ?g _ => exact (λ (upd : E → E), g (λ r, upd (p r))) end
  end.
Global Hint Extern 1 (Setter _) => solve_setter : typeclass_instances.

Notation "r <| p := v |>" := (set_field p (λ _, v) r)
  (at level 1, left associativity, p at level 9, format "r  <| p  :=  v |>") : go_scope.

Ltac solve_eta := let r := fresh "r" in intros r; destruct r; reflexivity.
