(* ===== verification/Text.v ===== *)
(** * Go strings and the package [internal/validation]

    A Go string is a sequence of bytes, here a [string] of 8-bit characters.
    This file decodes UTF-8 the way [unicode/utf8] does, defines the functions of
    [strings] the program uses and models [validation.Identifier],
    [validation.TextWithin] and [validation.RequiredText]. *)
From S2P Require Import Prelude.
From Stdlib Require Import Ascii.

(** ** UTF-8 decoding ([unicode/utf8]) *)

Definition byteZ (c : ascii) : Z := Z.of_N (N_of_ascii c).

Definition RuneError : Z := 65533.

Definition in_range (lo hi z : Z) : bool := ((lo <=? z) && (z <=? hi))%bool.

(** Number of bytes announced by a first byte; 0 for a byte that starts no rune. *)
Definition utf8_need (b0 : Z) : nat :=
  if b0 <? 128 then 1
  else if in_range 194 223 b0 then 2
  else if in_range 224 239 b0 then 3
  else if in_range 240 244 b0 then 4
  else 0.

Definition utf8_cont (b : Z) : bool := in_range 128 191 b.

(** The second byte is restricted after E0, ED, F0 and F4 (no overlong forms,
    surrogates or code points beyond U+10FFFF). *)
Definition utf8_second (b0 b1 : Z) : bool :=
  if b0 =? 224 then in_range 160 191 b1
  else if b0 =? 237 then in_range 128 159 b1
  else if b0 =? 240 then in_range 144 191 b1
  else if b0 =? 244 then in_range 128 143 b1
  else utf8_cont b1.

(** One decoded step: the rune, whether it is a valid encoding, and its bytes. *)
Record chunk : Type := Chunk { rune : Z; valid : bool; raw : string }.

Definition decode1 (s : string) : option (chunk * string) :=
  match s with
  | EmptyString => None
  | String c0 s0 =>
    let b0 := byteZ c0 in
    let bad := Some (Chunk RuneError false (String c0 EmptyString), s0) in
    match utf8_need b0, s0 with
    | 1%nat, _ => Some (Chunk b0 true (String c0 EmptyString), s0)
    | 2%nat, String c1 s1 =>
      if utf8_second b0 (byteZ c1)
      then Some (Chunk (b0 mod 32 * 64 + byteZ c1 mod 64) true
                   (String c0 (String c1 EmptyString)), s1)
      else bad
    | 3%nat, String c1 (String c2 s2) =>
      if (utf8_second b0 (byteZ c1) && utf8_cont (byteZ c2))%bool
      then Some (Chunk (b0 mod 16 * 4096 + byteZ c1 mod 64 * 64 + byteZ c2 mod 64) true
                   (String c0 (String c1 (String c2 EmptyString))), s2)
      else bad
    | 4%nat, String c1 (String c2 (String c3 s3)) =>
      if (utf8_second b0 (byteZ c1) && utf8_cont (byteZ c2) && utf8_cont (byteZ c3))%bool
      then Some (Chunk (b0 mod 8 * 262144 + byteZ c1 mod 64 * 4096 + byteZ c2 mod 64 * 64
                        + byteZ c3 mod 64) true
                   (String c0 (String c1 (String c2 (String c3 EmptyString)))), s3)
      else bad
    | _, _ => bad
    end
  end.

Fixpoint decode_fuel (fuel : nat) (s : string) : list chunk :=
  match fuel with
  | O => []
  | S fuel => match decode1 s with
              | None => []
              | Some (c, s') => c :: decode_fuel fuel s'
              end
  end.

(** Every step consumes at least one byte, so the length is enough fuel. *)
Definition decode (s : string) : list chunk := decode_fuel (String.length s) s.

Fixpoint encode (cs : list chunk) : string :=
  match cs with
  | [] => EmptyString
  | c :: cs => raw c +:+ encode cs
  end.

(** ** [strings] and [utf8] functions *)

Definition RuneCountInString (s : string) : Z := Z.of_nat (length (decode s)).

Definition ValidString (s : string) : bool := forallb valid (decode s).

Fixpoint ContainsByte (b : ascii) (s : string) : bool :=
  match s with
  | EmptyString => false
  | String c s => ((c ==? b) || ContainsByte b s)%bool
  end.

Definition len (s : string) : Z := Z.of_nat (String.length s).

(** [unicode.IsSpace]. *)
Definition IsSpace (r : Z) : bool :=
  (in_range 9 13 r || (r =? 32) || (r =? 133) || (r =? 160) || (r =? 5760)
   || in_range 8192 8202 r || (r =? 8232) || (r =? 8233) || (r =? 8239) || (r =? 8287)
   || (r =? 12288))%bool.

Fixpoint drop_while {A} (f : A → bool) (l : list A) : list A :=
  match l with
  | [] => []
  | x :: l' => if f x then drop_while f l' else l
  end.

Definition trim_chunks (cs : list chunk) : list chunk :=
  reverse (drop_while (λ c, IsSpace (rune c)) (reverse (drop_while (λ c, IsSpace (rune c)) cs))).

Definition TrimSpace (s : string) : string := encode (trim_chunks (decode s)).

Fixpoint HasPrefix (s prefix : string) : bool :=
  match prefix, s with
  | EmptyString, _ => true
  | String p prefix, String c s => ((c ==? p) && HasPrefix s prefix)%bool
  | _, EmptyString => false
  end.

(** ** [internal/validation/identifier.go], [internal/validation/text.go] *)

Definition MaxIdentifierBytes : Z := 255.

Definition NUL : ascii := Ascii.zero.

Definition Identifier (value : string) : bool :=
  ((len value <=? MaxIdentifierBytes) && (TrimSpace value !=? "") && ValidString value
   && negb (ContainsByte NUL value))%bool.

Definition TextWithin (value : string) (maxRunes : Z) : bool :=
  (ValidString value && (0 <=? maxRunes) && (RuneCountInString value <=? maxRunes)
   && negb (ContainsByte NUL value))%bool.

Definition RequiredText (value : string) (maxRunes : Z) : string * bool :=
  let value := TrimSpace value in
  (value, ((value !=? "") && TextWithin value maxRunes)%bool).

Example Identifier_ok : Identifier "中 a" = true.
Proof. vm_compute. reflexivity. Qed.
Example RequiredText_trims : RequiredText (String "227" (String "128" (String "128" " hé "))) 2 = ("hé", true).
Proof. vm_compute. reflexivity. Qed.

(** ** [url.PathEscape] *)

Definition hex_digit (v : Z) : ascii := ascii_of_N (Z.to_N (if v <? 10 then 48 + v else 55 + v)).

Definition path_segment_safe (b : Z) : bool :=
  (in_range 97 122 b || in_range 65 90 b || in_range 48 57 b
   || existsb (Z.eqb b) [45; 95; 46; 126; 36; 38; 43; 61; 58; 64])%bool.

Fixpoint PathEscape (s : string) : string :=
  match s with
  | EmptyString => EmptyString
  | String c s =>
    if path_segment_safe (byteZ c) then String c (PathEscape s)
    else String "%" (String (hex_digit (byteZ c / 16)) (String (hex_digit (byteZ c mod 16))
           (PathEscape s)))
  end.

(** ** Facts about decoding *)

Lemma app_assoc_str (a b c : string) : (a +:+ b) +:+ c = a +:+ (b +:+ c).
Proof. induction a as [|x a IH]; [done|]. exact (f_equal (String x) IH). Qed.

Lemma app_nil_str (a : string) : a +:+ "" = a.
Proof. induction a as [|x a IH]; [done|]. exact (f_equal (String x) IH). Qed.

Lemma length_app_str (a b : string) : String.length (a +:+ b) = (String.length a + String.length b)%nat.
Proof. induction a as [|x a IH]; [done|]. exact (f_equal S IH). Qed.

Lemma ContainsByte_app b s t : ContainsByte b (s +:+ t) = (ContainsByte b s || ContainsByte b t)%bool.
Proof. induction s as [|c s IH]; [done|]. simpl. rewrite <-orb_assoc. exact (f_equal _ IH). Qed.

Lemma decode1_raw s c s' :
  decode1 s = Some (c, s') → s = raw c +:+ s' ∧ (1 ≤ String.length (raw c) ≤ 4)%nat.
Proof.
  intros H. unfold decode1 in H. split_matches_in H; simpl; split; done || lia.
Qed.

Lemma decode1_None s : decode1 s = None → s = "".
Proof. intros H. unfold decode1 in H. by split_matches_in H. Qed.

(** Decoding a rune looks only at bytes that stay in place when the string is cut
    after that rune or later. *)
Lemma decode1_cut c p t :
  decode1 (raw c +:+ (p +:+ t)) = Some (c, p +:+ t) → decode1 (raw c +:+ p) = Some (c, p).
Proof.
  destruct c as [r v w]; simpl. destruct w as [|c0 w]; simpl.
  { intros H. apply decode1_raw in H as [_ H]. simpl in H. lia. }
  unfold decode1.
  destruct (utf8_need (byteZ c0)) as [|[|[|[|[|n]]]]] eqn:En; simpl.
  all: destruct w as [|c1 w]; simpl; try (intros H; by simplify_eq).
  all: try (destruct p as [|d1 p]; simpl; try (intros H; by simplify_eq)).
  all: try (destruct w as [|c2 w]; simpl).
  all: try (destruct p as [|d2 p]; simpl).
  all: try (destruct w as [|c3 w]; simpl).
  all: try (destruct p as [|d3 p]; simpl).
  all: intros H; split_matches_in H; simplify_eq/=; try done.
Qed.

Lemma decode_fuel_enough n s : (String.length s ≤ n)%nat → decode_fuel n s = decode s.
Proof.
  unfold decode. remember (String.length s) as m eqn:Em.
  assert (String.length s ≤ m)%nat as Hm by lia. clear Em.
  revert n s Hm. induction m as [|m IH]; intros n s Hm Hn.
  - destruct s; [by destruct n|simpl in Hm; lia].
  - destruct n as [|n]; [lia|]. simpl. destruct (decode1 s) as [[c s']|] eqn:E; [|done].
    apply decode1_raw in E as [-> ?]. rewrite length_app_str in Hm.
    f_equal. apply IH; lia.
Qed.

Lemma decode_step s c s' : decode1 s = Some (c, s') → decode s = c :: decode s'.
Proof.
  intros E. pose proof (decode1_raw _ _ _ E) as [Hs ?].
  unfold decode at 1. destruct (String.length s) as [|n] eqn:En; [by destruct s|].
  cbn [decode_fuel]. rewrite E. f_equal. apply decode_fuel_enough.
  apply (f_equal String.length) in Hs. rewrite length_app_str in Hs. simpl in Hs. lia.
Qed.

(** Induction along the decoded runes. *)
Lemma decode_ind (P : string → Prop) :
  P "" → (∀ s c s', decode1 s = Some (c, s') → decode s = c :: decode s' → P s' → P s) → ∀ s, P s.
Proof.
  intros Hnil Hstep s. remember (String.length s) as n eqn:En.
  revert s En. induction (lt_wf n) as [n _ IH]. intros s ->.
  destruct (decode1 s) as [[c s']|] eqn:E.
  - apply (Hstep s c s'); [done|by apply decode_step|]. eapply IH; [|done].
    pose proof (decode1_raw _ _ _ E) as [-> ?]. rewrite length_app_str. lia.
  - apply decode1_None in E. by subst.
Qed.

Lemma encode_app l1 l2 : encode (l1 ++ l2) = encode l1 +:+ encode l2.
Proof. induction l1 as [|c l1 IH]; simpl; [done|]. by rewrite IH, app_assoc_str. Qed.

Lemma encode_decode s : encode (decode s) = s.
Proof.
  induction s as [|s c s' E Ed IH] using decode_ind; [done|].
  rewrite Ed. simpl. rewrite IH. symmetry. apply (decode1_raw _ _ _ E).
Qed.

(** Cutting a string between two of its runes does not change how its parts decode. *)
Lemma decode_split s l1 l2 :
  decode s = l1 ++ l2 → decode (encode l1) = l1 ∧ decode (encode l2) = l2.
Proof.
  revert l1. induction s as [|s c s' E Ed IH] using decode_ind; intros l1 H.
  - destruct l1; [|done]. by destruct l2.
  - destruct l1 as [|c1 l1]; simpl in *.
    + rewrite <-H, encode_decode. done.
    + rewrite Ed in H. injection H as -> H. destruct (IH _ H) as [H1 H2]. split; [|done].
      pose proof (decode1_raw _ _ _ E) as [Hs _].
      rewrite <-(encode_decode s'), H, encode_app in Hs, E.
      rewrite Hs in E. apply decode1_cut in E.
      rewrite (decode_step _ _ _ E). by rewrite H1.
Qed.

(** ** Trimming *)

Lemma drop_while_split {A} (f : A → bool) l :
  ∃ pre, l = pre ++ drop_while f l ∧ Forall (λ x, f x = true) pre.
Proof.
  induction l as [|x l (pre & IH & Hpre)]; simpl; [by exists []|].
  destruct (f x) eqn:E; [|by exists []].
  exists (x :: pre). split; [by rewrite IH at 1|by constructor].
Qed.

Lemma drop_while_head {A} (f : A → bool) l x l' : drop_while f l = x :: l' → f x = false.
Proof.
  induction l as [|y l IH]; simpl; [done|]. destruct (f y) eqn:E; [done|].
  intros; by simplify_eq.
Qed.

Lemma drop_while_id {A} (f : A → bool) l :
  (∀ x l', l = x :: l' → f x = false) → drop_while f l = l.
Proof. destruct l as [|x l]; simpl; [done|]. intros H. by rewrite (H x l). Qed.

Lemma trim_chunks_split cs :
  ∃ pre post, cs = pre ++ trim_chunks cs ++ post
    ∧ Forall (λ c, IsSpace (rune c) = true) pre ∧ Forall (λ c, IsSpace (rune c) = true) post.
Proof.
  unfold trim_chunks. set (f := λ c, IsSpace (rune c)).
  destruct (drop_while_split f cs) as (pre & Hpre & Fpre).
  set (d := drop_while f cs) in *.
  destruct (drop_while_split f (reverse d)) as (post & Hpost & Fpost).
  exists pre, (reverse post). split; [|split; [done|by apply Forall_reverse]].
  rewrite <-reverse_app, <-Hpost, reverse_involutive. done.
Qed.

Lemma trim_chunks_idemp cs : trim_chunks (trim_chunks cs) = trim_chunks cs.
Proof.
  set (f := λ c, IsSpace (rune c)).
  assert (∀ c l, trim_chunks cs = c :: l → f c = false) as Hhd.
  { intros c l H. unfold trim_chunks in H. fold f in H.
    destruct (drop_while_split f (reverse (drop_while f cs))) as (post & Hp & _).
    apply (f_equal reverse) in Hp. rewrite reverse_involutive, reverse_app, H in Hp.
    by apply drop_while_head in Hp. }
  unfold trim_chunks at 1. fold f. rewrite (drop_while_id f (trim_chunks cs)) by done.
  unfold trim_chunks at 1. fold f. rewrite reverse_involutive.
  rewrite drop_while_id; [done|]. intros c l H. by apply drop_while_head in H.
Qed.

Lemma decode_TrimSpace s : decode (TrimSpace s) = trim_chunks (decode s).
Proof.
  unfold TrimSpace. destruct (trim_chunks_split (decode s)) as (pre & post & H & _ & _).
  apply decode_split in H as [_ H].
  destruct (decode_split (encode (trim_chunks (decode s) ++ post)) _ post H) as [H' _]. done.
Qed.

Lemma TrimSpace_idemp s : TrimSpace (TrimSpace s) = TrimSpace s.
Proof. unfold TrimSpace at 1. by rewrite decode_TrimSpace, trim_chunks_idemp. Qed.

Lemma TrimSpace_infix s : ∃ a b, s = a +:+ TrimSpace s +:+ b.
Proof.
  destruct (trim_chunks_split (decode s)) as (pre & post & H & _ & _).
  exists (encode pre), (encode post). unfold TrimSpace.
  rewrite <-(encode_decode s) at 1. rewrite H at 1.
  by rewrite !encode_app.
Qed.

Lemma len_TrimSpace s : len (TrimSpace s) ≤ len s.
Proof.
  destruct (TrimSpace_infix s) as (a & b & H). unfold len.
  rewrite H at 2. rewrite !length_app_str. lia.
Qed.

Lemma ValidString_TrimSpace s : ValidString s = true → ValidString (TrimSpace s) = true.
Proof.
  unfold ValidString. rewrite decode_TrimSpace.
  destruct (trim_chunks_split (decode s)) as (pre & post & H & _ & _).
  rewrite H at 1. rewrite !forallb_app. intros. by bool_to_prop.
Qed.

(** A text accepted by [TextWithin] fits in four bytes per rune. *)
Lemma len_le_runes s : len s ≤ 4 * RuneCountInString s.
Proof.
  unfold len, RuneCountInString.
  induction s as [|s c s' E Ed IH] using decode_ind; [simpl; lia|].
  rewrite Ed. pose proof (decode1_raw _ _ _ E) as [-> ?].
  rewrite length_app_str, length_cons. lia.
Qed.

(** A rune takes at least a byte. *)
Lemma runes_le_len s : RuneCountInString s ≤ len s.
Proof.
  unfold len, RuneCountInString.
  induction s as [|s c s' E Ed IH] using decode_ind; [simpl; lia|].
  rewrite Ed. pose proof (decode1_raw _ _ _ E) as [-> ?].
  rewrite length_app_str, length_cons. lia.
Qed.

Lemma Identifier_runes s : Identifier s = true → 1 ≤ RuneCountInString s ≤ 255.
Proof.
  unfold Identifier, MaxIdentifierBytes. intros H. bool_to_prop.
  pose proof (runes_le_len s). split; [|lia]. destruct s as [|c s]; [done|].
  pose proof (len_le_runes (String c s)) as Hl. unfold len in Hl. simpl String.length in Hl. lia.
Qed.

(** what [RequiredText] accepts is in normal form. *)
Lemma RequiredText_normal value maxRunes t :
  RequiredText value maxRunes = (t, true) →
  RequiredText t maxRunes = (t, true) ∧ t ≠ "" ∧ TextWithin t maxRunes = true
  ∧ 1 ≤ len t ≤ 4 * maxRunes.
Proof.
  unfold RequiredText. intros H. injection H as <- H. bool_to_prop.
  rewrite TrimSpace_idemp. split_and!; try done.
  - rewrite H0. by rewrite bool_decide_eq_false_2.
  - unfold len. destruct (TrimSpace value); [done|simpl; lia].
  - pose proof (len_le_runes (TrimSpace value)). unfold TextWithin in H0. bool_to_prop. lia.
Qed.
