(* ===== verification/GoErrors.v ===== *)
(** * Go error values and the package [internal/apperror]

    Error values of the program as a tree ([error]), [errors.Is] and [errors.As]
    as searches of the tree in Go's order, and the business errors, retry delays
    and diagnostic attributes of [internal/apperror]. *)
From S2P Require Import Prelude.
From S2P Require Import Text.
From Stdlib Require Import Ascii.

(** ** Business errors: [internal/apperror/error.go] *)

(** [Kind] is an open [uint8]: besides the seven constants any other code may occur. *)
Inductive Kind : Type :=
| NotFound | Conflict | Invalid | Unauthenticated | Unavailable | Forbidden | RateLimited
| OtherKind (code : Z).

(** [*Error] values are compared by pointer; the program's business errors are
    package variables with pairwise distinct contents, so the contents identify them. *)
Record Error : Type := New { Error_Kind : Kind; Error_message : string }.

Global Instance Kind_eq_dec : EqDecision Kind.
Proof. solve_decision. Defined.
Global Instance Error_eq_dec : EqDecision Error.
Proof. solve_decision. Defined.

Definition ErrUnauthenticated : Error := New Unauthenticated "authenticated subject required".

(** Error variables of the standard library, of pgx and of the program that are
    compared with [errors.Is]. *)
Inductive sentinel : Type :=
| ContextCanceled | ContextDeadlineExceeded | IoEOF | IoErrUnexpectedEOF | PgxErrNoRows
| IdentityErrUnauthorized | IdentityErrUnavailable | IdentityErrInvalidSubject
| PaginationErrInvalid
| FederationErrProof | FederationErrUnavailable
| LockerErrInvalidKey | LockerErrInvalidTask | LockerErrReentrant
| LockerErrUnavailable | LockerErrLockLost | LockerErrRelease
| HttpErrServerClosed.

Global Instance sentinel_eq_dec : EqDecision sentinel.
Proof. solve_decision. Defined.

(** ** Error values *)

Inductive error : Type :=
| EBusiness (e : Error)                      (* *apperror.Error *)
| ESentinel (s : sentinel)                   (* a package variable made by errors.New *)
| EPg (Code ConstraintName : string)         (* *pgconn.PgError *)
| ENet (timeout : bool)                      (* a net.Error *)
| EStatus (status : Z) (detail : string)     (* huma.StatusError *)
| EHeaders (cause : error) (headers : list (string * string)) (* huma.ErrorWithHeaders *)
| ERetry (cause : error) (delay : Z)         (* *apperror.retryError *)
| EStage (stage messageID : string) (attempt : Z) (cause : error) (* *mailoutbox.stageError *)
| EMulti (text : string) (causes : list error) (* fmt.Errorf with %w, errors.Join *)
| EText (text : string).                     (* a fresh errors.New value *)

(** The nodes of the tree in the order in which [errors.Is] and [errors.As] visit
    them: the error itself, then each unwrapped error depth first. *)
Fixpoint chain (e : error) : list error :=
  e :: match e with
       | EHeaders c _ => chain c
       | ERetry c _ => chain c
       | EStage _ _ _ c => chain c
       | EMulti _ cs => flat_map chain cs
       | _ => []
       end.

Inductive target : Type :=
| TBusiness (e : Error)
| TSentinel (s : sentinel).

Definition matches (t : target) (e : error) : bool :=
  match t, e with
  | TBusiness b, EBusiness b' => b ==? b'
  | TSentinel s, ESentinel s' => s ==? s'
  | _, _ => false
  end.

(** [errors.Is(err, target)] for a non-nil [err]. *)
Definition Is (e : error) (t : target) : bool := existsb (matches t) (chain e).

(** [errors.As] with the type test [f]. *)
Definition As {A} (f : error → option A) (e : error) : option A := find_map f (chain e).

Definition asBusiness (e : error) : option Error :=
  match e with EBusiness b => Some b | _ => None end.

Definition asPgError (e : error) : option (string * string) :=
  match e with EPg code constraint => Some (code, constraint) | _ => None end.

(** [context.DeadlineExceeded] also implements [net.Error], with [Timeout() = true]. *)
Definition asNetError (e : error) : option bool :=
  match e with
  | ENet timeout => Some timeout
  | ESentinel ContextDeadlineExceeded => Some true
  | _ => None
  end.

Definition asRetry (e : error) : option Z :=
  match e with ERetry _ delay => Some delay | _ => None end.

Definition asStage (e : error) : option error :=
  match e with EStage _ _ _ _ => Some e | _ => None end.

Definition asHeaders (e : error) : option (list (string * string)) :=
  match e with EHeaders _ headers => Some headers | _ => None end.

Definition asStatusError (e : error) : option error :=
  match e with EStatus _ _ => Some e | _ => None end.

Definition business (b : Error) : error := EBusiness b.

(** ** Error texts and [errors.Join] *)

Definition sentinel_text (s : sentinel) : string :=
  match s with
  | ContextCanceled => "context canceled"
  | ContextDeadlineExceeded => "context deadline exceeded"
  | IoEOF => "EOF"
  | IoErrUnexpectedEOF => "unexpected EOF"
  | PgxErrNoRows => "no rows in result set"
  | IdentityErrUnauthorized => "invalid bearer token"
  | IdentityErrUnavailable => "authentication service unavailable"
  | IdentityErrInvalidSubject => "subject must contain 1-255 bytes and not be blank"
  | PaginationErrInvalid => "invalid pagination parameters"
  | FederationErrProof => "第三方证明无效"
  | FederationErrUnavailable => "第三方服务不可用"
  | LockerErrInvalidKey => "锁名称无效"
  | LockerErrInvalidTask => "锁回调不能为空"
  | LockerErrReentrant => "不支持锁重入"
  | LockerErrUnavailable => "锁服务不可用"
  | LockerErrLockLost => "锁持有权丢失或无法确认"
  | LockerErrRelease => "锁释放失败"
  | HttpErrServerClosed => "http: Server closed"
  end.

(** [err.Error()]; the texts of the driver and of the network are left out. *)
Fixpoint error_text (e : error) : string :=
  match e with
  | EBusiness b => Error_message b
  | ESentinel s => sentinel_text s
  | EPg _ _ | ENet _ => ""
  | EStatus _ detail => detail
  | EHeaders c _ => error_text c
  | ERetry c _ => error_text c
  | EStage stage _ _ _ => "邮件队列在 " +:+ stage +:+ " 阶段失败"
  | EMulti text _ => text
  | EText text => text
  end.

(** nil when all errors are nil, else an error with a line and a child for each. *)
Definition Join (errors : list (option error)) : option error :=
  match omap id errors with
  | [] => None
  | es => Some (EMulti (String.concat (String "010" "") (map error_text es)) es)
  end.

(** ** [internal/apperror] *)

(** [Wrap] keeps the identity of the business error and the cause below it. *)
Definition Wrap (business : option Error) (cause : option error) : option error :=
  match business with
  | None => cause
  | Some b =>
    match cause with
    | None => Some (EBusiness b)
    | Some c => Some (EMulti (Error_message b) [EBusiness b; c])
    end
  end.

(** A [time.Duration] is a number of nanoseconds. *)
Definition Second : Z := 1000000000.
Definition Millisecond : Z := 1000000.
Definition Minute : Z := 60 * Second.
Definition Hour : Z := 60 * Minute.

Definition WithRetryAfter (err : option error) (delay : Z) : option error :=
  match err with
  | None => None
  | Some e =>
    let delay := if delay <? Second then Second else delay in
    Some (ERetry e delay)
  end.

Definition RetryAfter (err : error) : Z * bool :=
  match As asRetry err with
  | None => (0, false)
  | Some delay => (delay, true)
  end.

Definition validSQLState (code : string) : bool :=
  let sqlStateBytes := 5 in
  if negb (len code =? sqlStateBytes) then false
  else forallb (λ c, negb (((rune c <? 48) || (57 <? rune c))
                           && ((rune c <? 65) || (90 <? rune c)))%bool) (decode code).

Definition kind_reason (k : Kind) : string :=
  match k with
  | NotFound => "not_found"
  | Conflict => "conflict"
  | Invalid => "invalid_input"
  | Unauthenticated => "unauthenticated"
  | Unavailable => "dependency_unavailable"
  | Forbidden => "forbidden"
  | RateLimited => "rate_limited"
  | OtherKind _ => "internal_error"
  end.

Definition DiagnosticAttrs (err : option error) : list (string * string) :=
  match err with
  | None => []
  | Some e =>
    let '(reason, sqlState) :=
      if Is e (TSentinel ContextCanceled) then ("canceled", "")
      else if Is e (TSentinel ContextDeadlineExceeded) then ("deadline_exceeded", "")
      else match As asPgError e with
      | Some (code, _) => ("database_error", if validSQLState code then code else "")
      | None =>
        match As asNetError e with
        | Some timeout => (if timeout then "network_timeout" else "network_error", "")
        | None =>
          if (Is e (TSentinel IoEOF) || Is e (TSentinel IoErrUnexpectedEOF))%bool
          then ("connection_closed", "")
          else match As asBusiness e with
          | Some b => (kind_reason (Error_Kind b), "")
          | None => ("internal_error", "")
          end
        end
      end in
    ("reason_code", reason) ::
      (if sqlState !=? "" then [("sqlstate", sqlState)] else [])
  end.

(** ** Facts *)

Lemma Is_self_business b : Is (EBusiness b) (TBusiness b) = true.
Proof. unfold Is. simpl. by rewrite bool_decide_eq_true_2. Qed.

Lemma Is_self_sentinel s : Is (ESentinel s) (TSentinel s) = true.
Proof. unfold Is. simpl. by rewrite bool_decide_eq_true_2. Qed.

Lemma Is_multi text es t : Is (EMulti text es) t = existsb (λ e, Is e t) es.
Proof.
  unfold Is. simpl. destruct t; simpl; induction es as [|e1 es IH]; simpl; try done;
    by rewrite existsb_app, IH.
Qed.

Lemma Is_retry e d t : Is (ERetry e d) t = Is e t.
Proof. unfold Is. by destruct t. Qed.

Lemma Is_stage st id n e t : Is (EStage st id n e) t = Is e t.
Proof. unfold Is. by destruct t. Qed.

Lemma As_multi {A} (f : error → option A) text es :
  f (EMulti text es) = None → As f (EMulti text es) = find_map (As f) es.
Proof.
  unfold As. intros H. simpl. rewrite H. clear H. induction es as [|e1 es IH]; simpl; [done|].
  rewrite find_map_app, IH. done.
Qed.

Lemma Join_None es : Join es = None ↔ Forall (λ e, e = None) es.
Proof.
  unfold Join. induction es as [|[e|] es IH]; simpl; [by split| |].
  - split; [done|]. by intros [? _]%Forall_cons.
  - rewrite Forall_cons. rewrite IH. naive_solver.
Qed.

Lemma Join_Some es err : Join es = Some err →
  ∀ t, Is err t = true ↔ ∃ e, Some e ∈ es ∧ Is e t = true.
Proof.
  unfold Join. intros H t. assert (He : ∃ text, err = EMulti text (omap id es)).
  { destruct (omap id es); [done|]. injection H as <-. eauto. }
  destruct He as [text ->]. rewrite Is_multi, existsb_exists. clear H.
  split; intros (e & He & Ht); exists e; (split; [|done]).
  - apply list_elem_of_In, list_elem_of_omap in He as (x & Hx & Hid). simpl in Hid. by subst x.
  - apply list_elem_of_In, list_elem_of_omap. eauto.
Qed.

#[export] Hint Rewrite Is_self_business Is_self_sentinel Is_multi Is_retry Is_stage : go.

Lemma WithRetryAfter_delay e d :
  ∃ e', WithRetryAfter (Some e) d = Some e'
    ∧ RetryAfter e' = (Z.max Second d, true)
    ∧ (∀ t, Is e' t = Is e t) ∧ As asBusiness e' = As asBusiness e.
Proof.
  eexists. split; [done|]. split_and!.
  - unfold RetryAfter, As. simpl. f_equal.
    destruct (Z.ltb_spec d Second); lia.
  - intros t. apply Is_retry.
  - done.
Qed.

Lemma validSQLState_spec code : validSQLState code = true →
  String.length code = 5%nat
  ∧ Forall (λ c, 48 ≤ rune c ≤ 57 ∨ 65 ≤ rune c ≤ 90) (decode code).
Proof.
  unfold validSQLState. destruct (len code =? 5) eqn:E; simpl; [|done].
  intros H. split; [unfold len in E; lia|].
  apply Forall_forall. intros c Hc%list_elem_of_In.
  rewrite forallb_forall in H. specialize (H c Hc). simpl in H. lia.
Qed.

Definition reason_codes : list string :=
  ["canceled"; "deadline_exceeded"; "database_error"; "network_timeout"; "network_error";
   "connection_closed"; "not_found"; "conflict"; "invalid_input"; "unauthenticated";
   "dependency_unavailable"; "forbidden"; "rate_limited"; "internal_error"].

(** Whatever the error contains, only a fixed word and a well-formed SQLSTATE leave it. *)
Lemma DiagnosticAttrs_closed e :
  ∃ reason, reason ∈ reason_codes
    ∧ (DiagnosticAttrs (Some e) = [("reason_code", reason)]
       ∨ ∃ code, DiagnosticAttrs (Some e) = [("reason_code", reason); ("sqlstate", code)]
                 ∧ reason = "database_error" ∧ validSQLState code = true).
Proof.
  unfold DiagnosticAttrs. unfold reason_codes.
  destruct (Is e (TSentinel ContextCanceled)); [eexists; split; [|by left]; set_solver|].
  destruct (Is e (TSentinel ContextDeadlineExceeded)); [eexists; split; [|by left]; set_solver|].
  destruct (As asPgError e) as [[code ?]|].
  - destruct (validSQLState code) eqn:E; [|eexists; split; [|by left]; set_solver].
    exists "database_error". split; [set_solver|]. right. exists code. split_and!; try done.
    destruct (decide (code = "")) as [->|Hne]; [done|]. by rewrite bool_decide_eq_false_2.
  - destruct (As asNetError e) as [[]|]; [eexists; split; [|by left]; set_solver..|].
    destruct (_ || _)%bool; [eexists; split; [|by left]; set_solver|].
    destruct (As asBusiness e) as [b|]; [|eexists; split; [|by left]; set_solver].
    destruct (Error_Kind b); (eexists; split; [|by left]; set_solver).
Qed.
