(* ===== verification/Runtime.v ===== *)
(** * The environment of the program: randomness, hashing, mail addresses, collation

    The functions the program takes from code that is not in the repository, as one
    record of operations ([Runtime]) and the documented behaviour the theorems rely
    on ([RuntimeLaws]). [Examples] has a concrete runtime in which witnesses are
    evaluated. *)
From S2P Require Import Prelude.
From S2P Require Import Text.
From Stdlib Require Import Ascii.

(** [uuid_NewString n], [rand_Read n k] and [rand_IntN n m] are the values drawn at the [n]-th step of the
    program, so two draws are independent when they happen at different steps. *)
Class Runtime := {
  sha256_Sum256 : string → string;
  mail_ParseAddress : string → option string;   (* the address part, when parsing succeeds *)
  unicode_ToLower : Z → Z;                       (* used beyond ASCII only *)
  uuid_NewString : nat → string;
  rand_Read : nat → nat → string;
  rand_IntN : nat → Z → Z;
  (* the text of a parsed URL with its path replaced, no query and a fragment *)
  url_Link : string → string → string → option string;
  collate_le : string → string → bool            (* the database's order on text *)
}.

Class RuntimeLaws (R : Runtime) := {
  sha256_Size s : String.length (sha256_Sum256 s) = 32%nat;
  rand_IntN_bounds n m : 0 < m → 0 ≤ rand_IntN n m < m;
  rand_Read_length n k : String.length (rand_Read n k) = k;
  uuid_Identifier n : Identifier (uuid_NewString n) = true;
  collate_total s t : collate_le s t = true ∨ collate_le t s = true;
  collate_trans s t u : collate_le s t = true → collate_le t u = true → collate_le s u = true;
  collate_antisym s t : collate_le s t = true → collate_le t s = true → s = t;
}.

(** ** [strings.ToLower] *)

Definition byte_ascii (z : Z) : ascii := ascii_of_N (Z.to_N z).

(** [utf8.AppendRune]. *)
Definition encode_rune (r : Z) : string :=
  let c z := byte_ascii z in
  if in_range 0 127 r then String (c r) ""
  else if in_range 128 2047 r then String (c (192 + r / 64)) (String (c (128 + r mod 64)) "")
  else if (in_range 55296 57343 r || (r <? 0) || (1114111 <? r))%bool
       then String (c 239) (String (c 191) (String (c 189) ""))
  else if r <? 65536
       then String (c (224 + r / 4096)) (String (c (128 + r / 64 mod 64))
              (String (c (128 + r mod 64)) ""))
  else String (c (240 + r / 262144)) (String (c (128 + r / 4096 mod 64))
         (String (c (128 + r / 64 mod 64)) (String (c (128 + r mod 64)) ""))).

Definition rune_lower `{Runtime} (r : Z) : Z :=
  if r <? 128 then (if in_range 65 90 r then r + 32 else r) else unicode_ToLower r.

Definition ToLower `{Runtime} (s : string) : string :=
  String.concat "" (map (λ c, encode_rune (rune_lower (rune c))) (decode s)).

(** ** [internal/validation/email.go] *)

Definition Email `{Runtime} (value : string) : bool :=
  if ((value ==? "") || negb (ValidString value)
      || ContainsByte "013" value || ContainsByte "010" value || ContainsByte NUL value)%bool
  then false
  else match mail_ParseAddress value with
       | Some address => ((address ==? value) && ContainsByte "@" value)%bool
       | None => false
       end.
