(* ===== verification/Pagination.v ===== *)
(** * [internal/pagination]: bounded offset pagination *)
From S2P Require Import Prelude.
From S2P Require Import Text.
From S2P Require Import GoErrors.

(** Go's conversion to [int32]. *)
Definition int32 (z : Z) : Z := (z + 2147483648) mod 4294967296 - 2147483648.

Lemma int32_id z : -2147483648 ≤ z < 2147483648 → int32 z = z.
Proof. unfold int32. intros. rewrite Z.mod_small; lia. Qed.

Definition DefaultLimit : Z := 20.
Definition MaxLimit : Z := 100.
Definition MaxOffset : Z := 10000.

Record Params : Type := { Limit : Z; Offset : Z }.

Definition Params_Validate (p : Params) : option error :=
  if ((Limit p <? 1) || (MaxLimit <? Limit p) || (Offset p <? 0) || (MaxOffset <? Offset p))%bool
  then Some (ESentinel PaginationErrInvalid)
  else None.

(** One row more than the page holds is fetched to learn whether another page follows. *)
Definition FetchLimit (p : Params) : Z := int32 (Limit p + 1).

Record Result (T : Type) : Type :=
  { Items : list T; HasMore : bool; Result_Limit : Z; Result_Offset : Z }.
Arguments Items {T}.
Arguments HasMore {T}.
Arguments Result_Limit {T}.
Arguments Result_Offset {T}.

(** [Map] converts the items and keeps the paging metadata. *)
Definition Map {S T} (result : Result S) (convert : S → T) : Result T :=
  {| Items := convert <$> Items result; HasMore := HasMore result;
     Result_Limit := Result_Limit result; Result_Offset := Result_Offset result |}.

Definition Build {S T} (rows : list S) (params : Params) (convert : S → T)
    : res error (Result T) :=
  match Params_Validate params with
  | Some err => Err err
  | None =>
    let more := Limit params <? Z.of_nat (length rows) in
    let rows := if more then take (Z.to_nat (Limit params)) rows else rows in
    Ok (Map {| Items := rows; HasMore := more; Result_Limit := Limit params;
               Result_Offset := Offset params |} convert)
  end.

(** ** What a page query returns *)

(** [LIMIT l OFFSET o] over rows in their final order. *)
Definition limit_offset {S} (l o : Z) (rows : list S) : list S :=
  take (Z.to_nat l) (drop (Z.to_nat o) rows).

Definition params_ok (p : Params) : Prop :=
  1 ≤ Limit p ≤ MaxLimit ∧ 0 ≤ Offset p ≤ MaxOffset.

Lemma Params_Validate_None p : Params_Validate p = None ↔ params_ok p.
Proof.
  unfold Params_Validate, params_ok, MaxLimit, MaxOffset.
  destruct (_ || _)%bool eqn:E; split; intros; try done; lia.
Qed.

Lemma FetchLimit_ok p : params_ok p → FetchLimit p = Limit p + 1 ∧ 2 ≤ FetchLimit p ≤ 101.
Proof. unfold params_ok, MaxLimit, FetchLimit. intros. rewrite int32_id; lia. Qed.

(** A page built from the rows fetched for it holds exactly the rows from [Offset] on,
    at most [Limit] of them, and [HasMore] tells whether any row is left after them. *)
Lemma Build_page {S T} (rows : list S) p (convert : S → T) : params_ok p →
  ∃ r, Build (limit_offset (FetchLimit p) (Offset p) rows) p convert = Ok r
    ∧ Items r = convert <$> limit_offset (Limit p) (Offset p) rows
    ∧ (HasMore r = true ↔ Offset p + Limit p < Z.of_nat (length rows))
    ∧ Result_Limit r = Limit p ∧ Result_Offset r = Offset p.
Proof.
  intros Hp. destruct (FetchLimit_ok p Hp) as [-> _].
  pose proof (proj2 (Params_Validate_None p) Hp) as Hv. destruct Hp as [Hl Ho].
  unfold Build, limit_offset. rewrite Hv. eexists. split; [done|]. simpl.
  rewrite length_take, length_drop.
  destruct (Z.ltb_spec (Limit p)
    (Z.of_nat (Z.to_nat (Limit p + 1) `min` (length rows - Z.to_nat (Offset p))))) as [H|H].
  - rewrite take_take. split_and!; try done; [|lia].
    f_equal. f_equal. lia.
  - split_and!; try done; [|lia].
    f_equal. rewrite !take_ge; rewrite ?length_drop; [done|lia..].
Qed.

(** ** Walking through all pages *)

(** A client that asks for page after page, stopping when [HasMore] is false or the
    service refuses the offset. *)
Fixpoint walk_pages {S T} (fuel : nat) (rows : list S) (p : Params) (convert : S → T) : list T :=
  match fuel with
  | O => []
  | Datatypes.S fuel =>
    match Build (limit_offset (FetchLimit p) (Offset p) rows) p convert with
    | Err _ => []
    | Ok r =>
      Items r ++ (if HasMore r
                  then walk_pages fuel rows {| Limit := Limit p; Offset := Offset p + Limit p |} convert
                  else [])
    end
  end.

(** While the rows do not change, the pages cover the rows once each and in order,
    as long as no page starts beyond [MaxOffset]. *)
Lemma walk_pages_all {S T} fuel (rows : list S) p (convert : S → T) :
  params_ok p → Z.of_nat (length rows) ≤ MaxOffset →
  Z.of_nat (length rows) < Z.of_nat fuel + Offset p →
  walk_pages fuel rows p convert = convert <$> drop (Z.to_nat (Offset p)) rows.
Proof.
  intros Hp Hlen. revert p Hp. induction fuel as [|fuel IH]; intros p Hp Hf; simpl.
  { rewrite drop_ge by lia. done. }
  destruct (Build_page rows p convert Hp) as (r & -> & -> & Hmore & _).
  unfold limit_offset. pose proof Hp as [Hl Ho]. destruct (HasMore r) eqn:E.
  - assert (Offset p + Limit p < Z.of_nat (length rows)) by by apply Hmore.
    rewrite IH; simpl; [|split; simpl; [done|lia]|lia].
    rewrite <-fmap_app. f_equal.
    rewrite Z2Nat.inj_add, <-drop_drop by lia. by rewrite take_drop.
  - assert (¬ Offset p + Limit p < Z.of_nat (length rows)) by by rewrite <-Hmore.
    rewrite app_nil_r, take_ge; [done|]. rewrite length_drop. lia.
Qed.
