(* ===== verification/Schema.v ===== *)
(** * The database: rows ([internal/db/sqlc/models.go]) and tables

    One record per row type and one [DB] record holding the ten tables of
    [internal/db/migrations/00001_init.sql]. Tables are finite maps from primary keys
    to rows. Timestamps are nanoseconds on an unbounded axis ([time]); [NULL] is [None];
    byte strings are [string]s. The two columns with JSON text, the metadata of
    [audit_events] and the protocol state of [auth_flows], carry JSON values. *)
From S2P Require Import Prelude.

Definition time : Type := Z.

(** JSON values. *)
Inductive json : Type :=
| JNull
| JString (s : string)
| JArray (items : list json)
| JObject (members : list (string * json)).

Record Project : Type := mkProject {
  Project_ID : string;
  Project_OwnerID : string;
  Project_Name : string;
  Project_Description : string;
  Project_CreatedAt : time;
  Project_UpdatedAt : time
}.

Record Task : Type := mkTask {
  Task_ID : string;
  Task_OwnerID : string;
  Task_Title : string;
  Task_Description : string;
  Task_Status : string;
  Task_CreatedAt : time;
  Task_UpdatedAt : time
}.

Record User : Type := mkUser {
  User_ID : string;
  User_DisplayName : string;
  User_Email : option string;
  User_EmailNormalized : option string;
  User_EmailVerifiedAt : option time;
  User_RecoveryEnabled : bool;
  User_Status : string;
  User_Role : string;
  User_AuthVersion : Z;
  User_CreatedAt : time;
  User_UpdatedAt : time
}.

Record Account : Type := mkAccount {
  Account_ID : string;
  Account_UserID : string;
  Account_ProviderID : string;
  Account_ProviderAccountID : string;
  Account_ProviderNamespace : string;
  Account_PasswordHash : option string;
  Account_Version : Z;
  Account_CreatedAt : time;
  Account_UpdatedAt : time;
  Account_LastUsedAt : option time;
  Account_RevokedAt : option time
}.

Record UserSession : Type := mkUserSession {
  UserSession_ID : string;
  UserSession_UserID : string;
  UserSession_TokenHash : string;
  UserSession_AuthMethod : string;
  UserSession_AuthSourceID : string;
  UserSession_AuthenticatedAt : time;
  UserSession_AuthVersion : Z;
  UserSession_CreatedAt : time;
  UserSession_LastSeenAt : time;
  UserSession_IdleExpiresAt : time;
  UserSession_AbsoluteExpiresAt : time;
  UserSession_RevokedAt : option time
}.

Record AuthFlow : Type := mkAuthFlow {
  AuthFlow_ID : string;
  AuthFlow_Purpose : string;
  AuthFlow_TokenHash : option string;
  AuthFlow_ProviderID : string;
  AuthFlow_ConfigVersion : string;
  AuthFlow_UserID : option string;
  AuthFlow_SessionID : option string;
  AuthFlow_AuthVersion : Z;
  AuthFlow_AccountID : option string;
  AuthFlow_AccountVersion : Z;
  AuthFlow_Operation : string;
  AuthFlow_Target : string;
  AuthFlow_ReauthenticationID : option string;
  AuthFlow_ClaimedBy : option string;
  AuthFlow_StateHash : option string;
  AuthFlow_ProtocolState : option json;
  AuthFlow_VerifiedNamespace : string;
  AuthFlow_VerifiedSubject : string;
  AuthFlow_VerifiedName : string;
  AuthFlow_AuthenticatedAt : option time;
  AuthFlow_Status : string;
  AuthFlow_CreatedAt : time;
  AuthFlow_ExpiresAt : time
}.

Record AuthVerification : Type := mkAuthVerification {
  AuthVerification_ID : string;
  AuthVerification_UserID : string;
  AuthVerification_Purpose : string;
  AuthVerification_TokenHash : string;
  AuthVerification_Email : string;
  AuthVerification_AuthVersion : Z;
  AuthVerification_SessionID : option string;
  AuthVerification_ReauthenticationID : option string;
  AuthVerification_CreatedAt : time;
  AuthVerification_ExpiresAt : time;
  AuthVerification_ConsumedAt : option time
}.

Record AuditEvent : Type := mkAuditEvent {
  AuditEvent_ID : string;
  AuditEvent_OccurredAt : time;
  AuditEvent_Action : string;
  AuditEvent_Outcome : string;
  AuditEvent_ActorType : string;
  AuditEvent_ActorID : option string;
  AuditEvent_ResourceType : string;
  AuditEvent_ResourceID : option string;
  AuditEvent_ScopeSubject : option string;
  AuditEvent_SessionID : option string;
  AuditEvent_RequestID : option string;
  AuditEvent_ReasonCode : option string;
  AuditEvent_Metadata : json
}.

Record AuthRateLimit : Type := mkAuthRateLimit {
  AuthRateLimit_Count : Z;
  AuthRateLimit_ExpiresAt : time
}.

Record MailOutbox : Type := mkMailOutbox {
  MailOutbox_ID : string;
  MailOutbox_Kind : string;
  MailOutbox_Recipient : string;
  MailOutbox_Subject : string;
  MailOutbox_Body : string;
  MailOutbox_Status : string;
  MailOutbox_Attempts : Z;
  MailOutbox_AvailableAt : time;
  MailOutbox_ExpiresAt : time;
  MailOutbox_LeaseID : option string;
  MailOutbox_LeasedUntil : option time;
  MailOutbox_LastError : option string;
  MailOutbox_CreatedAt : time;
  MailOutbox_CompletedAt : option time
}.

Global Instance eta_Project : Settable Project.
Proof.
  refine
  {| eta := λ r, mkProject (Project_ID r) (Project_OwnerID r) (Project_Name r)
      (Project_Description r) (Project_CreatedAt r) (Project_UpdatedAt r);
     eta_id := _ |}; solve_eta.
Defined.

Global Instance eta_Task : Settable Task.
Proof.
  refine
  {| eta := λ r, mkTask (Task_ID r) (Task_OwnerID r) (Task_Title r) (Task_Description r)
      (Task_Status r) (Task_CreatedAt r) (Task_UpdatedAt r);
     eta_id := _ |}; solve_eta.
Defined.

Global Instance eta_User : Settable User.
Proof.
  refine
  {| eta := λ r, mkUser (User_ID r) (User_DisplayName r) (User_Email r) (User_EmailNormalized r)
      (User_EmailVerifiedAt r) (User_RecoveryEnabled r) (User_Status r) (User_Role r)
      (User_AuthVersion r) (User_CreatedAt r) (User_UpdatedAt r);
     eta_id := _ |}; solve_eta.
Defined.

Global Instance eta_Account : Settable Account.
Proof.
  refine
  {| eta := λ r, mkAccount (Account_ID r) (Account_UserID r) (Account_ProviderID r)
      (Account_ProviderAccountID r) (Account_ProviderNamespace r) (Account_PasswordHash r)
      (Account_Version r) (Account_CreatedAt r) (Account_UpdatedAt r) (Account_LastUsedAt r)
      (Account_RevokedAt r);
     eta_id := _ |}; solve_eta.
Defined.

Global Instance eta_UserSession : Settable UserSession.
Proof.
  refine
  {| eta := λ r, mkUserSession (UserSession_ID r) (UserSession_UserID r)
      (UserSession_TokenHash r) (UserSession_AuthMethod r) (UserSession_AuthSourceID r)
      (UserSession_AuthenticatedAt r) (UserSession_AuthVersion r) (UserSession_CreatedAt r)
      (UserSession_LastSeenAt r) (UserSession_IdleExpiresAt r) (UserSession_AbsoluteExpiresAt r)
      (UserSession_RevokedAt r);
     eta_id := _ |}; solve_eta.
Defined.

Global Instance eta_AuthFlow : Settable AuthFlow.
Proof.
  refine
  {| eta := λ r, mkAuthFlow (AuthFlow_ID r) (AuthFlow_Purpose r) (AuthFlow_TokenHash r)
      (AuthFlow_ProviderID r) (AuthFlow_ConfigVersion r) (AuthFlow_UserID r)
      (AuthFlow_SessionID r) (AuthFlow_AuthVersion r) (AuthFlow_AccountID r)
      (AuthFlow_AccountVersion r) (AuthFlow_Operation r) (AuthFlow_Target r)
      (AuthFlow_ReauthenticationID r) (AuthFlow_ClaimedBy r) (AuthFlow_StateHash r)
      (AuthFlow_ProtocolState r) (AuthFlow_VerifiedNamespace r) (AuthFlow_VerifiedSubject r)
      (AuthFlow_VerifiedName r) (AuthFlow_AuthenticatedAt r) (AuthFlow_Status r)
      (AuthFlow_CreatedAt r) (AuthFlow_ExpiresAt r);
     eta_id := _ |}; solve_eta.
Defined.

Global Instance eta_AuthVerification : Settable AuthVerification.
Proof.
  refine
  {| eta := λ r, mkAuthVerification (AuthVerification_ID r) (AuthVerification_UserID r)
      (AuthVerification_Purpose r) (AuthVerification_TokenHash r) (AuthVerification_Email r)
      (AuthVerification_AuthVersion r) (AuthVerification_SessionID r)
      (AuthVerification_ReauthenticationID r) (AuthVerification_CreatedAt r)
      (AuthVerification_ExpiresAt r) (AuthVerification_ConsumedAt r);
     eta_id := _ |}; solve_eta.
Defined.

Global Instance eta_AuditEvent : Settable AuditEvent.
Proof.
  refine
  {| eta := λ r, mkAuditEvent (AuditEvent_ID r) (AuditEvent_OccurredAt r) (AuditEvent_Action r)
      (AuditEvent_Outcome r) (AuditEvent_ActorType r) (AuditEvent_ActorID r)
      (AuditEvent_ResourceType r) (AuditEvent_ResourceID r) (AuditEvent_ScopeSubject r)
      (AuditEvent_SessionID r) (AuditEvent_RequestID r) (AuditEvent_ReasonCode r)
      (AuditEvent_Metadata r);
     eta_id := _ |}; solve_eta.
Defined.

Global Instance eta_AuthRateLimit : Settable AuthRateLimit.
Proof.
  refine
  {| eta := λ r, mkAuthRateLimit (AuthRateLimit_Count r) (AuthRateLimit_ExpiresAt r);
     eta_id := _ |}; solve_eta.
Defined.

Global Instance eta_MailOutbox : Settable MailOutbox.
Proof.
  refine
  {| eta := λ r, mkMailOutbox (MailOutbox_ID r) (MailOutbox_Kind r) (MailOutbox_Recipient r)
      (MailOutbox_Subject r) (MailOutbox_Body r) (MailOutbox_Status r) (MailOutbox_Attempts r)
      (MailOutbox_AvailableAt r) (MailOutbox_ExpiresAt r) (MailOutbox_LeaseID r)
      (MailOutbox_LeasedUntil r) (MailOutbox_LastError r) (MailOutbox_CreatedAt r)
      (MailOutbox_CompletedAt r);
     eta_id := _ |}; solve_eta.
Defined.

Record DB : Type := mkDB {
  projects : gmap string Project;
  tasks : gmap string Task;
  users : gmap string User;
  accounts : gmap string Account;
  user_sessions : gmap string UserSession;
  auth_flows : gmap string AuthFlow;
  auth_verifications : gmap string AuthVerification;
  audit_events : list AuditEvent;                     (* in order of insertion *)
  auth_rate_limits : gmap string AuthRateLimit;       (* by bucket_key *)
  mail_outbox : gmap string MailOutbox
}.

Global Instance eta_DB : Settable DB.
Proof.
  refine
  {| eta := λ r, mkDB (projects r) (tasks r) (users r) (accounts r) (user_sessions r)
      (auth_flows r) (auth_verifications r) (audit_events r) (auth_rate_limits r) (mail_outbox r);
     eta_id := _ |}; solve_eta.
Defined.

(** The database after [00001_init.sql]. *)
Definition emptyDB : DB := mkDB ∅ ∅ ∅ ∅ ∅ ∅ ∅ [] ∅ ∅.
