(* ===== verification/Storage.v ===== *)
(** * Effects of the services: database statements, transactions, time and randomness

    A service operation is a function [M A] of the [World]: the database, the clock, a
    step counter and the log. Each interaction with the outside (a statement, the start
    or the commit of a transaction, a drawn identifier or token, [time.Now], a call of
    the password hasher or of the identity provider) takes one step. A [Schedule] fixes
    for every step what the other clients of the database did before it, whether the
    interaction fails, and how time passes. Theorems quantify over all schedules, hence
    over all failures, cancellations and interleavings with other transactions.

    This file also models [internal/db/errors.go] and [internal/db/transaction.go]. *)
From S2P Require Import Prelude.
From S2P Require Import Text.
From S2P Require Import GoErrors.
From S2P Require Import Runtime.
From S2P Require Import Schema.

(** ** Failures *)

(** Errors the driver can report for any statement: they are neither [pgx.ErrNoRows]
    nor errors of the program. *)
Inductive infra : Type :=
| InfraCanceled
| InfraDeadline
| InfraPg (code constraint : string)
| InfraNet (timeout : bool)
| InfraEOF
| InfraOther (text : string).

Definition infra_error (i : infra) : error :=
  match i with
  | InfraCanceled => ESentinel ContextCanceled
  | InfraDeadline => ESentinel ContextDeadlineExceeded
  | InfraPg code constraint => EPg code constraint
  | InfraNet timeout => ENet timeout
  | InfraEOF => ESentinel IoErrUnexpectedEOF
  | InfraOther text => EText text
  end.

(** A failing step either had no effect, or took effect on the server while the answer
    was lost. *)
Inductive fault : Type :=
| FaultBefore (i : infra)
| FaultAfter (i : infra).

Definition fault_error (f : fault) : error :=
  match f with FaultBefore i | FaultAfter i => infra_error i end.

Class Schedule := {
  sched_fault : nat → option fault;
  sched_env : nat → DB → DB;    (* what other clients committed before the step *)
  sched_tick : nat → nat;       (* nanoseconds that pass during the step *)
  sched_skew : nat → Z;         (* difference of the application's clock to the server's *)
}.

(** ** The monad *)

Record World : Type := mkWorld {
  w_db : DB;
  w_clock : time;
  w_step : nat;
  w_log : list (string * list (string * string));
  w_sent : list (string * time);    (* mails handed to the sender, with their deadlines *)
  w_user : string                   (* [r.UserID], where a transaction's callback assigns it *)
}.

Global Instance eta_World : Settable World.
Proof.
  refine {| eta := λ r, mkWorld (w_db r) (w_clock r) (w_step r) (w_log r) (w_sent r) (w_user r); eta_id := _ |};
    solve_eta.
Defined.

Definition M (A : Type) : Type := World → res error A * World.

Global Instance M_ret : MRet M := λ A a w, (Ok a, w).
Global Instance M_bind : MBind M := λ A B f m w,
  match m w with
  | (Ok a, w') => f a w'
  | (Err e, w') => (Err e, w')
  end.

(** [return ..., err] *)
Definition fail {A} (e : error) : M A := λ w, (Err e, w).

(** The error as a value, for code that inspects it. *)
Definition try {A} (m : M A) : M (res error A) := λ w, let '(r, w') := m w in (Ok r, w').

Definition lift {A} (r : res error A) : M A := λ w, (r, w).

Definition map_err {A} (f : error → error) (m : M A) : M A := λ w,
  match m w with
  | (Err e, w') => (Err (f e), w')
  | (Ok a, w') => (Ok a, w')
  end.

(** A deferred function that may change the returned error; its own writes stay. *)
Definition with_defer {A} (m : M A) (k : error → M error) : M A := λ w,
  match m w with
  | (Err e, w') =>
    match k e w' with
    | (Ok e', w'') => (Err e', w'')
    | (Err e', w'') => (Err e', w'')
    end
  | (Ok a, w') => (Ok a, w')
  end.

(** ** Steps *)

(** A statement as a function of [now()] and of the database it sees. *)
Definition stmt (A : Type) : Type := time → DB → res error A * DB.

(** A handle of package [sqlc]: the pool, where each statement is its own transaction,
    or a transaction with the [now()] fixed at its start. *)
Inductive dbtx : Type :=
| Pool
| Tx (start : time).

Section storage.
  Context `{Sch : Schedule}.

Definition advance (w : World) : World :=
  w <| w_step := S (w_step w) |> <| w_clock := w_clock w + Z.of_nat (sched_tick (w_step w)) |>.

(** Other clients act between the steps taken outside a transaction. Inside one, the
    statements run without interruption (transactions are serial). *)
Definition arrive (w : World) : World := w <| w_db := sched_env (w_step w) (w_db w) |>.

Definition exec {A} (q : dbtx) (s : stmt A) : M A := λ w,
  match q with
  | Pool =>
    let w := arrive w in
    let '(r, d) := s (w_clock w) (w_db w) in
    match sched_fault (w_step w) with
    | Some (FaultBefore i) => (Err (infra_error i), advance w)
    | Some (FaultAfter i) => (Err (infra_error i), advance (w <| w_db := d |>))
    | None => (r, advance (w <| w_db := d |>))
    end
  | Tx start =>
    match sched_fault (w_step w) with
    | Some f => (Err (fault_error f), advance w)
    | None => let '(r, d) := s start (w_db w) in (r, advance (w <| w_db := d |>))
    end
  end.

(** The number of the current step, which is then over: draws of identifiers and random
    bytes and calls of dependencies take it as their argument. *)
Definition next_step : M nat := λ w, (Ok (w_step w), advance w).

(** [time.Now()] of the application. *)
Definition time_Now : M time := λ w, (Ok (w_clock w + sched_skew (w_step w)), advance w).

Definition log_attrs (message : string) (attrs : list (string * string)) : M unit := λ w,
  (Ok tt, w <| w_log := w_log w ++ [(message, attrs)] |>).

(** ** [internal/db/errors.go] *)

Definition uniqueViolationSQLState : string := "23505".

Record ErrorPolicy : Type := {
  Resource : string;
  policy_NotFound : option Error;
  UniqueConstraints : gmap string Error
}.

(** For a non-nil error; nil is mapped to nil. *)
Definition MapError (err : error) (policy : ErrorPolicy) : error :=
  if (Is err (TSentinel ContextCanceled) || Is err (TSentinel ContextDeadlineExceeded))%bool
  then err
  else
    let storage := EMulti (Resource policy +:+ " storage") [err] in
    let by_constraint :=
      match As asPgError err with
      | Some (code, constraint) =>
        if code ==? uniqueViolationSQLState then
          match UniqueConstraints policy !! constraint with
          | Some b => EMulti (Error_message b) [EBusiness b; err]
          | None => storage
          end
        else storage
      | None => storage
      end in
    match policy_NotFound policy with
    | Some nf =>
      if Is err (TSentinel PgxErrNoRows)
      then EMulti (Error_message nf) [EBusiness nf; err]
      else by_constraint
    | None => by_constraint
    end.

(** ** [internal/db/transaction.go] *)

(** Begin, run the callback, commit on success and roll back otherwise. *)
Definition WithTransaction {A} (policy : ErrorPolicy) (fn : dbtx → M A) : M A := λ w,
  let w := arrive w in
  match sched_fault (w_step w) with
  | Some f => (Err (MapError (fault_error f) policy), advance w)
  | None =>
    let start := w_clock w in
    let before := w_db w in
    match fn (Tx start) (advance w) with
    | (Err err, w') => (Err (MapError err policy), w' <| w_db := before |>)
    | (Ok a, w') =>
      match sched_fault (w_step w') with
      | Some (FaultBefore i) =>
        (Err (MapError (infra_error i) policy), advance (w' <| w_db := before |>))
      | Some (FaultAfter i) => (Err (MapError (infra_error i) policy), advance w')
      | None => (Ok a, advance w')
      end
    end
  end.

End storage.
