(* ===== verification/Logic.v ===== *)
(** * Reasoning about effects: inversion of runs and preserved relations

    - [run_*]: what a successful or failed run of each combinator says about its parts;
      the tactic [run_inv] applies them to a hypothesis [m w = (r, w')].
    - [guar R m]: every run of [m] relates the database before and after by the
      preorder [R], whatever the outcome. It is compositional, and the tactic
      [guar_auto] reduces it to the statements of [m]. *)
From S2P Require Import Prelude.
From S2P Require Import Text.
From S2P Require Import GoErrors.
From S2P Require Import Runtime.
From S2P Require Import Schema.
From S2P Require Import Storage.

(** ** Inversion *)

Lemma run_bind_ok {A B} (m : M A) (f : A → M B) w b w' :
  (m ≫= f) w = (Ok b, w') → ∃ a w1, m w = (Ok a, w1) ∧ f a w1 = (Ok b, w').
Proof. unfold mbind, M_bind. destruct (m w) as [[a|e] w1]; naive_solver. Qed.

Lemma run_bind_err {A B} (m : M A) (f : A → M B) w e w' :
  (m ≫= f) w = (Err e, w') →
  m w = (Err e, w') ∨ ∃ a w1, m w = (Ok a, w1) ∧ f a w1 = (Err e, w').
Proof. unfold mbind, M_bind. destruct (m w) as [[a|e1] w1]; naive_solver. Qed.

Lemma run_ret {A} (a : A) w r w' : (mret a : M A) w = (r, w') → r = Ok a ∧ w' = w.
Proof. intros [= <- <-]. done. Qed.

Lemma run_fail {A} e w (r : res error A) w' : fail e w = (r, w') → r = Err e ∧ w' = w.
Proof. intros [= <- <-]. done. Qed.

Lemma run_lift {A} (x : res error A) w r w' : lift x w = (r, w') → r = x ∧ w' = w.
Proof. intros [= <- <-]. done. Qed.

Lemma run_try {A} (m : M A) w r w' : try m w = (r, w') → ∃ r', r = Ok r' ∧ m w = (r', w').
Proof. unfold try. destruct (m w) as [r' w1]. intros [= <- <-]. eauto. Qed.

Lemma run_map_err_ok {A} f (m : M A) w a w' : map_err f m w = (Ok a, w') → m w = (Ok a, w').
Proof. unfold map_err. destruct (m w) as [[?|?] ?]; naive_solver. Qed.

Lemma run_map_err_err {A} f (m : M A) w e w' :
  map_err f m w = (Err e, w') → ∃ e0, m w = (Err e0, w') ∧ e = f e0.
Proof. unfold map_err. destruct (m w) as [[?|?] ?]; naive_solver. Qed.

Lemma run_defer_ok {A} (m : M A) k w a w' : with_defer m k w = (Ok a, w') → m w = (Ok a, w').
Proof.
  unfold with_defer. destruct (m w) as [[?|?] w1]; [naive_solver|].
  destruct (k _ w1) as [[?|?] ?]; naive_solver.
Qed.

Lemma run_defer_err {A} (m : M A) k w e w' :
  with_defer m k w = (Err e, w') →
  ∃ e0 w1, m w = (Err e0, w1) ∧ (k e0 w1 = (Ok e, w') ∨ k e0 w1 = (Err e, w')).
Proof.
  unfold with_defer. destruct (m w) as [[?|?] w1]; [naive_solver|].
  destruct (k _ w1) as [[?|?] ?] eqn:E; intros [= <- <-]; eauto 6.
Qed.

Lemma bind_assoc {A B C} (m : M A) (f : A → M B) (g : B → M C) w :
  ((m ≫= f) ≫= g) w = (m ≫= λ a, f a ≫= g) w.
Proof. unfold mbind, M_bind. by destruct (m w) as [[?|?] ?]. Qed.

Lemma bind_lift_ok {A B} (a : A) (f : A → M B) w : (lift (Ok a) ≫= f) w = f a w.
Proof. done. Qed.

Lemma bind_lift_err {A B} e (f : A → M B) w : (lift (Err e) ≫= f) w = (Err e, w).
Proof. done. Qed.

Lemma bind_fail {A B} e (f : A → M B) w : (fail e ≫= f) w = (Err e, w).
Proof. done. Qed.

Section runs.
  Context `{Sch : Schedule}.

Lemma w_db_advance w : w_db (advance w) = w_db w.
Proof. done. Qed.

Lemma w_step_advance w : w_step (advance w) = S (w_step w).
Proof. done. Qed.

Lemma w_clock_advance w : w_clock w ≤ w_clock (advance w).
Proof. simpl. lia. Qed.

(** A statement of a transaction that succeeds acts on the database as written. *)
Lemma run_exec_tx {A} t (s : stmt A) w a w' :
  exec (Tx t) s w = (Ok a, w') → s t (w_db w) = (Ok a, w_db w').
Proof.
  unfold exec. destruct (sched_fault _); [done|].
  destruct (s t (w_db w)) as [r d]. intros [= -> <-]. done.
Qed.

Lemma run_exec_tx_err {A} t (s : stmt A) w e w' :
  exec (Tx t) s w = (Err e, w') →
  (∃ f, e = fault_error f) ∨ s t (w_db w) = (Err e, w_db w').
Proof.
  unfold exec. destruct (sched_fault _) as [f|]; [intros [= <- <-]; eauto|].
  destruct (s t (w_db w)) as [r d]. intros [= -> <-]. by right.
Qed.

(** On the pool it acts on the database the other clients left. *)
Lemma run_exec_pool {A} (s : stmt A) w a w' :
  exec Pool s w = (Ok a, w') →
  s (w_clock w) (sched_env (w_step w) (w_db w)) = (Ok a, w_db w').
Proof.
  unfold exec. simpl. destruct (s (w_clock w) _) as [r d].
  destruct (sched_fault _) as [[]|]; intros [= -> <-]; done.
Qed.

(** A read on the pool that answers changes nothing else. *)
Lemma run_exec_pool_read {A} (q : time → DB → res error A) w a w' :
  exec Pool (λ now d, (q now d, d)) w = (Ok a, w') →
  q (w_clock w) (w_db (arrive w)) = Ok a ∧ w' = advance (arrive w).
Proof. unfold exec. simpl. destruct (sched_fault _) as [[]|]; intros [= -> <-]; done. Qed.

Lemma run_exec_pool_err {A} (s : stmt A) w e w' :
  exec Pool s w = (Err e, w') →
  (∃ f, e = fault_error f) ∨
  s (w_clock w) (sched_env (w_step w) (w_db w)) = (Err e, w_db w').
Proof.
  unfold exec. simpl. destruct (s (w_clock w) _) as [r d].
  destruct (sched_fault _) as [f|]; [destruct f as [i|i]|]; intros [= <- <-].
  - left. by exists (FaultBefore i).
  - left. by exists (FaultAfter i).
  - by right.
Qed.

(** All that can happen to a statement on the pool. *)
Lemma run_pool {A} (s : stmt A) w r w' : exec Pool s w = (r, w') →
  let d := sched_env (w_step w) (w_db w) in
  w_step w' = S (w_step w) ∧ w_clock w ≤ w_clock w' ∧
  (s (w_clock w) d = (r, w_db w')
   ∨ ∃ f, r = Err (fault_error f) ∧ (w_db w' = d ∨ w_db w' = (s (w_clock w) d).2)).
Proof.
  unfold exec. simpl. destruct (s (w_clock w) _) as [x d1].
  destruct (sched_fault _) as [[i|i]|]; intros [= <- <-]; simpl; split_and!; try lia.
  - right. exists (FaultBefore i). auto.
  - right. exists (FaultAfter i). auto.
  - by left.
Qed.

Lemma run_next_step w n w' : next_step w = (Ok n, w') → n = w_step w ∧ w' = advance w.
Proof. intros [= <- <-]. done. Qed.

(** A transaction that commits ran its callback to the end on the state it started in. *)
Lemma run_tx_ok {A} policy (fn : dbtx → M A) w a w' :
  WithTransaction policy fn w = (Ok a, w') →
  ∃ w1, fn (Tx (w_clock w)) (advance (arrive w)) = (Ok a, w1)
      ∧ w' = advance w1 ∧ sched_fault (w_step w1) = None.
Proof.
  unfold WithTransaction. destruct (sched_fault _); [done|]. simpl.
  destruct (fn _ _) as [[b|e] w1]; [|done].
  destruct (sched_fault (w_step w1)) as [[]|] eqn:Ef; [done|done|].
  intros [= <- <-]. eauto.
Qed.

(** A transaction that reports an error left no trace, unless the answer to the commit
    itself was lost. *)
Lemma run_tx_err {A} policy (fn : dbtx → M A) w e w' :
  WithTransaction policy fn w = (Err e, w') →
  w_db w' = sched_env (w_step w) (w_db w)
  ∨ ∃ a w1 i, fn (Tx (w_clock w)) (advance (arrive w)) = (Ok a, w1)
      ∧ sched_fault (w_step w1) = Some (FaultAfter i) ∧ w_db w' = w_db w1.
Proof.
  unfold WithTransaction. destruct (sched_fault _); [intros [= <- <-]; by left|]. simpl.
  destruct (fn _ _) as [[b|e1] w1] eqn:E; [|intros [= <- <-]; by left].
  destruct (sched_fault (w_step w1)) as [[i|i]|] eqn:Ef; intros [= <- <-].
  - by left.
  - right. exists b, w1, i. done.
Qed.

Lemma bind_next_step {A} (f : nat → M A) w :
  (next_step ≫= f) w = f (w_step w) (advance w).
Proof. done. Qed.

(** ** Steps and time only go forward *)

Definition forward {A} (m : M A) : Prop :=
  ∀ w, (w_step w ≤ w_step (m w).2)%nat ∧ w_clock w ≤ w_clock (m w).2.

Lemma forward_bind {A B} (m : M A) (f : A → M B) :
  forward m → (∀ a, forward (f a)) → forward (m ≫= f).
Proof.
  intros Hm Hf w. unfold mbind, M_bind. specialize (Hm w). destruct (m w) as [[a|e] w1]; [|done].
  specialize (Hf a w1). simpl in *. lia.
Qed.

Lemma forward_pure {A} (m : M A) : (∀ w, (m w).2 = w) → forward m.
Proof. intros H w. rewrite H. lia. Qed.

Lemma forward_same {A} (m : M A) :
  (∀ w, w_step (m w).2 = w_step w ∧ w_clock (m w).2 = w_clock w) → forward m.
Proof. intros H w. destruct (H w) as [-> ->]. lia. Qed.

Lemma forward_try {A} (m : M A) : forward m → forward (try m).
Proof. intros H w. specialize (H w). unfold try. by destruct (m w). Qed.

Lemma forward_map_err {A} f (m : M A) : forward m → forward (map_err f m).
Proof. intros H w. specialize (H w). unfold map_err. by destruct (m w) as [[?|?] ?]. Qed.

Lemma forward_next_step : forward next_step.
Proof. intros w. simpl. lia. Qed.

Lemma forward_time_Now : forward time_Now.
Proof. intros w. simpl. lia. Qed.

Lemma forward_exec {A} q (s : stmt A) : forward (exec q s).
Proof.
  intros w. destruct q; unfold exec; simpl.
  - destruct (s _ _). destruct (sched_fault _) as [[]|]; simpl; lia.
  - destruct (sched_fault _); [simpl; lia|]. destruct (s _ _). simpl. lia.
Qed.

Lemma forward_tx {A} policy (fn : dbtx → M A) :
  (∀ t, forward (fn (Tx t))) → forward (WithTransaction policy fn).
Proof.
  intros H w. unfold WithTransaction. destruct (sched_fault _); [simpl; lia|].
  specialize (H (w_clock (arrive w)) (advance (arrive w))).
  destruct (fn _ _) as [[a|e] w1]; simpl in *; [|lia].
  destruct (sched_fault _) as [[]|]; simpl; lia.
Qed.

(** ** Tables that stay the same *)

Definition same {T} (f : DB → T) : relation DB := λ d d', f d' = f d.

Global Instance same_preorder {T} (f : DB → T) : PreOrder (same f).
Proof. split; unfold same; [done|congruence]. Qed.

(** ** Computations without an error of their own *)

Definition never_fails {A} (m : M A) : Prop := ∀ w, ∃ a w', m w = (Ok a, w').

Lemma never_fails_bind {A B} (m : M A) (f : A → M B) :
  never_fails m → (∀ a, never_fails (f a)) → never_fails (m ≫= f).
Proof.
  intros Hm Hf w. destruct (Hm w) as (a & w1 & E). destruct (Hf a w1) as (b & w2 & E2).
  exists b, w2. unfold mbind, M_bind. by rewrite E.
Qed.

Lemma never_fails_try {A} (m : M A) : never_fails (try m).
Proof. intros w. unfold try. destruct (m w) as [r w1]. eauto. Qed.

Lemma never_fails_direct {A} (m : M A) : (∀ w, is_ok (m w).1 = true) → never_fails m.
Proof. intros H w. specialize (H w). destruct (m w) as [[a|e] w1]; [eauto|done]. Qed.

(** ** Relations kept by every run *)

Definition stmt_guar {A} (R : relation DB) (s : stmt A) : Prop :=
  ∀ now d, R d (s now d).2.

Definition guar {A} (R : relation DB) (m : M A) : Prop := ∀ w, R (w_db w) (w_db (m w).2).

(** Invariants are the relations [keeps I]. *)
Definition keeps (I : DB → Prop) : relation DB := λ d d', I d → I d'.

Global Instance keeps_preorder I : PreOrder (keeps I).
Proof. split; unfold keeps; [by intros d|intros d1 d2 d3; auto]. Qed.

Class EnvGuar (R : relation DB) : Prop := env_guar : ∀ n d, R d (sched_env n d).

Lemma guar_ret {A} (R : relation DB) `{!PreOrder R} (a : A) : guar R (mret a : M A).
Proof. intros w. simpl. reflexivity. Qed.

Lemma guar_fail {A} (R : relation DB) `{!PreOrder R} e : guar R (fail e : M A).
Proof. intros w. simpl. reflexivity. Qed.

Lemma guar_lift {A} (R : relation DB) `{!PreOrder R} (r : res error A) : guar R (lift r).
Proof. intros w. simpl. reflexivity. Qed.

Lemma guar_bind {A B} (R : relation DB) `{!PreOrder R} (m : M A) (f : A → M B) :
  guar R m → (∀ a, guar R (f a)) → guar R (m ≫= f).
Proof.
  intros Hm Hf w. unfold mbind, M_bind. specialize (Hm w).
  destruct (m w) as [[a|e] w1]; simpl in *; [|done]. etransitivity; [done|apply Hf].
Qed.

(** After a pure check only the runs it lets through matter. *)
Lemma guar_bind_lift {A B} (R : relation DB) `{!PreOrder R} (r : res error A) (f : A → M B) :
  (∀ a, r = Ok a → guar R (f a)) → guar R (lift r ≫= f).
Proof. intros Hf w. destruct r as [a|e]; [exact (Hf a eq_refl w)|simpl; reflexivity]. Qed.

Lemma guar_try {A} (R : relation DB) (m : M A) : guar R m → guar R (try m).
Proof. intros Hm w. specialize (Hm w). unfold try. by destruct (m w). Qed.

Lemma guar_map_err {A} (R : relation DB) f (m : M A) : guar R m → guar R (map_err f m).
Proof. intros Hm w. specialize (Hm w). unfold map_err. by destruct (m w) as [[?|?] ?]. Qed.

Lemma guar_defer {A} (R : relation DB) `{!PreOrder R} (m : M A) k :
  guar R m → (∀ e, guar R (k e)) → guar R (with_defer m k).
Proof.
  intros Hm Hk w. specialize (Hm w). unfold with_defer.
  destruct (m w) as [[a|e] w1]; simpl in *; [done|].
  specialize (Hk e w1). destruct (k e w1) as [[?|?] ?]; simpl in *; by etransitivity.
Qed.

Lemma guar_next_step (R : relation DB) `{!PreOrder R} : guar R next_step.
Proof. intros w. simpl. reflexivity. Qed.

Lemma guar_time_Now (R : relation DB) `{!PreOrder R} : guar R time_Now.
Proof. intros w. simpl. reflexivity. Qed.

Lemma guar_log (R : relation DB) `{!PreOrder R} s l : guar R (log_attrs s l).
Proof. intros w. simpl. reflexivity. Qed.

Lemma guar_exec_tx {A} (R : relation DB) `{!PreOrder R} t (s : stmt A) :
  stmt_guar R s → guar R (exec (Tx t) s).
Proof.
  intros Hs w. unfold exec. destruct (sched_fault _); [simpl; reflexivity|].
  specialize (Hs t (w_db w)). by destruct (s t (w_db w)).
Qed.

Lemma guar_exec {A} (R : relation DB) `{!PreOrder R, !EnvGuar R} q (s : stmt A) :
  stmt_guar R s → guar R (exec q s).
Proof.
  intros Hs. destruct q; [|by apply guar_exec_tx]. intros w. unfold exec. simpl.
  transitivity (sched_env (w_step w) (w_db w)); [apply env_guar|].
  specialize (Hs (w_clock w) (sched_env (w_step w) (w_db w))).
  destruct (s (w_clock w) _) as [r d].
  destruct (sched_fault _) as [[]|]; simpl; [reflexivity|done..].
Qed.

Lemma guar_tx {A} (R : relation DB) `{!PreOrder R, !EnvGuar R} policy (fn : dbtx → M A) :
  (∀ t, guar R (fn (Tx t))) → guar R (WithTransaction policy fn).
Proof.
  intros Hfn w. transitivity (sched_env (w_step w) (w_db w)); [apply env_guar|].
  unfold WithTransaction. destruct (sched_fault _); [simpl; reflexivity|].
  specialize (Hfn (w_clock (arrive w)) (advance (arrive w))).
  destruct (fn _ _) as [[a|e] w1]; [|simpl; reflexivity].
  destruct (sched_fault (w_step w1)) as [[]|]; simpl in *; [reflexivity|done..].
Qed.

End runs.

(** Rewrites a run [H] to its first effect. *)
Ltac run_simpl H :=
  repeat first [rewrite bind_assoc in H | rewrite bind_lift_ok in H | rewrite bind_lift_err in H
               | rewrite bind_fail in H | rewrite bind_next_step in H | progress cbv beta in H].

Create HintDb guar discriminated.

(** Decomposes [guar R m] along the code; the goals left are about statements and calls. *)
Ltac guar_step :=
  lazymatch goal with
  | |- guar _ (mret _) => apply guar_ret
  | |- guar _ (fail _) => apply guar_fail
  | |- guar _ (lift _) => apply guar_lift
  | |- guar _ (mbind _ (lift _)) => refine (guar_bind_lift _ _ _ _); intros ? ?
  | |- guar _ (mbind _ _) => refine (guar_bind _ _ _ _ _); [|intros ?]
  | |- guar _ (try _) => apply guar_try
  | |- guar _ (map_err _ _) => apply guar_map_err
  | |- guar _ (with_defer _ _) => refine (guar_defer _ _ _ _ _); [|intros ?]
  | |- guar _ next_step => apply guar_next_step
  | |- guar _ time_Now => apply guar_time_Now
  | |- guar _ (log_attrs _ _) => apply guar_log
  | |- guar _ (exec _ _) => refine (guar_exec _ _ _ _); try solve [eauto with guar nocore]
  | |- guar _ (WithTransaction _ _) => refine (guar_tx _ _ _ _); intros ?
  | |- guar _ (match ?x with _ => _ end) => let E := fresh "E" in destruct x eqn:E
  | |- guar _ (match ?x with _ => _ end _) => let E := fresh "E" in destruct x eqn:E
  | |- guar _ (let _ := _ in _) => cbv zeta
  | |- PreOrder _ => typeclasses eauto
  end.

Ltac total_auto :=
  repeat lazymatch goal with
  | |- never_fails (mbind _ _) => apply never_fails_bind; [|intros ?]
  | |- never_fails (try _) => apply never_fails_try
  | |- never_fails (match ?x with _ => _ end) => destruct x
  | |- never_fails _ => by apply never_fails_direct
  end.

Ltac forward_auto :=
  repeat lazymatch goal with
  | |- forward (mret _) => by apply forward_pure
  | |- forward (fail _) => by apply forward_pure
  | |- forward (lift _) => by apply forward_pure
  | |- forward (log_attrs _ _) => by apply forward_same
  | |- forward (mbind _ _) => apply forward_bind; [|intros ?]
  | |- forward (try _) => apply forward_try
  | |- forward (map_err _ _) => apply forward_map_err
  | |- forward next_step => apply forward_next_step
  | |- forward time_Now => apply forward_time_Now
  | |- forward (exec _ _) => apply forward_exec
  | |- forward (WithTransaction _ _) => apply forward_tx; intros ?
  | |- forward (match ?x with _ => _ end) => destruct x
  | |- forward (let _ := _ in _) => cbv zeta
  end.

Ltac guar_auto := repeat (guar_step || (progress eauto 2 with guar nocore)).

(** Inverts a run [H : m w = (r, w')] one combinator at a time. *)
Ltac run_step H :=
  lazymatch type of H with
  | mbind _ _ _ = (Ok _, _) =>
    let a := fresh "a" in let w := fresh "w" in let H1 := fresh "R" in
    apply run_bind_ok in H as (a & w & H1 & H)
  | mret _ _ = _ => let E := fresh in apply run_ret in H as [E ->]; simplify_eq/=
  | fail _ _ = _ => let E := fresh in apply run_fail in H as [E ->]; simplify_eq/=
  | lift _ _ = _ => let E := fresh in apply run_lift in H as [E ->]
  | try _ _ = _ => let r := fresh "r" in let E := fresh in
                   apply run_try in H as (r & E & H); simplify_eq/=
  | map_err _ _ _ = (Ok _, _) => apply run_map_err_ok in H
  | with_defer _ _ _ = (Ok _, _) => apply run_defer_ok in H
  | exec (Tx _) _ _ = (Ok _, _) => apply run_exec_tx in H
  | exec Pool _ _ = (Ok _, _) => apply run_exec_pool in H
  | next_step _ = _ => let E := fresh in apply run_next_step in H as [E ->]; subst
  end.

(** Inverts a successful run all the way: branches that fail disappear, transactions give
    the run of their callback. *)
Ltac run_ok H :=
  lazymatch type of H with
  | mbind _ _ _ = (Ok _, _) =>
    let a := fresh "a" in let w := fresh "w" in let R := fresh "R" in
    apply run_bind_ok in H as (a & w & R & H); run_ok R; run_ok H
  | fail _ _ = (Ok _, _) => discriminate H
  | mret _ _ = _ => let E := fresh in apply run_ret in H as [E ->]; simplify_eq
  | lift _ _ = _ => let E := fresh "L" in apply run_lift in H as [E ->]; symmetry in E
  | try _ _ = _ => let r := fresh "r" in let E := fresh in
                   apply run_try in H as (r & E & H); simplify_eq
  | map_err _ _ _ = (Ok _, _) => apply run_map_err_ok in H; run_ok H
  | with_defer _ _ _ = (Ok _, _) => apply run_defer_ok in H; run_ok H
  | exec (Tx _) _ _ = (Ok _, _) => apply run_exec_tx in H
  | exec Pool _ _ = (Ok _, _) => apply run_exec_pool in H
  | next_step _ = _ => let E := fresh in apply run_next_step in H as [E ->]; subst
  | WithTransaction _ _ _ = (Ok _, _) =>
    let w := fresh "w" in let Ew := fresh "Ew" in let Ef := fresh "Ef" in
    apply run_tx_ok in H as (w & H & Ew & Ef); run_ok H
  | (match ?x with _ => _ end) _ = _ =>
    let E := fresh "E" in first [is_var x; destruct x | destruct x eqn:E]; cbv beta iota in H; run_ok H
  | (match ?x with _ => _ end) = _ =>
    let E := fresh "E" in destruct x eqn:E; cbv beta iota in H; run_ok H
  | _ => try discriminate H
  end.

(** [guar (same f) m] for the operations on a transaction. *)
Ltac same_auto :=
  repeat lazymatch goal with
  | |- guar _ (exec (Tx _) _) => refine (guar_exec_tx _ _ _ _)
  | |- guar _ _ => first [solve [eauto 2 with guar nocore] | guar_step]
  | |- PreOrder _ => typeclasses eauto
  | |- stmt_guar _ _ => eauto 2 with guar nocore
  end.

Lemma same_run {A T} (f : DB → T) (m : M A) w x w' :
  m w = (x, w') → guar (same f) m → f (w_db w') = f (w_db w).
Proof. intros H G. specialize (G w). by rewrite H in G. Qed.

(** ** Undisturbed runs *)

Section quiet.
  Context `{Sch : Schedule}.

(** From here on nothing fails and no other client writes. *)
Definition quiet (w : World) : Prop :=
  ∀ n d, (w_step w ≤ n)%nat → sched_fault n = None ∧ sched_env n d = d.

Lemma quiet_later w w' : quiet w → (w_step w ≤ w_step w')%nat → quiet w'.
Proof. intros Hq Hle n d Hn. apply Hq. lia. Qed.

Lemma quiet_pool {A} (s : stmt A) w :
  quiet w → exec Pool s w = ((s (w_clock w) (w_db w)).1,
                              advance (w <| w_db := (s (w_clock w) (w_db w)).2 |>)).
Proof.
  intros Hq. unfold exec. destruct (Hq (w_step w) (w_db w)) as [Hf He]; [done|].
  simpl. rewrite He, Hf. by destruct (s _ _).
Qed.

(** [m] succeeds from [w], with [Q] of its result. *)
Definition works {A} (m : M A) (w : World) (Q : A → World → Prop) : Prop :=
  ∃ a w', m w = (Ok a, w') ∧ Q a w'.

Lemma works_bind {A B} (m : M A) (f : A → M B) w Q :
  works m w (λ a w', works (f a) w' Q) → works (m ≫= f) w Q.
Proof.
  intros (a & w1 & H1 & b & w2 & H2 & HQ). exists b, w2. split; [|done].
  unfold mbind, M_bind. by rewrite H1.
Qed.

Lemma works_ret {A} (a : A) w (Q : A → World → Prop) : Q a w → works (mret a) w Q.
Proof. intros HQ. by exists a, w. Qed.

Lemma works_next_step w Q : Q (w_step w) (advance w) → works next_step w Q.
Proof. intros HQ. by exists (w_step w), (advance w). Qed.

Lemma works_lift {A} (r : res error A) a w (Q : A → World → Prop) : r = Ok a → Q a w → works (lift r) w Q.
Proof. intros -> HQ. by exists a, w. Qed.

(** A statement of a transaction that succeeds on the database as it is. *)
Lemma works_tx {A} t (s : stmt A) w a d Q :
  quiet w → s t (w_db w) = (Ok a, d) → Q a (advance (w <| w_db := d |>)) → works (exec (Tx t) s) w Q.
Proof.
  intros Hq Hs HQ. eexists _, _. split; [|exact HQ]. unfold exec.
  destruct (Hq (w_step w) (w_db w)) as [-> _]; [done|]. by rewrite Hs.
Qed.

(** A transaction answers what its callback answers. *)
Lemma quiet_transaction {A} policy (fn : dbtx → M A) w :
  quiet w → forward (fn (Tx (w_clock w))) →
  (WithTransaction policy fn w).1 =
    match (fn (Tx (w_clock w)) (advance w)).1 with Ok a => Ok a | Err e => Err (MapError e policy) end.
Proof.
  intros Hq Hf. unfold WithTransaction, arrive.
  destruct (Hq (w_step w) (w_db w)) as [Hn He]; [done|]. rewrite He.
  replace (w <| w_db := w_db w |>) with w by (by destruct w). rewrite Hn.
  specialize (Hf (advance w)). destruct (fn _ _) as [[a|e] w1]; [|done]. simpl in *.
  destruct (Hq (w_step w1) (w_db w1)) as [-> _]; [lia|done].
Qed.

End quiet.
