(* ===== verification/Json.v ===== *)
(** * JSON text ([encoding/json]) and escaping for HTML and URLs

    [Marshal] writes a JSON value the way [encoding/json] does, [EscapeString] is
    [html.EscapeString] and [QueryEscape] is [url.QueryEscape]. *)
From S2P Require Import Prelude.
From S2P Require Import Text.
From S2P Require Import Runtime.
From S2P Require Import Schema.
From Stdlib Require Import Ascii.

Definition quote : string := String "034" "".
Definition backslash : string := String "092" "".

(** ** [encoding/json]: strings *)

Definition hex_lower (v : Z) : ascii := byte_ascii (if v <? 10 then 48 + v else 87 + v).

Definition unicode_escape (r : Z) : string :=
  backslash +:+ String "u" (String (hex_lower (r / 4096)) (String (hex_lower (r / 256 mod 16))
    (String (hex_lower (r / 16 mod 16)) (String (hex_lower (r mod 16)) "")))).

(** [appendString] with HTML escaping, one decoded rune at a time. *)
Definition json_rune (c : chunk) : string :=
  let r := rune c in
  if negb (valid c) then backslash +:+ "ufffd"
  else if (r =? 34) || (r =? 92) then backslash +:+ raw c
  else if r =? 8 then backslash +:+ "b"
  else if r =? 12 then backslash +:+ "f"
  else if r =? 10 then backslash +:+ "n"
  else if r =? 13 then backslash +:+ "r"
  else if r =? 9 then backslash +:+ "t"
  else if (r <? 32) || (r =? 60) || (r =? 62) || (r =? 38) || (r =? 8232) || (r =? 8233)
  then unicode_escape r
  else raw c.

Definition json_string (s : string) : string :=
  quote +:+ String.concat "" (map json_rune (decode s)) +:+ quote.

Fixpoint Marshal (v : json) : string :=
  match v with
  | JNull => "null"
  | JString s => json_string s
  | JArray items => "[" +:+ String.concat "," (map Marshal items) +:+ "]"
  | JObject members =>
    "{" +:+ String.concat "," (map (λ '(k, v), json_string k +:+ ":" +:+ Marshal v) members) +:+ "}"
  end.

Definition is_object (v : json) : bool :=
  match v with JObject _ => true | _ => false end.

Example Marshal_login :
  Marshal (JObject [("method", JString "a<b")])
  = "{" +:+ quote +:+ "method" +:+ quote +:+ ":" +:+ quote +:+ "a" +:+ backslash +:+ "u003cb"
      +:+ quote +:+ "}".
Proof. vm_compute. reflexivity. Qed.

(** ** [html.EscapeString] *)

Definition html_byte (c : ascii) : string :=
  if c ==? "038"%char then "&amp;"
  else if c ==? "039"%char then "&#39;"
  else if c ==? "060"%char then "&lt;"
  else if c ==? "062"%char then "&gt;"
  else if c ==? "034"%char then "&#34;"
  else String c "".

Fixpoint EscapeString (s : string) : string :=
  match s with
  | EmptyString => ""
  | String c s => html_byte c +:+ EscapeString s
  end.

(** ** [url.QueryEscape] *)

Definition query_safe (b : Z) : bool :=
  (in_range 97 122 b || in_range 65 90 b || in_range 48 57 b
   || existsb (Z.eqb b) [45; 95; 46; 126])%bool.

Fixpoint QueryEscape (s : string) : string :=
  match s with
  | EmptyString => EmptyString
  | String c s =>
    if query_safe (byteZ c) then String c (QueryEscape s)
    else if byteZ c =? 32 then String "+" (QueryEscape s)
    else String "%" (String (hex_digit (byteZ c / 16)) (String (hex_digit (byteZ c mod 16))
           (QueryEscape s)))
  end.

(** Escaped text is inert in HTML: no tag, attribute or entity can start in it but the
    five entities written by the escape itself. *)
Lemma EscapeString_inert s c :
  c ∈ ["060"; "062"; "034"; "039"]%char → ContainsByte c (EscapeString s) = false.
Proof.
  intros Hc. induction s as [|d s IH]; [done|]. simpl. rewrite ContainsByte_app, IH, orb_false_r.
  assert (c = "060" ∨ c = "062" ∨ c = "034" ∨ c = "039")%char as Hcase by set_solver.
  unfold html_byte. destruct Hcase as [-> |[-> |[-> | ->]]];
    (repeat case_bool_decide; [reflexivity..|]); simpl; rewrite bool_decide_eq_false_2; done.
Qed.
