(* ===== verification/HttpApi.v ===== *)
(** * [internal/httpapi]: bearer authentication, policies, error responses

    The HTTP layer that all modules share. Huma and chi are libraries: routing, the parsing
    and validation of inputs ([parse]) and the encoding of bodies are theirs, and the model
    has what the program relies on: middlewares run in order around the handler, an error of
    the handler is written with its status and headers, any other result with the status of
    the operation. A request context is the principal and the metadata the program puts in
    it; [ctx_done] tells when it is over.

    A computation [M (reply D)] answers the request; its error result is a panic. *)
From stdpp Require Import pretty.
From S2P Require Import Prelude.
From S2P Require Import Text.
From S2P Require Import GoErrors.
From S2P Require Import Runtime.
From S2P Require Import Identity.
From S2P Require Import Pagination.
From S2P Require Import Schema.
From S2P Require Import Storage.
From S2P Require Import Logic.
From Stdlib Require Import Ascii.

(** ** Functions of [strings] and [net] *)

(** [strings.Fields]: the maximal runs of runes that are not white space. *)
Fixpoint fields_chunks (cs : list chunk) (word : list chunk) : list string :=
  match cs with
  | [] => if bool_decide (word = []) then [] else [encode (reverse word)]
  | c :: cs =>
    if IsSpace (rune c)
    then (if bool_decide (word = []) then [] else [encode (reverse word)]) ++ fields_chunks cs []
    else fields_chunks cs (c :: word)
  end.

Definition Fields (s : string) : list string := fields_chunks (decode s) [].

(** The least rune of the ASCII letters that fold to the same letter; the Kelvin sign and
    the long s are the only other runes that fold to ASCII. *)
Definition fold_ascii (r : Z) : Z :=
  if in_range 65 90 r then r + 32
  else if r =? 8490 then 107
  else if r =? 383 then 115
  else r.

(** [strings.EqualFold(s, t)] for an ASCII [t]. *)
Definition EqualFold (s t : string) : bool :=
  bool_decide (map (λ c, (valid c, fold_ascii (rune c))) (decode s)
               = map (λ c, (valid c, fold_ascii (rune c))) (decode t)).

Fixpoint IndexByte (b : ascii) (s : string) : option nat :=
  match s with
  | EmptyString => None
  | String c s => if c ==? b then Some O else S <$> IndexByte b s
  end.

Fixpoint LastIndexByte (b : ascii) (s : string) : option nat :=
  match s with
  | EmptyString => None
  | String c s =>
    match LastIndexByte b s with
    | Some i => Some (S i)
    | None => if c ==? b then Some O else None
    end
  end.

Fixpoint take_string (n : nat) (s : string) : string :=
  match n, s with
  | S n, String c s => String c (take_string n s)
  | _, _ => EmptyString
  end.

(** [net.SplitHostPort]; [None] is an error, for which Go returns empty strings. *)
Definition SplitHostPort (hostport : string) : option (string * string) :=
  match LastIndexByte ":" hostport with
  | None => None
  | Some i =>
    let port := drop_string (S i) hostport in
    let finish host j k :=
      if (ContainsByte "[" (drop_string j hostport) || ContainsByte "]" (drop_string k hostport))%bool
      then None else Some (host, port) in
    if HasPrefix hostport "[" then
      match IndexByte "]" hostport with
      | None => None
      | Some stop =>
        if (S stop =? i)%nat then finish (take_string (stop - 1)%nat (drop_string 1 hostport)) 1%nat (S stop)
        else None
      end
    else
      let host := take_string i hostport in
      if ContainsByte ":" host then None else finish host 0%nat 0%nat
  end.

Example SplitHostPort_v4 : SplitHostPort "10.0.0.1:443" = Some ("10.0.0.1", "443").
Proof. reflexivity. Qed.
Example SplitHostPort_v6 : SplitHostPort "[::1]:8080" = Some ("::1", "8080").
Proof. reflexivity. Qed.
Example SplitHostPort_bad : map SplitHostPort ["::1"; "host"; "[::1]"; "[::1]x:1"; "a[b:1"] =
  [None; None; None; None; None].
Proof. reflexivity. Qed.
Example Fields_spaces : Fields "  Bearer  tk_a " = ["Bearer"; "tk_a"].
Proof. vm_compute. reflexivity. Qed.

(** ** Request contexts *)

Inductive ctx_error : Type := CtxCanceled | CtxDeadlineExceeded.

Definition ctx_sentinel (c : ctx_error) : error :=
  match c with
  | CtxCanceled => ESentinel ContextCanceled
  | CtxDeadlineExceeded => ESentinel ContextDeadlineExceeded
  end.

(** Whether the context of the request is over at a step, and why. *)
Class Deadlines := { ctx_done : nat → option ctx_error }.

(** middleware.go *)
Record RequestMeta : Type := mkRequestMeta { Meta_ID : string; Meta_ClientIP : string }.

Record Ctx : Type := mkCtx {
  ctx_principal : context;
  ctx_meta : option RequestMeta
}.

Definition Metadata (ctx : Ctx) : RequestMeta := default (mkRequestMeta "" "") (ctx_meta ctx).

(** What the handlers see of [huma.Context]: the request header they read, the rest of the
    request for the library to parse, and the response header set so far. *)
Record HContext : Type := mkHContext {
  h_ctx : Ctx;
  h_Authorization : string;
  h_input : string;
  h_header : gmap string string
}.

Global Instance eta_Ctx : Settable Ctx.
Proof. refine {| eta := λ r, mkCtx (ctx_principal r) (ctx_meta r); eta_id := _ |}; solve_eta. Defined.
Global Instance eta_HContext : Settable HContext.
Proof.
  refine {| eta := λ r, mkHContext (h_ctx r) (h_Authorization r) (h_input r) (h_header r); eta_id := _ |};
    solve_eta.
Defined.

Definition SetHeader (name value : string) (c : HContext) : HContext :=
  c <| h_header := <[name := value]> (h_header c) |>.

(** ** Replies *)

(** [http.StatusText] of the statuses in use. *)
Definition StatusText (status : Z) : string :=
  default "" ((list_to_map
    [(400, "Bad Request"); (401, "Unauthorized"); (403, "Forbidden"); (404, "Not Found");
     (405, "Method Not Allowed"); (409, "Conflict"); (413, "Request Entity Too Large");
     (422, "Unprocessable Entity"); (429, "Too Many Requests"); (500, "Internal Server Error");
     (501, "Not Implemented"); (503, "Service Unavailable"); (504, "Gateway Timeout")]
    : gmap Z string) !! status).

(** [huma.ErrorModel]. *)
Record ErrorModel : Type := mkErrorModel {
  Model_Status : Z;
  Model_Title : string;
  Model_Detail : string;
  Model_Errors : list string
}.

(** [huma.NewError]. *)
Definition NewError (status : Z) (detail : string) (errors : list string) : ErrorModel :=
  mkErrorModel status (StatusText status) detail errors.

Inductive body (D : Type) : Type :=
| Problem_ (m : ErrorModel)
| Content (d : D)
| Empty_.
Arguments Problem_ {D} m.
Arguments Content {D} d.
Arguments Empty_ {D}.

Record reply (D : Type) : Type := mkReply {
  Reply_Status : Z;
  Reply_Header : gmap string string;
  Reply_Body : body D
}.
Arguments mkReply {D}.
Arguments Reply_Status {D}.
Arguments Reply_Header {D}.
Arguments Reply_Body {D}.

(** A handler's output: the header fields of its type and its body. *)
Record Output (D : Type) : Type := mkOutput { Output_Header : list (string * string); Output_Body : D }.
Arguments mkOutput {D}.
Arguments Output_Header {D}.
Arguments Output_Body {D}.

(** ** errors.go *)

(** A validation error's details may repeat what the client sent: they are replaced. *)
Definition sanitizeErrors (model : ErrorModel) : ErrorModel :=
  match Model_Errors model with
  | [] => model
  | _ => mkErrorModel (Model_Status model) (Model_Title model) (Model_Detail model)
           ["request validation failed"]
  end.

Definition Problem {D} (status : Z) (detail : string) (header : gmap string string) : reply D :=
  mkReply status (<["Content-Type" := "application/problem+json"]> header)
    (Problem_ (NewError status detail [])).

(** The library writes an error model after the transformers of [New]. *)
Definition write_model {D} (model : ErrorModel) (c : HContext) : reply D :=
  mkReply (Model_Status model) (h_header c) (Problem_ (sanitizeErrors model)).

(** [huma.WriteErr]. *)
Definition WriteErr {D} (c : HContext) (status : Z) (detail : string) : reply D :=
  write_model (NewError status detail []) c.

Definition Ceil_seconds (delay : Z) : Z := (delay + Second - 1) / Second.

Section errors.
  Context `{Sch : Schedule, Dl : Deadlines}.

(** [ctx.Err()] *)
Definition ctx_Err : M (option error) :=
  n ← next_step;
  mret (ctx_sentinel <$> ctx_done n).

(** [errors.Is(err, context.DeadlineExceeded)] for an [err] that may be nil. *)
Definition is_deadline (err : option error) : bool :=
  match err with Some e => Is e (TSentinel ContextDeadlineExceeded) | None => false end.

Definition logFailure (stage message : string) (err : error) : M unit :=
  log_attrs message (("stage", stage) :: DiagnosticAttrs (Some err)).

Definition InternalError (err : error) : M error :=
  over ← ctx_Err;
  if (is_deadline (Some err) || is_deadline over)%bool
  then
    _ ← logFailure "handle_request" "operation failed" (ESentinel ContextDeadlineExceeded);
    mret (EStatus 504 "request deadline exceeded")
  else
    _ ← logFailure "handle_request" "operation failed" err;
    mret (EStatus 500 "internal server error").

(** For a non-nil error. *)
Definition FromError (err : error) : M error :=
  match As asBusiness err with
  | Some business =>
    let text := Error_message business in
    match Error_Kind business with
    | NotFound => mret (EStatus 404 text)
    | Conflict => mret (EStatus 409 text)
    | Invalid => mret (EStatus 422 text)
    | Unauthenticated => mret (EStatus 401 text)
    | Forbidden => mret (EStatus 403 text)
    | RateLimited =>
      let response := EStatus 429 text in
      let '(delay, ok) := RetryAfter err in
      if ok
      then mret (EHeaders response [("Retry-After", pretty (Ceil_seconds delay))])
      else mret response
    | Unavailable =>
      _ ← logFailure "handle_request" "dependency unavailable" err;
      mret (EStatus 503 text)
    | OtherKind _ => InternalError err
    end
  | None =>
    match As asStatusError err with
    | Some statusError => mret statusError
    | None => InternalError err
    end
  end.

(** How the library writes the error of a handler. *)
Definition write_error {D} (c : HContext) (err : error) : reply D :=
  let c := fold_left (λ c '(name, value), SetHeader name value c)
             (default [] (As asHeaders err)) c in
  match As asStatusError err with
  | Some (EStatus status detail) => WriteErr c status detail
  | _ => WriteErr c 500 "unexpected error occurred"
  end.

End errors.

(** ** auth.go *)

Definition bearer (header : string) : string * bool :=
  match Fields header with
  | [scheme; token] => if EqualFold scheme "Bearer" then (token, true) else ("", false)
  | _ => ("", false)
  end.

(** [identity.Authenticator]: receives the token, not the header. *)
Class Authenticator := { Authenticate : string → M Principal }.

Definition handler (D : Type) : Type := HContext → M (reply D).

(** [func(huma.Context, func(huma.Context))], for any type of body. *)
Definition middleware : Type := ∀ D : Type, handler D → handler D.

Definition no_principal : Principal := {| Principal_Subject := ""; Principal_SessionID := "" |}.

(** [principal, err := ...]: the zero value comes with an error. *)
Definition both (r : res error Principal) : Principal * option error :=
  match r with Ok p => (p, None) | Err e => (no_principal, Some e) end.

Section auth.
  Context `{Sch : Schedule, Dl : Deadlines, Auth : Authenticator}.

(** What [Middleware] does with the outcome of the authentication. *)
Definition after_authentication (outcome : res error Principal) : middleware := λ D next c,
  let '(principal, err) := both outcome in
  over ← ctx_Err;
  if (is_deadline err || is_deadline over)%bool then
    _ ← logFailure "authenticate_session" "authentication failed" (ESentinel ContextDeadlineExceeded);
    mret (WriteErr c 504 "authentication deadline exceeded")
  else
    let unauthorized := mret (WriteErr (SetHeader "WWW-Authenticate" "Bearer" c) 401 "session_invalid") in
    match err with
    | Some e =>
      if negb (Is e (TSentinel IdentityErrUnauthorized)) then
        _ ← logFailure "authenticate_session" "authentication failed" e;
        mret (WriteErr c 503 "authentication service unavailable")
      else unauthorized
    | None =>
      if Principal_Subject principal ==? "" then unauthorized
      else
        let c := SetHeader "Cache-Control" "no-store" c in
        next (c <| h_ctx := (h_ctx c) <| ctx_principal := WithPrincipal principal |> |>)
    end.

Definition Middleware : middleware := λ D next c,
  let '(raw, ok) := bearer (h_Authorization c) in
  outcome ← (if ok then try (Authenticate raw) else mret (Err (ESentinel IdentityErrUnauthorized)));
  after_authentication outcome D next c.

End auth.

(** ** policy.go *)

Definition AuthPolicy : Type := string.
Definition Public : AuthPolicy := "public".
Definition Session : AuthPolicy := "bearer".

(** The fields of [huma.Operation] the program sets. *)
Record HumaOperation : Type := mkHumaOperation {
  OperationID : string;
  op_Method : string;
  op_Path : string;
  op_Tags : list string;
  DefaultStatus : Z;
  op_Errors : list Z;
  MaxBodyBytes : Z;
  Middlewares : list middleware;
  op_Security : option (list (list (string * list string)))   (* nil or a list of maps *)
}.

Global Instance eta_HumaOperation : Settable HumaOperation.
Proof.
  refine {| eta := λ o, mkHumaOperation (OperationID o) (op_Method o) (op_Path o) (op_Tags o)
              (DefaultStatus o) (op_Errors o) (MaxBodyBytes o) (Middlewares o) (op_Security o);
            eta_id := _ |}; solve_eta.
Defined.

(** An operation with the fields every declaration gives. *)
Definition operation_spec (id method path : string) (tags : list string) (status : Z) : HumaOperation :=
  mkHumaOperation id method path tags status [] 0 [] None.

Record Operation : Type := mkOperation { Operation_spec : HumaOperation; Operation_policy : AuthPolicy }.

(** An error stands for the panic that stops the program at its start. *)
Definition contract (o : Operation) : res error HumaOperation :=
  if ((Operation_policy o !=? Public) && (Operation_policy o !=? Session))%bool
  then Err (EText "路由缺少认证策略")
  else
    match op_Security (Operation_spec o) with
    | Some _ => Err (EText "Security 由认证策略生成，不能独立声明")
    | None =>
      let op := Operation_spec o in
      Ok (if Operation_policy o ==? Session
          then op <| op_Security := Some [[(Session, [])]] |> else op)
    end.

Definition NewOperation (policy : AuthPolicy) (op : HumaOperation) : res error Operation :=
  let operation := mkOperation op policy in
  res_bind (contract operation) (λ _, Ok operation).

(** ** routes.go and responses.go *)

(** An endpoint of service type [S]: its input and body types, whether its output type has a
    body, and its handler, where [None] is a nil output. *)
Record Route (S : Type) : Type := mkRoute {
  Route_operation : Operation;
  Route_I : Type;
  Route_D : Type;
  Route_has_body : bool;
  Route_handle : S → Ctx → Route_I → M (option (Output Route_D))
}.
Arguments mkRoute {S}.
Arguments Route_operation {S}.
Arguments Route_I {S}.
Arguments Route_D {S}.
Arguments Route_has_body {S}.
Arguments Route_handle {S}.

Definition Policy {S} (e : Route S) : AuthPolicy := Operation_policy (Route_operation e).

Section routes.
  Context {S : Type}.

Definition endpoint_ {I D} (has_body : bool) (operation : res error Operation)
    (handle : S → Ctx → I → M (option (Output D))) : res error (Route S) :=
  res_bind operation (λ operation,
  res_bind (contract operation) (λ _, Ok (mkRoute operation I D has_body handle))).

Definition Endpoint {I D} (operation : res error Operation)
    (handle : S → Ctx → I → M (Output D)) : res error (Route S) :=
  endpoint_ true operation (λ service ctx input, output ← handle service ctx input; mret (Some output)).

Definition MapEndpoint {I T D} (operation : res error Operation) (execute : S → Ctx → I → M T)
    (present : T → Output D) : res error (Route S) :=
  Endpoint operation (λ service ctx input, value ← execute service ctx input; mret (present value)).

Definition NoContentEndpoint {I} (operation : res error Operation) (execute : S → Ctx → I → M unit)
    : res error (Route S) :=
  endpoint_ (D := unit) false operation
    (λ service ctx input, _ ← execute service ctx input; mret None).

Definition with_status (status : Z) (operation : res error Operation) : res error Operation :=
  res_bind operation (λ o, Ok (mkOperation ((Operation_spec o) <| DefaultStatus := status |>)
                                 (Operation_policy o))).

Definition ItemOutput {D} (d : D) : Output D := mkOutput [] d.

Definition CreatedEndpoint {I T D} (operation : res error Operation) (execute : S → Ctx → I → M T)
    (convert : T → D) (location : D → string) : res error (Route S) :=
  MapEndpoint (with_status 201 operation) execute
    (λ value, let dto := convert value in mkOutput [("Location", location dto)] dto).

Definition ItemEndpoint {I T D} (operation : res error Operation) (execute : S → Ctx → I → M T)
    (convert : T → D) : res error (Route S) :=
  MapEndpoint (with_status 200 operation) execute (λ value, ItemOutput (convert value)).

(** pagination.go *)
Definition Page (T : Type) : Type := Result T.

Definition PageFrom {A B} (result : Result A) (convert : A → B) : Page B := Map result convert.

Definition PageEndpoint {I T D} (operation : res error Operation)
    (execute : S → Ctx → I → M (Result T)) (convert : T → D) : res error (Route S) :=
  MapEndpoint (with_status 200 operation) execute (λ page, ItemOutput (PageFrom page convert)).

(** The library around a handler: it parses the input, calls the handler, and writes its
    error or its output. *)
Definition success_status (e : Route S) : Z :=
  let declared := DefaultStatus (Operation_spec (Route_operation e)) in
  if declared =? 0 then (if Route_has_body e then 200 else 204) else declared.

Definition write_output (e : Route S) (c : HContext) (output : option (Output (Route_D e)))
    : reply (Route_D e) :=
  match output with
  | Some o =>
    mkReply (success_status e)
      (fold_left (λ h '(name, value), <[name := value]> h) (Output_Header o) (h_header c))
      (Content (Output_Body o))
  | None => mkReply (success_status e) (h_header c) Empty_
  end.

Section bind.
  Context `{Sch : Schedule, Dl : Deadlines}.

(** The function [Bind] registers. *)
Definition bound_call (e : Route S) (service : S) (ctx : Ctx) (input : Route_I e)
    : M (option (Output (Route_D e))) :=
  outcome ← try (Route_handle e service ctx input);
  match outcome with
  | Err err => err' ← FromError err; fail err'
  | Ok output => mret output
  end.

Definition huma_handler (e : Route S) (service : S) (parse : string → res ErrorModel (Route_I e))
    : handler (Route_D e) := λ c,
  match parse (h_input c) with
  | Err model => mret (write_model model c)
  | Ok input =>
    output ← try (bound_call e service (h_ctx c) input);
    match output with
    | Err err => mret (write_error c err)
    | Ok output => mret (write_output e c output)
    end
  end.

(** The first middleware is the outermost. *)
Definition run_middlewares {D} (ms : list middleware) (inner : handler D) : handler D :=
  fold_right (λ m next, m D next) inner ms.

Definition Bind (e : Route S) (service : S) (middlewares : list middleware)
    (parse : string → res ErrorModel (Route_I e)) : res error (handler (Route_D e)) :=
  res_bind (contract (Route_operation e)) (λ operation,
    Ok (run_middlewares (Middlewares operation ++ middlewares) (huma_handler e service parse))).

End bind.

End routes.

(** PageQuery: the library fills in the defaults. *)
Record PageQuery : Type := mkPageQuery { Query_Limit : Z; Query_Offset : Z }.

Definition PageQuery_Params (p : PageQuery) : Params :=
  {| Limit := Query_Limit p; Offset := Query_Offset p |}.

Definition defaultMaxRequestBodyBytes : Z := Z.shiftl 1 20.

Definition ProtectedOperations (tag : string) (extraErrors : list Z) (spec : HumaOperation)
    : res error Operation :=
  NewOperation Session
    (spec <| op_Tags := [tag] |>
          <| op_Errors := [400; 401; 404; 413; 422; 500; 503; 504] ++ extraErrors |>
          <| MaxBodyBytes := defaultMaxRequestBodyBytes |>).

(** [Match] is chi's: whether a route exists for a method and a path. *)
Definition http_methods : list string :=
  ["CONNECT"; "DELETE"; "GET"; "HEAD"; "OPTIONS"; "PATCH"; "POST"; "PUT"; "TRACE"].

Definition MethodNotAllowed {D} (Match : string → string → bool) (RawPath Path : string)
    (header : gmap string string) : reply D :=
  let path := if RawPath ==? "" then Path else RawPath in
  let allowed := List.filter (λ method, Match method path) http_methods in
  Problem 405 "method not allowed" (<["Allow" := String.concat ", " allowed]> header).

(** ** health.go *)

Definition HealthResponse : Type := string.

Section health.
  Context `{Sch : Schedule}.

Definition liveness (_ : M unit) (_ : Ctx) (_ : unit) : M (Output HealthResponse) :=
  mret (ItemOutput "ok").

(** [ready] runs under a deadline of two seconds, which is one of its possible failures. *)
Definition readiness (ready : M unit) (_ : Ctx) (_ : unit) : M (Output HealthResponse) :=
  outcome ← try ready;
  match outcome with
  | Err _ => fail (EStatus 503 "service not ready")
  | Ok _ => mret (ItemOutput "ok")
  end.

Definition HealthRoutes : list (res error (Route (M unit))) :=
  [ Endpoint (NewOperation Public
      (operation_spec "liveness" "GET" "/health/live" ["Health"] 0)) liveness;
    Endpoint (NewOperation Public
      ((operation_spec "readiness" "GET" "/health/ready" ["Health"] 0) <| op_Errors := [503] |>))
      readiness ].

End health.

(** ** middleware.go *)

Section requests.
  Context `{Run : Runtime, Sch : Schedule}.

(** The outermost handler. A panic of [next] is answered and logged. Left out: the log's other
    fields (method, route, bytes, duration, panic value), trace names, and header fields that
    [next] had set when it panicked. *)
Definition Requests {D} (RemoteAddr : string) (next : handler D) : handler D := λ c,
  n ← next_step;
  let requestID := NewID n in
  let c := SetHeader "X-Content-Type-Options" "nosniff" (SetHeader "X-Request-ID" requestID c) in
  let ip := match SplitHostPort RemoteAddr with Some (ip, _) => ip | None => "" end in
  let c := c <| h_ctx := (h_ctx c) <| ctx_meta := Some (mkRequestMeta requestID ip) |> |> in
  outcome ← try (next c);
  answer ← match outcome with
           | Ok answer => mret answer
           | Err _ =>
             _ ← log_attrs "request panic" [("request_id", requestID)];
             mret (Problem 500 "internal server error" (h_header c))
           end;
  _ ← log_attrs "http request" [("request_id", requestID); ("status", pretty (Reply_Status answer))];
  mret answer.

(** ** api.go *)

(** How chi routes a request; [NoMethod] when only other methods have a route for the path. *)
Inductive routed (D : Type) : Type :=
| Found (h : handler D)
| NoMethod (Match : string → string → bool) (RawPath Path : string)
| NoRoute.

Definition not_found {D} (header : gmap string string) : reply D :=
  Problem 404 "route not found" header.

(** The handler that [New] returns; telemetry's wrapper is left out. *)
Definition New_handler {D} (RemoteAddr : string) (route : routed D) : handler D :=
  Requests RemoteAddr (λ c,
    match route with
    | Found _ h => h c
    | NoMethod _ Match RawPath Path => mret (MethodNotAllowed Match RawPath Path (h_header c))
    | NoRoute _ => mret (not_found (h_header c))
    end).

End requests.

(** The settings of Huma that [New] changes. [hook] is the type of its creation hooks. *)
Record HumaConfig (hook : Type) : Type := mkHumaConfig {
  RejectUnknownQueryParameters : bool;
  Transformers : list (ErrorModel → ErrorModel);
  CreateHooks : list hook;
  SchemasPath : string;
  OpenAPIPath : string;
  DocsPath : string;
  SecuritySchemes : list (string * (string * string))      (* name, type and scheme *)
}.
Arguments mkHumaConfig {hook}.
Arguments RejectUnknownQueryParameters {hook}.
Arguments Transformers {hook}.
Arguments CreateHooks {hook}.
Arguments SchemasPath {hook}.
Arguments OpenAPIPath {hook}.
Arguments DocsPath {hook}.
Arguments SecuritySchemes {hook}.

Record HttpConfig : Type := mkHttpConfig { Http_RequestTimeout : Z; Http_DocsEnabled : bool }.

(** [default] is [huma.DefaultConfig]; the names of schemas are left out. *)
Definition New_config {hook} (default : HumaConfig hook) (cfg : HttpConfig) : HumaConfig hook :=
  mkHumaConfig true (Transformers default ++ [sanitizeErrors]) [] ""
    (if Http_DocsEnabled cfg then OpenAPIPath default else "")
    (if Http_DocsEnabled cfg then DocsPath default else "")
    [("bearer", ("http", "bearer"))].

(** ** Facts about bearer headers *)

Definition ascii_chunk (c : ascii) : chunk := Chunk (byteZ c) true (String c "").

Definition plain (c : ascii) : bool := ((byteZ c <? 128) && negb (IsSpace (byteZ c)))%bool.

Fixpoint plain_string (s : string) : bool :=
  match s with EmptyString => true | String c s => (plain c && plain_string s)%bool end.

Lemma decode_ascii c s : byteZ c < 128 → decode (String c s) = ascii_chunk c :: decode s.
Proof.
  intros H. apply decode_step. unfold decode1, utf8_need.
  destruct (Z.ltb_spec (byteZ c) 128); [done|lia].
Qed.

Lemma fields_plain s word rest :
  plain_string s = true → fields_chunks (decode (s +:+ rest)) word
  = fields_chunks (decode rest) (reverse (map ascii_chunk (String.list_ascii_of_string s)) ++ word).
Proof.
  revert word. induction s as [|c s IH]; intros word; [done|].
  cbn [plain_string]. intros [Hc Hs]%andb_true_iff. unfold plain in Hc. bool_to_prop.
  change (String c s +:+ rest) with (String c (s +:+ rest)). rewrite decode_ascii by done. simpl.
  match goal with H : IsSpace _ = false |- _ => rewrite H end.
  rewrite IH, reverse_cons, <-app_assoc by done. done.
Qed.

Lemma encode_ascii s : encode (map ascii_chunk (String.list_ascii_of_string s)) = s.
Proof. induction s as [|c s IH]; [done|]. exact (f_equal (String c) IH). Qed.

Lemma Fields_two a b : a ≠ "" → b ≠ "" → plain_string a = true → plain_string b = true →
  Fields (a +:+ String " " b) = [a; b].
Proof.
  intros Ha Hb Pa Pb. unfold Fields. rewrite fields_plain by done.
  rewrite decode_ascii by done. simpl. rewrite app_nil_r.
  rewrite bool_decide_eq_false_2.
  2: { intros Hn. apply (f_equal reverse) in Hn. rewrite reverse_involutive in Hn. by destruct a. }
  rewrite reverse_involutive, encode_ascii. simpl. f_equal.
  rewrite <-(app_nil_str b) at 1. rewrite fields_plain by done.
  change (decode "") with (@nil chunk). simpl. rewrite app_nil_r, reverse_involutive, encode_ascii.
  rewrite bool_decide_eq_false_2; [done|].
  intros Hn. apply (f_equal reverse) in Hn. rewrite reverse_involutive in Hn. by destruct b.
Qed.

Lemma plain_app a b : plain_string (a +:+ b) = (plain_string a && plain_string b)%bool.
Proof.
  induction a as [|c a IH]; [done|].
  change (String c a +:+ b) with (String c (a +:+ b)). simpl. rewrite IH. apply andb_assoc.
Qed.

Lemma plain_encoded s : plain_string (EncodeToString s) = true.
Proof.
  unfold EncodeToString.
  pose proof (b64_encode_sextet _ (bytes_of_bound s)) as H. revert H.
  generalize (b64_encode (bytes_of s)). intros l H. induction H as [|v l Hv _ IH]; [done|].
  simpl. rewrite IH, andb_true_r.
  apply (seqZ_forallb (λ v, plain (b64_char v)) 64); [vm_compute; reflexivity|done].
Qed.

(** Whoever got a token of the program can present it in the header. *)
Lemma bearer_token `{R : Runtime} token prefix d :
  TokenDigest token prefix = Ok d → prefix ≠ "" → plain_string prefix = true →
  bearer ("Bearer " +:+ token) = (token, true).
Proof.
  intros H Hne Hp. apply TokenDigest_canonical in H as (_ & entropy & _ & ->).
  unfold bearer. change ("Bearer " +:+ ?t) with ("Bearer" +:+ String " " t). rewrite Fields_two.
  - change (EqualFold "Bearer" "Bearer") with true. done.
  - done.
  - by destruct prefix.
  - done.
  - by rewrite plain_app, Hp, plain_encoded.
Qed.

(** ** Facts about error responses *)

Definition kind_status (k : Kind) : option Z :=
  match k with
  | NotFound => Some 404 | Conflict => Some 409 | Invalid => Some 422 | Unauthenticated => Some 401
  | Forbidden => Some 403 | RateLimited => Some 429 | Unavailable => Some 503 | OtherKind _ => None
  end.

Lemma Ceil_seconds_spec d n : Ceil_seconds d = n ↔ (n - 1) * Second < d ≤ n * Second.
Proof. unfold Ceil_seconds, Second. split; intros H; Z.div_mod_to_equations; lia. Qed.

Section error_facts.
  Context `{Sch : Schedule, Dl : Deadlines}.

(** What an [error] may tell a client: the text of a business error in its tree or of a status
    the HTTP layer chose itself, else one of two fixed answers. *)
Definition disclosed (err : error) (status : Z) (detail : string) : Prop :=
  (∃ b, EBusiness b ∈ chain err ∧ detail = Error_message b ∧ kind_status (Error_Kind b) = Some status)
  ∨ EStatus status detail ∈ chain err
  ∨ (status = 500 ∧ detail = "internal server error")
  ∨ (status = 504 ∧ detail = "request deadline exceeded").

Lemma As_elem {A} (f : error → option A) e y : As f e = Some y → ∃ x, x ∈ chain e ∧ f x = Some y.
Proof. apply find_map_Some. Qed.

Lemma InternalError_answer err w : ∃ status detail w',
  InternalError err w = (Ok (EStatus status detail), w')
  ∧ w_db w' = w_db w ∧ w_clock w ≤ w_clock w'
  ∧ (status = 500 ∧ detail = "internal server error" ∨ status = 504 ∧ detail = "request deadline exceeded").
Proof.
  unfold InternalError, ctx_Err, logFailure, log_attrs, next_step, mbind, M_bind, mret, M_ret. simpl.
  destruct (_ || _)%bool; (eexists _, _, _; split; [done|]; simpl; split_and!; [done|lia|naive_solver]).
Qed.

Lemma FromError_answer err w : ∃ e w' status detail,
  FromError err w = (Ok e, w') ∧ w_db w' = w_db w ∧ w_clock w ≤ w_clock w'
  ∧ As asStatusError e = Some (EStatus status detail) ∧ disclosed err status detail.
Proof.
  unfold FromError, disclosed. destruct (As asBusiness err) as [b|] eqn:Eb.
  - apply As_elem in Eb as (x & Hx & Hb). destruct x; simplify_eq/=.
    destruct (Error_Kind b) eqn:Ek;
      try (eexists _, _, _, _; split; [done|]; split_and!; [done|simpl; lia|done|];
           left; eexists; rewrite Ek; done).
    + destruct (RetryAfter err) as [delay []];
        (eexists _, _, _, _; split; [done|]; split_and!; [done|simpl; lia|done|];
         left; eexists; rewrite Ek; done).
    + destruct (InternalError_answer err w) as (s & d & w' & -> & Hd & Hc & Ho).
      eexists _, _, _, _. split; [done|]. split_and!; [done|done|done|]. right; right. exact Ho.
  - destruct (As asStatusError err) as [s|] eqn:Es.
    + apply As_elem in Es as (x & Hx & Hs). destruct x; simplify_eq/=.
      eexists _, _, _, _. split; [done|]. split_and!; [done|lia|done|]. by right; left.
    + destruct (InternalError_answer err w) as (st & d & w' & -> & Hd & Hc & Ho).
      eexists _, _, _, _. split; [done|]. split_and!; [done|done|done|]. right; right. exact Ho.
Qed.

(** A refusal by the rate limit says in whole seconds, rounded up, when to come back. *)
Lemma FromError_retry err b delay w :
  As asBusiness err = Some b → Error_Kind b = RateLimited → RetryAfter err = (delay, true) →
  FromError err w = (Ok (EHeaders (EStatus 429 (Error_message b))
                           [("Retry-After", pretty (Ceil_seconds delay))]), w).
Proof. intros Hb Hk Hr. unfold FromError. by rewrite Hb, Hk, Hr. Qed.

(** The reply to a failed handler shows the client no more than [disclosed] allows. *)
Lemma write_error_reply {D} c e status detail :
  As asStatusError e = Some (EStatus status detail) →
  Reply_Status (write_error (D := D) c e) = status
  ∧ Reply_Body (write_error (D := D) c e) = Problem_ (NewError status detail []).
Proof. intros H. unfold write_error. by rewrite H. Qed.

Lemma FromError_total err : never_fails (FromError err).
Proof. intros w. destruct (FromError_answer err w) as (e & w' & _ & _ & H & _). eauto. Qed.

(** What the bound handler makes of a request: the input is refused, the handler succeeds, or
    its error is translated. *)
Lemma huma_handler_cases {S} (e : Route S) service parse c w : ∃ r w',
  huma_handler e service parse c w = (Ok r, w')
  ∧ match parse (h_input c) with
    | Err model => r = write_model model c ∧ w' = w
    | Ok input =>
      match Route_handle e service (h_ctx c) input w with
      | (Ok output, w1) => r = write_output e c output ∧ w' = w1
      | (Err err, w1) => ∃ err', FromError err w1 = (Ok err', w') ∧ r = write_error c err'
      end
    end.
Proof.
  unfold huma_handler, bound_call, try, mbind, M_bind, mret, M_ret, fail.
  destruct (parse (h_input c)) as [input|model]; [|by eauto].
  destruct (Route_handle e service (h_ctx c) input w) as [[output|err] w1]; [by eauto 10|].
  destruct (FromError_answer err w1) as (e' & w' & _ & _ & H & _). rewrite H. eauto 10.
Qed.

End error_facts.

(** ** What the middleware guarantees *)

Section middleware_facts.
  Context `{Sch : Schedule, Dl : Deadlines, Auth : Authenticator}.

(** The world after the request's credentials were looked at. *)
Definition looked_up (c : HContext) (w : World) : World :=
  if (bearer (h_Authorization c)).2 then (Authenticate (bearer (h_Authorization c)).1 w).2 else w.

(** An answer given in place of the handler. *)
Definition refusal {D} (r : reply D) : Prop :=
  ∃ m, Reply_Body r = Problem_ m ∧ Model_Status m = Reply_Status r
    ∧ (Reply_Status r = 401 ∧ Reply_Header r !! "WWW-Authenticate" = Some "Bearer"
       ∨ Reply_Status r = 503 ∨ Reply_Status r = 504).

Definition admitted (c : HContext) (p : Principal) : HContext :=
  let c := SetHeader "Cache-Control" "no-store" c in
  c <| h_ctx := (h_ctx c) <| ctx_principal := Some p |> |>.

Lemma after_authentication_cases D outcome (next : handler D) c w x w' :
  after_authentication outcome D next c w = (x, w') →
  (∃ r, x = Ok r ∧ refusal r ∧ w_db w' = w_db w)
  ∨ ∃ p, outcome = Ok p ∧ Principal_Subject p ≠ "" ∧ next (admitted c p) (advance w) = (x, w').
Proof.
  unfold after_authentication, ctx_Err, logFailure, log_attrs, next_step, mbind, M_bind, mret, M_ret.
  destruct (both outcome) as [p err] eqn:Eb. destruct (_ || _)%bool.
  { intros [= <- <-]. left. eexists. split_and!; [done| |done]. eexists. split_and!; [done..|]. by right; right. }
  destruct err as [e|].
  - destruct (negb _); intros [= <- <-]; left; (eexists; split_and!; [done| |done]);
      (eexists; split_and!; [done..|]); [by right; left|left].
    split; [done|]. apply lookup_insert_eq.
  - destruct (bool_decide _) eqn:Es.
    + intros [= <- <-]. left. eexists. split_and!; [done| |done]. eexists. split_and!; [done..|].
      left. split; [done|]. apply lookup_insert_eq.
    + intros H. right. bool_to_prop. destruct outcome as [p'|e']; [|done]. injection Eb as ->.
      by exists p.
Qed.

Lemma Middleware_cases D (next : handler D) c w x w' :
  Middleware D next c w = (x, w') →
  (∃ r, x = Ok r ∧ refusal r ∧ w_db w' = w_db (looked_up c w))
  ∨ ∃ token p w1, bearer (h_Authorization c) = (token, true) ∧ Authenticate token w = (Ok p, w1)
    ∧ Principal_Subject p ≠ "" ∧ next (admitted c p) (advance w1) = (x, w').
Proof.
  unfold Middleware, looked_up. destruct (bearer (h_Authorization c)) as [token []]; simpl.
  - unfold try, mbind, M_bind. destruct (Authenticate token w) as [o w1] eqn:Ea. simpl.
    intros [?|(p & -> & Hp & H)]%after_authentication_cases; [by left|right]. by exists token, p, w1.
  - intros [?|(p & [=] & _)]%after_authentication_cases. by left.
Qed.

End middleware_facts.

(** ** What a client learns of a failure *)

Section disclosure.
  Context `{Sch : Schedule, Dl : Deadlines}.

(** C34: Whatever error a handler returns, the client sees the text of a business error in it or
    of a status chosen by the HTTP layer, or one of two fixed texts, with the status of that
    text and without details; writing the answer changes nothing in the database. *)
Theorem failed_reply_discloses {S} (e : Route S) service parse c input w err w1 :
  parse (h_input c) = Ok input → Route_handle e service (h_ctx c) input w = (Err err, w1) →
  ∃ r w' status detail, huma_handler e service parse c w = (Ok r, w')
    ∧ w_db w' = w_db w1 ∧ Reply_Status r = status
    ∧ Reply_Body r = Problem_ (NewError status detail []) ∧ disclosed err status detail.
Proof.
  intros Hp He. destruct (huma_handler_cases e service parse c w) as (r & w' & Hr & Hc).
  rewrite Hp, He in Hc. destruct Hc as (err' & Hf & ->).
  destruct (FromError_answer err w1) as (e' & w2 & status & detail & Hf' & Hd & _ & Hs & Ho).
  rewrite Hf' in Hf. injection Hf as -> ->.
  destruct (write_error_reply (D := Route_D e) c err' status detail Hs) as [H1 H2].
  eexists _, _, status, detail. split_and!; [exact Hr|done..].
Qed.

(** An answer 429 says in [Retry-After] the least whole number of seconds, at least one,
    that covers the delay of the error. *)
Theorem rate_limited_reply {S} (e : Route S) service parse c input w err w1 b delay :
  parse (h_input c) = Ok input → Route_handle e service (h_ctx c) input w = (Err err, w1) →
  As asBusiness err = Some b → Error_Kind b = RateLimited → RetryAfter err = (delay, true) →
  Second ≤ delay →
  ∃ r n, huma_handler e service parse c w = (Ok r, w1) ∧ Reply_Status r = 429
    ∧ Reply_Header r !! "Retry-After" = Some (pretty n)
    ∧ 1 ≤ n ∧ (n - 1) * Second < delay ≤ n * Second.
Proof.
  intros Hp He Hb Hk Hr Hd. destruct (huma_handler_cases e service parse c w) as (r & w' & H & Hc).
  rewrite Hp, He in Hc. destruct Hc as (err' & Hf & ->).
  rewrite (FromError_retry err b delay w1 Hb Hk Hr) in Hf. injection Hf as <- <-.
  exists (write_error c (EHeaders (EStatus 429 (Error_message b)) [("Retry-After", pretty (Ceil_seconds delay))])).
  exists (Ceil_seconds delay). pose proof (proj1 (Ceil_seconds_spec delay _) eq_refl) as Hn.
  split_and!; [exact H|done|simpl; apply lookup_insert_eq| |lia|lia].
  unfold Second in *. lia.
Qed.

End disclosure.
