(* ===== verification/FederationClient.v ===== *)
(** * [internal/platform/federation]: the registry of identity providers

    Checks of the configuration, the authorization address and the verification of a code.
    The OAuth library, URL parsing and the answers of the provider are parameters; the
    registry decides what is accepted and how failures are classified. *)
From stdpp Require Import pretty.
From S2P Require Import Prelude.
From S2P Require Import Text.
From S2P Require Import GoErrors.
From S2P Require Import Runtime.
From S2P Require Import Schema.
From S2P Require Import Json.
From S2P Require Import Identity.
From Stdlib Require Import Ascii.

Definition ErrProof : error := ESentinel FederationErrProof.
Definition ErrUnavailable : error := ESentinel FederationErrUnavailable.
Definition unavailable_text : string := "第三方服务不可用".

Definition Protocol : Type := string.
Definition ProtocolGitHub : Protocol := "github".
Definition Protocol_Valid (p : Protocol) : bool := p ==? ProtocolGitHub.

Definition maxAuthorizationCodeBytes : Z := Z.shiftl 8 10.
Definition githubIdentityNamespace : string := "https://api.github.com".
Definition githubUserEndpoint : string := githubIdentityNamespace +:+ "/user".

Record Config : Type := mkConfig {
  Config_ID : string;
  Config_Protocol : Protocol;
  ClientID : string;
  ClientSecret : string;
  ClientSecretFile : string;
  RedirectURI : string
}.

Record Verified : Type := mkVerified {
  Verified_Namespace : string; Verified_Subject : string; Verified_Name : string
}.

Record githubUserResponse : Type := mkGithubUser { github_ID : Z; github_Login : string }.

Record provider : Type := mkProvider { provider_config : Config; version : string }.

Definition Registry : Type := gmap string provider.

(** ** Libraries *)

(** The parts of a parsed URL the checks look at; [None] is a parse error. *)
Record URL : Type := mkURL { Scheme : string; Host : string; URL_User : option string; Fragment : string }.

Class UrlParser := { url_Parse : string → option URL }.

(** How [oauth2.Config.Exchange] can fail: the server's refusal, with the status of its
    response if there was one and its error code, or any other error. *)
Inductive exchange_error : Type :=
| RetrieveError (StatusCode : option Z) (ErrorCode : string) (err : error)
| OtherExchangeError (err : error).

Record oauth2_Config : Type := mkOauth2Config {
  oauth2_ClientID : string; oauth2_ClientSecret : string; oauth2_RedirectURL : string;
  oauth2_AuthURL : string; oauth2_TokenURL : string; oauth2_Scopes : list string
}.

Class OAuth := {
  AuthCodeURL : oauth2_Config → string → string → string;
  Exchange : nat → oauth2_Config → string → string → res exchange_error string;
  (* the answer to a GET with this access token: a transport error, or the status with the
     decoded body *)
  GetUser : nat → string → string → res error (Z * res error githubUserResponse)
}.

(** What [ctx.Err()] answers at the first and at the second moment a call asks. *)
Record Asked : Type := mkAsked { first_ask : option error; second_ask : option error }.

(** ** Configuration *)

Definition id_first (c : ascii) : bool := in_range 97 122 (byteZ c).
Definition id_rest (c : ascii) : bool :=
  (id_first c || in_range 48 57 (byteZ c) || (byteZ c =? 95) || (byteZ c =? 45))%bool.

Fixpoint all_bytes (f : ascii → bool) (s : string) : bool :=
  match s with EmptyString => true | String c s => (f c && all_bytes f s)%bool end.

(** [^[a-z][a-z0-9_-]{0,63}$] *)
Definition validID (s : string) : bool :=
  match s with
  | EmptyString => false
  | String c s => (id_first c && all_bytes id_rest s && (len s <=? 63))%bool
  end.

Fixpoint hex_encode (s : string) : string :=
  match s with
  | EmptyString => EmptyString
  | String c s =>
    String (hex_lower (byteZ c / 16)) (String (hex_lower (byteZ c mod 16)) (hex_encode s))
  end.

Section registry.
  Context `{Run : Runtime, Url : UrlParser, OA : OAuth}.

Definition validURL (raw : string) : bool :=
  match url_Parse raw with
  | Some u =>
    (Host u !=? "") && (URL_User u ==? None) && (Fragment u ==? "") && (Scheme u ==? "https")
  | None => false
  end%bool.

Definition Config_Marshal (c : Config) : string :=
  Marshal (JObject [("id", JString (Config_ID c)); ("protocol", JString (Config_Protocol c));
                    ("client_id", JString (ClientID c));
                    ("client_secret_file", JString (ClientSecretFile c));
                    ("redirect_uri", JString (RedirectURI c))]).

Definition config_version (c : Config) : string :=
  hex_encode (sha256_Sum256 (Config_Marshal c +:+ ClientSecret c)).

Fixpoint New_loop (configs : list Config) (r : Registry) : res error Registry :=
  match configs with
  | [] => Ok r
  | c :: configs =>
    if (negb (validID (Config_ID c)) || (Config_ID c ==? "credential") || (Config_ID c ==? "callback")
        || bool_decide (is_Some (r !! Config_ID c)) || (ClientID c ==? "") || (ClientSecret c ==? "")
        || negb (validURL (RedirectURI c)))%bool
    then Err (EText "提供商配置无效")
    else if negb (Protocol_Valid (Config_Protocol c)) then Err (EText "提供商协议无效")
    else New_loop configs (<[Config_ID c := mkProvider c (config_version c)]> r)
  end.

Definition New (configs : list Config) : res error Registry := New_loop configs ∅.

Definition Enabled (r : Registry) (id : string) : bool := bool_decide (is_Some (r !! id)).

Definition Version (r : Registry) (id : string) : string :=
  match r !! id with Some p => version p | None => "" end.

Definition configuration (r : Registry) (id : string) : res error (provider * oauth2_Config) :=
  match r !! id with
  | None => Err ErrProof
  | Some p =>
    let c := provider_config p in
    Ok (p, mkOauth2Config (ClientID c) (ClientSecret c) (RedirectURI c)
             "https://github.com/login/oauth/authorize" "https://github.com/login/oauth/access_token"
             ["read:user"])
  end.

Definition Start (r : Registry) (asked : Asked) (id state verifier : string) : res error (string * string) :=
  match first_ask asked with
  | Some err => Err err
  | None =>
    res_bind (configuration r id) (λ '(p, c), Ok (AuthCodeURL c state verifier, version p))
  end.

(** ** Classification of failures *)

Definition dependencyError (asked : Asked) (err : error) : error :=
  match second_ask asked with
  | Some e => e
  | None => EMulti unavailable_text [ErrUnavailable; err]
  end.

Definition exchange_cause (e : exchange_error) : error :=
  match e with RetrieveError _ _ err => err | OtherExchangeError err => err end.

Definition exchangeError (asked : Asked) (e : exchange_error) : error :=
  match first_ask asked with
  | Some err => err
  | None =>
    match e with
    | RetrieveError status code err =>
      if match status with Some s => ((500 <=? s) || (s =? 429))%bool | None => false end
      then dependencyError asked err
      else if bool_decide (code ∈ ["invalid_grant"; "bad_verification_code"; "access_denied"])
      then ErrProof
      else dependencyError asked err
    | OtherExchangeError err => dependencyError asked err
    end
  end.

(** The request for the user cannot be malformed: its method and address are constants. *)
Definition Verify (r : Registry) (asked : Asked) (n : nat) (id version_ code verifier : string)
    : res error Verified :=
  res_bind (configuration r id) (λ '(p, c),
  if ((version p !=? version_) || (code ==? "") || (maxAuthorizationCodeBytes <? len code))%bool
  then Err ErrProof
  else
    match Exchange n c code verifier with
    | Err e => Err (exchangeError asked e)
    | Ok token =>
      match GetUser n githubUserEndpoint token with
      | Err e => Err (dependencyError asked e)
      | Ok (StatusCode, decoded) =>
        if StatusCode =? 401 then Err ErrProof
        else if negb (StatusCode =? 200) then Err ErrUnavailable
        else
          match decoded with
          | Err err => Err (dependencyError asked err)
          | Ok user =>
            if github_ID user <=? 0 then Err ErrUnavailable
            else Ok (mkVerified githubIdentityNamespace (pretty (github_ID user)) (github_Login user))
          end
      end
    end).

(** ** Facts *)

Definition provider_ok (id : string) (p : provider) : Prop :=
  Config_ID (provider_config p) = id ∧ validID id = true ∧ id ≠ "credential" ∧ id ≠ "callback"
  ∧ ClientID (provider_config p) ≠ "" ∧ ClientSecret (provider_config p) ≠ ""
  ∧ validURL (RedirectURI (provider_config p)) = true
  ∧ version p = config_version (provider_config p).

Lemma New_loop_spec configs r r' :
  New_loop configs r = Ok r' → map_Forall provider_ok r →
  map_Forall provider_ok r'
  ∧ (∀ id, is_Some (r' !! id) ↔ is_Some (r !! id) ∨ id ∈ Config_ID <$> configs)
  ∧ NoDup (Config_ID <$> configs) ∧ (∀ c, c ∈ configs → r !! Config_ID c = None).
Proof.
  unfold Registry in *. revert r. induction configs as [|c configs IH]; intros r H Hr; cbn [New_loop] in H.
  { simplify_eq. split_and!; try done; [|constructor|by intros c ?%elem_of_nil].
    intros id. rewrite fmap_nil, elem_of_nil. naive_solver. }
  destruct (_ || _)%bool eqn:E; [done|]. destruct (Protocol_Valid _); [|done]. bool_to_prop. simpl in H.
  apply IH in H as (Q1 & Q2 & Q3 & Q4).
  2: { apply map_Forall_insert_2; [|done]. repeat split; done. }
  match goal with H : ¬ is_Some (r !! _) |- _ => apply eq_None_not_Some in H as Hc end.
  split_and!; [done| | |].
  - intros id. rewrite Q2. setoid_rewrite lookup_insert_is_Some'. rewrite fmap_cons, elem_of_cons. naive_solver.
  - rewrite fmap_cons. constructor; [|done]. rewrite list_elem_of_fmap. intros (c' & He & Hin).
    specialize (Q4 c' Hin). apply lookup_insert_None in Q4 as [_ ?]. congruence.
  - intros c' [->|Hin]%elem_of_cons; [done|]. specialize (Q4 c' Hin).
    apply lookup_insert_None in Q4 as [? _]. done.
Qed.

(** The registry has exactly the configured providers, each under one sound entry: no two with
    the same identifier, none that hides the local accounts or the callback's address, every
    one with a secret and an https address for the answer. *)
Theorem New_sound configs r : New configs = Ok r →
  NoDup (Config_ID <$> configs)
  ∧ (∀ id, Enabled r id = true ↔ id ∈ Config_ID <$> configs)
  ∧ map_Forall provider_ok r.
Proof.
  intros H. apply New_loop_spec in H as (H1 & H2 & H3 & _); [|apply map_Forall_empty].
  split_and!; try done. intros id. unfold Enabled, Registry in *. rewrite bool_decide_eq_true, H2. setoid_rewrite lookup_empty.
  split; [intros [[]%is_Some_None|?]; done|by right].
Qed.

Lemma length_hex_encode s : String.length (hex_encode s) = (2 * String.length s)%nat.
Proof. induction s as [|c s IH]; simpl; [done|]. rewrite IH. lia. Qed.

Lemma Version_Enabled `{L : !RuntimeLaws Run} configs r id :
  New configs = Ok r → (Version r id ≠ "" ↔ Enabled r id = true).
Proof.
  intros H. apply New_sound in H as (_ & _ & Hp). unfold Version, Enabled.
  destruct (r !! id) as [p|] eqn:E; split; try done.
  intros _. destruct (map_Forall_lookup_1 _ _ _ _ Hp E) as (_ & _ & _ & _ & _ & _ & _ & ->).
  intros He. apply (f_equal String.length) in He. unfold config_version in He.
  rewrite length_hex_encode, sha256_Size in He. done.
Qed.

(** A verified identity comes from a configured provider at its present version, for a code
    that was exchanged and a token the provider answered for. *)
Lemma Verify_sound r asked n id v code verifier x :
  Verify r asked n id v code verifier = Ok x →
  Version r id = v ∧ Enabled r id = true ∧ 0 < len code <= maxAuthorizationCodeBytes
  ∧ ∃ c token user, Exchange n c code verifier = Ok token
    ∧ GetUser n githubUserEndpoint token = Ok (200, Ok user) ∧ 0 < github_ID user
    ∧ x = mkVerified githubIdentityNamespace (pretty (github_ID user)) (github_Login user).
Proof.
  unfold Verify, configuration, Version, Enabled. destruct (r !! id) as [p|]; [|done].
  cbn [res_bind]. destruct (_ || _)%bool eqn:E; [done|]. bool_to_prop.
  destruct (Exchange _ _ _ _) as [token|] eqn:Ex; [|done].
  destruct (GetUser _ _ _) as [[status decoded]|] eqn:Eg; [|done].
  destruct (Z.eqb_spec status 401); [done|]. destruct (Z.eqb_spec status 200) as [->|]; [|done]. simpl.
  destruct decoded as [user|]; [|done]. destruct (Z.leb_spec (github_ID user) 0); [done|].
  intros [= <-]. split_and!; try done; [|by eauto 10].
  match goal with H : code ≠ "" |- _ => destruct code; [done|unfold len; simpl; lia] end.
Qed.

(** Every failure is a refused proof, an unavailable provider, or the end of the context. *)
Lemma Verify_errors r asked n id v code verifier e :
  Verify r asked n id v code verifier = Err e →
  Is e (TSentinel FederationErrProof) = true ∨ Is e (TSentinel FederationErrUnavailable) = true
  ∨ first_ask asked = Some e ∨ second_ask asked = Some e.
Proof.
  assert (Hd : ∀ err, dependencyError asked err = e →
    Is e (TSentinel FederationErrProof) = true ∨ Is e (TSentinel FederationErrUnavailable) = true
    ∨ first_ask asked = Some e ∨ second_ask asked = Some e).
  { intros err <-. unfold dependencyError. destruct (second_ask asked); [by do 3 right|right; left].
    rewrite Is_multi. done. }
  unfold Verify, configuration. destruct (r !! id) as [p|]; [|intros [= <-]; by left].
  cbn [res_bind]. destruct (_ || _)%bool; [intros [= <-]; by left|].
  destruct (Exchange _ _ _ _) as [token|x].
  - destruct (GetUser _ _ _) as [[status decoded]|g]; [|intros [= H]; by apply (Hd g)].
    destruct (status =? 401); [intros [= <-]; by left|].
    destruct (negb _); [intros [= <-]; by right; left|].
    destruct decoded as [user|g]; [|intros [= H]; by apply (Hd g)].
    destruct (_ <=? _); [intros [= <-]; by right; left|done].
  - intros [= H]. revert H. unfold exchangeError.
    destruct (first_ask asked) as [f|] eqn:Ef; [intros ->; by do 2 right; left|].
    destruct x as [status c err|err]; [|apply Hd].
    destruct (match status with Some s => _ | None => _ end); [apply Hd|].
    destruct (bool_decide _); [intros <-; by left|apply Hd].
Qed.

Lemma Start_errors r asked id state verifier e :
  Start r asked id state verifier = Err e →
  Is e (TSentinel FederationErrProof) = true ∨ first_ask asked = Some e.
Proof.
  unfold Start, configuration. destruct (first_ask asked); [intros [= ->]; by right|].
  destruct (r !! id); [done|]. intros [= <-]. by left.
Qed.

End registry.
