(* ===== verification/Locker.v ===== *)
(** * [internal/platform/locker]: running a task under a distributed lock

    [Runner] checks the request, acquires a lease from a back end and executes the task while a
    second goroutine watches the lease. Here are the options, the keys and the retry loop [Run]
    around the acquisition; [LockerExecution] is the concurrent part. *)
From S2P Require Import Prelude.
From S2P Require Import Text.
From S2P Require Import GoErrors.
From S2P Require Import Runtime.
From Stdlib Require Import Ascii.

(** ** locker.go *)

Definition ErrInvalidKey : error := ESentinel LockerErrInvalidKey.
Definition ErrInvalidTask : error := ESentinel LockerErrInvalidTask.
Definition ErrReentrant : error := ESentinel LockerErrReentrant.
Definition ErrUnavailable : error := ESentinel LockerErrUnavailable.
Definition ErrLockLost : error := ESentinel LockerErrLockLost.
Definition ErrRelease : error := ESentinel LockerErrRelease.

(** [failure] unwraps to the kind and to the cause; its text is the kind's. *)
Definition Wrap (kind : error) (cause : option error) : error :=
  match cause with
  | None => kind
  | Some c => EMulti (error_text kind) [kind; c]
  end.

Lemma Wrap_kind s cause : Is (Wrap (ESentinel s) cause) (TSentinel s) = true.
Proof.
  destruct cause as [c|]; simpl; [|apply Is_self_sentinel].
  rewrite Is_multi. simpl. by rewrite Is_self_sentinel.
Qed.

Lemma Wrap_cause kind c t : Is c t = true → Is (Wrap kind (Some c)) t = true.
Proof. intros H. simpl. rewrite Is_multi. simpl. by rewrite H, orb_true_r. Qed.

(** ** runner.go: options and keys *)

Definition maxNamespaceBytes : Z := 64.
Definition maxKeyBytes : Z := 256.

Record Options : Type := mkOptions {
  Namespace : string;
  AcquireTimeout : Z;
  ReleaseTimeout : Z;
  RetryMin : Z;
  RetryMax : Z
}.

Definition key_rune (c : Z) : bool :=
  (in_range 97 122 c || in_range 65 90 c || in_range 48 57 c || (c =? 58) || (c =? 95) || (c =? 45)
   || (c =? 46))%bool.

Definition validKey (key : string) (max : Z) : bool :=
  if ((len key =? 0) || (max <? len key))%bool then false
  else forallb (λ c, key_rune (rune c)) (decode key).

Definition or_default (value default : Z) : Z := if value =? 0 then default else value.

(** [backend_missing]: the back end is nil. The instruments of the metrics are left out. *)
Definition New (backend_missing : bool) (o : Options) : res error Options :=
  if (backend_missing || negb (validKey (Namespace o) maxNamespaceBytes)
      || ContainsByte ":" (Namespace o))%bool
  then Err (EText "锁后端或命名空间无效")
  else
    let o := mkOptions (Namespace o) (or_default (AcquireTimeout o) (5 * Second))
               (or_default (ReleaseTimeout o) (5 * Second))
               (or_default (RetryMin o) (50 * Millisecond)) (or_default (RetryMax o) Second) in
    if ((AcquireTimeout o <? 0) || (ReleaseTimeout o <? 0) || (RetryMin o <? Millisecond)
        || (RetryMax o <? RetryMin o))%bool
    then Err (EText "锁超时或重试配置无效")
    else Ok o.

(** The keys held by the callers of the context, innermost first ([heldKey]). *)
Definition held : Type := list string.

(** [ctx_err] is what [ctx.Err()] answers. *)
Definition prepare (o : Options) (holding : held) (key : string) (task_missing : bool)
    (ctx_err : option error) : res error string :=
  if negb (validKey key maxKeyBytes) then Err ErrInvalidKey
  else if task_missing then Err ErrInvalidTask
  else match ctx_err with
  | Some err => Err err
  | None =>
    let key := Namespace o +:+ ":" +:+ key in
    if existsb (λ h, h ==? key) holding then Err ErrReentrant else Ok key
  end.

(** The namespace has no colon, so the full name tells namespace and key apart. *)
Lemma full_key_inj ns1 ns2 k1 k2 :
  ContainsByte ":" ns1 = false → ContainsByte ":" ns2 = false →
  ns1 +:+ ":" +:+ k1 = ns2 +:+ ":" +:+ k2 → ns1 = ns2 ∧ k1 = k2.
Proof.
  revert ns2. induction ns1 as [|c ns1 IH]; intros [|d ns2] H1 H2 H.
  - by injection H.
  - injection H as Hd _. simpl in H2. rewrite <-Hd in H2. by rewrite bool_decide_eq_true_2 in H2.
  - injection H as Hc _. simpl in H1. rewrite Hc in H1. by rewrite bool_decide_eq_true_2 in H1.
  - simpl in H1, H2. apply orb_false_iff in H1 as [_ H1], H2 as [_ H2].
    change (String c (ns1 +:+ ":" +:+ k1) = String d (ns2 +:+ ":" +:+ k2)) in H.
    injection H as -> H. destruct (IH ns2 H1 H2 H) as [-> ->]. done.
Qed.

(** A task cannot ask again for a lock that it runs under: it would wait for itself. *)
Lemma prepare_reentrant o holding key full ctx_err task_missing :
  prepare o holding key task_missing ctx_err = Ok full →
  prepare o (full :: holding) key false None = Err ErrReentrant.
Proof.
  unfold prepare. destruct (validKey key maxKeyBytes); [|done].
  destruct task_missing; [done|]. destruct ctx_err; [done|].
  destruct (existsb _ holding); [done|]. intros [= <-]. simpl. by rewrite bool_decide_eq_true_2.
Qed.

(** ** runner.go: acquisition *)

Section runner.
  Context {Lease : Type} `{Run : Runtime}.
  (** The back end at the n-th attempt: an error, nothing (another holder), or a lease. *)
  Context (TryAcquire : nat → string → res error (option Lease)).
  (** What the select after the n-th attempt picks, for a timer of this duration: the timer, or
      the end of the context with its error. *)
  Context (wait : nat → Z → option error).
  (** The task under the lease: whether it ran, and the error. *)
  Context (execute : string → Lease → bool * option error).

Definition acquire (n : nat) (key : string) : res error (option Lease) :=
  match TryAcquire n key with
  | Err err => Err (Wrap ErrUnavailable (Some err))
  | Ok lease => Ok lease
  end.

Definition TryRun (o : Options) (holding : held) (key : string) (task_missing : bool)
    (ctx_err : option error) : bool * option error :=
  match prepare o holding key task_missing ctx_err with
  | Err err => (false, Some err)
  | Ok key =>
    match acquire 0 key with
    | Err err => (false, Some err)
    | Ok None => (false, None)
    | Ok (Some lease) => execute key lease
    end
  end.

Definition next_delay (o : Options) (delay : Z) : Z :=
  if delay <=? RetryMax o `quot` 2 then delay * 2 else RetryMax o.

(** [rand.Int64N] panics unless its argument is positive. *)
Definition Int64N (n : nat) (m : Z) : option Z := if m <=? 0 then None else Some (rand_IntN n m).

(** How [Run] ends: with its answer, in the panic of a draw, or not within the fuel; the loop
    waits for the lock as long as the context allows. *)
Inductive ending : Type :=
| Returned (err : option error)
| Panicked
| Unfinished.

(** The loop, with the durations of the timers that it starts, in order. *)
Fixpoint Run_loop (fuel : nat) (o : Options) (key : string) (n : nat) (delay : Z) : list Z * ending :=
  match fuel with
  | O => ([], Unfinished)
  | S fuel =>
    match acquire n key with
    | Err err => ([], Returned (Some err))
    | Ok (Some lease) => ([], Returned (execute key lease).2)
    | Ok None =>
      match Int64N n (delay `quot` 2 + 1) with
      | None => ([], Panicked)
      | Some drawn =>
        let timer := delay `quot` 2 + drawn in
        match wait n timer with
        | Some err => ([timer], Returned (Some err))
        | None => let (timers, r) := Run_loop fuel o key (S n) (next_delay o delay) in (timer :: timers, r)
        end
      end
    end
  end.

Definition Run_ (fuel : nat) (o : Options) (holding : held) (key : string) (task_missing : bool)
    (ctx_err : option error) : list Z * ending :=
  match prepare o holding key task_missing ctx_err with
  | Err err => ([], Returned (Some err))
  | Ok key => Run_loop fuel o key 0 (RetryMin o)
  end.

Lemma Run_loop_until o key n : ∀ fuel m delay,
  (n ≤ m < n + fuel)%nat →
  acquire m key ≠ Ok None ∨ (∀ d, wait m d ≠ None) →
  (Run_loop fuel o key n delay).2 ≠ Unfinished.
Proof.
  intros fuel. revert n. induction fuel as [|fuel IH]; intros n m delay Hm Hstop; [lia|].
  simpl. destruct (acquire n key) as [[lease|]|err] eqn:Ea; [done| |done].
  destruct (Int64N n _) as [drawn|]; [|done].
  destruct (wait n _) eqn:Ew; [done|]. destruct (decide (m = n)) as [->|Hne].
  - destruct Hstop as [H|H]; [done|]. by destruct (H _ Ew).
  - pose proof (IH (S n) m (next_delay o delay) ltac:(lia) Hstop) as H.
    by destruct (Run_loop _ _ _ _ _).
Qed.

(** The loop ends with the first attempt that is not met by another holder, or when the context
    ends a wait. *)
Theorem Run_terminates_locked o holding key task_missing ctx_err m fuel :
  (m < fuel)%nat → (∀ key, acquire m key ≠ Ok None) ∨ (∀ d, wait m d ≠ None) →
  (Run_ fuel o holding key task_missing ctx_err).2 ≠ Unfinished.
Proof.
  intros Hm Hstop. unfold Run_. destruct (prepare _ _ _ _ _); [|done].
  apply (Run_loop_until _ _ 0 fuel m); [lia|]. destruct Hstop; auto.
Qed.

(** *** The delays *)

Definition valid_options (o : Options) : Prop :=
  Millisecond ≤ RetryMin o ≤ RetryMax o.

Lemma New_valid missing o o' : New missing o = Ok o' → valid_options o'.
Proof.
  unfold New, valid_options. destruct (_ || _ || _)%bool; [done|].
  match goal with |- context [if ?b then _ else _] => destruct b eqn:E; [done|] end.
  intros [= <-]. bool_to_prop. simpl in *. lia.
Qed.

(** [RetryMin], doubled so many times and cut off at [RetryMax]. *)
Definition doubled (o : Options) (n : nat) : Z := Z.min (2 ^ Z.of_nat n * RetryMin o) (RetryMax o).

Lemma next_doubled o n : valid_options o → next_delay o (doubled o n) = doubled o (S n).
Proof.
  unfold valid_options, Millisecond, next_delay, doubled. intros Ho.
  rewrite Nat2Z.inj_succ, Z.pow_succ_r by lia.
  set (p := 2 ^ Z.of_nat n * RetryMin o).
  replace (2 * 2 ^ Z.of_nat n * RetryMin o) with (2 * p) by (unfold p; lia).
  assert (1 ≤ 2 ^ Z.of_nat n) by (apply (Z.pow_le_mono_r 2 0); lia).
  assert (RetryMin o ≤ p) by (unfold p; nia).
  destruct (Z.leb_spec (Z.min p (RetryMax o)) (RetryMax o `quot` 2)) as [Hle|Hle];
    rewrite Z.quot_div_nonneg in Hle by lia; Z.div_mod_to_equations; lia.
Qed.

Lemma doubled_bounds o n : valid_options o → Millisecond ≤ doubled o n ≤ RetryMax o.
Proof.
  unfold valid_options, Millisecond, doubled. intros Ho.
  assert (1 ≤ 2 ^ Z.of_nat n) by (apply (Z.pow_le_mono_r 2 0); lia). nia.
Qed.

(** The timer of an attempt whose delay is [d]. *)
Lemma timer_bounds `{L : !RuntimeLaws Run} n d : 1 < d →
  Int64N n (d `quot` 2 + 1) = Some (rand_IntN n (d `quot` 2 + 1))
  ∧ 0 < d `quot` 2 + rand_IntN n (d `quot` 2 + 1)
  ∧ d `quot` 2 ≤ d `quot` 2 + rand_IntN n (d `quot` 2 + 1) ≤ d.
Proof.
  intros Hd. unfold Int64N. rewrite Z.quot_div_nonneg by lia.
  pose proof (rand_IntN_bounds n (d / 2 + 1)) as Hr.
  destruct (Z.leb_spec (d / 2 + 1) 0); Z.div_mod_to_equations; [lia|]. split_and!; [done|lia..].
Qed.

Lemma Run_loop_timers `{L : !RuntimeLaws Run} o key : valid_options o → ∀ fuel n timers r,
  Run_loop fuel o key n (doubled o n) = (timers, r) →
  r ≠ Panicked
  ∧ (∀ i t, timers !! i = Some t →
       let d := doubled o (n + i) in
       t = d `quot` 2 + rand_IntN (n + i) (d `quot` 2 + 1) ∧ (0 < t ∧ d `quot` 2 ≤ t ≤ d)
       ∧ acquire (n + i) key = Ok None ∧ (S i < length timers → wait (n + i) t = None)%nat)
  ∧ ∀ i, (i < fuel)%nat → (∀ j, j ≤ i → acquire (n + j) key = Ok None)%nat →
      (∀ j d, j < i → wait (n + j) d = None)%nat → is_Some (timers !! i).
Proof.
  intros Ho. induction fuel as [|fuel IH]; intros n timers r; simpl.
  { intros [= <- <-]. split_and!; [done| |lia]. intros i t H. by rewrite lookup_nil in H. }
  destruct (timer_bounds n (doubled o n)) as (-> & Hpos & Hb).
  { pose proof (doubled_bounds o n Ho) as H. unfold Millisecond in H. lia. }
  assert (Hnone : ∀ i (t : Z), [] !! i = Some t → False) by (intros i t H; by rewrite lookup_nil in H).
  assert (Hrefused : acquire n key ≠ Ok None →
    ∀ i, (∀ j, j ≤ i → acquire (n + j) key = Ok None)%nat → False).
  { intros H i Hi. specialize (Hi 0%nat ltac:(lia)). by rewrite Nat.add_0_r in Hi. }
  destruct (acquire n key) as [[lease|]|err] eqn:Ea.
  1,3: intros [= <- <-]; split_and!;
    [done|by intros i t ?%Hnone|intros i _ Hi; destruct (Hrefused ltac:(done) i Hi)].
  destruct (wait n _) as [err|] eqn:Ew.
  - intros [= <- <-]. split_and!; [done| |].
    + intros [|i] t; simpl; [|by intros ?%Hnone]. rewrite Nat.add_0_r. intros [= <-].
      split_and!; [done|done|lia|lia|done|simpl; lia].
    + intros [|i] _ _ Hw; [by eexists|]. rewrite <-(Nat.add_0_r n) in Ew at 1.
      by rewrite Hw in Ew by lia.
  - rewrite next_doubled by done. destruct (Run_loop fuel o key (S n) _) as [timers' r'] eqn:E.
    intros [= <- <-]. destruct (IH _ _ _ E) as (H1 & H2 & H3). split_and!; [done| |].
    + intros [|i] t; simpl.
      * rewrite Nat.add_0_r. intros [= <-]. split; [done|]. split; [lia|]. by split.
      * intros Hi. rewrite Nat.add_succ_r. destruct (H2 i t Hi) as (? & ? & ? & Hw).
        split_and!; [done|naive_solver..|]. intros. apply Hw. lia.
    + intros [|i] Hi Ha Hw; [by eexists|]. simpl. apply H3; [lia| |].
      * intros j Hj. change (S n + j)%nat with (S (n + j))%nat. rewrite <-Nat.add_succ_r. apply Ha. lia.
      * intros j d Hj. change (S n + j)%nat with (S (n + j))%nat. rewrite <-Nat.add_succ_r. apply Hw. lia.
Qed.

(** C29: [Run] waits after an attempt exactly when another holder has the lock. Its timers start
    from [RetryMin] and double up to [RetryMax], each shortened by its draw to no less than a
    half; no draw panics. As long as the attempts are refused and no wait is cut short, the loop
    goes on to the next timer. *)
Theorem backoff_exact `{L : !RuntimeLaws Run} missing given o fuel holding key full task_missing
    ctx_err timers r :
  New missing given = Ok o →
  prepare o holding key task_missing ctx_err = Ok full →
  Run_ fuel o holding key task_missing ctx_err = (timers, r) →
  r ≠ Panicked
  ∧ (∀ n t, timers !! n = Some t →
       let d := Z.min (2 ^ Z.of_nat n * RetryMin o) (RetryMax o) in
       t = d `quot` 2 + rand_IntN n (d `quot` 2 + 1) ∧ (0 < t ∧ d `quot` 2 ≤ t ≤ d)
       ∧ acquire n full = Ok None ∧ (S n < length timers → wait n t = None)%nat)
  ∧ ∀ n, (n < fuel)%nat → (∀ i, i ≤ n → acquire i full = Ok None)%nat →
      (∀ i d, i < n → wait i d = None)%nat → is_Some (timers !! n).
Proof.
  intros Ho%New_valid Hp. unfold Run_. rewrite Hp. intros H.
  apply (Run_loop_timers o full Ho fuel 0). rewrite <-H. f_equal.
  unfold valid_options, Millisecond, doubled in *. simpl. lia.
Qed.

End runner.
