(* ===== verification/LockerExecution.v ===== *)
(** * [internal/platform/locker]: the execution of a task under a lease

    [Runner.execute] runs the task in the caller's goroutine while another one watches the
    lease. The two share the context of the work, the context of the watch and a channel. Here
    every access to what they share is a step, and so is every return of a call into the back
    end or the task, with any result; the steps interleave freely, together with the end of the
    caller's context. *)
From S2P Require Import Prelude.
From S2P Require Import GoErrors.
From S2P Require Import Locker.

(** ** State *)

(** The goroutine of the watch. *)
Inductive watcher_phase : Type :=
| Watching                          (* in [lease.Watch] *)
| Judging (e : option error)        (* [Watch] has returned [e] *)
| Cancelling (e : error)            (* about to call [cancel(e)] *)
| Sending (v : option error)        (* about to send [v] on the channel *)
| WatchDone.

(** The caller's goroutine. *)
Inductive main_phase : Type :=
| Checking                          (* about to ask for the cause of [work] *)
| Working                           (* in the task *)
| Stopping                          (* the deferred function is about to call [stop] *)
| Receiving                         (* and waits on the channel *)
| Joining (lost : option error)     (* and has received [lost] *)
| Releasing                         (* in [lease.Release] *)
| Left.                             (* has returned, or is unwinding a panic *)

(** What happened outside the function. *)
Inductive event : Type :=
| TaskStarted
| TaskReturned (e : option error)
| TaskPanicked
| LeaseLost (e : error)             (* [cancel(e)] *)
| Released (e : option error).      (* [Release] was called and returned *)

Record state : Type := mkState {
  parent : option error;            (* [context.Cause(ctx)] *)
  work : option error;              (* [context.Cause(work)] *)
  stopped : bool;                   (* the context of the watch is cancelled *)
  watcher : watcher_phase;
  channel : option (option error);
  main : main_phase;
  ran : bool;                       (* the named results *)
  result : option error;
  trace : list event                (* latest event first *)
}.

(** [ctx] may be over already: the lease was acquired with it. *)
Definition start (parent : option error) : state :=
  mkState parent parent false Watching None Checking false None [].

(** The first cancellation of a context fixes its cause. *)
Definition first (cause : option error) (e : error) : option error :=
  match cause with Some c => Some c | None => Some e end.

(** Does the goroutine report the end of the watch as the consequence of [stop]? *)
Definition quiet (stopped : bool) (e : option error) : bool :=
  match e with
  | Some e => (stopped && Is e (TSentinel ContextCanceled) && negb (Is e (TSentinel LockerErrLockLost)))%bool
  | None => false
  end.

Definition release_error (r : option error) : list (option error) :=
  match r with Some e => [Some (Wrap ErrRelease (Some e))] | None => [] end.

Inductive step : state → state → Prop :=
(* the caller's context ends; [work] is derived from it *)
| step_cancel wk st wa ch ma ra re tr e :
    step (mkState None wk st wa ch ma ra re tr) (mkState (Some e) (first wk e) st wa ch ma ra re tr)
(* the watching goroutine; [Watch] returns because it was stopped, or because the lease cannot be
   confirmed any more, at any time *)
| step_watch pa wk st ch ma ra re tr e :
    step (mkState pa wk st Watching ch ma ra re tr) (mkState pa wk st (Judging e) ch ma ra re tr)
| step_judge pa wk st ch ma ra re tr e :
    step (mkState pa wk st (Judging e) ch ma ra re tr)
         (mkState pa wk st (if quiet st e then Sending None else Cancelling (Wrap ErrLockLost e))
            ch ma ra re tr)
| step_lost pa wk st ch ma ra re tr e :
    step (mkState pa wk st (Cancelling e) ch ma ra re tr)
         (mkState pa (first wk e) st (Sending (Some e)) ch ma ra re (LeaseLost e :: tr))
| step_send pa wk st ma ra re tr v :
    step (mkState pa wk st (Sending v) None ma ra re tr)
         (mkState pa wk st WatchDone (Some v) ma ra re tr)
(* the caller *)
| step_cancelled pa c st wa ch ra re tr :
    step (mkState pa (Some c) st wa ch Checking ra re tr)
         (mkState pa (Some c) st wa ch Stopping ra (Some c) tr)
| step_task pa st wa ch ra re tr :
    step (mkState pa None st wa ch Checking ra re tr)
         (mkState pa None st wa ch Working true re (TaskStarted :: tr))
| step_return pa wk st wa ch ra re tr e :
    step (mkState pa wk st wa ch Working ra re tr)
         (mkState pa wk st wa ch Stopping ra e (TaskReturned e :: tr))
| step_panic pa wk st wa ch ra re tr :
    step (mkState pa wk st wa ch Working ra re tr)
         (mkState pa wk st wa ch Stopping ra re (TaskPanicked :: tr))
| step_stop pa wk st wa ch ra re tr :
    step (mkState pa wk st wa ch Stopping ra re tr) (mkState pa wk true wa ch Receiving ra re tr)
| step_receive pa wk st wa ra re tr v :
    step (mkState pa wk st wa (Some v) Receiving ra re tr)
         (mkState pa wk st wa None (Joining v) ra re tr)
| step_join pa wk st wa ch ra re tr v :
    step (mkState pa wk st wa ch (Joining v) ra re tr)
         (mkState pa wk st wa ch Releasing ra (Join [re; v; wk]) tr)
| step_release pa wk st wa ch ra re tr r :
    step (mkState pa wk st wa ch Releasing ra re tr)
         (mkState pa wk st wa ch Left ra
            (match r with Some _ => Join (re :: release_error r) | None => re end) (Released r :: tr)).

Definition reachable (s : state) : Prop := ∃ parent, rtc step (start parent) s.

(** ** Invariants *)

(** The caller has what the watch sent. *)
Definition received (m : main_phase) : bool :=
  match m with Joining _ | Releasing | Left => true | _ => false end.

Definition joined (m : main_phase) : bool := match m with Releasing | Left => true | _ => false end.

Definition has_stopped (m : main_phase) : bool :=
  match m with Receiving => true | _ => received m end.

Definition watch_done (w : watcher_phase) : bool := match w with WatchDone => true | _ => false end.

Definition full (c : option (option error)) : bool := match c with Some _ => true | None => false end.

(** How the two goroutines stand to each other. *)
Definition in_step (s : state) : bool :=
  (eqb (stopped s) (has_stopped (main s))
   && (if received (main s) then watch_done (watcher s) && negb (full (channel s))
       else eqb (full (channel s)) (watch_done (watcher s))))%bool.

Lemma step_in_step s s' : step s s' → in_step s = true → in_step s' = true.
Proof.
  destruct 1; unfold in_step; simpl;
    repeat match goal with
    | |- context [quiet ?a ?b] => destruct (quiet a b)
    | b : bool |- _ => destruct b
    | m : main_phase |- _ => destruct m
    | w : watcher_phase |- _ => destruct w
    | c : option (option error) |- _ => destruct c
    end; simpl; done.
Qed.

(** The verdict of the watch, once it is known, until the caller has joined it. *)
Definition verdict (s : state) : option (option error) :=
  match main s with
  | Joining v => Some v
  | _ => match watcher s with Sending v => Some v | _ => channel s end
  end.

(** Everything in [e] is also in the result [r]. *)
Definition reported (e : error) (r : option error) : Prop :=
  ∃ x, r = Some x ∧ ∀ t, Is e t = true → Is x t = true.

Lemma reported_self e : reported e (Some e).
Proof. by exists e. Qed.

Lemma reported_join e x es : Some x ∈ es → reported e (Some x) → reported e (Join es).
Proof.
  intros Hin (y & [= <-] & Hy). destruct (Join es) as [j|] eqn:E.
  - exists j. split; [done|]. intros t Ht. apply (Join_Some es j E). eauto.
  - apply Join_None in E. rewrite Forall_forall in E. by apply E in Hin.
Qed.

(** A loss is the verdict of the watch until it is part of the result. *)
Record loss_kept (s : state) : Prop := {
  loss_sync : in_step s = true;
  loss_seen : ∀ e, LeaseLost e ∈ trace s →
    is_Some (work s) ∧ Is e (TSentinel LockerErrLockLost) = true
    ∧ if joined (main s) then reported e (result s) else verdict s = Some (Some e);
  loss_real : ∀ e, verdict s = Some (Some e) → LeaseLost e ∈ trace s;
  loss_kind : ∀ e, watcher s = Cancelling e → Is e (TSentinel LockerErrLockLost) = true
}.

Definition is_released (e : event) : bool := match e with Released _ => true | _ => false end.
Definition is_started (e : event) : bool := match e with TaskStarted => true | _ => false end.
Definition is_over (e : event) : bool :=
  match e with TaskReturned _ | TaskPanicked => true | _ => false end.

Definition count (f : event → bool) (tr : list event) : nat := length (List.filter f tr).

(** Each call is made at most once, the release after the end of the task. *)
Definition counted (s : state) : bool :=
  ((count is_started (trace s) =? Nat.b2n (ran s))%nat
   && (count is_released (trace s) =? match main s with Left => 1 | _ => 0 end)%nat
   && (count is_over (trace s) =? match main s with Working => 0 | _ => Nat.b2n (ran s) end)%nat
   && match main s with Checking => negb (ran s) | Working => ran s | _ => true end)%bool.

Lemma step_counted s s' : step s s' → counted s = true → counted s' = true.
Proof.
  unfold counted, count. destruct 1; simpl; intros H; bool_to_prop;
    repeat match goal with H : (_ =? _)%nat = true |- _ => apply Nat.eqb_eq in H end;
    rewrite ?andb_true_iff, ?Nat.eqb_eq; split_and!; simpl in *;
    repeat match goal with
    | m : main_phase |- _ => destruct m
    | b : bool |- _ => destruct b
    end; simpl in *; try done; try (apply Nat.eqb_eq; lia); lia.
Qed.

(** What the result owes to the task, once it is over: its error is the result until the join,
    and part of it afterwards; a task that was refused leaves the reason. *)
Definition owes (ran after_join : bool) (result : option error) (tr : list event) : Prop :=
  if ran then
    TaskPanicked ∈ tr
    ∨ ∃ e, TaskReturned e ∈ tr
        ∧ if after_join then ∀ x, e = Some x → reported x result else result = e
  else is_Some result.

Definition outcome_kept (s : state) : Prop :=
  match main s with
  | Checking => ran s = false ∧ result s = None
  | Working => ran s = true ∧ result s = None
  | m => owes (ran s) (joined m) (result s) (trace s)
  end.

Lemma owes_event ra b re tr ev : owes ra b re tr → owes ra b re (ev :: tr).
Proof.
  unfold owes. destruct ra; [|done]. intros [H|(e & He & Hb)]; [left; by right|right].
  exists e. split; [by right|done].
Qed.

(** A failed release is part of the result. *)
Definition release_kept (s : state) : Prop :=
  match main s with
  | Left => ∃ r, Released r ∈ trace s ∧ ∀ e, r = Some e → reported (Wrap ErrRelease (Some e)) (result s)
  | _ => True
  end.

Lemma reported_release x re r : reported x re →
  reported x (match r with Some _ => Join (re :: release_error r) | None => re end).
Proof.
  intros (y & -> & Hy). destruct r as [r|]; [|by exists y].
  apply (reported_join x y); [by left|by exists y].
Qed.

Lemma Join_is_Some x es : Some x ∈ es → is_Some (Join es).
Proof. intros H. destruct (reported_join x x es H (reported_self x)) as (y & -> & _). eauto. Qed.

Lemma owes_join ra re v wk tr : owes ra false re tr → owes ra true (Join [re; v; wk]) tr.
Proof.
  unfold owes. destruct ra; [|intros [x ->]; apply (Join_is_Some x); by left].
  intros [?|(e & He & ->)]; [by left|right]. exists e. split; [done|].
  intros x ->. apply (reported_join x x); [by left|apply reported_self].
Qed.

Lemma owes_release ra re r tr : owes ra true re tr →
  owes ra true (match r with Some _ => Join (re :: release_error r) | None => re end) tr.
Proof.
  unfold owes. destruct ra.
  - intros [?|(e & He & Hx)]; [by left|right]. exists e. split; [done|].
    intros x ->. by apply reported_release, Hx.
  - intros [x ->]. destruct r as [r|]; [|by eauto]. apply (Join_is_Some x). by left.
Qed.

Lemma step_outcome s s' : step s s' → outcome_kept s → outcome_kept s'.
Proof.
  unfold outcome_kept. destruct 1; simpl; try done.
  - destruct ma; try done; apply owes_event.
  - intros [-> ->]. unfold owes. eauto.
  - by intros [-> ->].
  - intros [-> ->]. right. exists e. split; [left|done].
  - intros [-> ->]. left. left.
  - apply owes_join.
  - intros H. by apply owes_event, owes_release.
Qed.

Lemma step_released s s' : step s s' → release_kept s → release_kept s'.
Proof.
  unfold release_kept. destruct 1; simpl; try done; try (destruct ma; naive_solver).
  - destruct ma; try done. intros (r & Hr & Hx). exists r. split; [by right|done].
  - intros _. exists r. split; [left|]. intros e ->. simpl.
    apply (reported_join _ (Wrap ErrRelease (Some e))); [by right; left|apply reported_self].
Qed.

Lemma lost_cons e ev tr : LeaseLost e ∈ ev :: tr → ev = LeaseLost e ∨ LeaseLost e ∈ tr.
Proof. intros [->|]%elem_of_cons; auto. Qed.

(** The phases that [in_step] excludes. *)
Ltac sync H :=
  unfold in_step in H; simpl in H;
  repeat match type of H with
  | context [received ?m] => is_var m; destruct m
  | context [watch_done ?w] => is_var w; destruct w
  | context [full ?c] => is_var c; destruct c
  end; simpl in H; rewrite ?andb_false_r in H; try discriminate H.

Lemma step_loss s s' : step s s' → loss_kept s → loss_kept s'.
Proof.
  intros Hstep [Hsync Hseen Hreal Hkind]. pose proof (step_in_step _ _ Hstep Hsync) as Hsync'.
  split; [done| | |]; destruct Hstep; simpl in *; unfold verdict in *; simpl in *; try done.
  - intros e' He. destruct (Hseen e' He) as ([c ->] & Hk & Hv). split_and!; [by exists c|done..].
  - intros e' He. destruct (Hseen e' He) as (_ & _ & Hv). sync Hsync; done.
  - intros e' [[= ->]|He]%lost_cons.
    + sync Hsync; (split_and!; [destruct wk; by eexists|by apply Hkind|done]).
    + destruct (Hseen e' He) as (_ & _ & Hv). sync Hsync; done.
  - intros e' [[=]|He]%lost_cons. destruct (Hseen e' He) as ([c [=]] & _).
  - intros e' [[=]|He]%lost_cons. by apply Hseen.
  - intros e' [[=]|He]%lost_cons. by apply Hseen.
  - intros e' He. destruct (Hseen e' He) as (Hw & Hk & Hv). sync Hsync; done.
  - intros e' He. destruct (Hseen e' He) as (Hw & Hk & Hv). split_and!; [done..|].
    apply (reported_join e' e'); [injection Hv as ->; right; left|apply reported_self].
  - intros e' [[=]|He]%lost_cons. destruct (Hseen e' He) as (Hw & Hk & Hv).
    split_and!; [done..|by apply reported_release].
  - intros e' He. sync Hsync; by destruct (quiet st e).
  - intros e' He. sync Hsync; injection He as ->; left.
  - intros e' He. right. by apply Hreal.
  - intros e' He. right. by apply Hreal.
  - intros e' He. right. by apply Hreal.
  - intros e' He. apply Hreal. sync Hsync; done.
  - intros e' He. sync Hsync; done.
  - intros e' He. sync Hsync; done.
  - intros e' He. destruct (quiet st e); [done|]. injection He as <-. apply Wrap_kind.
Qed.

Record inv (s : state) : Prop := {
  inv_loss : loss_kept s;
  inv_counted : counted s = true;
  inv_outcome : outcome_kept s;
  inv_released : release_kept s
}.

Lemma reachable_inv s : reachable s → inv s.
Proof.
  intros [pa H]. assert (inv (start pa)) as H0.
  { split; [split|..]; try done; by intros e He%elem_of_nil. }
  induction H as [|s1 s2 s3 Hs _ IH]; [done|]. apply IH. destruct H0. split;
    [by eapply step_loss|by eapply step_counted|by eapply step_outcome|by eapply step_released].
Qed.

(** ** What [execute] guarantees *)

Lemma count_unique f tr x y : (count f tr ≤ 1)%nat → x ∈ tr → y ∈ tr → f x = true → f y = true → x = y.
Proof.
  unfold count. induction tr as [|z tr IH]; [by intros _ ?%elem_of_nil|].
  assert (Hpos : ∀ v, v ∈ tr → f v = true → (1 ≤ length (List.filter f tr))%nat).
  { intros v Hv Hf. assert (List.In v (List.filter f tr)) as Hin.
    { apply List.filter_In. split; [by apply list_elem_of_In|done]. }
    destruct (List.filter f tr); [done|simpl; lia]. }
  intros Hc [->|Hx]%elem_of_cons [->|Hy]%elem_of_cons Fx Fy; simpl in Hc; [done|..].
  - rewrite Fx in Hc. simpl in Hc. specialize (Hpos y Hy Fy). lia.
  - rewrite Fy in Hc. simpl in Hc. specialize (Hpos x Hx Fx). lia.
  - apply IH; try done. destruct (f z); simpl in Hc; lia.
Qed.

Lemma counted_at_most s : counted s = true →
  (count is_started (trace s) ≤ 1)%nat ∧ (count is_over (trace s) ≤ count is_started (trace s))%nat
  ∧ (count is_released (trace s) ≤ 1)%nat ∧ (count is_over (trace s) ≤ 1)%nat.
Proof.
  unfold counted. intros H. bool_to_prop.
  repeat match goal with H : (_ =? _)%nat = true |- _ => apply Nat.eqb_eq in H end.
  destruct (ran s), (main s); simpl in *; lia.
Qed.

Lemma result_owed s e : inv s → main s = Left → TaskReturned e ∈ trace s → TaskPanicked ∉ trace s →
  ran s = true ∧ ∀ x, e = Some x → reported x (result s).
Proof.
  intros Hi Hm He Hp. pose proof (counted_at_most s (inv_counted s Hi)) as (H1 & H2 & _ & H4).
  pose proof (inv_outcome s Hi) as Ho. unfold outcome_kept, owes in Ho. rewrite Hm in Ho. simpl in Ho.
  destruct (ran s) eqn:Er.
  - destruct Ho as [?|(e' & He' & Hx)]; [done|]. split; [done|].
    by injection (count_unique is_over _ _ _ H4 He He' eq_refl eq_refl) as ->.
  - pose proof (inv_counted s Hi) as Hc. unfold counted in Hc. rewrite Hm, Er in Hc. bool_to_prop.
    match goal with H : (count is_over _ =? _)%nat = true |- _ => apply Nat.eqb_eq in H; simpl in H end.
    assert (List.In (TaskReturned e) (List.filter is_over (trace s))) as Hin.
    { apply List.filter_In. split; [by apply list_elem_of_In|done]. }
    unfold count in *. destruct (List.filter is_over (trace s)); simpl in *; [done|lia].
Qed.

(** C26: When [execute] returns without an error, the task has run and returned without one,
    the lease was never found lost, and the release was confirmed. Whatever happened, a lost
    lease is in the result, as is a failed release. *)
Theorem execute_truthful s : reachable s → main s = Left →
  (result s = None → TaskPanicked ∉ trace s →
     ran s = true ∧ TaskReturned None ∈ trace s ∧ Released None ∈ trace s
     ∧ ∀ e, LeaseLost e ∉ trace s)
  ∧ (∀ e, LeaseLost e ∈ trace s →
       ∃ x, result s = Some x ∧ Is x (TSentinel LockerErrLockLost) = true
            ∧ ∀ t, Is e t = true → Is x t = true)
  ∧ (∀ e, Released (Some e) ∈ trace s →
       ∃ x, result s = Some x ∧ Is x (TSentinel LockerErrRelease) = true)
  ∧ (∀ e, TaskReturned (Some e) ∈ trace s → TaskPanicked ∉ trace s →
       ∃ x, result s = Some x ∧ ∀ t, Is e t = true → Is x t = true).
Proof.
  intros [pa Hr] Hm. assert (inv s) as Hi by (apply reachable_inv; by exists pa).
  pose proof (counted_at_most s (inv_counted s Hi)) as (_ & _ & H3 & _).
  pose proof (inv_released s Hi) as Hrel. unfold release_kept in Hrel. rewrite Hm in Hrel.
  destruct Hrel as (r & Hr1 & Hr2).
  assert (Hloss : ∀ e, LeaseLost e ∈ trace s →
    Is e (TSentinel LockerErrLockLost) = true ∧ reported e (result s)).
  { intros e He. destruct (loss_seen s (inv_loss s Hi) e He) as (_ & Hk & Hv). by rewrite Hm in Hv. }
  split_and!.
  - intros Hn Hp. pose proof (inv_outcome s Hi) as Ho. unfold outcome_kept, owes in Ho.
    rewrite Hm in Ho. simpl in Ho. rewrite Hn in *.
    assert (Hnr : ∀ x, ¬ reported x None) by (intros x (y & [=] & _)).
    destruct (ran s); [|by destruct Ho]. destruct Ho as [?|(e & He & Hx)]; [done|].
    split_and!; [done| | |].
    + destruct e as [x|]; [|done]. by destruct (Hnr x (Hx x eq_refl)).
    + destruct r as [x|]; [|done]. by destruct (Hnr _ (Hr2 x eq_refl)).
    + intros e' He'. by destruct (Hnr e' (proj2 (Hloss e' He'))).
  - intros e He. destruct (Hloss e He) as (Hk & x & Hx & Hall). eauto.
  - intros e He. assert (r = Some e) as ->.
    { by injection (count_unique is_released _ _ _ H3 Hr1 He eq_refl eq_refl). }
    destruct (Hr2 e eq_refl) as (x & Hx & Hall). exists x. split; [done|]. apply Hall, Wrap_kind.
  - intros e He Hp. destruct (result_owed s _ Hi Hm He Hp) as [_ Hx]. by apply Hx.
Qed.

(** C27: The task runs at most once and the lease is released once; while it is being released,
    and after, neither the task nor the watch runs. *)
Theorem release_exclusive s : reachable s →
  (count is_started (trace s) ≤ 1)%nat
  ∧ count is_released (trace s) = match main s with Left => 1%nat | _ => 0%nat end
  ∧ (main s = Releasing ∨ main s = Left →
     watcher s = WatchDone ∧ stopped s = true
     ∧ count is_over (trace s) = count is_started (trace s)).
Proof.
  intros [pa Hr]. assert (inv s) as Hi by (apply reachable_inv; by exists pa).
  pose proof (counted_at_most s (inv_counted s Hi)) as (H1 & _).
  pose proof (inv_counted s Hi) as Hc. pose proof (loss_sync s (inv_loss s Hi)) as Hs.
  unfold counted in Hc. bool_to_prop.
  repeat match goal with H : (_ =? _)%nat = true |- _ => apply Nat.eqb_eq in H end.
  split_and!; [done|done|]. unfold in_step in Hs. intros Hm.
  assert (received (main s) = true ∧ has_stopped (main s) = true) as [Hrc Hst]
    by (by destruct Hm as [-> | ->]).
  rewrite Hrc, Hst in Hs. bool_to_prop.
  split_and!; [by destruct (watcher s)|by destruct (stopped s)|].
  destruct Hm as [Hm|Hm]; rewrite Hm in *; lia.
Qed.

(** ** Termination *)

Definition main_rank (m : main_phase) : nat :=
  match m with
  | Checking => 6 | Working => 5 | Stopping => 4 | Receiving => 3 | Joining _ => 2 | Releasing => 1
  | Left => 0
  end.

Definition watch_rank (w : watcher_phase) : nat :=
  match w with Watching => 4 | Judging _ => 3 | Cancelling _ => 2 | Sending _ => 1 | WatchDone => 0 end.

Definition rank (s : state) : nat :=
  main_rank (main s) + watch_rank (watcher s) + match parent s with None => 1 | Some _ => 0 end.

Lemma step_rank s s' : step s s' → (rank s' < rank s)%nat.
Proof. destruct 1; unfold rank; simpl; try lia. destruct (quiet st e); simpl; lia. Qed.

(** The steps that have to come: those of the function itself, and the returns of what it calls,
    the task and [Release] (which has a time limit) among them. The end of the caller's context is
    not promised, and neither is the return of [Watch], which blocks, unless the context of the
    watch is cancelled ([Lease] in backend.go). *)
Definition due (s s' : state) : Prop :=
  step s s' ∧ parent s' = parent s
  ∧ (watcher s = Watching → watcher s' ≠ Watching → stopped s = true).

(** C28: Every execution comes to an end: no sequence of steps goes on forever, and whoever has not
    left has a step that has to come, even if the lease is never lost, [Watch] returns only when
    it is stopped, and the caller's context never ends. *)
Theorem execute_terminates s : reachable s →
  Acc (λ s2 s1, step s1 s2) s ∧ (main s ≠ Left → ∃ s', due s s').
Proof.
  intros [pa Hr]. split.
  - remember (rank s) as n eqn:En. revert s En Hr. induction (lt_wf n) as [n _ IH]. intros s -> Hr.
    constructor. intros s' Hs. eapply IH; [by apply step_rank|done|by eapply rtc_r].
  - assert (inv s) as Hi by (apply reachable_inv; by exists pa).
    pose proof (loss_sync s (inv_loss s Hi)) as Hs. unfold in_step in Hs. intros Hm. clear Hi Hr.
    destruct s as [pr wk st wa ch ma ra re tr]. unfold due. simpl in *.
    destruct ma; simpl in *; try done.
    + destruct wk as [c|]; eexists; (split; [constructor|done]).
    + eexists; split; [by apply (step_return _ _ _ _ _ _ _ _ None)|done].
    + eexists; split; [constructor|done].
    + destruct ch as [v|]; [eexists; split; [constructor|done]|].
      destruct wa; simpl in Hs; rewrite ?andb_false_r in Hs; try done.
      * eexists; split; [by apply (step_watch _ _ _ _ _ _ _ _ None)|]. by destruct st.
      * eexists; split; [constructor|done].
      * eexists; split; [constructor|done].
      * eexists; split; [constructor|done].
    + eexists; split; [constructor|done].
    + eexists; split; [by apply (step_release _ _ _ _ _ _ _ _ None)|done].
Qed.
