(* ===== verification/LockerPostgres.v ===== *)
(** * [internal/platform/locker/postgres]: leases as session advisory locks

    A lease is a connection of a dedicated pool that holds a PostgreSQL advisory lock. The
    server's part is documented behaviour: a lock has one session as its holder, who may take
    it several times, and all locks of a session end with it. The client's part is the code of
    [TryAcquire], [Watch] and [Release]: which connections go back to the pool, and which are
    closed. *)
From S2P Require Import Prelude.
From S2P Require Import Text.
From S2P Require Import GoErrors.
From S2P Require Import Runtime.
From S2P Require Import Pagination.
From S2P Require Import Identity.
From S2P Require Import Locker.

Record lockKey : Type := mkLockKey { namespace : Z; resource : Z }.

Global Instance lockKey_eq_dec : EqDecision lockKey.
Proof. solve_decision. Defined.
Global Instance lockKey_countable : Countable lockKey.
Proof.
  refine (inj_countable' (λ k, (namespace k, resource k)) (λ p, mkLockKey p.1 p.2) _).
  by intros [].
Defined.

Record Options : Type := mkOptions { CheckInterval : Z; OperationTimeout : Z }.

Definition New (pool_missing : bool) (o : Options) : res error Options :=
  if pool_missing then Err (EText "锁连接池不能为空")
  else
    let o := mkOptions (or_default (CheckInterval o) (2 * Second))
               (or_default (OperationTimeout o) (2 * Second)) in
    if ((CheckInterval o <? 0) || (OperationTimeout o <? 0))%bool then Err (EText "锁检测配置无效")
    else Ok o.

(** [binary.BigEndian.Uint32] of the first four bytes. *)
Definition Uint32 (bytes : list Z) : Z :=
  match bytes with
  | b0 :: b1 :: b2 :: b3 :: _ => ((b0 * 256 + b1) * 256 + b2) * 256 + b3
  | _ => 0
  end.

Definition keyFor `{Runtime} (name : string) : lockKey :=
  let hash := bytes_of (sha256_Sum256 name) in
  mkLockKey (int32 (Uint32 hash)) (int32 (Uint32 (drop 4 hash))).

(** ** The server *)

Definition conn : Type := nat.

(** The sessions that are alive, and the holder of each lock with the number of times it has
    taken it. *)
Class AdvisoryLocks := {
  server : Type;
  no_sessions : server;
  alive : conn → server → Prop;
  holder : server → lockKey → option (conn * nat);
  connect : conn → server → server;
  try_lock : conn → lockKey → server → bool * server;   (* pg_try_advisory_lock *)
  unlock : conn → lockKey → server → bool * server;     (* pg_advisory_unlock *)
  end_session : conn → server → server
}.

(** The documentation of session advisory locks: a lock is free or has one session as its
    holder, who may take it again; each unlock undoes one lock; the end of a session frees its
    locks. *)
Class AdvisoryLocksLaws (L : AdvisoryLocks) : Prop := {
  holder_start k : holder no_sessions k = None;
  alive_start c : ¬ alive c no_sessions;
  holder_connect c s k : holder (connect c s) k = holder s k;
  alive_connect c s c' : alive c' (connect c s) ↔ c' = c ∨ alive c' s;
  try_lock_free c k s : holder s k = None →
    (try_lock c k s).1 = true
    ∧ ∀ k', holder (try_lock c k s).2 k' = if k' ==? k then Some (c, 1%nat) else holder s k';
  try_lock_again c k s n : holder s k = Some (c, n) →
    (try_lock c k s).1 = true
    ∧ ∀ k', holder (try_lock c k s).2 k' = if k' ==? k then Some (c, S n) else holder s k';
  try_lock_busy c k s c' n : holder s k = Some (c', n) → c' ≠ c →
    (try_lock c k s).1 = false ∧ ∀ k', holder (try_lock c k s).2 k' = holder s k';
  alive_try_lock c k s c' : alive c' (try_lock c k s).2 ↔ alive c' s;
  unlock_last c k s : holder s k = Some (c, 1%nat) →
    (unlock c k s).1 = true
    ∧ ∀ k', holder (unlock c k s).2 k' = if k' ==? k then None else holder s k';
  alive_unlock c k s c' : alive c' (unlock c k s).2 ↔ alive c' s;
  holder_end c s k x : holder (end_session c s) k = Some x ↔ holder s k = Some x ∧ x.1 ≠ c;
  alive_end c s c' : alive c' (end_session c s) ↔ alive c' s ∧ c' ≠ c
}.

(** ** The connections *)

(** What the client does with a connection. *)
Inductive use : Type :=
| Idle                       (* in the pool *)
| Asking (key : lockKey)     (* acquired by [TryAcquire] *)
| Leased (key : lockKey)     (* of a lease that was not released *)
| Closing                    (* hijacked and closed; the server may not know yet *)
| Closed.

(** [TryAcquire] once it has its connection: the answer of the server either arrives, or the
    call fails before or after the server has acted. *)
Definition acquired_use (k : lockKey) (answer : option bool) : use :=
  match answer with
  | Some true => Leased k       (* the lease *)
  | Some false => Idle          (* [conn.Release()]: another holder *)
  | None => Closing             (* the server may have locked: never back to the pool *)
  end.

(** [Release]: only a confirmed unlock gives the connection back. *)
Definition released_use (answer : option bool) : use :=
  match answer with Some true => Idle | _ => Closing end.

Section leases.
  Context `{Locks : AdvisoryLocks}.

Record state : Type := mkState { conns : gmap conn use; srv : server }.

Inductive step : state → state → Prop :=
| step_connect cs s c : cs !! c = None →
    step (mkState cs s) (mkState (<[c := Idle]> cs) (connect c s))
| step_take cs s c k : cs !! c = Some Idle →
    step (mkState cs s) (mkState (<[c := Asking k]> cs) s)
| step_try cs s c k (heard : bool) : cs !! c = Some (Asking k) → alive c s →
    step (mkState cs s)
      (mkState (<[c := acquired_use k (if heard then Some (try_lock c k s).1 else None)]> cs)
         (try_lock c k s).2)
| step_try_failed cs s c k : cs !! c = Some (Asking k) →
    step (mkState cs s) (mkState (<[c := acquired_use k None]> cs) s)
| step_release cs s c k (heard : bool) : cs !! c = Some (Leased k) → alive c s →
    step (mkState cs s)
      (mkState (<[c := released_use (if heard then Some (unlock c k s).1 else None)]> cs)
         (unlock c k s).2)
| step_release_failed cs s c k : cs !! c = Some (Leased k) →
    step (mkState cs s) (mkState (<[c := released_use None]> cs) s)
| step_session_ends cs s c : alive c s →
    step (mkState cs s) (mkState cs (end_session c s))
| step_closed cs s c : cs !! c = Some Closing →
    step (mkState cs s) (mkState (<[c := Closed]> cs) (end_session c s)).

Definition start : state := mkState ∅ no_sessions.

(** Every lock is taken once, by the living session of a lease on it or of a connection that is
    being closed; and every lease whose session lives has its lock. *)
Record inv (st : state) : Prop := {
  lock_owned k c n : holder (srv st) k = Some (c, n) →
    n = 1%nat ∧ alive c (srv st) ∧ (conns st !! c = Some (Leased k) ∨ conns st !! c = Some Closing);
  lease_locked k c : conns st !! c = Some (Leased k) → alive c (srv st) →
    holder (srv st) k = Some (c, 1%nat);
  alive_known c : alive c (srv st) → is_Some (conns st !! c)
}.

(** A connection that is neither leased nor closing holds nothing. *)
Lemma holds_nothing st c u k n : inv st → conns st !! c = Some u →
  (∀ k, u ≠ Leased k) → u ≠ Closing → holder (srv st) k = Some (c, n) → False.
Proof.
  intros Hi Hc Hl Hcl Hk. destruct (lock_owned _ Hi k c n Hk) as (_ & _ & [H|H]); rewrite Hc in H;
    injection H as ->; [by apply (Hl k)|done].
Qed.

(** The client's part of a step: the use of one connection changes, and so do the locks of
    that connection only. *)
Lemma inv_update st c u s' :
  inv st → (∀ c', alive c' s' ↔ alive c' (srv st)) →
  (∀ k c' n, c' ≠ c → holder s' k = Some (c', n) ↔ holder (srv st) k = Some (c', n)) →
  (∀ k n, holder s' k = Some (c, n) → n = 1%nat ∧ alive c (srv st) ∧ (u = Leased k ∨ u = Closing)) →
  (∀ k, u = Leased k → alive c (srv st) → holder s' k = Some (c, 1%nat)) →
  inv (mkState (<[c := u]> (conns st)) s').
Proof.
  intros Hi Hal Hother Hown Hlease. destruct Hi as [H1 H2 H3]. split; simpl.
  - intros k c' n Hk. rewrite Hal. destruct (decide (c' = c)) as [->|Hne].
    + rewrite lookup_insert_eq. destruct (Hown k n Hk) as (-> & ? & [-> | ->]); auto.
    + rewrite lookup_insert_ne by done. by apply H1, Hother.
  - intros k c' [[<- ->]|[Hne Hc]]%lookup_insert_Some; rewrite Hal; intros Ha; [by apply Hlease|].
    apply Hother; [done|by apply H2].
  - intros c'. rewrite Hal, lookup_insert_is_Some'. auto.
Qed.

Section facts.
  Context `{Laws : !AdvisoryLocksLaws Locks}.

Lemma inv_start : inv start.
Proof.
  split; simpl.
  - intros k c n. by rewrite holder_start.
  - intros k c [=].
  - intros c Hc. by destruct (alive_start c).
Qed.

(** Nothing changes at the server. *)
Lemma inv_client st c u : inv st →
  (∀ k n, holder (srv st) k = Some (c, n) → u = Leased k ∨ u = Closing) →
  (∀ k, u = Leased k → alive c (srv st) → holder (srv st) k = Some (c, 1%nat)) →
  inv (mkState (<[c := u]> (conns st)) (srv st)).
Proof.
  intros Hi Ho Hl. apply inv_update; try done. intros k n Hk.
  destruct (lock_owned _ Hi k c n Hk) as (? & ? & _). eauto.
Qed.

Lemma inv_end st c : inv st → inv (mkState (conns st) (end_session c (srv st))).
Proof.
  intros [H1 H2 H3]. split; simpl.
  - intros k c' n [Hk Hne]%holder_end. destruct (H1 k c' n Hk) as (? & ? & ?).
    split_and!; [done|by apply alive_end|done].
  - intros k c' Hc [Ha Hne]%alive_end. apply holder_end. auto.
  - intros c' [Ha _]%alive_end. auto.
Qed.

(** Taking a free lock, and giving the only one back. *)
Lemma inv_try st c k (heard : bool) : inv st → conns st !! c = Some (Asking k) → alive c (srv st) →
  inv (mkState (<[c := acquired_use k (if heard then Some (try_lock c k (srv st)).1 else None)]> (conns st))
         (try_lock c k (srv st)).2).
Proof.
  intros Hi Hc Ha.
  assert (Hno : ∀ k' n, holder (srv st) k' = Some (c, n) → False)
    by (intros k' n Hk'; by eapply (holds_nothing st c (Asking k))).
  destruct (holder (srv st) k) as [[c' n]|] eqn:Ek.
  - destruct (try_lock_busy c k (srv st) c' n Ek) as [Hf Hh]; [intros ->; by eapply Hno|].
    rewrite Hf. apply inv_update; [done|intros; apply alive_try_lock|..].
    + intros. by rewrite Hh.
    + intros k' n'. rewrite Hh. intros Hk'. by apply Hno in Hk'.
    + by destruct heard.
  - destruct (try_lock_free c k (srv st) Ek) as [Hf Hh].
    rewrite Hf. apply inv_update; [done|intros; apply alive_try_lock|..].
    + intros k' c' n' Hne. rewrite Hh. case_bool_decide as E; [|done]. subst k'. rewrite Ek.
      split; [congruence|done].
    + intros k' n'. rewrite Hh. case_bool_decide as E; [|by intros ?%Hno]. subst k'.
      intros [= <-]. split_and!; [done..|]. destruct heard; auto.
    + intros k' Hu _. rewrite Hh. destruct heard; [|done]. injection Hu as ->. by rewrite bool_decide_eq_true_2.
Qed.

Lemma inv_release st c k (heard : bool) : inv st → conns st !! c = Some (Leased k) → alive c (srv st) →
  inv (mkState (<[c := released_use (if heard then Some (unlock c k (srv st)).1 else None)]> (conns st))
         (unlock c k (srv st)).2).
Proof.
  intros Hi Hc Ha. pose proof (lease_locked _ Hi k c Hc Ha) as Ek.
  destruct (unlock_last c k (srv st) Ek) as [Hf Hh]. rewrite Hf.
  apply inv_update; [done|intros; apply alive_unlock|..].
  - intros k' c' n' Hne. rewrite Hh. case_bool_decide as E; [|done]. subst k'. rewrite Ek.
    split; [done|congruence].
  - intros k' n'. rewrite Hh. case_bool_decide as E; [done|]. intros Hk'.
    destruct (lock_owned _ Hi k' c n' Hk') as (_ & _ & [H|H]); rewrite Hc in H; by simplify_eq.
  - by destruct heard.
Qed.

Lemma step_inv st st' : step st st' → inv st → inv st'.
Proof.
  destruct 1 as [cs s c Hc|cs s c k Hc|cs s c k heard Hc Ha|cs s c k Hc|cs s c k heard Hc Ha|cs s c k Hc
                |cs s c Ha|cs s c Hc]; intros Hi.
  - destruct Hi as [H1 H2 H3]. simpl in *. split; simpl.
    + intros k c' n. rewrite holder_connect. intros Hk. destruct (H1 k c' n Hk) as (? & ? & Hor).
      split_and!; [done|apply alive_connect; auto|].
      rewrite lookup_insert_ne; [done|]. intros <-. rewrite Hc in Hor. by destruct Hor.
    + intros k c' [[_ [=]]|[Hne Hc']]%lookup_insert_Some [->|Ha]%alive_connect; [done|].
      rewrite holder_connect. auto.
    + intros c' Ha. rewrite lookup_insert_is_Some'. apply alive_connect in Ha as [->|Ha]; auto.
  - apply (inv_client (mkState cs s)); [done| |done].
    intros k' n Hk. exfalso. by eapply (holds_nothing _ c Idle).
  - by apply (inv_try (mkState cs s)).
  - apply (inv_client (mkState cs s)); [done|by right|done].
  - by apply (inv_release (mkState cs s)).
  - apply (inv_client (mkState cs s)); [done|by right|done].
  - by apply (inv_end (mkState cs s)).
  - apply (inv_client (mkState cs (end_session c s))); [by apply (inv_end (mkState cs s))| |done].
    intros k n [_ Hne]%holder_end. done.
Qed.

Lemma reachable_leases st : rtc step start st → inv st.
Proof. intros H. pose proof inv_start as H0. induction H; eauto using step_inv. Qed.

(** C7: Mutual exclusion: of two leases on the same key at most one has a living session, and only
    a living session keeps its lock. A connection in the pool holds no lock, so it can neither
    block the others nor be taken for the holder of a lock it asks for. *)
Theorem leases_exclusive st : rtc step start st →
  (∀ c1 c2 k, conns st !! c1 = Some (Leased k) → conns st !! c2 = Some (Leased k) →
     alive c1 (srv st) → alive c2 (srv st) → c1 = c2)
  ∧ (∀ c k n, conns st !! c = Some Idle → holder (srv st) k ≠ Some (c, n))
  ∧ (∀ c k, conns st !! c = Some (Asking k) →
       (try_lock c k (srv st)).1 = true ↔ holder (srv st) k = None).
Proof.
  intros H. pose proof (reachable_leases st H) as Hi. split_and!.
  - intros c1 c2 k H1 H2 A1 A2. pose proof (lease_locked _ Hi k c1 H1 A1) as L1.
    rewrite (lease_locked _ Hi k c2 H2 A2) in L1. by simplify_eq.
  - intros c k n Hc Hk. by eapply (holds_nothing st c Idle).
  - intros c k Hc. destruct (holder (srv st) k) as [[c' n]|] eqn:E.
    + destruct (try_lock_busy c k (srv st) c' n E) as [-> _]; [|done].
      intros ->. by eapply (holds_nothing st c (Asking k)).
    + by destruct (try_lock_free c k (srv st) E) as [-> _].
Qed.

End facts.

End leases.

(** ** [Watch] *)

(** What the select of the loop meets: the end of the context, or a tick with what [ctx.Err()]
    and the probe answer then. *)
Inductive watch_event : Type :=
| CtxDone (err : error)
| Tick (ctx_err : option error) (ping : option error).

(** [None]: the events are used up and the loop still watches. *)
Fixpoint Watch (events : list watch_event) : option (option error) :=
  match events with
  | [] => None
  | CtxDone err :: _ => Some (Some err)
  | Tick (Some err) _ :: _ => Some (Some err)
  | Tick None (Some err) :: _ => Some (Some (Wrap ErrLockLost (Some err)))
  | Tick None None :: events => Watch events
  end.

(** A watch ends with the error of its context or with a lost lock, never without an error. *)
Lemma Watch_end events r : Watch events = Some r →
  ∃ e, r = Some e ∧ (Is e (TSentinel LockerErrLockLost) = true
                     ∨ ∃ ping, CtxDone e ∈ events ∨ Tick (Some e) ping ∈ events).
Proof.
  induction events as [|ev events IH]; [done|]. destruct ev as [err|[err|] [ping|]]; simpl.
  - intros [= <-]. exists err. split; [done|]. right. exists None. left. left.
  - intros [= <-]. exists err. split; [done|]. right. exists (Some ping). right. left.
  - intros [= <-]. exists err. split; [done|]. right. exists None. right. left.
  - intros [= <-]. eexists. split; [done|]. left. apply (Wrap_kind LockerErrLockLost (Some ping)).
  - intros H. destruct (IH H) as (e & -> & [He|(ping & [He|He])]); exists e; (split; [done|]);
      [by left|right; exists ping; left; by right|right; exists ping; right; by right].
Qed.

(** ** What [TryAcquire] and [Release] return *)

(** A lease is known by its key. The connection and the answer of the server may be errors;
    [close_err] is the error of closing the connection. *)
Definition TryAcquire `{Runtime} (name : string) (connected : res error unit) (answer : res error bool)
    (close_err : option error) : res error (option lockKey) :=
  match connected with
  | Err err => Err (Wrap ErrUnavailable (Some err))
  | Ok _ =>
    let key := keyFor name in
    match answer with
    | Err err => Err (Wrap ErrUnavailable (Join [Some err; close_err]))
    | Ok acquired => if negb acquired then Ok None else Ok (Some key)
    end
  end.

(** [released]: the lease has no connection any more. *)
Definition Release (released : bool) (answer : res error bool) (close_err : option error) : option error :=
  if released then None
  else
    match answer with
    | Ok true => None
    | Ok false => Some (Wrap ErrRelease (Join [Some ErrLockLost; close_err]))
    | Err err => Some (Wrap ErrRelease (Join [Some err; close_err]))
    end.

(** What the caller hears agrees with what becomes of the connection: a lease exactly when it
    is leased, no error of the release exactly when it goes back to the pool. *)
Definition heard {A} (r : res error A) : option A := match r with Ok a => Some a | Err _ => None end.

Lemma TryAcquire_use `{Runtime} name answer close_err k :
  TryAcquire name (Ok tt) answer close_err = Ok (Some k)
  ↔ k = keyFor name ∧ acquired_use (keyFor name) (heard answer) = Leased k.
Proof. destruct answer as [[]|]; simpl; naive_solver. Qed.

Lemma Release_use answer close_err :
  Release false answer close_err = None ↔ released_use (heard answer) = Idle.
Proof. by destruct answer as [[]|]. Qed.
