(* ===== verification/Queries.v ===== *)
(** * The SQL statements of [internal/db/sqlc]

    One definition per generated query, named after it, with the semantics of its SQL
    text: [now] is the transaction's [now()], and a statement that violates a constraint
    of [00001_init.sql] reports the PostgreSQL error and changes nothing. [WHERE] clauses
    on the primary key are lookups; [RETURNING *] returns the row as written. *)
From S2P Require Import Prelude.
From S2P Require Import Text.
From S2P Require Import GoErrors.
From S2P Require Import Runtime.
From S2P Require Import Schema.
From S2P Require Import Pagination.
From S2P Require Import Storage.
From S2P Require Import Logic.

(** ** Shapes of statements *)

Definition ErrNoRows : error := ESentinel PgxErrNoRows.

Definition unique_violation (constraint : string) : error := EPg "23505" constraint.
Definition foreign_key_violation (constraint : string) : error := EPg "23503" constraint.

Definition table_rows {R} (t : gmap string R) : list R := (map_to_list t).*2.

(** Does some row satisfy [P]? *)
Definition exists_row {R} (P : R → bool) (t : gmap string R) : bool := existsb P (table_rows t).

Definition select_rows {R} (P : R → bool) (t : gmap string R) : list R :=
  List.filter P (table_rows t).

(** The row a [:one] query scans. *)
Definition one {R} (rows : list R) : res error R :=
  match rows with
  | r :: _ => Ok r
  | [] => Err ErrNoRows
  end.

Definition read {A} (q : time → DB → res error A) : stmt A := λ now d, (q now d, d).

(** [UPDATE ... SET f WHERE id = $1 AND P]: the updated row and table, if a row matches. *)
Definition update_row {R} (id : string) (P : R → bool) (f : R → R) (t : gmap string R)
    : option (R * gmap string R) :=
  match t !! id with
  | Some r => if P r then Some (f r, <[id := f r]> t) else None
  | None => None
  end.

(** Without the primary key in the clause any number of rows may change. *)
Definition update_where {R} (P : R → bool) (f : R → R) (t : gmap string R) : gmap string R :=
  (λ r, if P r then f r else r) <$> t.

Definition returning_one {R} (u : option (R * gmap string R)) (set : gmap string R → DB) (d : DB)
    : res error R * DB :=
  match u with
  | Some (r, t) => (Ok r, set t)
  | None => (Err ErrNoRows, d)
  end.

Definition rows_affected {R} (u : option (R * gmap string R)) (set : gmap string R → DB) (d : DB)
    : res error Z * DB :=
  match u with
  | Some (_, t) => (Ok 1, set t)
  | None => (Ok 0, d)
  end.

Definition no_result {R} (u : option (R * gmap string R)) (set : gmap string R → DB) (d : DB)
    : res error unit * DB :=
  match u with
  | Some (_, t) => (Ok tt, set t)
  | None => (Ok tt, d)
  end.

Definition seconds (n : Z) : time := n * Second.

Lemma read_guar {A} (R : relation DB) `{!PreOrder R} (q : time → DB → res error A) :
  stmt_guar R (read q).
Proof. intros now d. simpl. reflexivity. Qed.

#[export] Hint Extern 2 (stmt_guar _ _) => apply read_guar; typeclasses eauto : guar.

(** A statement on one table leaves the others as they are. *)
Ltac same_stmt :=
  lazymatch goal with
  | |- stmt_guar (same _) ?s =>
    let rec head t := lazymatch t with ?f _ => head f | _ => t end in
    let h := head s in
    unfold stmt_guar, same, h, read, rows_affected, returning_one, no_result;
    intros; repeat case_match; reflexivity
  end.

#[export] Hint Extern 3 (stmt_guar (same _) _) => same_stmt : guar.

Section queries.
  Context `{Run : Runtime}.

(** [ORDER BY created_at DESC, id DESC]. *)
Definition newest_first {R} (created : R → time) (id : R → string) (a b : R) : Prop :=
  created b < created a ∨ created a = created b ∧ collate_le (id b) (id a) = true.

(** [ORDER BY created_at, id]. *)
Definition oldest_first {R} (created : R → time) (id : R → string) (a b : R) : Prop :=
  created a < created b ∨ created a = created b ∧ collate_le (id a) (id b) = true.

Global Instance newest_first_dec {R} (created : R → time) id : RelDecision (newest_first created id).
Proof. unfold RelDecision, newest_first. intros. apply _. Defined.

Global Instance oldest_first_dec {R} (created : R → time) id : RelDecision (oldest_first created id).
Proof. unfold RelDecision, oldest_first. intros. apply _. Defined.

(** ** projects.sql.go *)

Definition CreateProject (id owner name description : string) : stmt Project := λ now d,
  if exists_row (λ p, Project_ID p ==? id) (projects d)
  then (Err (unique_violation "projects_pkey"), d)
  else if exists_row (λ p, (Project_OwnerID p ==? owner) && (Project_Name p ==? name))%bool (projects d)
  then (Err (unique_violation "projects_owner_name_key"), d)
  else
    let row := mkProject id owner name description now now in
    (Ok row, d <| projects := <[id := row]> (projects d) |>).

Definition GetProject (id owner : string) : stmt Project := read (λ _ d,
  match projects d !! id with
  | Some p => if Project_OwnerID p ==? owner then Ok p else Err ErrNoRows
  | None => Err ErrNoRows
  end).

Definition ListProjects (owner : string) (limit offset : Z) : stmt (list Project) := read (λ _ d,
  Ok (limit_offset limit offset
        (merge_sort (newest_first Project_CreatedAt Project_ID)
           (select_rows (λ p, Project_OwnerID p ==? owner) (projects d))))).

Definition UpdateProject (id owner name description : string) : stmt Project := λ now d,
  match update_row id (λ p, Project_OwnerID p ==? owner)
          (λ p, p <| Project_Name := name |> <| Project_Description := description |>
                  <| Project_UpdatedAt := now |>) (projects d) with
  | Some (row, t) =>
    if exists_row (λ p, (Project_ID p !=? id) && (Project_OwnerID p ==? owner)
                        && (Project_Name p ==? name))%bool (projects d)
    then (Err (unique_violation "projects_owner_name_key"), d)
    else (Ok row, d <| projects := t |>)
  | None => (Err ErrNoRows, d)
  end.

Definition DeleteProject (id owner : string) : stmt Z := λ _ d,
  match projects d !! id with
  | Some p => if Project_OwnerID p ==? owner
              then (Ok 1, d <| projects := delete id (projects d) |>) else (Ok 0, d)
  | None => (Ok 0, d)
  end.

(** ** tasks.sql.go *)

Definition CreateTask (id owner title description status : string) : stmt Task := λ now d,
  if exists_row (λ t, Task_ID t ==? id) (tasks d)
  then (Err (unique_violation "tasks_pkey"), d)
  else
    let row := mkTask id owner title description status now now in
    (Ok row, d <| tasks := <[id := row]> (tasks d) |>).

Definition GetTask (id owner : string) : stmt Task := read (λ _ d,
  match tasks d !! id with
  | Some t => if Task_OwnerID t ==? owner then Ok t else Err ErrNoRows
  | None => Err ErrNoRows
  end).

Definition ListTasks (owner status_filter : string) (limit offset : Z) : stmt (list Task) :=
  read (λ _ d,
  Ok (limit_offset limit offset
        (merge_sort (newest_first Task_CreatedAt Task_ID)
           (select_rows (λ t, (Task_OwnerID t ==? owner)
                              && ((status_filter ==? "") || (Task_Status t ==? status_filter)))%bool
              (tasks d))))).

Definition UpdateTask (id owner title description status : string) : stmt Task := λ now d,
  returning_one
    (update_row id (λ t, Task_OwnerID t ==? owner)
       (λ t, t <| Task_Title := title |> <| Task_Description := description |>
               <| Task_Status := status |> <| Task_UpdatedAt := now |>) (tasks d))
    (λ t, d <| tasks := t |>) d.

Definition DeleteTask (id owner : string) : stmt Z := λ _ d,
  match tasks d !! id with
  | Some t => if Task_OwnerID t ==? owner
              then (Ok 1, d <| tasks := delete id (tasks d) |>) else (Ok 0, d)
  | None => (Ok 0, d)
  end.

(** ** users.sql.go *)

Definition FindUserByEmail (email_normalized : option string) : stmt User := read (λ _ d,
  match email_normalized with
  | Some e => one (select_rows (λ u, User_EmailNormalized u ==? Some e) (users d))
  | None => Err ErrNoRows
  end).

Definition GetUser (id : string) : stmt User := read (λ _ d,
  match users d !! id with Some u => Ok u | None => Err ErrNoRows end).

(** [FOR UPDATE]; the lock itself is implied by serial transactions. *)
Definition LockUser (id : string) : stmt User := read (λ _ d,
  match users d !! id with Some u => Ok u | None => Err ErrNoRows end).

Definition new_user (id display_name : string) (email email_normalized : option string)
    (status : string) (now : time) : User :=
  mkUser id display_name email email_normalized None false status "user" 1 now now.

(** On a conflict on [email_normalized] the existing row is returned unchanged. *)
Definition CreatePendingUser (id : string) (email email_normalized : option string) : stmt User :=
  λ now d,
  let conflicting := match email_normalized with
                     | Some e => select_rows (λ u, User_EmailNormalized u ==? Some e) (users d)
                     | None => []
                     end in
  match conflicting with
  | u :: _ => (Ok u, d)
  | [] =>
    if exists_row (λ u, User_ID u ==? id) (users d)
    then (Err (unique_violation "users_pkey"), d)
    else
      let row := new_user id "" email email_normalized "pending" now in
      (Ok row, d <| users := <[id := row]> (users d) |>)
  end.

Definition CreateFederatedUser (id display_name : string) : stmt User := λ now d,
  if exists_row (λ u, User_ID u ==? id) (users d)
  then (Err (unique_violation "users_pkey"), d)
  else
    let row := new_user id display_name None None "active" now in
    (Ok row, d <| users := <[id := row]> (users d) |>).

Definition ActivateUser (id : string) : stmt User := λ now d,
  returning_one
    (update_row id (λ u, User_Status u ==? "pending")
       (λ u, u <| User_Status := "active" |> <| User_EmailVerifiedAt := Some now |>
               <| User_RecoveryEnabled := true |> <| User_UpdatedAt := now |>) (users d))
    (λ t, d <| users := t |>) d.

(** The conditions on a session shared by all statements that check one. *)
Definition session_live (now : time) (s : UserSession) : bool :=
  ((UserSession_RevokedAt s ==? None) && (now <? UserSession_IdleExpiresAt s)
   && (now <? UserSession_AbsoluteExpiresAt s))%bool.

Definition session_valid (now : time) (u : User) (s : UserSession) : bool :=
  (session_live now s && (User_Status u ==? "active")
   && (User_AuthVersion u =? UserSession_AuthVersion s))%bool.

Definition UpdateUserProfile (id display_name session_id : string) : stmt User := λ now d,
  returning_one
    (update_row id
       (λ u, (User_Status u ==? "active")
             && match user_sessions d !! session_id with
                | Some s => (UserSession_UserID s ==? User_ID u) && session_live now s
                            && (UserSession_AuthVersion s =? User_AuthVersion u)
                | None => false
                end)%bool
       (λ u, u <| User_DisplayName := display_name |> <| User_UpdatedAt := now |>) (users d))
    (λ t, d <| users := t |>) d.

Definition UpdateUserEmail (id : string) (email email_normalized : option string) : stmt User :=
  λ now d,
  match update_row id (λ u, User_Status u ==? "active")
          (λ u, u <| User_Email := email |> <| User_EmailNormalized := email_normalized |>
                  <| User_EmailVerifiedAt := Some now |> <| User_RecoveryEnabled := true |>
                  <| User_AuthVersion := User_AuthVersion u + 1 |>
                  <| User_UpdatedAt := now |>) (users d) with
  | Some (row, t) =>
    if exists_row (λ u, (User_ID u !=? id) && (email_normalized !=? None)
                        && (User_EmailNormalized u ==? email_normalized))%bool (users d)
    then (Err (unique_violation "users_email_normalized_key"), d)
    else (Ok row, d <| users := t |>)
  | None => (Err ErrNoRows, d)
  end.

Definition ReleasePendingEmail (email_normalized : option string) : stmt unit := λ now d,
  (Ok tt,
   d <| users :=
     update_where
       (λ u, (email_normalized !=? None) && (User_EmailNormalized u ==? email_normalized)
             && (User_Status u ==? "pending") && (User_EmailVerifiedAt u ==? None)
             && negb (User_RecoveryEnabled u)
             && negb (exists_row (λ a, Account_UserID a ==? User_ID u) (accounts d)))%bool
       (λ u, u <| User_Email := None |> <| User_EmailNormalized := None |>
               <| User_AuthVersion := User_AuthVersion u + 1 |> <| User_UpdatedAt := now |>)
       (users d) |>).

Definition BumpUserVersion (id : string) : stmt unit := λ now d,
  no_result
    (update_row id (λ _, true)
       (λ u, u <| User_AuthVersion := User_AuthVersion u + 1 |> <| User_UpdatedAt := now |>)
       (users d))
    (λ t, d <| users := t |>) d.

Definition SetUserStatus (id status : string) : stmt User := λ now d,
  returning_one
    (update_row id (λ _, true)
       (λ u, u <| User_Status := status |> <| User_AuthVersion := User_AuthVersion u + 1 |>
               <| User_UpdatedAt := now |>) (users d))
    (λ t, d <| users := t |>) d.

Definition ListUsers (limit offset : Z) : stmt (list User) := read (λ _ d,
  Ok (limit_offset limit offset
        (merge_sort (newest_first User_CreatedAt User_ID) (table_rows (users d))))).

Definition GetSessionUser (user_id session_id : string) : stmt User := read (λ now d,
  match users d !! user_id, user_sessions d !! session_id with
  | Some u, Some s =>
    if ((UserSession_UserID s ==? User_ID u) && session_valid now u s)%bool
    then Ok u else Err ErrNoRows
  | _, _ => Err ErrNoRows
  end).

End queries.
