(* ===== verification/AuthQueries.v ===== *)
(** * The SQL statements of the authentication tables

    [user_sessions.sql.go], [accounts.sql.go], [auth_flows.sql.go],
    [auth_verifications.sql.go], [audit_events.sql.go] and [auth_rate_limits.sql.go] of
    [internal/db/sqlc]; see [Queries] for the conventions. Unique indexes are checked in
    the order of the migration, foreign keys after them. *)
From S2P Require Import Prelude.
From S2P Require Import Text.
From S2P Require Import GoErrors.
From S2P Require Import Runtime.
From S2P Require Import Schema.
From S2P Require Import Pagination.
From S2P Require Import Storage.
From S2P Require Import Queries.

(** [a = b] in a [WHERE] clause: never true of [NULL]. *)
Definition sql_eq (a b : option string) : bool :=
  match a, b with
  | Some x, Some y => x ==? y
  | _, _ => false
  end.

(** A foreign key that may be [NULL]. *)
Definition references {R} (key : option string) (t : gmap string R) : bool :=
  match key with
  | Some id => bool_decide (is_Some (t !! id))
  | None => true
  end.

(** ** user_sessions.sql.go *)

Record CreateSessionParams : Type := mkCreateSessionParams {
  CreateSession_ID : string;
  CreateSession_UserID : string;
  CreateSession_TokenHash : string;
  CreateSession_AuthMethod : string;
  CreateSession_AuthSourceID : string;
  CreateSession_AuthVersion : Z;
  CreateSession_IdleSeconds : Z;
  CreateSession_MaxSeconds : Z
}.

Definition session_row (arg : CreateSessionParams) (now : time) : UserSession :=
  mkUserSession (CreateSession_ID arg) (CreateSession_UserID arg) (CreateSession_TokenHash arg)
    (CreateSession_AuthMethod arg) (CreateSession_AuthSourceID arg) now
    (CreateSession_AuthVersion arg) now now
    (now + seconds (CreateSession_IdleSeconds arg)) (now + seconds (CreateSession_MaxSeconds arg))
    None.

Definition CreateSession (arg : CreateSessionParams) : stmt UserSession := λ now d,
  let row := session_row arg now in
  if exists_row (λ s, UserSession_ID s ==? UserSession_ID row) (user_sessions d)
  then (Err (unique_violation "user_sessions_pkey"), d)
  else if exists_row (λ s, UserSession_TokenHash s ==? UserSession_TokenHash row) (user_sessions d)
  then (Err (unique_violation "user_sessions_token_hash_key"), d)
  else if negb (references (Some (UserSession_UserID row)) (users d))
  then (Err (foreign_key_violation "user_sessions_user_id_fkey"), d)
  else (Ok row, d <| user_sessions := <[UserSession_ID row := row]> (user_sessions d) |>).

(** [JOIN users u ON u.id = s.user_id] and the conditions of a valid session. *)
Definition session_current (now : time) (d : DB) (s : UserSession) : bool :=
  match users d !! UserSession_UserID s with
  | Some u => session_valid now u s
  | None => false
  end.

Definition FindSession (token_hash : string) : stmt UserSession := read (λ now d,
  one (select_rows (λ s, (UserSession_TokenHash s ==? token_hash) && session_current now d s)%bool
         (user_sessions d))).

Definition GetValidSession (id user_id : string) : stmt UserSession := read (λ now d,
  match user_sessions d !! id with
  | Some s => if ((UserSession_UserID s ==? user_id) && session_current now d s)%bool
              then Ok s else Err ErrNoRows
  | None => Err ErrNoRows
  end).

(** The list does not look at the user's status. *)
Definition ListSessions `{Runtime} (user_id : string) (limit offset : Z)
    : stmt (list UserSession) := read (λ now d,
  Ok (limit_offset limit offset
        (merge_sort (newest_first UserSession_CreatedAt UserSession_ID)
           (select_rows
              (λ s, (UserSession_UserID s ==? user_id) && session_live now s
                    && match users d !! UserSession_UserID s with
                       | Some u => UserSession_AuthVersion s =? User_AuthVersion u
                       | None => false
                       end)%bool
              (user_sessions d))))).

Definition RevokeSession (id user_id : string) : stmt Z := λ now d,
  rows_affected
    (update_row id (λ s, UserSession_UserID s ==? user_id)
       (λ s, s <| UserSession_RevokedAt :=
                    match UserSession_RevokedAt s with Some t => Some t | None => Some now end |>)
       (user_sessions d))
    (λ t, d <| user_sessions := t |>) d.

Definition RevokeUserSessions (user_id : string) : stmt unit := λ now d,
  (Ok tt, d <| user_sessions :=
     update_where
       (λ s, (UserSession_UserID s ==? user_id) && (UserSession_RevokedAt s ==? None))%bool
       (λ s, s <| UserSession_RevokedAt := Some now |>) (user_sessions d) |>).

Definition milliseconds (n : Z) : time := n * Millisecond.

Definition TouchSession (idle_seconds : Z) (id user_id : string) (renewal_milliseconds : Z)
    : stmt unit := λ now d,
  no_result
    (update_row id
       (λ s, (UserSession_UserID s ==? user_id)
             && (UserSession_LastSeenAt s <=? now - milliseconds renewal_milliseconds)
             && session_current now d s)%bool
       (λ s, s <| UserSession_LastSeenAt := now |>
               <| UserSession_IdleExpiresAt :=
                    UserSession_AbsoluteExpiresAt s `min` (now + seconds idle_seconds) |>)
       (user_sessions d))
    (λ t, d <| user_sessions := t |>) d.

(** ** accounts.sql.go *)

Definition credential_provider : string := "credential".

Definition account_active (a : Account) : bool := Account_RevokedAt a ==? None.

Record CreateAccountParams : Type := mkCreateAccountParams {
  CreateAccount_ID : string;
  CreateAccount_UserID : string;
  CreateAccount_ProviderID : string;
  CreateAccount_ProviderAccountID : string;
  CreateAccount_ProviderNamespace : string;
  CreateAccount_PasswordHash : option string
}.

Definition account_row (arg : CreateAccountParams) (now : time) : Account :=
  mkAccount (CreateAccount_ID arg) (CreateAccount_UserID arg) (CreateAccount_ProviderID arg)
    (CreateAccount_ProviderAccountID arg) (CreateAccount_ProviderNamespace arg)
    (CreateAccount_PasswordHash arg) 1 now now None None.

(** Do two active rows clash on a unique index of [accounts]? *)
Definition same_provider_identity (a b : Account) : bool :=
  (account_active a && (Account_ProviderID a ==? Account_ProviderID b)
   && (Account_ProviderAccountID a ==? Account_ProviderAccountID b))%bool.

Definition same_namespace_identity (a b : Account) : bool :=
  (account_active a && (Account_ProviderNamespace a ==? Account_ProviderNamespace b)
   && (Account_ProviderAccountID a ==? Account_ProviderAccountID b))%bool.

Definition same_user_credential (a b : Account) : bool :=
  (account_active a && (Account_ProviderID a ==? credential_provider)
   && (Account_ProviderID b ==? credential_provider)
   && (Account_UserID a ==? Account_UserID b))%bool.

Definition CreateAccount (arg : CreateAccountParams) : stmt Account := λ now d,
  let row := account_row arg now in
  if exists_row (λ a, Account_ID a ==? Account_ID row) (accounts d)
  then (Err (unique_violation "accounts_pkey"), d)
  else if exists_row (λ a, same_provider_identity a row) (accounts d)
  then (Err (unique_violation "accounts_provider_identity_key"), d)
  else if exists_row (λ a, same_namespace_identity a row) (accounts d)
  then (Err (unique_violation "accounts_namespace_identity_key"), d)
  else if exists_row (λ a, same_user_credential a row) (accounts d)
  then (Err (unique_violation "accounts_user_credential_key"), d)
  else if negb (references (Some (Account_UserID row)) (users d))
  then (Err (foreign_key_violation "accounts_user_id_fkey"), d)
  else (Ok row, d <| accounts := <[Account_ID row := row]> (accounts d) |>).

Definition FindProviderAccount (namespace provider_account_id : string) : stmt Account :=
  read (λ _ d,
  one (select_rows
         (λ a, (Account_ProviderNamespace a ==? namespace)
               && (Account_ProviderAccountID a ==? provider_account_id) && account_active a)%bool
         (accounts d))).

Definition GetAccount (id user_id : string) : stmt Account := read (λ _ d,
  match accounts d !! id with
  | Some a => if ((Account_UserID a ==? user_id) && account_active a)%bool
              then Ok a else Err ErrNoRows
  | None => Err ErrNoRows
  end).

Definition GetPasswordAccount (user_id : string) : stmt Account := read (λ _ d,
  one (select_rows
         (λ a, (Account_UserID a ==? user_id) && (Account_ProviderID a ==? credential_provider)
               && account_active a)%bool
         (accounts d))).

Definition ListAccounts `{Runtime} (user_id : string) : stmt (list Account) := read (λ _ d,
  Ok (merge_sort (oldest_first Account_CreatedAt Account_ID)
        (select_rows (λ a, (Account_UserID a ==? user_id) && account_active a)%bool (accounts d)))).

Definition ChangePassword (id user_id : string) (password_hash : option string) : stmt Z :=
  λ now d,
  rows_affected
    (update_row id
       (λ a, (Account_UserID a ==? user_id) && (Account_ProviderID a ==? credential_provider)
             && account_active a)%bool
       (λ a, a <| Account_PasswordHash := password_hash |>
               <| Account_Version := Account_Version a + 1 |> <| Account_UpdatedAt := now |>)
       (accounts d))
    (λ t, d <| accounts := t |>) d.

Definition RevokeAccount (id user_id : string) : stmt Z := λ now d,
  rows_affected
    (update_row id (λ a, (Account_UserID a ==? user_id) && account_active a)%bool
       (λ a, a <| Account_RevokedAt := Some now |>
               <| Account_Version := Account_Version a + 1 |> <| Account_UpdatedAt := now |>)
       (accounts d))
    (λ t, d <| accounts := t |>) d.

Definition TouchAccount (id user_id : string) : stmt unit := λ now d,
  no_result
    (update_row id (λ a, Account_UserID a ==? user_id)
       (λ a, a <| Account_LastUsedAt := Some now |>) (accounts d))
    (λ t, d <| accounts := t |>) d.

Definition UpgradePasswordHash (id user_id : string) (new_hash old_hash : option string)
    : stmt unit := λ now d,
  no_result
    (update_row id
       (λ a, (Account_UserID a ==? user_id) && sql_eq (Account_PasswordHash a) old_hash
             && account_active a)%bool
       (λ a, a <| Account_PasswordHash := new_hash |> <| Account_UpdatedAt := now |>)
       (accounts d))
    (λ t, d <| accounts := t |>) d.

(** ** auth_flows.sql.go *)

Record CreateFlowParams : Type := mkCreateFlowParams {
  CreateFlow_ID : string;
  CreateFlow_Purpose : string;
  CreateFlow_TokenHash : option string;
  CreateFlow_ProviderID : string;
  CreateFlow_ConfigVersion : string;
  CreateFlow_UserID : option string;
  CreateFlow_SessionID : option string;
  CreateFlow_AuthVersion : Z;
  CreateFlow_AccountID : option string;
  CreateFlow_AccountVersion : Z;
  CreateFlow_Operation : string;
  CreateFlow_Target : string;
  CreateFlow_ReauthenticationID : option string;
  CreateFlow_StateHash : option string;
  CreateFlow_ProtocolState : option json;
  CreateFlow_Status : string;
  CreateFlow_AuthenticatedAt : option time
}.

Definition flow_row (arg : CreateFlowParams) (now : time) : AuthFlow :=
  mkAuthFlow (CreateFlow_ID arg) (CreateFlow_Purpose arg) (CreateFlow_TokenHash arg)
    (CreateFlow_ProviderID arg) (CreateFlow_ConfigVersion arg) (CreateFlow_UserID arg)
    (CreateFlow_SessionID arg) (CreateFlow_AuthVersion arg) (CreateFlow_AccountID arg)
    (CreateFlow_AccountVersion arg) (CreateFlow_Operation arg) (CreateFlow_Target arg)
    (CreateFlow_ReauthenticationID arg) None (CreateFlow_StateHash arg)
    (CreateFlow_ProtocolState arg) "" "" "" (CreateFlow_AuthenticatedAt arg)
    (CreateFlow_Status arg) now (now + 5 * Minute).

Definition CreateFlow (arg : CreateFlowParams) : stmt AuthFlow := λ now d,
  let row := flow_row arg now in
  if exists_row (λ f, AuthFlow_ID f ==? AuthFlow_ID row) (auth_flows d)
  then (Err (unique_violation "auth_flows_pkey"), d)
  else if exists_row (λ f, sql_eq (AuthFlow_TokenHash f) (AuthFlow_TokenHash row)) (auth_flows d)
  then (Err (unique_violation "auth_flows_token_hash_key"), d)
  else if negb (references (AuthFlow_UserID row) (users d))
  then (Err (foreign_key_violation "auth_flows_user_id_fkey"), d)
  else if negb (references (AuthFlow_SessionID row) (user_sessions d))
  then (Err (foreign_key_violation "auth_flows_session_id_fkey"), d)
  else (Ok row, d <| auth_flows := <[AuthFlow_ID row := row]> (auth_flows d) |>).

Definition FindFlow (token_hash : string) : stmt AuthFlow := read (λ now d,
  one (select_rows
         (λ f, sql_eq (AuthFlow_TokenHash f) (Some token_hash) && (now <? AuthFlow_ExpiresAt f))%bool
         (auth_flows d))).

Definition GetFlow (id : string) : stmt AuthFlow := read (λ now d,
  match auth_flows d !! id with
  | Some f => if now <? AuthFlow_ExpiresAt f then Ok f else Err ErrNoRows
  | None => Err ErrNoRows
  end).

Definition flow_in (status : string) (now : time) (f : AuthFlow) : bool :=
  ((AuthFlow_Status f ==? status) && (now <? AuthFlow_ExpiresAt f))%bool.

Definition ClaimFlow (id : string) : stmt Z := λ now d,
  rows_affected
    (update_row id (flow_in "pending" now) (λ f, f <| AuthFlow_Status := "processing" |>)
       (auth_flows d))
    (λ t, d <| auth_flows := t |>) d.

Record VerifyFlowParams : Type := mkVerifyFlowParams {
  VerifyFlow_ID : string;
  VerifyFlow_Status : string;
  VerifyFlow_VerifiedNamespace : string;
  VerifyFlow_VerifiedSubject : string;
  VerifyFlow_VerifiedName : string;
  VerifyFlow_AuthenticatedAt : option time
}.

Definition VerifyFlow (arg : VerifyFlowParams) : stmt Z := λ now d,
  rows_affected
    (update_row (VerifyFlow_ID arg) (flow_in "processing" now)
       (λ f, f <| AuthFlow_Status := VerifyFlow_Status arg |>
               <| AuthFlow_VerifiedNamespace := VerifyFlow_VerifiedNamespace arg |>
               <| AuthFlow_VerifiedSubject := VerifyFlow_VerifiedSubject arg |>
               <| AuthFlow_VerifiedName := VerifyFlow_VerifiedName arg |>
               <| AuthFlow_AuthenticatedAt := VerifyFlow_AuthenticatedAt arg |>
               <| AuthFlow_ProtocolState := None |>)
       (auth_flows d))
    (λ t, d <| auth_flows := t |>) d.

Definition FinishFlow (id status : string) : stmt Z := λ now d,
  rows_affected
    (update_row id (flow_in status now)
       (λ f, f <| AuthFlow_Status := "consumed" |> <| AuthFlow_ProtocolState := None |>)
       (auth_flows d))
    (λ t, d <| auth_flows := t |>) d.

Definition FailFlow (id : string) : stmt unit := λ _ d,
  no_result
    (update_row id
       (λ f, (AuthFlow_Status f ==? "pending") || (AuthFlow_Status f ==? "processing"))%bool
       (λ f, f <| AuthFlow_Status := "failed" |> <| AuthFlow_ProtocolState := None |>)
       (auth_flows d))
    (λ t, d <| auth_flows := t |>) d.

Definition ClaimAuthorization (id : string) (claimed_by : option string) : stmt Z := λ now d,
  rows_affected
    (update_row id (flow_in "authorized" now)
       (λ f, f <| AuthFlow_Status := "claimed" |> <| AuthFlow_ClaimedBy := claimed_by |>)
       (auth_flows d))
    (λ t, d <| auth_flows := t |>) d.

(** ** auth_verifications.sql.go *)

Record CreateVerificationParams : Type := mkCreateVerificationParams {
  CreateVerification_ID : string;
  CreateVerification_UserID : string;
  CreateVerification_Purpose : string;
  CreateVerification_TokenHash : string;
  CreateVerification_Email : string;
  CreateVerification_AuthVersion : Z;
  CreateVerification_SessionID : option string;
  CreateVerification_ReauthenticationID : option string;
  CreateVerification_TtlSeconds : Z
}.

Definition verification_row (arg : CreateVerificationParams) (now : time) : AuthVerification :=
  mkAuthVerification (CreateVerification_ID arg) (CreateVerification_UserID arg)
    (CreateVerification_Purpose arg) (CreateVerification_TokenHash arg)
    (CreateVerification_Email arg) (CreateVerification_AuthVersion arg)
    (CreateVerification_SessionID arg) (CreateVerification_ReauthenticationID arg)
    now (now + seconds (CreateVerification_TtlSeconds arg)) None.

Definition CreateVerification (arg : CreateVerificationParams) : stmt AuthVerification := λ now d,
  let row := verification_row arg now in
  if exists_row (λ v, AuthVerification_ID v ==? AuthVerification_ID row) (auth_verifications d)
  then (Err (unique_violation "auth_verifications_pkey"), d)
  else if exists_row (λ v, AuthVerification_TokenHash v ==? AuthVerification_TokenHash row)
            (auth_verifications d)
  then (Err (unique_violation "auth_verifications_token_hash_key"), d)
  else if negb (references (Some (AuthVerification_UserID row)) (users d))
  then (Err (foreign_key_violation "auth_verifications_user_id_fkey"), d)
  else (Ok row, d <| auth_verifications := <[AuthVerification_ID row := row]>
                       (auth_verifications d) |>).

Definition verification_open (now : time) (v : AuthVerification) : bool :=
  ((AuthVerification_ConsumedAt v ==? None) && (now <? AuthVerification_ExpiresAt v))%bool.

Definition FindVerification (token_hash : string) : stmt AuthVerification := read (λ now d,
  one (select_rows
         (λ v, (AuthVerification_TokenHash v ==? token_hash) && verification_open now v)%bool
         (auth_verifications d))).

Definition ConsumeVerification (id user_id : string) : stmt Z := λ now d,
  rows_affected
    (update_row id (λ v, (AuthVerification_UserID v ==? user_id) && verification_open now v)%bool
       (λ v, v <| AuthVerification_ConsumedAt := Some now |>) (auth_verifications d))
    (λ t, d <| auth_verifications := t |>) d.

(** ** audit_events.sql.go *)

Record AppendAuditParams : Type := mkAppendAuditParams {
  AppendAudit_ID : string;
  AppendAudit_Action : string;
  AppendAudit_Outcome : string;
  AppendAudit_ActorType : string;
  AppendAudit_ActorID : option string;
  AppendAudit_ResourceType : string;
  AppendAudit_ResourceID : option string;
  AppendAudit_ScopeSubject : option string;
  AppendAudit_SessionID : option string;
  AppendAudit_RequestID : option string;
  AppendAudit_ReasonCode : option string;
  AppendAudit_Metadata : json
}.

Definition audit_row (arg : AppendAuditParams) (now : time) : AuditEvent :=
  mkAuditEvent (AppendAudit_ID arg) now (AppendAudit_Action arg) (AppendAudit_Outcome arg)
    (AppendAudit_ActorType arg) (AppendAudit_ActorID arg) (AppendAudit_ResourceType arg)
    (AppendAudit_ResourceID arg) (AppendAudit_ScopeSubject arg) (AppendAudit_SessionID arg)
    (AppendAudit_RequestID arg) (AppendAudit_ReasonCode arg) (AppendAudit_Metadata arg).

Definition AppendAudit (arg : AppendAuditParams) : stmt unit := λ now d,
  if existsb (λ e, AuditEvent_ID e ==? AppendAudit_ID arg) (audit_events d)
  then (Err (unique_violation "audit_events_pkey"), d)
  else (Ok tt, d <| audit_events := audit_events d ++ [audit_row arg now] |>).

(** ** auth_rate_limits.sql.go *)

Record RateLimitRow : Type := mkRateLimitRow {
  RateLimit_Count : Z;
  RateLimit_RetryAfterSeconds : Z
}.

(** [GREATEST(1, ceil(extract(epoch FROM (expires_at - now()))))] *)
Definition remaining_seconds (expires_at now : time) : Z :=
  1 `max` (- ((now - expires_at) / Second)).

Definition RateLimit (bucket_key : string) (window_seconds : Z) : stmt RateLimitRow := λ now d,
  let fresh := mkAuthRateLimit 1 (now + seconds window_seconds) in
  let row := match auth_rate_limits d !! bucket_key with
             | Some r => if AuthRateLimit_ExpiresAt r <=? now then fresh
                         else r <| AuthRateLimit_Count :=
                                     (AuthRateLimit_Count r + 1) `min` 1000000 |>
             | None => fresh
             end in
  (Ok (mkRateLimitRow (AuthRateLimit_Count row) (remaining_seconds (AuthRateLimit_ExpiresAt row) now)),
   d <| auth_rate_limits := <[bucket_key := row]> (auth_rate_limits d) |>).
