(* ===== verification/Owned.v ===== *)
(** * Tables whose rows belong to owners

    What the services of [internal/modules/project] and [internal/modules/task] have in
    common: a table of rows with an owner each. [shelf o t] is what owner [o] can see of
    table [t]; the lemmas say how the statements act on the shelves. *)
From S2P Require Import Prelude.
From S2P Require Import Runtime.
From S2P Require Import GoErrors.
From S2P Require Import Schema.
From S2P Require Import Storage.
From S2P Require Import Logic.
From S2P Require Import Queries.

Lemma elem_of_table_rows {R} (t : gmap string R) r :
  r ∈ table_rows t ↔ ∃ k, t !! k = Some r.
Proof.
  unfold table_rows. rewrite list_elem_of_fmap. split.
  - intros ([k x] & -> & Hx%elem_of_map_to_list). eauto.
  - intros [k Hk]. exists (k, r). by rewrite elem_of_map_to_list.
Qed.

Lemma exists_row_true {R} (P : R → bool) t :
  exists_row P t = true ↔ ∃ k r, t !! k = Some r ∧ P r = true.
Proof.
  unfold exists_row. rewrite existsb_exists. split.
  - intros (r & Hr & HP). apply list_elem_of_In, elem_of_table_rows in Hr as [k Hk]. eauto.
  - intros (k & r & Hk & HP). exists r. rewrite <-list_elem_of_In, elem_of_table_rows. eauto.
Qed.

Lemma exists_row_false {R} (P : R → bool) t :
  exists_row P t = false ↔ ∀ k r, t !! k = Some r → P r = false.
Proof.
  rewrite <-not_true_iff_false, exists_row_true. split.
  - intros H k r Hk. destruct (P r) eqn:E; [|done]. exfalso. eauto.
  - intros H (k & r & Hk & HP). by rewrite (H k r Hk) in HP.
Qed.

Lemma elem_of_select_rows {R} (P : R → bool) t r :
  r ∈ select_rows P t ↔ (∃ k, t !! k = Some r) ∧ P r = true.
Proof.
  unfold select_rows. rewrite list_elem_of_In, filter_In, <-list_elem_of_In, elem_of_table_rows.
  done.
Qed.

Lemma select_rows_nil {R} (P : R → bool) t :
  select_rows P t = [] ↔ ∀ k r, t !! k = Some r → P r = false.
Proof.
  split.
  - intros H k r Hk. destruct (P r) eqn:E; [|done]. exfalso.
    assert (r ∈ select_rows P t) as Hin by (apply elem_of_select_rows; eauto).
    rewrite H in Hin. inversion Hin.
  - intros H. destruct (select_rows P t) as [|r l] eqn:E; [done|].
    assert (r ∈ select_rows P t) as Hin by (rewrite E; left).
    apply elem_of_select_rows in Hin as [[k Hk] HP]. by rewrite (H k r Hk) in HP.
Qed.

Global Instance filter_Permutation {A} (P : A → bool) :
  Proper (Permutation ==> Permutation) (List.filter P).
Proof.
  induction 1 as [|x l1 l2 _ IH|x y l|l1 l2 l3 _ IH1 _ IH2]; simpl; [done|..].
  - destruct (P x); [by constructor|done].
  - destruct (P x), (P y); try done. constructor.
  - by etransitivity.
Qed.

(** Updating a row in place keeps the keys when the row keeps its key. *)
Definition keyed {R} (id : R → string) (t : gmap string R) : Prop :=
  ∀ k r, t !! k = Some r → id r = k.

Lemma keyed_insert {R} (id : R → string) t k r : keyed id t → id r = k → keyed id (<[k:=r]> t).
Proof.
  intros Ht Hr k' r'. rewrite lookup_insert_Some. intros [[<- <-]|[_ ?]]; [done|by apply Ht].
Qed.

Lemma keyed_delete {R} (id : R → string) t k : keyed id t → keyed id (delete k t).
Proof. intros Ht k' r'. rewrite lookup_delete_Some. intros [_ ?]. by apply Ht. Qed.

Lemma keyed_fmap {R} (id : R → string) (f : R → R) t :
  keyed id t → (∀ r, id (f r) = id r) → keyed id (f <$> t).
Proof.
  intros Ht Hf k r. rewrite lookup_fmap_Some. intros (r0 & <- & Hk). rewrite Hf. by apply Ht.
Qed.

Lemma update_row_Some {R} id (P : R → bool) f t r' t' :
  update_row id P f t = Some (r', t') ↔
  ∃ r, t !! id = Some r ∧ P r = true ∧ r' = f r ∧ t' = <[id := f r]> t.
Proof.
  unfold update_row. split.
  - destruct (t !! id) as [r|]; [|done]. destruct (P r) eqn:E; [|done]. intros [= <- <-]. eauto.
  - by intros (r & -> & -> & -> & ->).
Qed.

Lemma update_row_None {R} id (P : R → bool) f t :
  update_row id P f t = None ↔ ∀ r, t !! id = Some r → P r = false.
Proof.
  unfold update_row. destruct (t !! id) as [r|]; [|by split].
  destruct (P r) eqn:E; split; intros H; try done; [by specialize (H r eq_refl); congruence|].
  by intros ? [= <-].
Qed.

Lemma filter_true {A} (l : list A) : List.filter (λ _, true) l = l.
Proof. induction l as [|x l IH]; simpl; [done|by f_equal]. Qed.

(** ** Shelves *)

Section shelf.
  Context {R Rec : Type} (owner : R → string) (view : R → Rec).

Definition shelf (o : string) (t : gmap string R) : gmap string Rec :=
  omap (λ r, if owner r ==? o then Some (view r) else None) t.

Lemma shelf_Some o t k x :
  shelf o t !! k = Some x ↔ ∃ r, t !! k = Some r ∧ owner r = o ∧ view r = x.
Proof.
  unfold shelf. rewrite lookup_omap. destruct (t !! k) as [r|]; simpl; [|naive_solver].
  case_bool_decide; naive_solver.
Qed.

Lemma shelf_None o t k :
  shelf o t !! k = None ↔ ∀ r, t !! k = Some r → owner r ≠ o.
Proof.
  unfold shelf. rewrite lookup_omap. destruct (t !! k) as [r|]; simpl; [|naive_solver].
  case_bool_decide; naive_solver.
Qed.

Lemma shelf_insert_own o t k r :
  owner r = o → shelf o (<[k:=r]> t) = <[k:=view r]> (shelf o t).
Proof.
  intros Ho. unfold shelf. apply map_eq. intros j. rewrite lookup_omap.
  destruct (decide (k = j)) as [->|]; [|by rewrite !lookup_insert_ne, lookup_omap].
  rewrite !lookup_insert_eq. simpl. by rewrite bool_decide_eq_true_2.
Qed.

Lemma shelf_insert_other o t k r :
  owner r ≠ o → (∀ r0, t !! k = Some r0 → owner r0 ≠ o) →
  shelf o (<[k:=r]> t) = shelf o t.
Proof.
  intros Ho H0. unfold shelf. apply map_eq. intros j. rewrite !lookup_omap.
  destruct (decide (k = j)) as [->|]; [|by rewrite lookup_insert_ne].
  rewrite lookup_insert_eq. simpl. rewrite bool_decide_eq_false_2 by done.
  destruct (t !! j) as [r0|]; simpl; [|done]. rewrite bool_decide_eq_false_2; [done|by apply H0].
Qed.

Lemma shelf_delete_own o t k : shelf o (delete k t) = delete k (shelf o t).
Proof. unfold shelf. by rewrite omap_delete. Qed.

Lemma shelf_delete_other o t k r :
  t !! k = Some r → owner r ≠ o → shelf o (delete k t) = shelf o t.
Proof.
  intros Hk Ho. rewrite shelf_delete_own. apply delete_id. apply shelf_None. naive_solver.
Qed.

Lemma select_fmap_omap {A B} (P : A → bool) (f : A → B) l :
  f <$> List.filter P l = omap (λ r, if P r then Some (f r) else None) l.
Proof. induction l as [|r l IH]; [done|]. simpl. destruct (P r); simpl; [by f_equal|done]. Qed.

(** The rows a listing query selects are the records of the shelf. *)
Lemma select_shelf o t (P : R → bool) (Q : Rec → bool) : (∀ r, P r = Q (view r)) →
  view <$> select_rows (λ r, (owner r ==? o) && P r)%bool t
  ≡ₚ List.filter Q (table_rows (shelf o t)).
Proof.
  intros HPQ. unfold shelf, select_rows, table_rows. rewrite select_fmap_omap.
  induction t as [|k r t Hk IH] using map_ind.
  { rewrite omap_empty, !map_to_list_empty. done. }
  rewrite map_to_list_insert by done. simpl. case_bool_decide as Ho; simpl.
  - rewrite (omap_insert_Some _ t k r (view r)) by (by rewrite bool_decide_eq_true_2).
    rewrite map_to_list_insert by (by rewrite lookup_omap, Hk).
    simpl. rewrite HPQ. destruct (Q (view r)); simpl; [by constructor|done].
  - rewrite (omap_insert_None _ t k r) by (by rewrite bool_decide_eq_false_2).
    rewrite delete_id; [done|]. by rewrite lookup_omap, Hk.
Qed.

Lemma select_shelf_all o t :
  view <$> select_rows (λ r, owner r ==? o) t ≡ₚ table_rows (shelf o t).
Proof.
  rewrite <-(filter_true (table_rows (shelf o t))).
  rewrite <-(select_shelf o t (λ _, true) (λ _, true)) by done.
  apply reflexive_eq. f_equal. apply filter_ext. intros r. by rewrite andb_true_r.
Qed.

End shelf.

(** ** Listing order *)

Section order.
  Context `{Run : Runtime, L : !RuntimeLaws Run}.
  Context {R : Type} (created : R → time) (id : R → string).

Global Instance newest_first_total : Total (newest_first created id).
Proof.
  intros a b. unfold newest_first. pose proof (collate_total (id a) (id b)).
  destruct (Z.lt_trichotomy (created a) (created b)) as [?|[?|?]]; naive_solver lia.
Qed.

Global Instance newest_first_trans : Transitive (newest_first created id).
Proof.
  intros a b c. unfold newest_first. intros [?|[? H1]] [?|[? H2]]; [lia..|].
  right. split; [congruence|]. by eapply collate_trans.
Qed.

Lemma newest_first_antisym a b :
  newest_first created id a b → newest_first created id b a → id a = id b.
Proof.
  unfold newest_first. intros [?|[? ?]] [?|[? ?]]; try lia. by apply collate_antisym.
Qed.

End order.

Section listing.
  Context `{Run : Runtime, L : !RuntimeLaws Run}.
  Context {R Rec : Type} (created : R → time) (id : R → string).
  Context (created' : Rec → time) (id' : Rec → string) (view : R → Rec).
  Context (view_created : ∀ r, created' (view r) = created r).
  Context (view_id : ∀ r, id' (view r) = id r).

Lemma newest_first_view a b :
  newest_first created id a b → newest_first created' id' (view a) (view b).
Proof. unfold newest_first. by rewrite !view_created, !view_id. Qed.

Lemma sorted_view l :
  StronglySorted (newest_first created id) l →
  StronglySorted (newest_first created' id') (view <$> l).
Proof.
  induction 1 as [|x l _ IH Hx]; simpl; constructor; [done|].
  apply Forall_fmap. eapply Forall_impl; [done|]. intros. by apply newest_first_view.
Qed.

(** Rows with distinct identifiers have one order, so a listing can be computed from the
    rows or from their views. *)
Lemma listing_view rows recs :
  (∀ a b, a ∈ recs → b ∈ recs → id' a = id' b → a = b) → view <$> rows ≡ₚ recs →
  view <$> merge_sort (newest_first created id) rows
  = merge_sort (newest_first created' id') recs.
Proof.
  intros Hid Hp. eapply (StronglySorted_unique_strong (newest_first created' id')).
  - intros a b Ha Hb H1 H2. rewrite merge_sort_Permutation in Ha. rewrite merge_sort_Permutation in Hb.
    rewrite Hp in Ha. apply Hid; [done..|]. by eapply newest_first_antisym.
  - apply sorted_view, (StronglySorted_merge_sort _).
  - apply (StronglySorted_merge_sort _).
  - rewrite !merge_sort_Permutation. done.
Qed.

End listing.

(** ** Implementing a specification over shelves *)

(** The service and its specification give the same answer when they return the same
    value, or the service's error carries the business error of the specification. *)
Definition agrees {Ans} (r : res error Ans) (v : res Error Ans) : Prop :=
  match r, v with
  | Ok a, Ok b => a = b
  | Err e, Err b => As asBusiness e = Some b
  | _, _ => False
  end.

Section refinement.
  Context `{Run : Runtime, Sch : Schedule}.
  Context {R Rec Ans : Type} (table : DB → gmap string R) (owner : R → string) (view : R → Rec).
  Context (policy : ErrorPolicy).

(** Owner [o]'s operation took the database from [d] to [d'] and returned [r], where the
    specification returns [v] and leaves [S']: it did just that, or the driver failed and
    the operation took effect or did not. Other owners see no difference either way. *)
Definition implements (o : string) (d d' : DB) (r : res error Ans)
    (v : res Error Ans * gmap string Rec) : Prop :=
  (∀ other, other ≠ o → shelf owner view other (table d') = shelf owner view other (table d))
  ∧ ((agrees r v.1 ∧ shelf owner view o (table d') = v.2)
     ∨ ∃ f, r = Err (MapError (fault_error f) policy)
         ∧ (shelf owner view o (table d') = shelf owner view o (table d)
            ∨ shelf owner view o (table d') = v.2)).

(** A database the operation may have met. *)
Definition seen (w : World) (d : DB) : Prop :=
  d = w_db w ∨ ∃ n, (w_step w ≤ n)%nat ∧ d = sched_env n (w_db w).

Definition service_answer {A} (post : A → res error Ans) (x : res error A) : res error Ans :=
  match x with
  | Ok a => post a
  | Err e => Err (MapError e policy)
  end.

Lemma implements_refused o d e b :
  As asBusiness e = Some b → implements o d d (Err e) (Err b, shelf owner view o (table d)).
Proof. intros He. split; [done|]. left. done. Qed.

(** Run at [now] on [d], the statement and the rest of the method do what [v] says. *)
Definition performs {A} (o : string) (now : time) (d : DB) (s : stmt A) (post : A → res error Ans)
    (v : res Error Ans * gmap string Rec) : Prop :=
  (∀ other, other ≠ o →
     shelf owner view other (table (s now d).2) = shelf owner view other (table d))
  ∧ agrees (service_answer post (s now d).1) v.1
  ∧ shelf owner view o (table (s now d).2) = v.2.

(** A service method that runs one statement on the pool implements what the statement
    does in one piece. *)
Lemma implements_pool {A} (s : stmt A) (post : A → res error Ans) o w x w' v :
  exec Pool s w = (x, w') →
  performs o (w_clock w) (sched_env (w_step w) (w_db w)) s post v →
  implements o (sched_env (w_step w) (w_db w)) (w_db w') (service_answer post x) v.
Proof.
  intros Hrun (Ho & Ha & Hs). destruct (run_pool _ _ _ _ Hrun) as (_ & _ & [E|(f & -> & Hd)]).
  - rewrite E in Ho, Ha, Hs. simpl in *. split; [done|]. by left.
  - split.
    + intros other Hne. destruct Hd as [->| ->]; [done|by apply Ho].
    + right. exists f. split; [done|]. destruct Hd as [->| ->]; auto.
Qed.

(** A statement that only reads. *)
Lemma performs_read {A} o now d (q : time → DB → res error A) (post : A → res error Ans) v :
  agrees (service_answer post (q now d)) v → performs o now d (read q) post (v, shelf owner view o (table d)).
Proof. intros H. by split_and!. Qed.

(** A statement that reports an error changes nothing. *)
Lemma performs_error {A} o now d (s : stmt A) (post : A → res error Ans) e b :
  s now d = (Err e, d) → As asBusiness (MapError e policy) = Some b →
  performs o now d s post (Err b, shelf owner view o (table d)).
Proof. intros E Hb. unfold performs. rewrite E. by split_and!. Qed.

(** The same for a method that continues after the statement. *)
Lemma implements_query_at {A} (s : stmt A) (k : A → M Ans) (post : A → res error Ans) o w r w' v :
  (map_err (λ e, MapError e policy) (exec Pool s) ≫= k) w = (r, w') →
  (∀ a w, k a w = (post a, w)) →
  performs o (w_clock w) (sched_env (w_step w) (w_db w)) s post v →
  w_clock w ≤ w_clock w' ∧ implements o (sched_env (w_step w) (w_db w)) (w_db w') r v.
Proof.
  intros Hrun Hk Hperf.
  unfold mbind, M_bind, map_err in Hrun. destruct (exec Pool s w) as [x w1] eqn:Ex.
  assert (r = service_answer post x ∧ w' = w1) as [-> ->].
  { destruct x; [rewrite Hk in Hrun|]; by simplify_eq. }
  split; [by destruct (run_pool _ _ _ _ Ex) as (_ & ? & _)|by eapply implements_pool].
Qed.

Lemma implements_query {A} (I : DB → Prop) (s : stmt A) (k : A → M Ans) (post : A → res error Ans)
    o w r w' v :
  (map_err (λ e, MapError e policy) (exec Pool s) ≫= k) w = (r, w') →
  (∀ a w, k a w = (post a, w)) →
  (∀ n, I (w_db w) → I (sched_env n (w_db w))) → I (w_db w) →
  (∀ now d, I d → performs o now d s post (v now d)) →
  ∃ d now, seen w d ∧ w_clock w ≤ now ≤ w_clock w' ∧ implements o d (w_db w') r (v now d).
Proof.
  intros Hrun Hk Henv HI Hperf.
  destruct (implements_query_at s k post o w r w' _ Hrun Hk (Hperf _ _ (Henv _ HI))) as [? ?].
  exists (sched_env (w_step w) (w_db w)), (w_clock w). split_and!; [|lia|lia|done].
  right. eauto.
Qed.

Lemma refused o w r w' v e b :
  (Err e, w) = (r, w') → As asBusiness e = Some b →
  (∀ now d, v now d = (Err b, shelf owner view o (table d))) →
  ∃ d now, seen w d ∧ w_clock w ≤ now ≤ w_clock w' ∧ implements o d (w_db w') r (v now d).
Proof.
  intros [= <- <-] He Hv. exists (w_db w), (w_clock w). split_and!; [by left|lia..|].
  rewrite Hv. by apply implements_refused.
Qed.

End refinement.

(** The rest of the method is one statement [perf] speaks about; [k] closes the gap to the
    cases of [spec]. *)
Ltac by_query H I perf k :=
  run_simpl H;
  eapply (implements_query _ _ _ _ I) in H; [..|by intros; apply perf]; [|done..];
  let d := fresh "d" in let now := fresh "now" in
  destruct H as (d & now & ? & ? & H); exists d, now; split_and!; [done|lia|lia|k].
