(* ===== verification/Tables.v ===== *)
(** * Tables under change: invariants of rows, unique keys, and histories

    [table_ok ok clash id t]: rows are stored under their identifier, each is [ok], and no
    two rows clash on a unique key. [rows_evolve rho t t']: no row disappears and each one
    changes as [rho] allows. The lemmas say how inserting and updating rows keep both. *)
From S2P Require Import Prelude.
From S2P Require Import Runtime.
From S2P Require Import Schema.
From S2P Require Import Queries.
From S2P Require Import Owned.

Section table.
  Context {R : Type} (ok : R → Prop) (clash : R → R → Prop) (id : R → string) (rho : relation R).

Definition table_ok (t : gmap string R) : Prop :=
  keyed id t ∧ (∀ k r, t !! k = Some r → ok r)
  ∧ ∀ i j a b, t !! i = Some a → t !! j = Some b → clash a b → i = j.

Definition rows_evolve (t t' : gmap string R) : Prop :=
  ∀ k r, t !! k = Some r → ∃ r', t' !! k = Some r' ∧ rho r r'.

Global Instance rows_evolve_preorder `{!PreOrder rho} : PreOrder rows_evolve.
Proof.
  split.
  - intros t k r Hk. exists r. by split.
  - intros t1 t2 t3 H12 H23 k r Hk. destruct (H12 k r Hk) as (r2 & Hk2 & ?).
    destruct (H23 k r2 Hk2) as (r3 & ? & ?). exists r3. split; [done|by etransitivity].
Qed.

Lemma table_key t k r : table_ok t → t !! k = Some r → id r = k.
Proof. intros [Hk _]. apply Hk. Qed.

Lemma table_row t k r : table_ok t → t !! k = Some r → ok r.
Proof. intros (_ & Ho & _). eauto. Qed.

Lemma table_unique t i j a b :
  table_ok t → t !! i = Some a → t !! j = Some b → clash a b → i = j.
Proof. intros (_ & _ & Hc). apply Hc. Qed.

(** An insert after the checks of its unique keys. *)
Lemma table_insert `{!PreOrder rho} t r :
  table_ok t → exists_row (λ x, id x ==? id r) t = false → ok r →
  (∀ k b, t !! k = Some b → ¬ clash r b ∧ ¬ clash b r) →
  table_ok (<[id r := r]> t) ∧ rows_evolve t (<[id r := r]> t).
Proof.
  intros (Hk & Ho & Hc) Hnew Hr Hfree. rewrite exists_row_false in Hnew.
  assert (t !! id r = None) as Hid.
  { destruct (t !! id r) as [x|] eqn:Hx; [|done]. specialize (Hnew _ _ Hx). bool_to_prop.
    by rewrite (Hk _ _ Hx) in Hnew. }
  split; [split_and!|].
  - by apply keyed_insert.
  - intros k x. rewrite lookup_insert_Some. intros [[_ <-]|[_ ?]]; eauto.
  - intros i j a b. rewrite !lookup_insert_Some.
    intros [[<- <-]|[? Ha]] [[<- <-]|[? Hb]] Hcl; [done| | |by eapply Hc].
    + by destruct (Hfree _ _ Hb) as [[] _].
    + by destruct (Hfree _ _ Ha) as [_ []].
  - intros k x Hx. exists x. split; [|done]. rewrite lookup_insert_ne; [done|]. intros <-. congruence.
Qed.

(** Rows changed in place by [g]. *)
Lemma table_fmap `{!PreOrder rho} t g :
  table_ok t →
  (∀ k r, t !! k = Some r → ok r → ok (g r) ∧ id (g r) = id r ∧ rho r (g r)) →
  (∀ i j a b, t !! i = Some a → t !! j = Some b → i ≠ j → clash (g a) (g b) → clash a b) →
  table_ok (g <$> t) ∧ rows_evolve t (g <$> t).
Proof.
  intros (Hk & Ho & Hc) Hg Hcl. split; [split_and!|].
  - intros k x. rewrite lookup_fmap_Some. intros (r & <- & Hr).
    destruct (Hg _ _ Hr (Ho _ _ Hr)) as (_ & -> & _). by apply Hk.
  - intros k x. rewrite lookup_fmap_Some. intros (r & <- & Hr). by destruct (Hg _ _ Hr (Ho _ _ Hr)).
  - intros i j a b. rewrite !lookup_fmap_Some. intros (a0 & <- & Ha) (b0 & <- & Hb) H.
    destruct (decide (i = j)); [done|]. eapply Hc; eauto.
  - intros k r Hr. exists (g r). rewrite lookup_fmap, Hr. split; [done|].
    by destruct (Hg _ _ Hr (Ho _ _ Hr)) as (_ & _ & ?).
Qed.

(** An update of the row under one key is one of these. *)
Lemma insert_as_fmap t k r (f : R → R) :
  keyed id t → t !! k = Some r →
  <[k := f r]> t = (λ x, if id x ==? k then f x else x) <$> t.
Proof.
  intros Hk Hr. apply map_eq. intros j. rewrite lookup_fmap.
  destruct (decide (k = j)) as [<-|Hne].
  - rewrite lookup_insert_eq, Hr. simpl. by rewrite (Hk _ _ Hr), bool_decide_eq_true_2.
  - rewrite lookup_insert_ne by done. destruct (t !! j) as [x|] eqn:Hx; [|done]. simpl.
    rewrite (Hk _ _ Hx), bool_decide_eq_false_2 by congruence. done.
Qed.

(** One row changed; [f] may not bring it into conflict with another one. *)
Lemma table_update `{!PreOrder rho} t k r (f : R → R) :
  table_ok t → t !! k = Some r → (ok r → ok (f r)) → id (f r) = id r → rho r (f r) →
  (∀ j b, j ≠ k → t !! j = Some b →
     (clash (f r) b → clash r b) ∧ (clash b (f r) → clash b r)) →
  table_ok (<[k := f r]> t) ∧ rows_evolve t (<[k := f r]> t).
Proof.
  intros Ht Hr Hok Hid Hrho Hcl. rewrite (insert_as_fmap t k r f (proj1 Ht) Hr).
  apply table_fmap; [done|..].
  - intros j x Hx Hxo. case_bool_decide as E; [|by split_and!].
    assert (x = r) as -> by (rewrite (table_key _ _ _ Ht Hx) in E; congruence). auto.
  - intros i j a b Ha Hb Hne. rewrite (table_key _ _ _ Ht Ha), (table_key _ _ _ Ht Hb).
    case_bool_decide as E1; case_bool_decide as E2; [congruence|..|done].
    + subst i. assert (a = r) as -> by congruence. by apply (Hcl j b).
    + subst j. assert (b = r) as -> by congruence. by apply (Hcl i a).
Qed.

(** Changes that leave the keys alone cannot clash. *)
Lemma table_update_where `{!PreOrder rho} t P (f : R → R) :
  table_ok t →
  (∀ r, P r = true → ok r → ok (f r) ∧ id (f r) = id r ∧ rho r (f r)) →
  (∀ a b, (clash (f a) b → clash a b) ∧ (clash a (f b) → clash a b)) →
  table_ok (update_where P f t) ∧ rows_evolve t (update_where P f t).
Proof.
  intros Ht Hf Hcl. apply table_fmap; [done|..].
  - intros k r Hr Hok. destruct (P r) eqn:E; [auto|by split_and!].
  - intros i j a b _ _ _. destruct (P a), (P b); intros H; [|exact (proj1 (Hcl a b) H)|exact (proj2 (Hcl a b) H)|done].
    exact (proj1 (Hcl a b) (proj2 (Hcl (f a) b) H)).
Qed.

End table.

(** A reference stays valid while the rows it points to live. *)
Lemma evolve_is_Some {R} (rho : relation R) t t' k :
  rows_evolve rho t t' → is_Some (t !! k) → is_Some (t' !! k).
Proof. intros H [r Hr]. destruct (H k r Hr) as (r' & Hr' & _). eauto. Qed.

(** What two histories agree on. *)
Lemma evolve_lookup {R} (rho : relation R) t t' k r :
  rows_evolve rho t t' → t !! k = Some r → ∃ r', t' !! k = Some r' ∧ rho r r'.
Proof. intros H. apply H. Qed.
