(* ===== verification/Projects.v ===== *)
(** * [internal/modules/project]: a user's projects

    [Create], [Get], [List], [Update] and [Delete] of [service.go], the handlers of
    [http.go], and their specification [spec]: what each operation does to the map of
    the owner's own projects. [project_serve_refines] shows that the service implements it. *)
From S2P Require Import Prelude.
From S2P Require Import Text.
From S2P Require Import GoErrors.
From S2P Require Import Runtime.
From S2P Require Import Identity.
From S2P Require Import Pagination.
From S2P Require Import Schema.
From S2P Require Import Storage.
From S2P Require Import Logic.
From S2P Require Import Queries.
From S2P Require Import Owned.

(** ** model.go *)

Definition ErrNotFound : Error := New NotFound "project not found".
Definition ErrConflict : Error := New Conflict "a project with this name already exists".
Definition ErrInvalid : Error := New Invalid "invalid project input".

Record Record_ : Type := mkRecord {
  Record_ID : string;
  Record_Name : string;
  Record_Description : string;
  Record_CreatedAt : time;
  Record_UpdatedAt : time
}.

Global Instance eta_Record : Settable Record_.
Proof.
  refine {| eta := λ r, mkRecord (Record_ID r) (Record_Name r) (Record_Description r)
              (Record_CreatedAt r) (Record_UpdatedAt r); eta_id := _ |}; solve_eta.
Defined.

(** ** service.go *)

Definition maxNameRunes : Z := 100.
Definition maxDescriptionRunes : Z := 2000.

Definition storageErrors : ErrorPolicy :=
  {| Resource := "project"; policy_NotFound := Some ErrNotFound;
     UniqueConstraints := {[ "projects_owner_name_key" := ErrConflict ]} |}.

Definition validate (name description : string) : res error string :=
  let '(name, valid) := RequiredText name maxNameRunes in
  if (negb valid || negb (TextWithin description maxDescriptionRunes))%bool
  then Err (EBusiness ErrInvalid) else Ok name.

Definition fromRow (row : Project) : Record_ :=
  {| Record_ID := Project_ID row; Record_Name := Project_Name row;
     Record_Description := Project_Description row; Record_CreatedAt := Project_CreatedAt row;
     Record_UpdatedAt := Project_UpdatedAt row |}.

Section service.
  Context `{Run : Runtime, Sch : Schedule}.

(** The service runs its statements on the pool. *)
Definition query {A} (s : stmt A) : M A :=
  map_err (λ e, MapError e storageErrors) (exec Pool s).

Definition Create (owner name description : string) : M Record_ :=
  _ ← lift (RequireSubject owner);
  name ← lift (validate name description);
  n ← next_step;
  row ← query (CreateProject (NewID n) owner name description);
  mret (fromRow row).

Definition Get (owner id : string) : M Record_ :=
  _ ← lift (RequireSubject owner);
  if negb (Identifier id) then fail (EBusiness ErrInvalid)
  else
    row ← query (GetProject id owner);
    mret (fromRow row).

Definition List_ (owner : string) (params : Params) : M (Result Record_) :=
  _ ← lift (RequireSubject owner);
  match Params_Validate params with
  | Some _ => fail (EBusiness ErrInvalid)
  | None =>
    rows ← query (ListProjects owner (FetchLimit params) (Offset params));
    lift (Build rows params fromRow)
  end.

Definition Update (owner id name description : string) : M Record_ :=
  _ ← lift (RequireSubject owner);
  if negb (Identifier id) then fail (EBusiness ErrInvalid)
  else
    name ← lift (validate name description);
    row ← query (UpdateProject id owner name description);
    mret (fromRow row).

Definition Delete (owner id : string) : M unit :=
  _ ← lift (RequireSubject owner);
  if negb (Identifier id) then fail (EBusiness ErrInvalid)
  else
    count ← query (DeleteProject id owner);
    if count =? 0 then fail (EBusiness ErrNotFound) else mret tt.

(** ** http.go *)

Definition createProject (ctx : context) (name description : string) : M Record_ :=
  Create (Subject ctx) name description.

Definition getProject (ctx : context) (id : string) : M Record_ := Get (Subject ctx) id.

Definition listProjects (ctx : context) (params : Params) : M (Result Record_) :=
  List_ (Subject ctx) params.

Definition updateProject (ctx : context) (id name description : string) : M Record_ :=
  Update (Subject ctx) id name description.

Definition deleteProject (ctx : context) (id : string) : M unit := Delete (Subject ctx) id.

Definition projectLocation (item : Record_) : string :=
  "/v1/projects/" +:+ PathEscape (Record_ID item).

(** ** Specification *)

(** What an owner sees: the own projects by identifier. *)
Definition projects_of (owner : string) (d : DB) : gmap string Record_ :=
  shelf Project_OwnerID fromRow owner (projects d).

Inductive op : Type :=
| OpCreate (name description : string)
| OpGet (id : string)
| OpList (params : Params)
| OpUpdate (id name description : string)
| OpDelete (id : string).

Inductive answer : Type :=
| ARecord (r : Record_)
| APage (p : Result Record_)
| ADone.

Definition serve (ctx : context) (o : op) : M answer :=
  match o with
  | OpCreate name description => r ← createProject ctx name description; mret (ARecord r)
  | OpGet id => r ← getProject ctx id; mret (ARecord r)
  | OpList params => p ← listProjects ctx params; mret (APage p)
  | OpUpdate id name description => r ← updateProject ctx id name description; mret (ARecord r)
  | OpDelete id => _ ← deleteProject ctx id; mret ADone
  end.

(** Is the name taken by a project other than [id]? *)
Definition name_taken (name id : string) (S : gmap string Record_) : bool :=
  exists_row (λ r, (Record_ID r !=? id) && (Record_Name r ==? name))%bool S.

Definition newest : Record_ → Record_ → Prop := newest_first Record_CreatedAt Record_ID.

(** The operation on the owner's projects alone; [now] and [new_id] are the time of the
    statement and the identifier drawn for a new project. *)
Definition spec (now : time) (new_id : string) (o : op) (S : gmap string Record_)
    : res Error answer * gmap string Record_ :=
  match o with
  | OpCreate name description =>
    match validate name description with
    | Err _ => (Err ErrInvalid, S)
    | Ok name =>
      if name_taken name new_id S then (Err ErrConflict, S)
      else let r := mkRecord new_id name description now now in (Ok (ARecord r), <[new_id := r]> S)
    end
  | OpGet id =>
    if negb (Identifier id) then (Err ErrInvalid, S)
    else match S !! id with
         | Some r => (Ok (ARecord r), S)
         | None => (Err ErrNotFound, S)
         end
  | OpList params =>
    match Params_Validate params with
    | Some _ => (Err ErrInvalid, S)
    | None =>
      let rows := merge_sort newest (table_rows S) in
      (Ok (APage {| Items := limit_offset (Limit params) (Offset params) rows;
                    HasMore := Offset params + Limit params <? Z.of_nat (length rows);
                    Result_Limit := Limit params; Result_Offset := Offset params |}), S)
    end
  | OpUpdate id name description =>
    if negb (Identifier id) then (Err ErrInvalid, S)
    else match validate name description, S !! id with
         | Err _, _ => (Err ErrInvalid, S)
         | Ok _, None => (Err ErrNotFound, S)
         | Ok name, Some r =>
           if name_taken name id S then (Err ErrConflict, S)
           else let r := r <| Record_Name := name |> <| Record_Description := description |>
                           <| Record_UpdatedAt := now |> in
                (Ok (ARecord r), <[id := r]> S)
         end
  | OpDelete id =>
    if negb (Identifier id) then (Err ErrInvalid, S)
    else match S !! id with
         | Some _ => (Ok ADone, delete id S)
         | None => (Err ErrNotFound, S)
         end
  end.

End service.

(** ** The service implements the specification *)

Lemma not_found_business : As asBusiness (MapError ErrNoRows storageErrors) = Some ErrNotFound.
Proof. reflexivity. Qed.

Lemma name_taken_business :
  As asBusiness (MapError (unique_violation "projects_owner_name_key") storageErrors)
  = Some ErrConflict.
Proof. reflexivity. Qed.

Lemma id_taken_business :
  As asBusiness (MapError (unique_violation "projects_pkey") storageErrors) = None.
Proof. reflexivity. Qed.

#[export] Hint Resolve not_found_business name_taken_business : go.

Lemma project_validate_Err name description e :
  validate name description = Err e → e = EBusiness ErrInvalid.
Proof. unfold validate. destruct (RequiredText _ _) as [n v]. destruct (_ || _)%bool; naive_solver. Qed.

Section refines.
  Context `{Run : Runtime, Sch : Schedule, L : !RuntimeLaws Run}.

Local Abbreviation performs := (performs projects Project_OwnerID fromRow storageErrors).

Lemma projects_of_lookup owner d id x :
  projects_of owner d !! id = Some x ↔
  ∃ p, projects d !! id = Some p ∧ Project_OwnerID p = owner ∧ fromRow p = x.
Proof. apply shelf_Some. Qed.

Lemma name_taken_spec owner d name id :
  exists_row (λ p, (Project_ID p !=? id) && (Project_OwnerID p ==? owner)
                   && (Project_Name p ==? name))%bool (projects d)
  = name_taken name id (projects_of owner d).
Proof.
  apply eq_true_iff_eq. unfold name_taken. rewrite !exists_row_true. split.
  - intros (k & p & Hk & H). bool_to_prop. exists k, (fromRow p). split.
    + apply projects_of_lookup. eauto.
    + simpl. rewrite bool_decide_eq_false_2, bool_decide_eq_true_2; done.
  - intros (k & r & (p & Hk & Ho & <-)%projects_of_lookup & H). bool_to_prop. exists k, p.
    split; [done|]. rewrite bool_decide_eq_false_2, !bool_decide_eq_true_2; done.
Qed.

Lemma project_create_performs owner id name description now d :
  projects d !! id = None → keyed Project_ID (projects d) →
  performs owner now d (CreateProject id owner name description) (λ p, Ok (ARecord (fromRow p)))
    (if name_taken name id (projects_of owner d) then (Err ErrConflict, projects_of owner d)
     else let r := mkRecord id name description now now in
          (Ok (ARecord r), <[id := r]> (projects_of owner d))).
Proof.
  intros Hid Hkey.
  assert (exists_row (λ p, Project_ID p ==? id) (projects d) = false) as Hpk.
  { apply exists_row_false. intros k p Hk. apply bool_decide_eq_false. intros <-.
    rewrite (Hkey k p Hk) in Hid. congruence. }
  assert (exists_row (λ p, (Project_OwnerID p ==? owner) && (Project_Name p ==? name))%bool
            (projects d) = name_taken name id (projects_of owner d)) as <-.
  { rewrite <-name_taken_spec. apply eq_true_iff_eq. rewrite !exists_row_true.
    split; intros (k & p & Hk & H); exists k, p; (split; [done|]); bool_to_prop; simpl.
    - rewrite bool_decide_eq_false_2, !bool_decide_eq_true_2; try done.
      intros <-. rewrite (Hkey k p Hk) in Hid. congruence.
    - by rewrite !bool_decide_eq_true_2. }
  destruct (exists_row (λ p, (Project_OwnerID p ==? owner) && _)%bool (projects d)) eqn:Hname.
  - apply performs_error with (e := unique_violation "projects_owner_name_key"); [|done].
    unfold CreateProject. by rewrite Hpk, Hname.
  - unfold performs, CreateProject. rewrite Hpk, Hname. simpl. split_and!.
    + intros other Hne. apply shelf_insert_other; simpl; [done|]. intros r0. by rewrite Hid.
    + done.
    + exact (shelf_insert_own Project_OwnerID fromRow owner _ id
               (mkProject id owner name description now now) eq_refl).
Qed.

Lemma project_update_performs owner id name description now d :
  performs owner now d (UpdateProject id owner name description) (λ p, Ok (ARecord (fromRow p)))
    (match projects_of owner d !! id with
     | None => (Err ErrNotFound, projects_of owner d)
     | Some r =>
       if name_taken name id (projects_of owner d) then (Err ErrConflict, projects_of owner d)
       else let r := r <| Record_Name := name |> <| Record_Description := description |>
                       <| Record_UpdatedAt := now |> in
            (Ok (ARecord r), <[id := r]> (projects_of owner d))
     end).
Proof.
  destruct (projects_of owner d !! id) as [r|] eqn:Hr.
  - apply projects_of_lookup in Hr as (p & Hp & Ho & <-).
    destruct (name_taken _ _ _) eqn:Hname; rewrite <-name_taken_spec in Hname.
    + apply performs_error with (e := unique_violation "projects_owner_name_key"); [|done].
      unfold UpdateProject, update_row. rewrite Hp, bool_decide_eq_true_2, Hname; done.
    + unfold performs, UpdateProject, update_row. rewrite Hp, bool_decide_eq_true_2, Hname by done.
      split_and!; [|done|by rewrite <-Ho; exact (shelf_insert_own Project_OwnerID fromRow _ _ id _ eq_refl)].
      intros other Hne. apply shelf_insert_other; simpl; [congruence|]. intros r0. naive_solver.
  - apply performs_error with (e := ErrNoRows); [|done]. unfold UpdateProject, update_row.
    pose proof (proj1 (shelf_None _ _ _ _ _) Hr) as Hn.
    destruct (projects d !! id) as [p|]; [|done]. rewrite bool_decide_eq_false_2; [done|auto].
Qed.

Lemma project_get_performs owner id now d :
  performs owner now d (GetProject id owner) (λ p, Ok (ARecord (fromRow p)))
    (match projects_of owner d !! id with
     | Some r => Ok (ARecord r) | None => Err ErrNotFound end, projects_of owner d).
Proof.
  apply performs_read. destruct (projects_of owner d !! id) as [r|] eqn:Hr.
  - apply projects_of_lookup in Hr as (p & -> & Ho & <-). by rewrite bool_decide_eq_true_2.
  - pose proof (proj1 (shelf_None _ _ _ _ _) Hr) as Hn.
    destruct (projects d !! id) as [p|]; [|done]. rewrite bool_decide_eq_false_2; [done|auto].
Qed.

Lemma project_delete_performs owner id now d :
  performs owner now d (DeleteProject id owner)
    (λ count, if count =? 0 then Err (EBusiness ErrNotFound) else Ok ADone)
    (match projects_of owner d !! id with
     | Some _ => (Ok ADone, delete id (projects_of owner d))
     | None => (Err ErrNotFound, projects_of owner d)
     end).
Proof.
  unfold performs, DeleteProject. destruct (projects_of owner d !! id) as [r|] eqn:Hr.
  - apply projects_of_lookup in Hr as (p & Hp & Ho & <-). rewrite Hp, bool_decide_eq_true_2 by done.
    split_and!; [|done|apply shelf_delete_own]. intros other Hne. simpl.
    eapply shelf_delete_other; [done|congruence].
  - pose proof (proj1 (shelf_None _ _ _ _ _) Hr) as Hn.
    destruct (projects d !! id) as [p|]; [|by split_and!].
    rewrite bool_decide_eq_false_2 by auto. by split_and!.
Qed.

Lemma project_shelf_ids_distinct owner d a b : keyed Project_ID (projects d) →
  a ∈ table_rows (projects_of owner d) → b ∈ table_rows (projects_of owner d) →
  Record_ID a = Record_ID b → a = b.
Proof.
  intros Hkey [k (p & Hk & _ & <-)%projects_of_lookup]%elem_of_table_rows
    [j (q & Hj & _ & <-)%projects_of_lookup]%elem_of_table_rows. simpl.
  rewrite (Hkey _ _ Hk), (Hkey _ _ Hj). congruence.
Qed.

Lemma project_list_performs owner params now d :
  keyed Project_ID (projects d) → params_ok params →
  performs owner now d (ListProjects owner (FetchLimit params) (Offset params))
    (λ rows, res_bind (Build rows params fromRow) (λ p, Ok (APage p)))
    (Ok (APage {| Items := limit_offset (Limit params) (Offset params)
                             (merge_sort newest (table_rows (projects_of owner d)));
                  HasMore := Offset params + Limit params
                             <? Z.of_nat (length (merge_sort newest (table_rows (projects_of owner d))));
                  Result_Limit := Limit params; Result_Offset := Offset params |}),
     projects_of owner d).
Proof.
  intros Hkey Hp. apply performs_read. simpl.
  set (rows := merge_sort _ (select_rows _ _)).
  assert (fromRow <$> rows = merge_sort newest (table_rows (projects_of owner d))) as Hrows.
  { unfold rows. apply listing_view; [done..|by intros; eapply project_shelf_ids_distinct|].
    apply select_shelf_all. }
  destruct (Build_page rows params fromRow Hp) as (r & -> & Hi & Hm & Hl & Ho). simpl. f_equal.
  rewrite <-Hrows. destruct r as [items more lim off]. simpl in *. subst. f_equal.
  - unfold limit_offset. by rewrite fmap_take, fmap_drop.
  - apply eq_true_iff_eq. rewrite Hm, length_fmap, Z.ltb_lt. done.
Qed.

Context `{Env : !EnvGuar (keeps (λ d, keyed Project_ID (projects d)))}.

Lemma project_env_keyed n d :
  keyed Project_ID (projects d) → keyed Project_ID (projects (sched_env n d)).
Proof. exact (Env n d). Qed.

Local Abbreviation refines owner o w r w' := (∃ d now, seen w d ∧ w_clock w ≤ now ≤ w_clock w'
  ∧ implements projects Project_OwnerID fromRow storageErrors owner d (w_db w') r
      (spec now (NewID (w_step w)) o (projects_of owner d))).

Lemma project_serve_get ctx id w r w' :
  Identifier (Subject ctx) = true → serve ctx (OpGet id) w = (r, w') →
  refines (Subject ctx) (OpGet id) w r w'.
Proof.
  intros Hs H. unfold serve, getProject, Get in H.
  rewrite RequireSubject_ok in H by done. run_simpl H. cbn [spec]. destruct (negb _).
  - eapply refused; [exact H|done..].
  - by_query H (λ _ : DB, True) project_get_performs ltac:(by destruct (projects_of _ _ !! id)).
Qed.

Lemma project_serve_delete ctx id w r w' :
  Identifier (Subject ctx) = true → serve ctx (OpDelete id) w = (r, w') →
  refines (Subject ctx) (OpDelete id) w r w'.
Proof.
  intros Hs H. unfold serve, deleteProject, Delete in H.
  rewrite RequireSubject_ok in H by done. run_simpl H. cbn [spec]. destruct (negb _).
  - eapply refused; [exact H|done..].
  - run_simpl H. eapply (implements_query _ _ _ _ (λ _, True)) in H;
      [..|by intros; apply project_delete_performs]; [done| |done|done].
    by intros [|?|?] ?.
Qed.

Lemma project_serve_update ctx id name description w r w' :
  Identifier (Subject ctx) = true → serve ctx (OpUpdate id name description) w = (r, w') →
  refines (Subject ctx) (OpUpdate id name description) w r w'.
Proof.
  intros Hs H. unfold serve, updateProject, Update in H.
  rewrite RequireSubject_ok in H by done. run_simpl H. cbn [spec]. destruct (negb _).
  - eapply refused; [exact H|done..].
  - destruct (validate name description) as [name'|e] eqn:Hv; run_simpl H.
    + by_query H (λ _ : DB, True) project_update_performs idtac. exact H.
    + apply project_validate_Err in Hv as ->. eapply refused; [exact H|done|].
      intros now d. by destruct (projects_of (Subject ctx) d !! id).
Qed.

Lemma project_serve_list ctx params w r w' :
  Identifier (Subject ctx) = true → keyed Project_ID (projects (w_db w)) →
  serve ctx (OpList params) w = (r, w') → refines (Subject ctx) (OpList params) w r w'.
Proof.
  intros Hs Hkey H. unfold serve, listProjects, List_ in H.
  rewrite RequireSubject_ok in H by done. run_simpl H. cbn [spec].
  destruct (Params_Validate params) eqn:Hp.
  - eapply refused; [exact H|done..].
  - run_simpl H. apply Params_Validate_None in Hp.
    eapply (implements_query _ _ _ _ (λ d, keyed Project_ID (projects d))) in H;
      [..|by intros; apply project_list_performs]; [done| |intros; by apply project_env_keyed|done].
    intros rows w1. cbv beta. by destruct (Build rows params fromRow).
Qed.

(** A drawn identifier that is already used: nothing happens, and no business error is
    reported. *)
Definition id_collision (o : op) (w : World) (d : DB) (r : res error answer) (w' : World) : Prop :=
  is_Some (projects d !! NewID (w_step w)) ∧ w_db w' = d ∧ is_ok r = false
  ∧ ∃ name description, o = OpCreate name description.

Lemma project_serve_create ctx name description w r w' :
  Identifier (Subject ctx) = true → keyed Project_ID (projects (w_db w)) →
  serve ctx (OpCreate name description) w = (r, w') →
  refines (Subject ctx) (OpCreate name description) w r w'
  ∨ ∃ d, seen w d ∧ id_collision (OpCreate name description) w d r w'.
Proof.
  intros Hs Hkey H. unfold serve, createProject, Create in H.
  rewrite RequireSubject_ok in H by done. run_simpl H. cbn [spec].
  destruct (validate name description) as [name'|e] eqn:Hv; run_simpl H.
  2:{ left. apply project_validate_Err in Hv as ->. by eapply refused; [exact H|..]. }
  set (id := NewID (w_step w)) in *. set (d := sched_env (S (w_step w)) (w_db w)).
  destruct (projects d !! id) as [p|] eqn:Hid.
  - right. exists d. split; [right; exists (S (w_step w)); split; [lia|done]|].
    unfold query, map_err, mbind, M_bind in H.
    destruct (exec Pool _ (advance w)) as [x w1] eqn:Ex.
    apply run_pool in Ex as (_ & _ & Hx). simpl in Hx. fold d in Hx.
    assert (CreateProject id (Subject ctx) name' description (w_clock w + Z.of_nat (sched_tick (w_step w))) d
            = (Err (unique_violation "projects_pkey"), d)) as E.
    { unfold CreateProject.
      replace (exists_row _ (projects d)) with true; [done|]. symmetry. apply exists_row_true.
      exists id, p. split; [done|]. apply bool_decide_eq_true.
      by apply (project_env_keyed (S (w_step w)) (w_db w) Hkey). }
    rewrite E in Hx. unfold id_collision. fold id.
    destruct Hx as [[= <- Hd]|(f & -> & Hd)]; simplify_eq; (split; [by eexists|]);
      split_and!; eauto; by destruct Hd.
  - left. exists d, (w_clock (advance w)).
    eapply implements_query_at in H; [|done|apply project_create_performs; [exact Hid|]].
    + destruct H as [? H]. pose proof (w_clock_advance w). split_and!; try done.
      right. exists (S (w_step w)). split; [lia|done].
    + by apply project_env_keyed.
Qed.

(** C19: Every operation of an authenticated caller implements its specification on the
    caller's own projects, as they are when the statement runs, and changes nothing that
    other owners see; only the collision of a drawn identifier is outside of it. *)
Theorem project_serve_refines ctx o w r w' :
  Identifier (Subject ctx) = true → keyed Project_ID (projects (w_db w)) →
  serve ctx o w = (r, w') →
  (∃ d now, seen w d ∧ w_clock w ≤ now ≤ w_clock w'
     ∧ implements projects Project_OwnerID fromRow storageErrors (Subject ctx) d (w_db w') r
         (spec now (NewID (w_step w)) o (projects_of (Subject ctx) d)))
  ∨ ∃ d, seen w d ∧ id_collision o w d r w'.
Proof.
  intros Hs Hkey H. destruct o; [by apply project_serve_create|left..].
  - by apply project_serve_get.
  - by apply project_serve_list.
  - by apply project_serve_update.
  - by apply project_serve_delete.
Qed.

End refines.

(** ** The table stays well formed *)

(** Rows are stored under their identifier and an owner's names are unique. *)
Definition projects_wf (d : DB) : Prop :=
  keyed Project_ID (projects d)
  ∧ ∀ i j p q, projects d !! i = Some p → projects d !! j = Some q →
      Project_OwnerID p = Project_OwnerID q → Project_Name p = Project_Name q → i = j.

Lemma CreateProject_wf id owner name description :
  stmt_guar (keeps projects_wf) (CreateProject id owner name description).
Proof.
  intros now d [Hkey Hn]. unfold CreateProject.
  destruct (exists_row _ _) eqn:E1; [done|]. destruct (exists_row (λ p, _ && _)%bool _) eqn:E2; [done|].
  rewrite exists_row_false in E2. simpl. split; simpl; [by apply keyed_insert|].
  assert (∀ k p, projects d !! k = Some p → Project_OwnerID p = owner → Project_Name p = name → False).
  { intros k p Hk <- <-. specialize (E2 k p Hk). simpl in E2. by rewrite !bool_decide_eq_true_2 in E2. }
  intros i j p q. rewrite !lookup_insert_Some.
  intros [[<- <-]|[? Hi]] [[<- <-]|[? Hj]] Ho Hnm; simpl in *; try done; [exfalso; eauto..|eauto].
Qed.

Lemma UpdateProject_wf id owner name description :
  stmt_guar (keeps projects_wf) (UpdateProject id owner name description).
Proof.
  intros now d [Hkey Hn]. unfold UpdateProject.
  destruct (update_row _ _ _ _) as [[row t]|] eqn:Eu; [|done].
  apply update_row_Some in Eu as (p0 & Hp0 & Ho0 & -> & ->). bool_to_prop.
  destruct (exists_row _ _) eqn:E; [done|]. rewrite exists_row_false in E.
  simpl. split; simpl; [by apply keyed_insert, (Hkey _ _ Hp0)|].
  assert (∀ k p, projects d !! k = Some p → id ≠ k → Project_OwnerID p = owner → Project_Name p = name → False).
  { intros k p Hk Hne <- <-. specialize (E k p Hk). simpl in E.
    rewrite (Hkey _ _ Hk), bool_decide_eq_false_2, !bool_decide_eq_true_2 in E; done. }
  intros i j p q. rewrite !lookup_insert_Some.
  intros [[<- <-]|[? Hi]] [[<- <-]|[? Hj]] Ho Hnm; simpl in *; try done;
    [exfalso; eauto using eq_sym..|eauto]; rewrite Ho0 in Ho; eauto.
Qed.

Lemma DeleteProject_wf id owner : stmt_guar (keeps projects_wf) (DeleteProject id owner).
Proof.
  intros now d [Hkey Hn]. unfold DeleteProject. destruct (projects d !! id) as [p0|]; [|done].
  case_bool_decide; [|done]. split; simpl; [by apply keyed_delete|].
  intros i j p q. rewrite !lookup_delete_Some. intros [? Hi] [? Hj]. eauto.
Qed.

(** What a relation must allow so that every operation respects it. *)
Class ProjectGuar `{Run : Runtime} (R : relation DB) : Prop := {
  guar_CreateProject n owner name description :
    stmt_guar R (CreateProject (NewID n) owner name description);
  guar_UpdateProject id owner name description : stmt_guar R (UpdateProject id owner name description);
  guar_DeleteProject id owner : stmt_guar R (DeleteProject id owner)
}.

Global Instance projects_wf_guar `{Run : Runtime} : ProjectGuar (keeps projects_wf).
Proof. split; eauto using CreateProject_wf, UpdateProject_wf, DeleteProject_wf. Qed.

Section respects.
  Context `{Run : Runtime, Sch : Schedule}.
  Context (R : relation DB) `{Pre : !PreOrder R, Env : !EnvGuar R, PG : !ProjectGuar R}.

Hint Resolve guar_CreateProject guar_UpdateProject guar_DeleteProject : guar.

Lemma createProject_guar ctx name description : guar R (createProject ctx name description).
Proof. unfold createProject, Create, query. guar_auto. Qed.

Lemma getProject_guar ctx id : guar R (getProject ctx id).
Proof. unfold getProject, Get, query. guar_auto. Qed.

Lemma listProjects_guar ctx params : guar R (listProjects ctx params).
Proof. unfold listProjects, List_, query. guar_auto. Qed.

Lemma updateProject_guar ctx id name description : guar R (updateProject ctx id name description).
Proof. unfold updateProject, Update, query. guar_auto. Qed.

Lemma deleteProject_guar ctx id : guar R (deleteProject ctx id).
Proof. unfold deleteProject, Delete, query. guar_auto. Qed.

End respects.

#[export] Hint Resolve createProject_guar getProject_guar listProjects_guar updateProject_guar
  deleteProject_guar : guar.

(** No operation, whatever fails, breaks the table. *)
Theorem project_serve_wf `{Run : Runtime, Sch : Schedule, Env : !EnvGuar (keeps projects_wf)} ctx o :
  guar (keeps projects_wf) (serve ctx o).
Proof. unfold serve. destruct o; guar_auto; eauto with guar typeclass_instances. Qed.
