(* ===== verification/Tasks.v ===== *)
(** * [internal/modules/task]: a user's tasks

    [service.go] and [http.go] of the task module with their specification [spec] over the
    owner's own tasks ([task_serve_refines]), and the invariant that every stored task has
    normalized texts and one of the three states ([task_serve_wf]). *)
From S2P Require Import Prelude.
From S2P Require Import Text.
From S2P Require Import GoErrors.
From S2P Require Import Runtime.
From S2P Require Import Identity.
From S2P Require Import Pagination.
From S2P Require Import Schema.
From S2P Require Import Storage.
From S2P Require Import Logic.
From S2P Require Import Queries.
From S2P Require Import Owned.

(** ** model.go *)

Definition ErrNotFound : Error := New NotFound "task not found".
Definition ErrInvalid : Error := New Invalid "invalid task input".

(** [type Status string]; the constants are strings like any other. *)
Definition Status : Type := string.
Definition Todo : Status := "todo".
Definition InProgress : Status := "in_progress".
Definition Done : Status := "done".

Definition Status_Valid (s : Status) : bool :=
  ((s ==? Todo) || (s ==? InProgress) || (s ==? Done))%bool.

Record Record_ : Type := mkRecord {
  Record_ID : string;
  Record_Title : string;
  Record_Description : string;
  Record_Status : Status;
  Record_CreatedAt : time;
  Record_UpdatedAt : time
}.

Global Instance eta_Record : Settable Record_.
Proof.
  refine {| eta := λ r, mkRecord (Record_ID r) (Record_Title r) (Record_Description r)
              (Record_Status r) (Record_CreatedAt r) (Record_UpdatedAt r); eta_id := _ |};
    solve_eta.
Defined.

Record Details : Type := mkDetails {
  Title : string;
  Description : string;
  Details_Status : Status
}.

Global Instance eta_Details : Settable Details.
Proof.
  refine {| eta := λ r, mkDetails (Title r) (Description r) (Details_Status r); eta_id := _ |};
    solve_eta.
Defined.

(** ** service.go *)

Definition maxTitleRunes : Z := 200.
Definition maxDescriptionRunes : Z := 2000.

Definition storageErrors : ErrorPolicy :=
  {| Resource := "task"; policy_NotFound := Some ErrNotFound; UniqueConstraints := ∅ |}.

Definition validate (input : Details) : res error Details :=
  let '(title, valid) := RequiredText (Title input) maxTitleRunes in
  if (negb valid || negb (TextWithin (Description input) maxDescriptionRunes)
      || negb (Status_Valid (Details_Status input)))%bool
  then Err (EBusiness ErrInvalid) else Ok (input <| Title := title |>).

Definition fromRow (row : Task) : Record_ :=
  {| Record_ID := Task_ID row; Record_Title := Task_Title row;
     Record_Description := Task_Description row; Record_Status := Task_Status row;
     Record_CreatedAt := Task_CreatedAt row; Record_UpdatedAt := Task_UpdatedAt row |}.

(** A task is created as [Todo] unless its state is given. *)
Definition with_default_status (input : Details) : Details :=
  if Details_Status input ==? "" then input <| Details_Status := Todo |> else input.

Section service.
  Context `{Run : Runtime, Sch : Schedule}.

Definition query {A} (s : stmt A) : M A :=
  map_err (λ e, MapError e storageErrors) (exec Pool s).

Definition Create (owner : string) (input : Details) : M Record_ :=
  _ ← lift (RequireSubject owner);
  let input := with_default_status input in
  input ← lift (validate input);
  n ← next_step;
  row ← query (CreateTask (NewID n) owner (Title input) (Description input) (Details_Status input));
  mret (fromRow row).

Definition Get (owner id : string) : M Record_ :=
  _ ← lift (RequireSubject owner);
  if negb (Identifier id) then fail (EBusiness ErrInvalid)
  else
    row ← query (GetTask id owner);
    mret (fromRow row).

Definition List_ (owner : string) (status : Status) (params : Params) : M (Result Record_) :=
  _ ← lift (RequireSubject owner);
  if (((status !=? "") && negb (Status_Valid status))
      || bool_decide (is_Some (Params_Validate params)))%bool
  then fail (EBusiness ErrInvalid)
  else
    rows ← query (ListTasks owner status (FetchLimit params) (Offset params));
    lift (Build rows params fromRow).

Definition Update (owner id : string) (input : Details) : M Record_ :=
  _ ← lift (RequireSubject owner);
  if negb (Identifier id) then fail (EBusiness ErrInvalid)
  else
    input ← lift (validate input);
    row ← query (UpdateTask id owner (Title input) (Description input) (Details_Status input));
    mret (fromRow row).

Definition Delete (owner id : string) : M unit :=
  _ ← lift (RequireSubject owner);
  if negb (Identifier id) then fail (EBusiness ErrInvalid)
  else
    count ← query (DeleteTask id owner);
    if count =? 0 then fail (EBusiness ErrNotFound) else mret tt.

(** ** http.go *)

Definition createTask (ctx : context) (body : Details) : M Record_ :=
  Create (Subject ctx)
    {| Title := Title body; Description := Description body; Details_Status := Details_Status body |}.

Definition getTask (ctx : context) (id : string) : M Record_ := Get (Subject ctx) id.

Definition listTasks (ctx : context) (status : Status) (params : Params) : M (Result Record_) :=
  List_ (Subject ctx) status params.

Definition updateTask (ctx : context) (id : string) (body : Details) : M Record_ :=
  Update (Subject ctx) id
    {| Title := Title body; Description := Description body; Details_Status := Details_Status body |}.

Definition deleteTask (ctx : context) (id : string) : M unit := Delete (Subject ctx) id.

Definition taskLocation (item : Record_) : string :=
  "/v1/tasks/" +:+ PathEscape (Record_ID item).

End service.

(** ** Specification *)

Definition tasks_of (owner : string) (d : DB) : gmap string Record_ :=
  shelf Task_OwnerID fromRow owner (tasks d).

Inductive op : Type :=
| OpCreate (body : Details)
| OpGet (id : string)
| OpList (status : Status) (params : Params)
| OpUpdate (id : string) (body : Details)
| OpDelete (id : string).

Inductive answer : Type :=
| ARecord (r : Record_)
| APage (p : Result Record_)
| ADone.

Section spec.
  Context `{Run : Runtime}.

Definition newest : Record_ → Record_ → Prop := newest_first Record_CreatedAt Record_ID.

(** No filter, or the given state. *)
Definition listed (status : Status) (r : Record_) : bool :=
  ((status ==? "") || (Record_Status r ==? status))%bool.

Definition spec (now : time) (new_id : string) (o : op) (S : gmap string Record_)
    : res Error answer * gmap string Record_ :=
  match o with
  | OpCreate body =>
    match validate (with_default_status body) with
    | Err _ => (Err ErrInvalid, S)
    | Ok i =>
      let r := mkRecord new_id (Title i) (Description i) (Details_Status i) now now in
      (Ok (ARecord r), <[new_id := r]> S)
    end
  | OpGet id =>
    if negb (Identifier id) then (Err ErrInvalid, S)
    else match S !! id with
         | Some r => (Ok (ARecord r), S)
         | None => (Err ErrNotFound, S)
         end
  | OpList status params =>
    if ((status ==? "") || Status_Valid status)%bool then
      match Params_Validate params with
      | Some _ => (Err ErrInvalid, S)
      | None =>
        let rows := merge_sort newest (List.filter (listed status) (table_rows S)) in
        (Ok (APage {| Items := limit_offset (Limit params) (Offset params) rows;
                      HasMore := Offset params + Limit params <? Z.of_nat (length rows);
                      Result_Limit := Limit params; Result_Offset := Offset params |}), S)
      end
    else (Err ErrInvalid, S)
  | OpUpdate id body =>
    if negb (Identifier id) then (Err ErrInvalid, S)
    else match validate body, S !! id with
         | Err _, _ => (Err ErrInvalid, S)
         | Ok _, None => (Err ErrNotFound, S)
         | Ok i, Some r =>
           let r := r <| Record_Title := Title i |> <| Record_Description := Description i |>
                      <| Record_Status := Details_Status i |> <| Record_UpdatedAt := now |> in
           (Ok (ARecord r), <[id := r]> S)
         end
  | OpDelete id =>
    if negb (Identifier id) then (Err ErrInvalid, S)
    else match S !! id with
         | Some _ => (Ok ADone, delete id S)
         | None => (Err ErrNotFound, S)
         end
  end.

Definition serve `{Sch : Schedule} (ctx : context) (o : op) : M answer :=
  match o with
  | OpCreate body => r ← createTask ctx body; mret (ARecord r)
  | OpGet id => r ← getTask ctx id; mret (ARecord r)
  | OpList status params => p ← listTasks ctx status params; mret (APage p)
  | OpUpdate id body => r ← updateTask ctx id body; mret (ARecord r)
  | OpDelete id => _ ← deleteTask ctx id; mret ADone
  end.

End spec.

(** ** The service implements the specification *)

Lemma task_validate_Err input e : validate input = Err e → e = EBusiness ErrInvalid.
Proof. unfold validate. destruct (RequiredText _ _). destruct (_ || _ || _)%bool; naive_solver. Qed.

Section refines.
  Context `{Run : Runtime, Sch : Schedule, L : !RuntimeLaws Run}.

Local Abbreviation performs := (performs tasks Task_OwnerID fromRow storageErrors).

Lemma tasks_of_lookup owner d id x :
  tasks_of owner d !! id = Some x ↔
  ∃ t, tasks d !! id = Some t ∧ Task_OwnerID t = owner ∧ fromRow t = x.
Proof. apply shelf_Some. Qed.

Lemma tasks_of_None owner d id t :
  tasks_of owner d !! id = None → tasks d !! id = Some t → Task_OwnerID t ≠ owner.
Proof. intros H. by apply (proj1 (shelf_None _ _ _ _ _) H). Qed.

Lemma task_create_performs owner id i now d :
  tasks d !! id = None → keyed Task_ID (tasks d) →
  performs owner now d (CreateTask id owner (Title i) (Description i) (Details_Status i))
    (λ t, Ok (ARecord (fromRow t)))
    (let r := mkRecord id (Title i) (Description i) (Details_Status i) now now in
     (Ok (ARecord r), <[id := r]> (tasks_of owner d))).
Proof.
  intros Hid Hkey. unfold performs, CreateTask.
  replace (exists_row _ (tasks d)) with false.
  2:{ symmetry. apply exists_row_false. intros k t Hk. apply bool_decide_eq_false. intros <-.
      rewrite (Hkey k t Hk) in Hid. congruence. }
  split_and!; [|done|].
  - intros other Hne. apply shelf_insert_other; simpl; [done|]. intros r0. by rewrite Hid.
  - exact (shelf_insert_own Task_OwnerID fromRow owner _ id
             (mkTask id owner (Title i) (Description i) (Details_Status i) now now) eq_refl).
Qed.

Lemma task_update_performs owner id i now d :
  performs owner now d (UpdateTask id owner (Title i) (Description i) (Details_Status i))
    (λ t, Ok (ARecord (fromRow t)))
    (match tasks_of owner d !! id with
     | None => (Err ErrNotFound, tasks_of owner d)
     | Some r =>
       let r := r <| Record_Title := Title i |> <| Record_Description := Description i |>
                  <| Record_Status := Details_Status i |> <| Record_UpdatedAt := now |> in
       (Ok (ARecord r), <[id := r]> (tasks_of owner d))
     end).
Proof.
  destruct (tasks_of owner d !! id) as [r|] eqn:Hr.
  - apply tasks_of_lookup in Hr as (t & Ht & Ho & <-).
    unfold performs, UpdateTask, update_row. rewrite Ht, bool_decide_eq_true_2 by done.
    split_and!; [|done|by rewrite <-Ho; exact (shelf_insert_own Task_OwnerID fromRow _ _ id _ eq_refl)].
    intros other Hne. apply shelf_insert_other; simpl; [congruence|]. intros r0. naive_solver.
  - apply performs_error with (e := ErrNoRows); [|done]. unfold UpdateTask, update_row.
    destruct (tasks d !! id) as [t|] eqn:Ht; [|done]. rewrite bool_decide_eq_false_2; [done|].
    by eapply tasks_of_None.
Qed.

Lemma task_get_performs owner id now d :
  performs owner now d (GetTask id owner) (λ t, Ok (ARecord (fromRow t)))
    (match tasks_of owner d !! id with
     | Some r => Ok (ARecord r) | None => Err ErrNotFound end, tasks_of owner d).
Proof.
  apply performs_read. destruct (tasks_of owner d !! id) as [r|] eqn:Hr.
  - apply tasks_of_lookup in Hr as (t & -> & Ho & <-). by rewrite bool_decide_eq_true_2.
  - destruct (tasks d !! id) as [t|] eqn:Ht; [|done]. rewrite bool_decide_eq_false_2; [done|].
    by eapply tasks_of_None.
Qed.

Lemma task_delete_performs owner id now d :
  performs owner now d (DeleteTask id owner)
    (λ count, if count =? 0 then Err (EBusiness ErrNotFound) else Ok ADone)
    (match tasks_of owner d !! id with
     | Some _ => (Ok ADone, delete id (tasks_of owner d))
     | None => (Err ErrNotFound, tasks_of owner d)
     end).
Proof.
  unfold performs, DeleteTask. destruct (tasks_of owner d !! id) as [r|] eqn:Hr.
  - apply tasks_of_lookup in Hr as (t & Ht & Ho & <-). rewrite Ht, bool_decide_eq_true_2 by done.
    split_and!; [|done|apply shelf_delete_own]. intros other Hne. simpl.
    eapply shelf_delete_other; [done|congruence].
  - destruct (tasks d !! id) as [t|] eqn:Ht; [|by split_and!].
    rewrite bool_decide_eq_false_2 by (by eapply tasks_of_None). by split_and!.
Qed.

Lemma task_shelf_ids_distinct owner d a b : keyed Task_ID (tasks d) →
  a ∈ table_rows (tasks_of owner d) → b ∈ table_rows (tasks_of owner d) →
  Record_ID a = Record_ID b → a = b.
Proof.
  intros Hkey [k (p & Hk & _ & <-)%tasks_of_lookup]%elem_of_table_rows
    [j (q & Hj & _ & <-)%tasks_of_lookup]%elem_of_table_rows. simpl.
  rewrite (Hkey _ _ Hk), (Hkey _ _ Hj). congruence.
Qed.

Lemma task_list_performs owner status params now d :
  keyed Task_ID (tasks d) → params_ok params →
  performs owner now d (ListTasks owner status (FetchLimit params) (Offset params))
    (λ rows, res_bind (Build rows params fromRow) (λ p, Ok (APage p)))
    (let rows := merge_sort newest (List.filter (listed status) (table_rows (tasks_of owner d))) in
     (Ok (APage {| Items := limit_offset (Limit params) (Offset params) rows;
                   HasMore := Offset params + Limit params <? Z.of_nat (length rows);
                   Result_Limit := Limit params; Result_Offset := Offset params |}),
      tasks_of owner d)).
Proof.
  intros Hkey Hp. apply performs_read. simpl.
  set (rows := merge_sort _ (select_rows _ _)).
  set (listing := merge_sort newest _).
  assert (fromRow <$> rows = listing) as Hrows.
  { unfold rows, listing. apply listing_view; [done..| |by apply select_shelf].
    intros a b [Ha _]%list_elem_of_In%filter_In [Hb _]%list_elem_of_In%filter_In.
    eapply task_shelf_ids_distinct; [done|..]; by rewrite list_elem_of_In. }
  destruct (Build_page rows params fromRow Hp) as (r & -> & Hi & Hm & Hl & Ho). simpl. f_equal.
  rewrite <-Hrows. destruct r as [items more lim off]. simpl in *. subst. f_equal.
  - unfold limit_offset. by rewrite fmap_take, fmap_drop.
  - apply eq_true_iff_eq. rewrite Hm, length_fmap, Z.ltb_lt. done.
Qed.

Context `{Env : !EnvGuar (keeps (λ d, keyed Task_ID (tasks d)))}.

Lemma task_env_keyed n d : keyed Task_ID (tasks d) → keyed Task_ID (tasks (sched_env n d)).
Proof. exact (Env n d). Qed.

Local Abbreviation refines owner o w r w' := (∃ d now, seen w d ∧ w_clock w ≤ now ≤ w_clock w'
  ∧ implements tasks Task_OwnerID fromRow storageErrors owner d (w_db w') r
      (spec now (NewID (w_step w)) o (tasks_of owner d))).

Lemma task_serve_get ctx id w r w' :
  Identifier (Subject ctx) = true → serve ctx (OpGet id) w = (r, w') →
  refines (Subject ctx) (OpGet id) w r w'.
Proof.
  intros Hs H. unfold serve, getTask, Get in H.
  rewrite RequireSubject_ok in H by done. run_simpl H. cbn [spec]. destruct (negb _).
  - eapply refused; [exact H|done..].
  - by_query H (λ _ : DB, True) task_get_performs ltac:(by destruct (tasks_of _ _ !! id)).
Qed.

Lemma task_serve_delete ctx id w r w' :
  Identifier (Subject ctx) = true → serve ctx (OpDelete id) w = (r, w') →
  refines (Subject ctx) (OpDelete id) w r w'.
Proof.
  intros Hs H. unfold serve, deleteTask, Delete in H.
  rewrite RequireSubject_ok in H by done. run_simpl H. cbn [spec]. destruct (negb _).
  - eapply refused; [exact H|done..].
  - run_simpl H. eapply (implements_query _ _ _ _ (λ _, True)) in H;
      [..|by intros; apply task_delete_performs]; [done| |done|done].
    by intros [|?|?] ?.
Qed.

Lemma task_serve_update ctx id body w r w' :
  Identifier (Subject ctx) = true → serve ctx (OpUpdate id body) w = (r, w') →
  refines (Subject ctx) (OpUpdate id body) w r w'.
Proof.
  intros Hs H. unfold serve, updateTask, Update in H. destruct body as [title description status].
  rewrite RequireSubject_ok in H by done. run_simpl H. cbn [spec]. destruct (negb _).
  - eapply refused; [exact H|done..].
  - simpl in H. destruct (validate _) as [i|e] eqn:Hv; run_simpl H.
    + by_query H (λ _ : DB, True) task_update_performs idtac. exact H.
    + apply task_validate_Err in Hv as ->. eapply refused; [exact H|done|].
      intros now d. by destruct (tasks_of (Subject ctx) d !! id).
Qed.

Lemma task_serve_list ctx status params w r w' :
  Identifier (Subject ctx) = true → keyed Task_ID (tasks (w_db w)) →
  serve ctx (OpList status params) w = (r, w') → refines (Subject ctx) (OpList status params) w r w'.
Proof.
  intros Hs Hkey H. unfold serve, listTasks, List_ in H.
  rewrite RequireSubject_ok in H by done. run_simpl H. cbn [spec].
  replace ((status ==? "") || Status_Valid status)%bool
    with (negb ((status !=? "") && negb (Status_Valid status)))
    by (by destruct (status ==? ""), (Status_Valid status)).
  destruct ((status !=? "") && negb (Status_Valid status))%bool;
    [eapply refused; [exact H|done..]|]. simpl in *.
  destruct (Params_Validate params) eqn:Hp.
  - eapply refused; [exact H|done..].
  - rewrite bool_decide_eq_false_2 in H by (by intros []).
    run_simpl H. apply Params_Validate_None in Hp.
    eapply (implements_query _ _ _ _ (λ d, keyed Task_ID (tasks d))) in H;
      [..|by intros; apply task_list_performs]; [done| |intros; by apply task_env_keyed|done].
    intros rows w1. cbv beta. by destruct (Build rows params fromRow).
Qed.

(** A drawn identifier that is already used: nothing happens. *)
Definition id_collision (o : op) (w : World) (d : DB) (r : res error answer) (w' : World) : Prop :=
  is_Some (tasks d !! NewID (w_step w)) ∧ w_db w' = d ∧ is_ok r = false ∧ ∃ body, o = OpCreate body.

Lemma task_serve_create ctx body w r w' :
  Identifier (Subject ctx) = true → keyed Task_ID (tasks (w_db w)) →
  serve ctx (OpCreate body) w = (r, w') →
  refines (Subject ctx) (OpCreate body) w r w'
  ∨ ∃ d, seen w d ∧ id_collision (OpCreate body) w d r w'.
Proof.
  intros Hs Hkey H. unfold serve, createTask, Create in H. destruct body as [title description status].
  rewrite RequireSubject_ok in H by done. simpl in H. run_simpl H. cbn [spec].
  destruct (validate _) as [i|e] eqn:Hv; run_simpl H.
  2:{ left. apply task_validate_Err in Hv as ->. by eapply refused; [exact H|..]. }
  set (id := NewID (w_step w)) in *. set (d := sched_env (S (w_step w)) (w_db w)).
  destruct (tasks d !! id) as [p|] eqn:Hid.
  - right. exists d. split; [right; exists (S (w_step w)); split; [lia|done]|].
    unfold query, map_err, mbind, M_bind in H.
    destruct (exec Pool _ (advance w)) as [x w1] eqn:Ex.
    apply run_pool in Ex as (_ & _ & Hx). simpl in Hx. fold d in Hx.
    assert (∀ now, CreateTask id (Subject ctx) (Title i) (Description i) (Details_Status i) now d
            = (Err (unique_violation "tasks_pkey"), d)) as E.
    { intros now. unfold CreateTask.
      replace (exists_row _ (tasks d)) with true; [done|]. symmetry. apply exists_row_true.
      exists id, p. split; [done|]. apply bool_decide_eq_true.
      by apply (task_env_keyed (S (w_step w)) (w_db w) Hkey). }
    rewrite E in Hx. unfold id_collision. fold id.
    destruct Hx as [[= <- Hd]|(f & -> & Hd)]; simplify_eq; (split; [by eexists|]);
      split_and!; eauto; by destruct Hd.
  - left. exists d, (w_clock (advance w)).
    eapply implements_query_at in H; [|done|apply task_create_performs; [exact Hid|by apply task_env_keyed]].
    destruct H as [? H]. pose proof (w_clock_advance w). split_and!; try done.
    right. exists (S (w_step w)). split; [lia|done].
Qed.

(** C20: Every operation of an authenticated caller implements its specification on the
    caller's own tasks, as they are when the statement runs, and changes nothing that
    other owners see. *)
Theorem task_serve_refines ctx o w r w' :
  Identifier (Subject ctx) = true → keyed Task_ID (tasks (w_db w)) →
  serve ctx o w = (r, w') →
  (∃ d now, seen w d ∧ w_clock w ≤ now ≤ w_clock w'
     ∧ implements tasks Task_OwnerID fromRow storageErrors (Subject ctx) d (w_db w') r
         (spec now (NewID (w_step w)) o (tasks_of (Subject ctx) d)))
  ∨ ∃ d, seen w d ∧ id_collision o w d r w'.
Proof.
  intros Hs Hkey H. destruct o; [by apply task_serve_create|left..].
  - by apply task_serve_get.
  - by apply task_serve_list.
  - by apply task_serve_update.
  - by apply task_serve_delete.
Qed.

End refines.

(** ** Every stored task is valid *)

(** Titles are trimmed and not empty, texts are within their limits, states are known. *)
Definition details_ok (i : Details) : Prop := validate i = Ok i.

Definition row_details (t : Task) : Details :=
  mkDetails (Task_Title t) (Task_Description t) (Task_Status t).

Definition tasks_wf (d : DB) : Prop :=
  keyed Task_ID (tasks d) ∧ ∀ k t, tasks d !! k = Some t → details_ok (row_details t).

(** Validation is idempotent: what it returns it accepts unchanged. *)
Lemma task_validate_ok input i : validate input = Ok i → details_ok i.
Proof.
  unfold details_ok, validate. destruct (RequiredText (Title input) _) as [t v] eqn:E.
  destruct (negb v || _ || _)%bool eqn:Eb; [done|]. intros [= <-]. bool_to_prop. simpl. subst v.
  destruct (RequiredText_normal _ _ _ E) as (Hn & _).
  destruct input; simpl in *. injection Hn as Ht Hv. by rewrite Hv, H0, H1, Ht.
Qed.

Lemma CreateTask_wf id owner i :
  details_ok i →
  stmt_guar (keeps tasks_wf) (CreateTask id owner (Title i) (Description i) (Details_Status i)).
Proof.
  intros Hi now d [Hkey Hok]. unfold CreateTask. destruct (exists_row _ _); [done|].
  split; simpl; [by apply keyed_insert|]. intros k t. rewrite lookup_insert_Some.
  intros [[<- <-]|[_ Hk]]; [by destruct i|eauto].
Qed.

Lemma UpdateTask_wf id owner i :
  details_ok i →
  stmt_guar (keeps tasks_wf) (UpdateTask id owner (Title i) (Description i) (Details_Status i)).
Proof.
  intros Hi now d [Hkey Hok]. unfold UpdateTask, returning_one.
  destruct (update_row _ _ _ _) as [[row t]|] eqn:Eu; [|done].
  apply update_row_Some in Eu as (t0 & Ht0 & _ & -> & ->).
  split; simpl; [by apply keyed_insert, (Hkey _ _ Ht0)|]. intros k t. rewrite lookup_insert_Some.
  intros [[<- <-]|[_ Hk]]; [by destruct i|eauto].
Qed.

Lemma DeleteTask_wf id owner : stmt_guar (keeps tasks_wf) (DeleteTask id owner).
Proof.
  intros now d [Hkey Hok]. unfold DeleteTask. destruct (tasks d !! id) as [t0|]; [|done].
  case_bool_decide; [|done]. split; simpl; [by apply keyed_delete|].
  intros k t. rewrite lookup_delete_Some. intros [_ Hk]. eauto.
Qed.

(** What a relation must allow so that every operation respects it. *)
Class TaskGuar `{Run : Runtime} (R : relation DB) : Prop := {
  guar_CreateTask n owner i : details_ok i →
    stmt_guar R (CreateTask (NewID n) owner (Title i) (Description i) (Details_Status i));
  guar_UpdateTask id owner i : details_ok i →
    stmt_guar R (UpdateTask id owner (Title i) (Description i) (Details_Status i));
  guar_DeleteTask id owner : stmt_guar R (DeleteTask id owner)
}.

Global Instance tasks_wf_guar `{Run : Runtime} : TaskGuar (keeps tasks_wf).
Proof. split; eauto using CreateTask_wf, UpdateTask_wf, DeleteTask_wf. Qed.

Section respects.
  Context `{Run : Runtime, Sch : Schedule}.
  Context (R : relation DB) `{Pre : !PreOrder R, Env : !EnvGuar R, TG : !TaskGuar R}.

Hint Resolve guar_CreateTask guar_UpdateTask guar_DeleteTask task_validate_ok : guar.

Lemma createTask_guar ctx input : guar R (createTask ctx input).
Proof. unfold createTask, Create, query. guar_auto. Qed.

Lemma getTask_guar ctx id : guar R (getTask ctx id).
Proof. unfold getTask, Get, query. guar_auto. Qed.

Lemma listTasks_guar ctx status params : guar R (listTasks ctx status params).
Proof. unfold listTasks, List_, query. guar_auto. Qed.

Lemma updateTask_guar ctx id input : guar R (updateTask ctx id input).
Proof. unfold updateTask, Update, query. guar_auto. Qed.

Lemma deleteTask_guar ctx id : guar R (deleteTask ctx id).
Proof. unfold deleteTask, Delete, query. guar_auto. Qed.

End respects.

#[export] Hint Resolve createTask_guar getTask_guar listTasks_guar updateTask_guar
  deleteTask_guar : guar.

(** No operation, whatever fails, stores an invalid task. *)
Theorem task_serve_wf `{Run : Runtime, Sch : Schedule, Env : !EnvGuar (keeps tasks_wf)} ctx o :
  guar (keeps tasks_wf) (serve ctx o).
Proof. unfold serve. destruct o; guar_auto; eauto with guar typeclass_instances. Qed.
