(* ===== verification/ModuleRoutes.v ===== *)
(** * Routes of [internal/modules/project] and [internal/modules/task]

    The operations of their [http.go] with the input types of [dto.go]. The services have no
    state besides the database, so their service type is [unit]; the request bodies are
    records of the fields the handlers read; a DTO has the fields of the record it is
    converted from. *)
From S2P Require Import Prelude.
From S2P Require Import Text.
From S2P Require Import GoErrors.
From S2P Require Import Runtime.
From S2P Require Import Identity.
From S2P Require Import Pagination.
From S2P Require Import Schema.
From S2P Require Import Storage.
From S2P Require Import HttpApi.
From S2P Require Projects.
From S2P Require Tasks.

Module project.

Record CreateInput : Type := mkCreateInput { create_Name : string; create_Description : string }.
Record IDInput : Type := mkIDInput { input_ID : string }.
Record UpdateInput : Type := mkUpdateInput {
  update_ID : string; update_Name : string; update_Description : string
}.
Record ListInput : Type := mkListInput { list_PageQuery : PageQuery }.

Definition projectDTO (item : Projects.Record_) : Projects.Record_ := item.

Section routes.
  Context `{Run : Runtime, Sch : Schedule}.

Definition projectOp : HumaOperation → res error Operation := ProtectedOperations "Projects" [409].

Definition projectRoutes : list (res error (Route unit)) :=
  [ CreatedEndpoint (projectOp (operation_spec "create-project" "POST" "/v1/projects" [] 0))
      (λ _ ctx input,
         Projects.createProject (ctx_principal ctx) (create_Name input) (create_Description input))
      projectDTO Projects.projectLocation;
    ItemEndpoint (projectOp (operation_spec "get-project" "GET" "/v1/projects/{id}" [] 0))
      (λ _ ctx input, Projects.getProject (ctx_principal ctx) (input_ID input)) projectDTO;
    PageEndpoint (projectOp (operation_spec "list-projects" "GET" "/v1/projects" [] 0))
      (λ _ ctx input,
         Projects.listProjects (ctx_principal ctx) (PageQuery_Params (list_PageQuery input))) projectDTO;
    ItemEndpoint (projectOp (operation_spec "update-project" "PUT" "/v1/projects/{id}" [] 0))
      (λ _ ctx input,
         Projects.updateProject (ctx_principal ctx) (update_ID input) (update_Name input)
           (update_Description input)) projectDTO;
    NoContentEndpoint (projectOp (operation_spec "delete-project" "DELETE" "/v1/projects/{id}" [] 0))
      (λ _ ctx input, Projects.deleteProject (ctx_principal ctx) (input_ID input)) ].

End routes.

End project.

Module task.

Record TaskIDInput : Type := mkTaskIDInput { input_ID : string }.
Record TaskUpdateInput : Type := mkTaskUpdateInput { update_ID : string; update_Body : Tasks.Details }.
Record TaskListInput : Type := mkTaskListInput {
  list_Status : Tasks.Status; list_PageQuery : PageQuery
}.

Definition taskDTO (item : Tasks.Record_) : Tasks.Record_ := item.

Section routes.
  Context `{Run : Runtime, Sch : Schedule}.

Definition taskOp : HumaOperation → res error Operation := ProtectedOperations "Tasks" [].

Definition taskRoutes : list (res error (Route unit)) :=
  [ CreatedEndpoint (taskOp (operation_spec "create-task" "POST" "/v1/tasks" [] 0))
      (λ _ ctx body, Tasks.createTask (ctx_principal ctx) body)
      taskDTO Tasks.taskLocation;
    ItemEndpoint (taskOp (operation_spec "get-task" "GET" "/v1/tasks/{id}" [] 0))
      (λ _ ctx input, Tasks.getTask (ctx_principal ctx) (input_ID input)) taskDTO;
    PageEndpoint (taskOp (operation_spec "list-tasks" "GET" "/v1/tasks" [] 0))
      (λ _ ctx input,
         Tasks.listTasks (ctx_principal ctx) (list_Status input)
           (PageQuery_Params (list_PageQuery input))) taskDTO;
    ItemEndpoint (taskOp (operation_spec "update-task" "PUT" "/v1/tasks/{id}" [] 0))
      (λ _ ctx input, Tasks.updateTask (ctx_principal ctx) (update_ID input) (update_Body input))
      taskDTO;
    NoContentEndpoint (taskOp (operation_spec "delete-task" "DELETE" "/v1/tasks/{id}" [] 0))
      (λ _ ctx input, Tasks.deleteTask (ctx_principal ctx) (input_ID input)) ].

End routes.

End task.
