(* ===== verification/MailQueries.v ===== *)
(** * The SQL statements of [internal/db/sqlc/mail_outbox.sql.go]

    [FOR UPDATE SKIP LOCKED] only matters between overlapping transactions; statements
    are serial here, so the candidates are all rows. *)
From S2P Require Import Prelude.
From S2P Require Import Text.
From S2P Require Import GoErrors.
From S2P Require Import Schema.
From S2P Require Import Pagination.
From S2P Require Import Storage.
From S2P Require Import Queries.
From S2P Require Import AuthQueries.

Record EnqueueMailParams : Type := mkEnqueueMailParams {
  EnqueueMail_ID : string;
  EnqueueMail_Kind : string;
  EnqueueMail_Recipient : string;
  EnqueueMail_Subject : string;
  EnqueueMail_Body : string;
  EnqueueMail_ExpiresAt : time
}.

Definition mail_row (arg : EnqueueMailParams) (now : time) : MailOutbox :=
  mkMailOutbox (EnqueueMail_ID arg) (EnqueueMail_Kind arg) (EnqueueMail_Recipient arg)
    (EnqueueMail_Subject arg) (EnqueueMail_Body arg) "pending" 0 now (EnqueueMail_ExpiresAt arg)
    None None None now None.

Definition EnqueueMail (arg : EnqueueMailParams) : stmt unit := λ now d,
  if exists_row (λ m, MailOutbox_ID m ==? EnqueueMail_ID arg) (mail_outbox d)
  then (Err (unique_violation "mail_outbox_pkey"), d)
  else (Ok tt, d <| mail_outbox := <[EnqueueMail_ID arg := mail_row arg now]> (mail_outbox d) |>).

(** [leased_until <= now()]. *)
Definition lease_over (now : time) (m : MailOutbox) : bool :=
  match MailOutbox_LeasedUntil m with Some t => t <=? now | None => false end.

Definition lease_running (now : time) (m : MailOutbox) : bool :=
  match MailOutbox_LeasedUntil m with Some t => now <? t | None => false end.

Definition claimable (now : time) (max_attempts : Z) (m : MailOutbox) : bool :=
  ((((MailOutbox_Status m ==? "pending") && (MailOutbox_AvailableAt m <=? now))
    || ((MailOutbox_Status m ==? "processing") && lease_over now m))
   && (now <? MailOutbox_ExpiresAt m) && (MailOutbox_Attempts m <? max_attempts))%bool.

(** [ORDER BY available_at, created_at]. *)
Definition claim_order (a b : MailOutbox) : Prop :=
  MailOutbox_AvailableAt a < MailOutbox_AvailableAt b
  ∨ MailOutbox_AvailableAt a = MailOutbox_AvailableAt b
    ∧ MailOutbox_CreatedAt a ≤ MailOutbox_CreatedAt b.

Global Instance claim_order_dec : RelDecision claim_order.
Proof. unfold RelDecision, claim_order. intros. apply _. Defined.

Definition ClaimMail (lease_id : option string) (lease_seconds max_attempts : Z)
    : stmt MailOutbox := λ now d,
  match merge_sort claim_order (select_rows (claimable now max_attempts) (mail_outbox d)) with
  | candidate :: _ =>
    returning_one
      (update_row (MailOutbox_ID candidate) (λ _, true)
         (λ m, m <| MailOutbox_Status := "processing" |>
                 <| MailOutbox_Attempts := MailOutbox_Attempts m + 1 |>
                 <| MailOutbox_LeaseID := lease_id |>
                 <| MailOutbox_LeasedUntil := Some (now + seconds lease_seconds) |>)
         (mail_outbox d))
      (λ t, d <| mail_outbox := t |>) d
  | [] => (Err ErrNoRows, d)
  end.

(** The lease is current and has not run out. *)
Definition holds_lease (now : time) (lease_id : option string) (m : MailOutbox) : bool :=
  (sql_eq (MailOutbox_LeaseID m) lease_id && (MailOutbox_Status m ==? "processing")
   && lease_running now m)%bool.

Definition clear_payload (m : MailOutbox) : MailOutbox :=
  m <| MailOutbox_Recipient := "" |> <| MailOutbox_Subject := "" |> <| MailOutbox_Body := "" |>.

Definition CompleteMail (id : string) (lease_id : option string) : stmt Z := λ now d,
  rows_affected
    (update_row id (holds_lease now lease_id)
       (λ m, clear_payload m <| MailOutbox_Status := "sent" |> <| MailOutbox_LeaseID := None |>
               <| MailOutbox_LeasedUntil := None |> <| MailOutbox_LastError := None |>
               <| MailOutbox_CompletedAt := Some now |>)
       (mail_outbox d))
    (λ t, d <| mail_outbox := t |>) d.

Definition exhausted (now : time) (max_attempts : Z) (m : MailOutbox) : bool :=
  ((max_attempts <=? MailOutbox_Attempts m) || (MailOutbox_ExpiresAt m <=? now))%bool.

Definition RetryMail (id : string) (lease_id : option string) (max_attempts delay_seconds : Z)
    : stmt Z := λ now d,
  rows_affected
    (update_row id (holds_lease now lease_id)
       (λ m, (if exhausted now max_attempts m
              then clear_payload m <| MailOutbox_Status := "failed" |>
                     <| MailOutbox_CompletedAt := Some now |>
              else m <| MailOutbox_Status := "pending" |> <| MailOutbox_CompletedAt := None |>)
               <| MailOutbox_AvailableAt := now + seconds delay_seconds |>
               <| MailOutbox_LeaseID := None |> <| MailOutbox_LeasedUntil := None |>
               <| MailOutbox_LastError := Some "sender_unavailable" |>)
       (mail_outbox d))
    (λ t, d <| mail_outbox := t |>) d.

Definition expirable (now : time) (max_attempts : Z) (m : MailOutbox) : bool :=
  (((MailOutbox_Status m ==? "pending")
    || ((MailOutbox_Status m ==? "processing") && lease_over now m))
   && ((MailOutbox_ExpiresAt m <=? now) || (max_attempts <=? MailOutbox_Attempts m)))%bool.

Definition created_order (a b : MailOutbox) : Prop := MailOutbox_CreatedAt a ≤ MailOutbox_CreatedAt b.

Global Instance created_order_dec : RelDecision created_order.
Proof. unfold RelDecision, created_order. intros. apply _. Defined.

Definition ExpireMail (max_attempts batch_size : Z) : stmt unit := λ now d,
  let expired :=
    MailOutbox_ID <$> limit_offset batch_size 0
      (merge_sort created_order (select_rows (expirable now max_attempts) (mail_outbox d))) in
  (Ok tt, d <| mail_outbox :=
     update_where (λ m, bool_decide (MailOutbox_ID m ∈ expired))
       (λ m, clear_payload m <| MailOutbox_Status := "failed" |> <| MailOutbox_LeaseID := None |>
               <| MailOutbox_LeasedUntil := None |> <| MailOutbox_CompletedAt := Some now |>
               <| MailOutbox_LastError := Some "expired_or_exhausted" |>)
       (mail_outbox d) |>).
