(* ===== verification/MailOutbox.v ===== *)
(** * [internal/modules/mailoutbox]: the mail queue

    A worker claims one mail at a time under a lease, sends it outside of any transaction
    and records the outcome ([ProcessOne]); [Run] repeats that until it is stopped. The
    theorems describe the life of a mail ([mail_step]), the invariant of the table
    ([mail_ok]), the bounds on attempts, deadlines and delays, and that [Run] stops. *)
From stdpp Require Import pretty.
From S2P Require Import Prelude.
From S2P Require Import Text.
From S2P Require Import GoErrors.
From S2P Require Import Runtime.
From S2P Require Import Identity.
From S2P Require Import Pagination.
From S2P Require Import Schema.
From S2P Require Import Storage.
From S2P Require Import Logic.
From S2P Require Import Queries.
From S2P Require Import AuthQueries.
From S2P Require Import MailQueries.
From S2P Require Import Owned.

(** ** model.go *)

Record Message : Type := mkMessage {
  Message_ID : string;
  Message_Kind : string;
  Message_To : string;
  Message_Subject : string;
  Message_HTML : string
}.

Definition Status : Type := string.
Definition StatusPending : Status := "pending".
Definition StatusProcessing : Status := "processing".
Definition StatusSent : Status := "sent".
Definition StatusFailed : Status := "failed".

Definition Status_Valid (s : Status) : bool :=
  ((s ==? StatusPending) || (s ==? StatusProcessing) || (s ==? StatusSent)
   || (s ==? StatusFailed))%bool.

Definition Terminal (s : Status) : bool := ((s ==? StatusSent) || (s ==? StatusFailed))%bool.

(** ** diagnostics.go *)

Definition stageError_attrs (stage messageID : string) (attempt : Z) (cause : error)
    : list (string * string) :=
  ("stage", stage)
    :: (if messageID !=? "" then [("message_id", messageID); ("attempt", pretty attempt)] else [])
    ++ DiagnosticAttrs (Some cause).

(** ** delivery.go *)

Definition maxDeliveryAttempts : Z := 5.
Definition leaseDuration : time := Minute.
Definition expiredMailBatchSize : Z := 100.
Definition sendTimeout : time := 10 * Second.
Definition leaseFinishReserve : time := 5 * Second.
Definition retryBaseSeconds : Z := 15.
Definition retryJitterSeconds : Z := 10.

(** The sender and the cancellation of the worker's context, per step. *)
Class Worker := {
  send : nat → Message → time → option error;
  ctx_Err : nat → option sentinel
}.

Section delivery.
  Context `{Run : Runtime, Sch : Schedule, Wk : Worker}.

Definition retryDelaySeconds (step : nat) (attempt : Z) : Z :=
  let attempt := if attempt <? 1 then 1 else attempt in
  let attempt := if maxDeliveryAttempts <? attempt then maxDeliveryAttempts else attempt in
  retryBaseSeconds * Z.shiftl 1 (attempt - 1) + rand_IntN step retryJitterSeconds.

(** The context's error at this moment. *)
Definition ctx_check : M (option error) :=
  n ← next_step; mret (ESentinel <$> ctx_Err n).

Definition send_deadline (now : time) (row : MailOutbox) (leased_until : time) : time :=
  let deadline := now + sendTimeout in
  let deadline := if MailOutbox_ExpiresAt row <? deadline then MailOutbox_ExpiresAt row
                  else deadline in
  let limit := leased_until - leaseFinishReserve in
  if limit <? deadline then limit else deadline.

Definition hand_over (row : MailOutbox) (deadline : time) : M unit := λ w,
  (Ok tt, w <| w_sent := w_sent w ++ [(MailOutbox_ID row, deadline)] |>).

Definition deliver (row : MailOutbox) (leased_until : time) : M (option error) :=
  now ← time_Now;
  let deadline := send_deadline now row leased_until in
  canceled ← ctx_check;
  now ← time_Now;
  let sendErr := match canceled with
                 | Some e => Some e
                 | None => if deadline <=? now then Some (ESentinel ContextDeadlineExceeded) else None
                 end in
  match sendErr with
  | None =>
    _ ← hand_over row deadline;
    n ← next_step;
    mret (send n (mkMessage (MailOutbox_ID row) (MailOutbox_Kind row) (MailOutbox_Recipient row)
                    (MailOutbox_Subject row) (MailOutbox_Body row)) deadline)
  | Some e => mret (Some e)
  end.

Definition stage_failure (stage : string) (row : MailOutbox) (cause : error) : error :=
  EStage stage (MailOutbox_ID row) (MailOutbox_Attempts row) cause.

Definition finishDelivery (row : MailOutbox) (lease : string) (sendErr : option error)
    : M (option error) :=
  '(stage, r) ← match sendErr with
                | None =>
                  r ← try (exec Pool (CompleteMail (MailOutbox_ID row) (Some lease)));
                  mret ("complete", r)
                | Some cause =>
                  n ← next_step;
                  let delay := retryDelaySeconds n (MailOutbox_Attempts row) in
                  r ← try (exec Pool (RetryMail (MailOutbox_ID row) (Some lease)
                                        maxDeliveryAttempts delay));
                  _ ← log_attrs "邮件投递失败"
                        (stageError_attrs "send" (MailOutbox_ID row) (MailOutbox_Attempts row) cause);
                  mret ("retry", r)
                end;
  match r with
  | Err err => mret (Some (stage_failure stage row err))
  | Ok count =>
    if negb (count =? 1)
    then mret (Some (stage_failure "confirm_lease" row (EText "邮件领取租约已失效")))
    else mret None
  end.

(** The pair [(worked, err)] of the code. *)
Definition ProcessOne : M (bool * option error) :=
  r ← try (exec Pool (ExpireMail maxDeliveryAttempts expiredMailBatchSize));
  match r with
  | Err err => mret (false, Some (EStage "expire" "" 0 err))
  | Ok _ =>
    n ← next_step;
    let lease := NewID n in
    r ← try (exec Pool (ClaimMail (Some lease) (leaseDuration / Second) maxDeliveryAttempts));
    match r with
    | Err err =>
      if Is err (TSentinel PgxErrNoRows) then mret (false, None)
      else mret (false, Some (EStage "claim" "" 0 err))
    | Ok row =>
      match MailOutbox_LeasedUntil row with
      | Some leased_until =>
        if ((MailOutbox_Status row !=? StatusProcessing)
            || (MailOutbox_LeaseID row !=? Some lease))%bool
        then mret (true, Some (stage_failure "validate_claim" row (EText "邮件领取状态无效")))
        else
          sendErr ← deliver row leased_until;
          err ← finishDelivery row lease sendErr;
          mret (true, err)
      | None => mret (true, Some (stage_failure "validate_claim" row (EText "邮件领取状态无效")))
      end
    end
  end.

(** ** runner.go *)

(** What [Run] logs for a failure. *)
Definition failure_attrs (err : error) : list (string * string) :=
  match As asStage err with
  | Some (EStage stage id attempt cause) => stageError_attrs stage id attempt cause
  | _ => DiagnosticAttrs (Some err)
  end.

Definition reported (worked : bool) (err : error) (ctxErr : option error) : bool :=
  (worked || match ctxErr with
             | None => true
             | Some (ESentinel s) => negb (Is err (TSentinel s))
             | Some _ => true
             end)%bool.

(** The body of the loop: [None] for its [break]. *)
Definition run_body : M (option unit) :=
  '(worked, err) ← ProcessOne;
  c ← ctx_check;
  _ ← match err with
      | Some e => if reported worked e c then log_attrs "邮件队列处理失败" (failure_attrs e)
                  else mret tt
      | None => mret tt
      end;
  c ← ctx_check;
  match c with
  | Some _ => mret None
  | None =>
    if (worked && bool_decide (err = None))%bool then mret (Some tt)
    else _ ← next_step; mret (Some tt)       (* the timer or the end of the context *)
  end.

(** The condition of the loop, then its body. *)
Definition run_once : M (option unit) :=
  c ← ctx_check;
  match c with
  | Some _ => mret None
  | None => run_body
  end.

(** [Some] of the result, or [None] when the fuel does not suffice. *)
Fixpoint run_loop (fuel : nat) : M (option unit) :=
  match fuel with
  | O => mret None
  | S fuel =>
    r ← run_once;
    match r with
    | None => mret (Some tt)
    | Some _ => run_loop fuel
    end
  end.

Definition Run_ (fuel : nat) (poll : time) : M (option unit) :=
  if poll <=? 0 then fail (EText "邮件轮询间隔必须为正") else run_loop fuel.

End delivery.

(** ** The table of mails *)

(** The invariant of a row: states have the fields they need, and no payload outlives the
    delivery. *)
Definition mail_ok (m : MailOutbox) : Prop :=
  0 ≤ MailOutbox_Attempts m ≤ maxDeliveryAttempts
  ∧ ((MailOutbox_Status m = StatusPending ∧ MailOutbox_LeaseID m = None
      ∧ MailOutbox_LeasedUntil m = None ∧ MailOutbox_CompletedAt m = None)
     ∨ (MailOutbox_Status m = StatusProcessing ∧ is_Some (MailOutbox_LeaseID m)
        ∧ is_Some (MailOutbox_LeasedUntil m) ∧ MailOutbox_CompletedAt m = None
        ∧ 1 ≤ MailOutbox_Attempts m)
     ∨ (Terminal (MailOutbox_Status m) = true ∧ MailOutbox_LeaseID m = None
        ∧ MailOutbox_LeasedUntil m = None ∧ is_Some (MailOutbox_CompletedAt m)
        ∧ MailOutbox_Recipient m = "" ∧ MailOutbox_Subject m = "" ∧ MailOutbox_Body m = "")).

Definition outbox_ok (d : DB) : Prop :=
  keyed MailOutbox_ID (mail_outbox d) ∧ ∀ k m, mail_outbox d !! k = Some m → mail_ok m.

(** The life of a mail, one arrow per way its state changes. *)
Inductive mail_step : MailOutbox → MailOutbox → Prop :=
| step_claim m lease now until :
    MailOutbox_Status m = StatusPending
    ∨ (MailOutbox_Status m = StatusProcessing ∧ lease_over now m = true) →
    MailOutbox_Attempts m < maxDeliveryAttempts → now < MailOutbox_ExpiresAt m →
    mail_step m (m <| MailOutbox_Status := StatusProcessing |>
                   <| MailOutbox_Attempts := MailOutbox_Attempts m + 1 |>
                   <| MailOutbox_LeaseID := lease |> <| MailOutbox_LeasedUntil := Some until |>)
| step_sent m now :
    MailOutbox_Status m = StatusProcessing → lease_running now m = true →
    mail_step m (clear_payload m <| MailOutbox_Status := StatusSent |>
                   <| MailOutbox_LeaseID := None |> <| MailOutbox_LeasedUntil := None |>
                   <| MailOutbox_LastError := None |> <| MailOutbox_CompletedAt := Some now |>)
| step_retry m now at_ :
    MailOutbox_Status m = StatusProcessing → lease_running now m = true → now < at_ →
    MailOutbox_Attempts m < maxDeliveryAttempts → now < MailOutbox_ExpiresAt m →
    mail_step m (m <| MailOutbox_Status := StatusPending |> <| MailOutbox_CompletedAt := None |>
                   <| MailOutbox_AvailableAt := at_ |> <| MailOutbox_LeaseID := None |>
                   <| MailOutbox_LeasedUntil := None |>
                   <| MailOutbox_LastError := Some "sender_unavailable" |>)
| step_give_up m now at_ :
    MailOutbox_Status m = StatusProcessing → lease_running now m = true →
    exhausted now maxDeliveryAttempts m = true →
    mail_step m (clear_payload m <| MailOutbox_Status := StatusFailed |>
                   <| MailOutbox_CompletedAt := Some now |>
                   <| MailOutbox_AvailableAt := at_ |> <| MailOutbox_LeaseID := None |>
                   <| MailOutbox_LeasedUntil := None |>
                   <| MailOutbox_LastError := Some "sender_unavailable" |>)
| step_expire m now :
    MailOutbox_Status m = StatusPending
    ∨ (MailOutbox_Status m = StatusProcessing ∧ lease_over now m = true) →
    exhausted now maxDeliveryAttempts m = true →
    mail_step m (clear_payload m <| MailOutbox_Status := StatusFailed |>
                   <| MailOutbox_LeaseID := None |> <| MailOutbox_LeasedUntil := None |>
                   <| MailOutbox_CompletedAt := Some now |>
                   <| MailOutbox_LastError := Some "expired_or_exhausted" |>).

(** Every row follows the arrows, none disappears; and the invariant is kept. *)
Definition mails_live (d d' : DB) : Prop :=
  outbox_ok d →
  outbox_ok d' ∧ ∀ k m, mail_outbox d !! k = Some m →
    ∃ m', mail_outbox d' !! k = Some m' ∧ rtc mail_step m m'.

Global Instance mails_live_preorder : PreOrder mails_live.
Proof.
  split.
  - intros d Hd. split; [done|]. eauto using rtc_refl.
  - intros d1 d2 d3 H12 H23 H1. destruct (H12 H1) as [H2 S12]. destruct (H23 H2) as [H3 S23].
    split; [done|]. intros k m Hm. destruct (S12 k m Hm) as (m2 & Hm2 & ?).
    destruct (S23 k m2 Hm2) as (m3 & ? & ?). exists m3. split; [done|]. by etransitivity.
Qed.

Lemma mails_live_refl d : mails_live d d.
Proof. reflexivity. Qed.

(** [d'] differs from [d] in one row, which took one arrow. *)
Lemma mails_live_row d m m' :
  mail_outbox d !! MailOutbox_ID m = Some m → (mail_ok m → mail_step m m' ∧ mail_ok m') →
  MailOutbox_ID m' = MailOutbox_ID m →
  mails_live d (d <| mail_outbox := <[MailOutbox_ID m := m']> (mail_outbox d) |>).
Proof.
  intros Hm Hstep Hid [Hkey Hok]. destruct (Hstep (Hok _ _ Hm)) as [Hs Hok'].
  split; [split; simpl; [by apply keyed_insert|]|]; simpl.
  - intros k m0. rewrite lookup_insert_Some. intros [[_ <-]|[_ ?]]; eauto.
  - intros k m0 Hk. destruct (decide (MailOutbox_ID m = k)) as [<-|Hne].
    + exists m'. rewrite lookup_insert_eq. assert (m0 = m) as -> by congruence.
      split; [done|]. by apply rtc_once.
    + exists m0. rewrite lookup_insert_ne by done. split; [done|apply rtc_refl].
Qed.

Lemma holds_lease_true now lease m : holds_lease now lease m = true →
  MailOutbox_LeaseID m = lease ∧ is_Some lease
  ∧ MailOutbox_Status m = StatusProcessing ∧ lease_running now m = true.
Proof.
  unfold holds_lease, sql_eq. intros H. bool_to_prop.
  destruct (MailOutbox_LeaseID m), lease; try done. bool_to_prop. subst. eauto.
Qed.

Lemma expirable_exhausted now n m : expirable now n m = true →
  (MailOutbox_Status m = StatusPending
   ∨ (MailOutbox_Status m = StatusProcessing ∧ lease_over now m = true))
  ∧ exhausted now n m = true.
Proof.
  unfold expirable, exhausted. intros [H1 H2]%andb_true_iff. split.
  - apply orb_true_iff in H1 as [H1|H1]; bool_to_prop; eauto.
  - by rewrite orb_comm.
Qed.

Lemma EnqueueMail_live arg : stmt_guar mails_live (EnqueueMail arg).
Proof.
  intros now d [Hkey Hok]. unfold EnqueueMail. destruct (exists_row _ _) eqn:E.
  { split; [done|]. eauto using rtc_refl. }
  rewrite exists_row_false in E. split; [split; simpl; [by apply keyed_insert|]|]; simpl.
  - intros k m. rewrite lookup_insert_Some. intros [[_ <-]|[_ ?]]; [|eauto].
    split; simpl; [unfold maxDeliveryAttempts; lia|by left].
  - intros k m Hk. exists m. rewrite lookup_insert_ne; [split; [done|apply rtc_refl]|].
    intros <-. specialize (E _ m Hk). bool_to_prop. by rewrite (Hkey _ m Hk) in E.
Qed.

Lemma mail_open m : mail_ok m →
  MailOutbox_Status m = StatusPending ∨ MailOutbox_Status m = StatusProcessing →
  MailOutbox_CompletedAt m = None.
Proof.
  intros [_ [(_&_&_&?)|[(_&_&_&?&_)|(Ht&_)]]] Hs; [done..|].
  destruct Hs as [Hs|Hs]; by rewrite Hs in Ht.
Qed.

Lemma ClaimMail_live lease lease_seconds :
  stmt_guar mails_live (ClaimMail (Some lease) lease_seconds maxDeliveryAttempts).
Proof.
  intros now d Hd. unfold ClaimMail. destruct (merge_sort _ _) as [|m l] eqn:E; [by apply mails_live_refl|].
  assert (m ∈ select_rows (claimable now maxDeliveryAttempts) (mail_outbox d)) as Hm.
  { rewrite <-(merge_sort_Permutation claim_order), E. left. }
  apply elem_of_select_rows in Hm as [[k Hk] Hc]. pose proof (proj1 Hd _ _ Hk) as <-.
  unfold returning_one, update_row. rewrite Hk. apply mails_live_row; [done| |done|done].
  unfold claimable in Hc. bool_to_prop. intros Hok. pose proof (proj1 Hok).
  assert (MailOutbox_Status m = StatusPending
          ∨ (MailOutbox_Status m = StatusProcessing ∧ lease_over now m = true)) as Hst.
  { destruct H as [H|H]; bool_to_prop; eauto. }
  split.
  - by apply step_claim with (now := now).
  - split; simpl; [unfold maxDeliveryAttempts in *; lia|]. right. left. split_and!; eauto; [|lia].
    apply mail_open; [done|]. naive_solver.
Qed.

(** A statement that changes one mail. *)
Lemma update_mail_live {A} id (P : MailOutbox → bool) f (a : A) :
  (∀ m, P m = true → mail_ok m → mail_step m (f m) ∧ mail_ok (f m)) →
  (∀ m, MailOutbox_ID (f m) = MailOutbox_ID m) →
  ∀ d, mails_live d (rows_affected (update_row id P f (mail_outbox d))
                       (λ t, d <| mail_outbox := t |>) d).2.
Proof.
  intros Hf Hid d Hd. unfold rows_affected.
  destruct (update_row _ _ _ _) as [[row t]|] eqn:Eu; [|by apply mails_live_refl].
  apply update_row_Some in Eu as (m & Hm & HP & -> & ->).
  pose proof (proj1 Hd _ _ Hm) as <-. apply mails_live_row; auto.
Qed.

Lemma CompleteMail_live id lease : stmt_guar mails_live (CompleteMail id lease).
Proof.
  intros now d. apply (update_mail_live _ _ _ tt); [|done].
  intros m (_ & _ & Hst & Hrun)%holds_lease_true Hok. split; [by apply step_sent with (now := now)|].
  split; simpl; [exact (proj1 Hok)|]. right. right. split_and!; eauto.
Qed.

Lemma RetryMail_live id lease delay :
  0 < delay → stmt_guar mails_live (RetryMail id lease maxDeliveryAttempts delay).
Proof.
  intros Hdel now d. apply (update_mail_live _ _ _ tt).
  - intros m (_ & _ & Hst & Hrun)%holds_lease_true Hok.
    cbv beta. destruct (exhausted now maxDeliveryAttempts m) eqn:Ex.
    + split; [exact (step_give_up m now (now + seconds delay) Hst Hrun Ex)|]. simpl. split; simpl; [exact (proj1 Hok)|].
      right. right. split_and!; eauto.
    + unfold exhausted in Ex. bool_to_prop. split.
      * apply (step_retry m now (now + seconds delay)); [done..| |lia|lia]. unfold seconds, Second. lia.
      * simpl. split; simpl; [exact (proj1 Hok)|]. by left.
  - intros m. by destruct (exhausted _ _ m).
Qed.

(** Only what has expired or is exhausted is in a batch. *)
Lemma expired_expirable batch now d k m :
  keyed MailOutbox_ID (mail_outbox d) → mail_outbox d !! k = Some m →
  MailOutbox_ID m ∈ MailOutbox_ID <$> limit_offset batch 0
    (merge_sort created_order (select_rows (expirable now maxDeliveryAttempts) (mail_outbox d))) →
  expirable now maxDeliveryAttempts m = true.
Proof.
  intros Hkey Hk (m' & Hid & Hm')%list_elem_of_fmap. unfold limit_offset in Hm'. simpl in Hm'.
  apply elem_of_take in Hm' as (j & Hj & _). apply list_elem_of_lookup_2 in Hj.
  rewrite merge_sort_Permutation in Hj. apply elem_of_select_rows in Hj as [[k' Hk'] He].
  rewrite <-(Hkey _ _ Hk), Hid, (Hkey _ _ Hk'), Hk' in Hk. by simplify_eq.
Qed.

Lemma ExpireMail_live batch : stmt_guar mails_live (ExpireMail maxDeliveryAttempts batch).
Proof.
  intros now d [Hkey Hok]. unfold ExpireMail. simpl.
  set (expired := MailOutbox_ID <$> _).
  pose proof (λ k m, expired_expirable batch now d k m Hkey) as Hexp.
  assert (∀ m, (∃ k, mail_outbox d !! k = Some m) → bool_decide (MailOutbox_ID m ∈ expired) = true →
    mail_ok m → mail_step m (clear_payload m <| MailOutbox_Status := "failed" |>
                   <| MailOutbox_LeaseID := None |> <| MailOutbox_LeasedUntil := None |>
                   <| MailOutbox_CompletedAt := Some now |>
                   <| MailOutbox_LastError := Some "expired_or_exhausted" |>)) as Hstep.
  { intros m [k Hk] Hin _. bool_to_prop.
    destruct (expirable_exhausted _ _ _ (Hexp k m Hk Hin)). by apply step_expire. }
  unfold update_where. split; [split|]; simpl.
  - apply keyed_fmap; [done|]. intros m. by destruct (bool_decide _).
  - intros k m. rewrite lookup_fmap_Some. intros (m0 & <- & Hk).
    destruct (bool_decide _); [|eauto]. specialize (Hok k m0 Hk).
    split; simpl; [exact (proj1 Hok)|]. right. right. split_and!; eauto.
  - intros k m Hk. eexists. rewrite lookup_fmap, Hk. split; [done|].
    destruct (bool_decide _) eqn:Hin; [|apply rtc_refl]. apply rtc_once. eauto.
Qed.


(** A mail in a final state never changes again. *)
Lemma terminal_final m m' :
  Terminal (MailOutbox_Status m) = true → rtc mail_step m m' → m' = m.
Proof.
  intros Ht Hs. destruct Hs as [m|m m1 m2 Hs _]; [done|]. exfalso.
  inversion Hs; subst; try (by rewrite H in Ht); by destruct H as [H|[H _]]; rewrite H in Ht.
Qed.

Lemma attempts_monotone m m' : rtc mail_step m m' → MailOutbox_Attempts m ≤ MailOutbox_Attempts m'.
Proof.
  induction 1 as [|m m1 m2 Hs _ IH]; [lia|]. enough (MailOutbox_Attempts m ≤ MailOutbox_Attempts m1) by lia.
  inversion Hs; subst; simpl; lia.
Qed.

(** ** The service *)

Section service_facts.
  Context `{Run : Runtime, Sch : Schedule, Wk : Worker, L : !RuntimeLaws Run}.

(** The delay doubles with every attempt, from 15 to 240 seconds, plus less than 10. *)
Lemma retryDelay_bounds step attempt :
  let a := 1 `max` (attempt `min` maxDeliveryAttempts) in
  15 * 2 ^ (a - 1) ≤ retryDelaySeconds step attempt < 15 * 2 ^ (a - 1) + 10
  ∧ 15 ≤ retryDelaySeconds step attempt ≤ 249.
Proof.
  intros a. unfold retryDelaySeconds, maxDeliveryAttempts, retryBaseSeconds, retryJitterSeconds in *.
  set (b := if 5 <? (if attempt <? 1 then 1 else attempt) then 5
            else if attempt <? 1 then 1 else attempt).
  assert (b = a) as -> by (unfold a, b; destruct (attempt <? 1) eqn:?, (5 <? _) eqn:?; lia).
  assert (1 ≤ a ≤ 5) as Ha by lia. clearbody a.
  rewrite Z.shiftl_mul_pow2, Z.mul_1_l by lia. pose proof (rand_IntN_bounds step 10 ltac:(lia)).
  assert (a = 1 ∨ a = 2 ∨ a = 3 ∨ a = 4 ∨ a = 5) as [->|[->|[->|[->| ->]]]] by lia; simpl; lia.
Qed.

Lemma RetryMail_delay_live id lease n attempt :
  stmt_guar mails_live (RetryMail id lease maxDeliveryAttempts (retryDelaySeconds n attempt)).
Proof. apply RetryMail_live. destruct (retryDelay_bounds n attempt) as [_ ?]. lia. Qed.

Lemma guar_hand_over (R : relation DB) `{!PreOrder R} row deadline : guar R (hand_over row deadline).
Proof. intros w. simpl. reflexivity. Qed.

#[local] Hint Resolve guar_hand_over : guar.

(** What a relation must allow so that a worker respects it. *)
Class MailGuar (R : relation DB) : Prop := {
  guar_ClaimMail lease lease_seconds :
    stmt_guar R (ClaimMail (Some lease) lease_seconds maxDeliveryAttempts);
  guar_CompleteMail id lease : stmt_guar R (CompleteMail id lease);
  guar_RetryMail id lease n attempt :
    stmt_guar R (RetryMail id lease maxDeliveryAttempts (retryDelaySeconds n attempt));
  guar_ExpireMail batch : stmt_guar R (ExpireMail maxDeliveryAttempts batch)
}.

Section respects.
  Context (R : relation DB) `{Pre : !PreOrder R, Env : !EnvGuar R, MG : !MailGuar R}.

Hint Resolve guar_ClaimMail guar_CompleteMail guar_RetryMail guar_ExpireMail : guar.

Lemma finishDelivery_respects row lease sendErr : guar R (finishDelivery row lease sendErr).
Proof. unfold finishDelivery. guar_auto. Qed.

Lemma ProcessOne_guar : guar R ProcessOne.
Proof. unfold ProcessOne, deliver, finishDelivery, ctx_check. guar_auto. Qed.

Lemma run_once_guar : guar R run_once.
Proof. unfold run_once, run_body, ctx_check. pose proof ProcessOne_guar. guar_auto. Qed.

Lemma Run_guar fuel poll : guar R (Run_ fuel poll).
Proof.
  unfold Run_. destruct (poll <=? 0); [apply guar_fail; typeclasses eauto|].
  induction fuel as [|fuel IH]; simpl; guar_auto. apply run_once_guar.
Qed.

End respects.

Global Instance mails_live_guar : MailGuar mails_live.
Proof. split; eauto using ClaimMail_live, CompleteMail_live, RetryMail_delay_live, ExpireMail_live. Qed.

(** C22: Whatever happens to a worker, every mail follows the arrows of [mail_step], its attempts
    only grow and the table stays well formed. *)
Theorem Run_live `{!EnvGuar mails_live} fuel poll w :
  outbox_ok (w_db w) → let d' := w_db (Run_ fuel poll w).2 in
  outbox_ok d' ∧ ∀ k m, mail_outbox (w_db w) !! k = Some m →
    ∃ m', mail_outbox d' !! k = Some m' ∧ rtc mail_step m m'
      ∧ MailOutbox_Attempts m ≤ MailOutbox_Attempts m' ≤ maxDeliveryAttempts.
Proof.
  intros Hok. destruct (Run_guar mails_live fuel poll w Hok) as [Hok' H]. split; [done|].
  intros k m Hm. destruct (H k m Hm) as (m' & Hm' & Hs). exists m'. split_and!; try done.
  - by apply attempts_monotone.
  - apply (proj2 Hok' k m' Hm').
Qed.

(** A mail that was sent or given up is never touched again: not sent once more, and
    without the text it carried. *)
Theorem final_mail_untouched `{!EnvGuar mails_live} fuel poll w k m :
  outbox_ok (w_db w) → mail_outbox (w_db w) !! k = Some m →
  Terminal (MailOutbox_Status m) = true →
  mail_outbox (w_db (Run_ fuel poll w).2) !! k = Some m ∧ MailOutbox_Body m = "".
Proof.
  intros Hok Hm Ht. destruct (Run_guar mails_live fuel poll w Hok) as [_ H]. split.
  - destruct (H k m Hm) as (m' & Hm' & Hs). by rewrite (terminal_final m m' Ht Hs) in Hm'.
  - destruct (proj2 Hok k m Hm) as [_ [(Hs & _)|[(Hs & _)|(_ & _ & _ & _ & _ & _ & Hb)]]]; [..|done];
      by rewrite Hs in Ht.
Qed.

(** ** Sending under a lease *)

(** The sender has to answer within ten seconds, before the mail expires, and early enough
    before the lease ends for the outcome to be recorded. *)
Lemma send_deadline_bounds now row leased_until :
  send_deadline now row leased_until ≤ now + sendTimeout
  ∧ send_deadline now row leased_until ≤ MailOutbox_ExpiresAt row
  ∧ send_deadline now row leased_until ≤ leased_until - leaseFinishReserve.
Proof.
  unfold send_deadline. cbv zeta. repeat case_match; lia.
Qed.

(** A mail is handed to the sender at most once per delivery: with its deadline ahead, and the
    worker's context not canceled. *)
Lemma deliver_sent row until w r w' : deliver row until w = (r, w') →
  let w1 := advance (advance w) in
  let deadline := send_deadline (w_clock w + sched_skew (w_step w)) row until in
  w_db w' = w_db w
  ∧ (w_sent w' = w_sent w
     ∨ w_sent w' = w_sent w ++ [(MailOutbox_ID row, deadline)]
       ∧ ctx_Err (S (w_step w)) = None ∧ w_clock w1 + sched_skew (w_step w1) < deadline).
Proof.
  unfold deliver, ctx_check, mbind, M_bind, time_Now, next_step, mret, M_ret, hand_over. simpl.
  intros H. destruct (ctx_Err _); simpl in H; [simplify_eq/=; by auto|].
  destruct (Z.leb_spec (send_deadline (w_clock w + sched_skew (w_step w)) row until)
    (w_clock w + Z.of_nat (sched_tick (w_step w)) + Z.of_nat (sched_tick (S (w_step w)))
     + sched_skew (S (S (w_step w))))) in H; simpl in H; simplify_eq/=; split; auto.
Qed.

Lemma deliver_returns row until w e w' : deliver row until w ≠ (Err e, w').
Proof.
  unfold deliver, ctx_check, mbind, M_bind, time_Now, next_step, mret, M_ret, hand_over. simpl.
  destruct (ctx_Err _); simpl; [done|]. by destruct (_ <=? _).
Qed.

Lemma exec_sent {A} q (s : stmt A) w : w_sent (exec q s w).2 = w_sent w.
Proof.
  destruct q as [|t]; unfold exec; simpl.
  - destruct (s _ _) as [r d]. by destruct (sched_fault _) as [[]|].
  - destruct (sched_fault _); [done|]. by destruct (s _ _).
Qed.

Lemma try_exec_sent {A} q (s : stmt A) w : w_sent (try (exec q s) w).2 = w_sent w.
Proof. rewrite <-(exec_sent q s w). unfold try. by destruct (exec q s w). Qed.

Lemma finishDelivery_sent row lease e w : w_sent (finishDelivery row lease e w).2 = w_sent w.
Proof.
  unfold finishDelivery. destruct e as [cause|].
  - unfold mbind, M_bind, next_step, log_attrs. simpl.
    set (s := RetryMail _ _ _ _). pose proof (try_exec_sent Pool s (advance w)) as E.
    unfold try in *. destruct (exec Pool s (advance w)) as [x w1]. simpl in *.
    destruct x as [count|]; simpl; [destruct (negb _)|]; done.
  - unfold mbind, M_bind.
    set (s := CompleteMail _ _). pose proof (try_exec_sent Pool s w) as E.
    unfold try in *. destruct (exec Pool s w) as [x w1]. simpl in *.
    destruct x as [count|]; simpl; [destruct (negb _)|]; done.
Qed.

(** What a claim returns: a mail that could be claimed, as leased. *)
Lemma ClaimMail_row lease lease_seconds n now d row d' :
  keyed MailOutbox_ID (mail_outbox d) →
  ClaimMail (Some lease) lease_seconds n now d = (Ok row, d') →
  ∃ m, mail_outbox d !! MailOutbox_ID row = Some m ∧ claimable now n m = true
    ∧ row = m <| MailOutbox_Status := StatusProcessing |>
              <| MailOutbox_Attempts := MailOutbox_Attempts m + 1 |>
              <| MailOutbox_LeaseID := Some lease |>
              <| MailOutbox_LeasedUntil := Some (now + seconds lease_seconds) |>
    ∧ mail_outbox d' !! MailOutbox_ID row = Some row.
Proof.
  intros Hkey. unfold ClaimMail. destruct (merge_sort _ _) as [|m l] eqn:E; [done|].
  assert (m ∈ select_rows (claimable now n) (mail_outbox d)) as Hm.
  { rewrite <-(merge_sort_Permutation claim_order), E. left. }
  apply elem_of_select_rows in Hm as [[k Hk] Hc]. pose proof (Hkey _ _ Hk) as <-.
  unfold returning_one, update_row. rewrite Hk. intros [= <- <-]. simpl.
  exists m. split_and!; [done..|apply lookup_insert_eq].
Qed.

Lemma claimable_iff now n m : claimable now n m = true ↔
  ((MailOutbox_Status m = StatusPending ∧ MailOutbox_AvailableAt m ≤ now)
   ∨ (MailOutbox_Status m = StatusProcessing ∧ lease_over now m = true))
  ∧ now < MailOutbox_ExpiresAt m ∧ MailOutbox_Attempts m < n.
Proof.
  unfold claimable. rewrite !andb_true_iff, orb_true_iff, !andb_true_iff, !bool_decide_eq_true,
    Z.leb_le, !Z.ltb_lt. tauto.
Qed.

Lemma send_deadline_eq now row leased_until : send_deadline now row leased_until
  = ((now + 10 * Second) `min` MailOutbox_ExpiresAt row) `min` (leased_until - 5 * Second).
Proof.
  unfold send_deadline. change sendTimeout with (10 * Second).
  change leaseFinishReserve with (5 * Second). cbv zeta. repeat case_match; lia.
Qed.

(** C23: One iteration of a worker sends at most one mail. [w1], [w2] and [w3] are the worlds
    after the expired mails were given up, after a lease was drawn, and after the claim. The mail
    could be claimed just then: it was due, or abandoned, had not expired and had attempts left.
    It is sent as claimed, in the table under this lease for a minute, with the attempt counted;
    it is handed over while the context is alive and before a deadline ten seconds away, which is
    not after its expiry nor within five seconds of the end of the lease; and what becomes of it
    afterwards starts from that row. *)
Theorem ProcessOne_sends `{!EnvGuar mails_live} w worked err w' :
  outbox_ok (w_db w) → ProcessOne w = (Ok (worked, err), w') →
  let w1 := (exec Pool (ExpireMail maxDeliveryAttempts expiredMailBatchSize) w).2 in
  let lease := NewID (w_step w1) in
  let w2 := advance w1 in
  let w3 := (exec Pool (ClaimMail (Some lease) 60 5) w2).2 in
  let w4 := advance (advance w3) in
  w_sent w' = w_sent w
  ∨ ∃ m row deadline,
      w_sent w' = w_sent w ++ [(MailOutbox_ID row, deadline)] ∧ worked = true
      ∧ mail_outbox (w_db (arrive w2)) !! MailOutbox_ID row = Some m
      ∧ (MailOutbox_Status m = StatusPending ∧ MailOutbox_AvailableAt m ≤ w_clock w2
         ∨ MailOutbox_Status m = StatusProcessing ∧ lease_over (w_clock w2) m = true)
      ∧ w_clock w2 < MailOutbox_ExpiresAt m ∧ 0 ≤ MailOutbox_Attempts m < 5
      ∧ row = m <| MailOutbox_Status := StatusProcessing |>
                <| MailOutbox_Attempts := MailOutbox_Attempts m + 1 |>
                <| MailOutbox_LeaseID := Some lease |>
                <| MailOutbox_LeasedUntil := Some (w_clock w2 + 60 * Second) |>
      ∧ mail_outbox (w_db w3) !! MailOutbox_ID row = Some row
      ∧ deadline = ((w_clock w3 + sched_skew (w_step w3) + 10 * Second)
                    `min` MailOutbox_ExpiresAt row) `min` (w_clock w2 + 55 * Second)
      ∧ ctx_Err (S (w_step w3)) = None ∧ w_clock w4 + sched_skew (w_step w4) < deadline
      ∧ ∃ m', mail_outbox (w_db w') !! MailOutbox_ID row = Some m' ∧ rtc mail_step row m'.
Proof.
  intros Hok H w1 lease w2 w3 w4. unfold ProcessOne in H.
  set (sE := ExpireMail _ _) in H, w1.
  pose proof (guar_exec mails_live Pool sE (ExpireMail_live _) w Hok) as [Hok1 _].
  pose proof (exec_sent Pool sE w) as Hs1. fold w1 in Hok1, Hs1.
  unfold mbind, M_bind, mret, M_ret in H. unfold try at 1 in H.
  destruct (exec Pool sE w) as [r1 w1'] eqn:E1. change w1' with w1 in H.
  destruct r1 as [|e1]; [|simplify_eq/=; left; congruence]. simpl in H. fold lease w2 in H.
  set (sC := ClaimMail _ _ _) in H.
  change (ClaimMail (Some lease) 60 5) with sC in w3.
  pose proof (exec_sent Pool sC w2) as Hs2. fold w3 in Hs2.
  change (w_sent w2) with (w_sent w1) in Hs2. unfold try in H.
  destruct (exec Pool sC w2) as [r2 w3'] eqn:E2. change w3' with w3 in H.
  destruct r2 as [row|e2]; [|left; destruct (Is e2 _); simplify_eq/=; congruence].
  apply run_exec_pool in E2. change w3' with w3 in E2.
  assert (outbox_ok (w_db (arrive w2))) as Hok2
    by (by destruct (env_guar (R := mails_live) (w_step w2) (w_db w2) Hok1)).
  pose proof (ClaimMail_live lease (leaseDuration / Second) (w_clock w2) _ Hok2) as [Hok3 _].
  change (sched_env (w_step w2) (w_db w2)) with (w_db (arrive w2)) in E2. fold sC in Hok3.
  rewrite E2 in Hok3. simpl in Hok3.
  destruct (ClaimMail_row _ _ _ _ _ _ _ (proj1 Hok2) E2) as (m & Hm & Hc%claimable_iff & Erow & Hrow).
  destruct Hc as (Hst & Hex & Hat). pose proof (proj1 (proj2 Hok2 _ _ Hm)) as Ham.
  assert (MailOutbox_LeasedUntil row = Some (w_clock w2 + 60 * Second)) as Hu by (by rewrite Erow).
  assert (MailOutbox_LeaseID row = Some lease) as Hl by (by rewrite Erow).
  assert (MailOutbox_Status row = StatusProcessing) as Hp by (by rewrite Erow).
  rewrite Hu, Hl, Hp, !bool_decide_eq_true_2 in H by done. simpl in H.
  destruct (deliver row _ w3) as [[sendErr|e] w5] eqn:E3; [|by apply deliver_returns in E3].
  destruct (finishDelivery row lease sendErr w5) as [x w6] eqn:E4.
  pose proof (finishDelivery_sent row lease sendErr w5) as Hs4. rewrite E4 in Hs4. simpl in Hs4.
  assert (w6 = w' ∧ worked = true) as [-> ->] by (destruct x; by simplify_eq).
  apply deliver_sent in E3 as [Hdb [Hs3|(Hs3 & Hctx & Hlt)]]; [left; congruence|]. right.
  rewrite send_deadline_eq in Hs3, Hlt.
  exists m, row. eexists. split; [by rewrite Hs4, Hs3, Hs2, Hs1|].
  split_and!; try done; [lia|f_equal; unfold w2; simpl; lia|].
  destruct (finishDelivery_respects mails_live row lease sendErr w5) as [_ Hlive]; [by rewrite Hdb|].
  rewrite E4, Hdb in Hlive. by apply Hlive.
Qed.

(** ** Fencing *)

(** The statement that records the outcome of a delivery. *)
Definition outcome_stmt (id lease : string) (s : stmt Z) : Prop :=
  ∀ now d,
    (∃ m m', mail_outbox d !! id = Some m ∧ holds_lease now (Some lease) m = true
       ∧ s now d = (Ok 1, d <| mail_outbox := <[id := m']> (mail_outbox d) |>)
       ∧ MailOutbox_LeaseID m' = None)
    ∨ ((∀ m, mail_outbox d !! id = Some m → holds_lease now (Some lease) m = false)
       ∧ s now d = (Ok 0, d)).

Lemma rows_affected_outcome id lease (f : time → MailOutbox → MailOutbox) :
  (∀ now m, MailOutbox_LeaseID (f now m) = None) →
  outcome_stmt id lease (λ now d,
    rows_affected (update_row id (holds_lease now (Some lease)) (f now) (mail_outbox d))
      (λ t, d <| mail_outbox := t |>) d).
Proof.
  intros Hf now d. destruct (update_row _ _ _ _) as [[r t]|] eqn:Eu.
  - left. apply update_row_Some in Eu as (m & Hm & HP & -> & ->). exists m, (f now m). eauto.
  - right. rewrite update_row_None in Eu. eauto.
Qed.

Lemma CompleteMail_outcome id lease : outcome_stmt id lease (CompleteMail id (Some lease)).
Proof. by apply (rows_affected_outcome id lease). Qed.

Lemma RetryMail_outcome id lease delay :
  outcome_stmt id lease (RetryMail id (Some lease) maxDeliveryAttempts delay).
Proof.
  apply (rows_affected_outcome id lease
    (λ now m, (if exhausted now maxDeliveryAttempts m then _ else _)
               <| MailOutbox_AvailableAt := _ |> <| MailOutbox_LeaseID := None |>
               <| MailOutbox_LeasedUntil := None |> <| MailOutbox_LastError := _ |>)).
  done.
Qed.

(** Such a statement on the pool, whatever happens to it. *)
Lemma record_outcome id lease (f : time → MailOutbox → MailOutbox) w x w' :
  let d := w_db (arrive w) in
  let now := w_clock w in
  exec Pool (λ now d,
    rows_affected (update_row id (holds_lease now (Some lease)) (f now) (mail_outbox d))
      (λ t, d <| mail_outbox := t |>) d) w = (x, w') →
  (∀ m, mail_outbox d !! id = Some m → holds_lease now (Some lease) m = true →
     x = match sched_fault (w_step w) with None => Ok 1 | Some e => Err (fault_error e) end
     ∧ w_db w' = match sched_fault (w_step w) with
                 | Some (FaultBefore _) => d
                 | _ => d <| mail_outbox := <[id := f now m]> (mail_outbox d) |>
                 end)
  ∧ ((∀ m, mail_outbox d !! id = Some m → holds_lease now (Some lease) m = false) →
     x = match sched_fault (w_step w) with None => Ok 0 | Some e => Err (fault_error e) end
     ∧ w_db w' = d).
Proof.
  cbv zeta. unfold exec. cbv zeta. change (w_clock (arrive w)) with (w_clock w).
  change (w_step (arrive w)) with (w_step w). unfold rows_affected, update_row.
  destruct (mail_outbox (w_db (arrive w)) !! id) as [m|] eqn:Em.
  - destruct (holds_lease (w_clock w) (Some lease) m) eqn:Eh;
      (destruct (sched_fault (w_step w)) as [[i|i]|]; simpl; intros [= <- <-];
       (split; [intros m' [= <-] ?; first [done|congruence]
               |intros Hno; first [done|specialize (Hno m eq_refl); congruence]])).
  - destruct (sched_fault (w_step w)) as [[i|i]|]; simpl; intros [= <- <-]; (split; [intros m' [=]|done]).
Qed.

Lemma holds_lease_iff now lease m : holds_lease now (Some lease) m = true ↔
  MailOutbox_LeaseID m = Some lease ∧ MailOutbox_Status m = StatusProcessing
  ∧ ∃ until, MailOutbox_LeasedUntil m = Some until ∧ now < until.
Proof.
  unfold holds_lease, sql_eq, lease_running. rewrite !andb_true_iff, bool_decide_eq_true. split.
  - intros [[Hl Hs] Hr]. destruct (MailOutbox_LeaseID m); [|done]. bool_to_prop. subst.
    destruct (MailOutbox_LeasedUntil m) as [until|]; [|done]. bool_to_prop. eauto.
  - intros (-> & -> & until & -> & Hlt). rewrite bool_decide_eq_true_2 by done.
    by rewrite (proj2 (Z.ltb_lt _ _) Hlt).
Qed.

Lemma retryDelaySeconds_eq n attempts : retryDelaySeconds n attempts
  = 15 * 2 ^ (1 `max` (attempts `min` 5) - 1) + rand_IntN n 10.
Proof.
  unfold retryDelaySeconds. rewrite Z.shiftl_1_l.
  change retryBaseSeconds with 15. change retryJitterSeconds with 10. change maxDeliveryAttempts with 5.
  do 3 f_equal. destruct (Z.ltb_spec attempts 1); [simpl; lia|].
  destruct (Z.ltb_spec 5 attempts); lia.
Qed.

(** The worker's verdict on the answer of the statement. *)
Definition confirmation (stage : string) (row : MailOutbox) (x : res error Z) : option error :=
  match x with
  | Err err => Some (stage_failure stage row err)
  | Ok count =>
    if negb (count =? 1) then Some (stage_failure "confirm_lease" row (EText "邮件领取租约已失效"))
    else None
  end.

Lemma finishDelivery_run row lease sendErr w :
  finishDelivery row lease sendErr w =
  match sendErr with
  | None =>
    let '(x, w') := exec Pool (CompleteMail (MailOutbox_ID row) (Some lease)) w in
    (Ok (confirmation "complete" row x), w')
  | Some cause =>
    let '(x, w') := exec Pool (RetryMail (MailOutbox_ID row) (Some lease) maxDeliveryAttempts
                                 (retryDelaySeconds (w_step w) (MailOutbox_Attempts row))) (advance w) in
    (Ok (confirmation "retry" row x),
     (log_attrs "邮件投递失败"
        (stageError_attrs "send" (MailOutbox_ID row) (MailOutbox_Attempts row) cause) w').2)
  end.
Proof.
  unfold finishDelivery, mbind, M_bind, mret, M_ret, try, log_attrs, next_step. destruct sendErr as [cause|].
  - destruct (exec Pool _ (advance w)) as [[count|e] w']; simpl; [by destruct (negb _)|done].
  - destruct (exec Pool _ w) as [[count|e] w']; simpl; [by destruct (negb _)|done].
Qed.

Lemma record_confirmed stage row lease (f : time → MailOutbox → MailOutbox) w x w' :
  let id := MailOutbox_ID row in
  let d := w_db (arrive w) in
  let now := w_clock w in
  let held m :=
    mail_outbox d !! id = Some m
    ∧ MailOutbox_LeaseID m = Some lease ∧ MailOutbox_Status m = StatusProcessing
    ∧ ∃ until, MailOutbox_LeasedUntil m = Some until ∧ now < until in
  exec Pool (λ now d,
    rows_affected (update_row id (holds_lease now (Some lease)) (f now) (mail_outbox d))
      (λ t, d <| mail_outbox := t |>) d) w = (x, w') →
  (∀ m, held m →
     (confirmation stage row x = None ↔ sched_fault (w_step w) = None)
     ∧ w_db w' = match sched_fault (w_step w) with
                 | Some (FaultBefore _) => d
                 | _ => d <| mail_outbox := <[id := f now m]> (mail_outbox d) |>
                 end)
  ∧ ((∀ m, ¬ held m) →
     w_db w' = d
     ∧ match sched_fault (w_step w) with
       | None => confirmation stage row x
                 = Some (stage_failure "confirm_lease" row (EText "邮件领取租约已失效"))
       | Some _ => is_Some (confirmation stage row x)
       end).
Proof.
  intros id d now held E. destruct (record_outcome id lease f w x w' E) as [Hheld Hfree]. split.
  - intros m [Hm Hl%holds_lease_iff]. destruct (Hheld m Hm Hl) as [-> ->].
    split; [|done]. by destruct (sched_fault _) as [[]|].
  - intros Hno. destruct Hfree as [-> ->].
    { intros m Hm. apply not_true_iff_false. rewrite holds_lease_iff. intros Hl. by apply (Hno m). }
    split; [done|]. destruct (sched_fault _) as [[]|]; [by eexists..|done].
Qed.

(** C24: What is recorded of a delivery. As long as the lease is the worker's and has not run out,
    a mail that was sent becomes sent and loses its payload, one that was not becomes pending
    again after 15, 30, 60, 120 or 240 seconds and a random few, by its attempts, or failed for
    good if these are used up or it has expired; the worker reports a failure exactly if the
    statement fails. Without the lease nothing changes, and the worker reports that. *)
Theorem finishDelivery_fenced row lease sendErr w :
  ∃ err w', finishDelivery row lease sendErr w = (Ok err, w') ∧
  let w1 := match sendErr with None => w | Some _ => advance w end in
  let d := w_db (arrive w1) in
  let now := w_clock w1 in
  let held m :=
    mail_outbox d !! MailOutbox_ID row = Some m
    ∧ MailOutbox_LeaseID m = Some lease ∧ MailOutbox_Status m = StatusProcessing
    ∧ ∃ until, MailOutbox_LeasedUntil m = Some until ∧ now < until in
  let delay := 15 * 2 ^ (1 `max` (MailOutbox_Attempts row `min` 5) - 1) + rand_IntN (w_step w) 10 in
  let recorded m :=
    match sendErr with
    | None =>
      m <| MailOutbox_Recipient := "" |> <| MailOutbox_Subject := "" |> <| MailOutbox_Body := "" |>
        <| MailOutbox_Status := StatusSent |> <| MailOutbox_LeaseID := None |>
        <| MailOutbox_LeasedUntil := None |> <| MailOutbox_LastError := None |>
        <| MailOutbox_CompletedAt := Some now |>
    | Some _ =>
      (if ((5 <=? MailOutbox_Attempts m) || (MailOutbox_ExpiresAt m <=? now))%bool
       then m <| MailOutbox_Recipient := "" |> <| MailOutbox_Subject := "" |>
              <| MailOutbox_Body := "" |> <| MailOutbox_Status := StatusFailed |>
              <| MailOutbox_CompletedAt := Some now |>
       else m <| MailOutbox_Status := StatusPending |> <| MailOutbox_CompletedAt := None |>)
        <| MailOutbox_AvailableAt := now + seconds delay |> <| MailOutbox_LeaseID := None |>
        <| MailOutbox_LeasedUntil := None |> <| MailOutbox_LastError := Some "sender_unavailable" |>
    end in
  (∀ m, held m →
     (err = None ↔ sched_fault (w_step w1) = None)
     ∧ w_db w' = match sched_fault (w_step w1) with
                 | Some (FaultBefore _) => d
                 | _ => d <| mail_outbox := <[MailOutbox_ID row := recorded m]> (mail_outbox d) |>
                 end)
  ∧ ((∀ m, ¬ held m) →
     w_db w' = d
     ∧ match sched_fault (w_step w1) with
       | None => err = Some (stage_failure "confirm_lease" row (EText "邮件领取租约已失效"))
       | Some _ => is_Some err
       end).
Proof.
  rewrite finishDelivery_run. destruct sendErr as [cause|].
  - rewrite retryDelaySeconds_eq. destruct (exec Pool _ (advance w)) as [x w2] eqn:E.
    eexists _, _. split; [reflexivity|]. exact (record_confirmed "retry" row lease _ _ x w2 E).
  - destruct (exec Pool _ w) as [x w2] eqn:E.
    eexists _, _. split; [reflexivity|]. exact (record_confirmed "complete" row lease _ _ x w2 E).
Qed.


(** ** The loop stops *)

Lemma forward_finish row lease e : forward (finishDelivery row lease e).
Proof. unfold finishDelivery. forward_auto. Qed.

Lemma forward_ProcessOne : forward ProcessOne.
Proof.
  unfold ProcessOne, deliver, ctx_check. forward_auto; [by apply forward_same|apply forward_finish].
Qed.

Lemma ProcessOne_total : never_fails ProcessOne.
Proof. unfold ProcessOne, deliver, finishDelivery, ctx_check. total_auto. Qed.

Lemma run_body_total : never_fails run_body.
Proof. unfold run_body, ctx_check. pose proof ProcessOne_total. total_auto. done. Qed.

Lemma forward_run_body : forward run_body.
Proof.
  unfold run_body, ctx_check. pose proof forward_ProcessOne. forward_auto; done.
Qed.

(** C25: Once the context is canceled for good, the loop ends: one unit of fuel per step until
    then is enough. It always ends without an error of its own. *)
Theorem Run_terminates N fuel poll w :
  (∀ n, (N ≤ n)%nat → ctx_Err n ≠ None) → 0 < poll → (0 < fuel)%nat → (N < w_step w + fuel)%nat →
  ∃ w', Run_ fuel poll w = (Ok (Some tt), w').
Proof.
  intros Hctx Hpoll Hpos. unfold Run_. destruct (Z.leb_spec poll 0) as [|_]; [lia|]. clear Hpoll poll.
  revert w Hpos. induction fuel as [|fuel IH]; intros w Hpos Hfuel; [lia|].
  simpl. unfold run_once, ctx_check. rewrite !bind_assoc, bind_next_step.
  destruct (ctx_Err (w_step w)) as [s|] eqn:Ec; [eexists; reflexivity|]. simpl.
  destruct (run_body_total (advance w)) as (r & w' & E).
  pose proof (proj1 (forward_run_body (advance w))) as Hstep. rewrite E in Hstep. simpl in Hstep.
  change (∃ w', (run_body ≫= λ r, match r with None => mret (Some tt) | Some _ => run_loop fuel end)
                  (advance w) = (Ok (Some tt), w')).
  unfold mbind, M_bind. rewrite E. destruct r as [[]|]; [|eexists; reflexivity].
  assert (¬ (N ≤ w_step w)%nat) by (intros HN; by apply (Hctx _ HN)).
  apply IH; lia.
Qed.

End service_facts.
