(* ===== verification/MailDelivery.v ===== *)
(** * A due mail is delivered

    What the queue promises ([internal/modules/mailoutbox]): in an undisturbed run a mail that
    is due, and that the sender accepts, is handed to the sender and recorded as sent
    ([due_mail_delivered]), whatever becomes of the other mails. Each claim uses up an attempt
    of some mail, so the attempts that are left ([budget]) bound the number of iterations
    before it is the mail's turn. *)
From S2P Require Import Prelude.
From S2P Require Import Text.
From S2P Require Import GoErrors.
From S2P Require Import Runtime.
From S2P Require Import Identity.
From S2P Require Import Schema.
From S2P Require Import Storage.
From S2P Require Import Logic.
From S2P Require Import Queries.
From S2P Require Import AuthQueries.
From S2P Require Import MailQueries.
From S2P Require Import Owned.
From S2P Require Import MailOutbox.

(** ** Attempts that are left *)

Definition attempts_left (m : MailOutbox) : nat :=
  if Terminal (MailOutbox_Status m) then O else Z.to_nat (maxDeliveryAttempts - MailOutbox_Attempts m).

Definition left_at (t : gmap string MailOutbox) (k : string) : nat :=
  match t !! k with Some m => attempts_left m | None => O end.

Definition budget (d : DB) : nat :=
  sum_list_with (left_at (mail_outbox d)) (elements (dom (mail_outbox d))).

Lemma sum_list_with_le {A} (f g : A → nat) l :
  (∀ x, x ∈ l → (f x ≤ g x)%nat) → (sum_list_with f l ≤ sum_list_with g l)%nat.
Proof.
  induction l as [|x l IH]; intros H; simpl; [lia|].
  pose proof (H x ltac:(left)). specialize (IH ltac:(intros; apply H; by right)). lia.
Qed.

Lemma sum_list_with_lt {A} (f g : A → nat) l x :
  x ∈ l → (f x < g x)%nat → (∀ y, y ∈ l → (f y ≤ g y)%nat) →
  (sum_list_with f l < sum_list_with g l)%nat.
Proof.
  induction 1 as [x l|x y l _ IH]; intros Hx Hl; simpl.
  - pose proof (sum_list_with_le f g l ltac:(intros; apply Hl; by right)). lia.
  - pose proof (Hl y ltac:(left)). specialize (IH Hx ltac:(intros; apply Hl; by right)). lia.
Qed.

(** A step of a mail uses up attempts or ends its life. *)
Lemma attempts_left_mono m m' : rtc mail_step m m' → (attempts_left m' ≤ attempts_left m)%nat.
Proof.
  intros H. pose proof (attempts_monotone m m' H). unfold attempts_left.
  destruct (Terminal (MailOutbox_Status m)) eqn:Et.
  - rewrite (terminal_final m m' Et H), Et. lia.
  - destruct (Terminal (MailOutbox_Status m')); lia.
Qed.

Lemma attempts_left_claimed m m' :
  Terminal (MailOutbox_Status m) = false → MailOutbox_Attempts m < maxDeliveryAttempts →
  MailOutbox_Attempts m < MailOutbox_Attempts m' → (attempts_left m' < attempts_left m)%nat.
Proof. intros Ht Ha Hm. unfold attempts_left. rewrite Ht. destruct (Terminal (MailOutbox_Status m')); lia. Qed.

(** The worker neither adds nor removes mails. *)
Definition same_mails (d d' : DB) : Prop := dom (mail_outbox d') = dom (mail_outbox d).

Global Instance same_mails_preorder : PreOrder same_mails.
Proof. split; [done|]. intros d1 d2 d3 H1 H2. unfold same_mails in *. congruence. Qed.

Lemma update_row_dom {R} id P f (t t' : gmap string R) r :
  update_row id P f t = Some (r, t') → dom t' = dom t.
Proof.
  intros (m & Hm & _ & _ & ->)%update_row_Some. apply elem_of_dom_2 in Hm. set_solver.
Qed.

Section worker.
  Context `{Run : Runtime, Sch : Schedule, Wk : Worker, L : !RuntimeLaws Run}.

Global Instance same_mails_guar : MailGuar same_mails.
Proof.
  split; intros; intros now d; unfold same_mails, ClaimMail, CompleteMail, RetryMail, returning_one, rows_affected;
    [destruct (merge_sort _ _); [done|]|..]; try (destruct (update_row _ _ _ _) as [[r t]|] eqn:E; [|done];
    simpl; by apply update_row_dom in E).
  unfold ExpireMail, update_where. simpl. apply dom_fmap_L.
Qed.

Lemma budget_mono d d' : mails_live d d' → same_mails d d' → outbox_ok d → (budget d' ≤ budget d)%nat.
Proof.
  intros Hl Hs Hok. destruct (Hl Hok) as [_ Hm]. unfold budget. rewrite Hs. apply sum_list_with_le.
  intros k Hk. apply elem_of_elements, elem_of_dom in Hk as [m Hk]. destruct (Hm k m Hk) as (m' & Hk' & Hr).
  unfold left_at. rewrite Hk, Hk'. by apply attempts_left_mono.
Qed.

Lemma budget_claimed d d' k m m' :
  mails_live d d' → same_mails d d' → outbox_ok d →
  mail_outbox d !! k = Some m → mail_outbox d' !! k = Some m' →
  Terminal (MailOutbox_Status m) = false → MailOutbox_Attempts m < maxDeliveryAttempts →
  MailOutbox_Attempts m < MailOutbox_Attempts m' → (budget d' < budget d)%nat.
Proof.
  intros Hl Hs Hok Hk Hk' Ht Ha Hlt. destruct (Hl Hok) as [_ Hm]. unfold budget. rewrite Hs.
  apply (sum_list_with_lt _ _ _ k).
  - apply elem_of_elements, elem_of_dom. eauto.
  - unfold left_at. rewrite Hk, Hk'. by apply attempts_left_claimed.
  - intros j Hj. apply elem_of_elements, elem_of_dom in Hj as [r Hj].
    destruct (Hm j r Hj) as (r' & Hj' & Hr). unfold left_at. rewrite Hj, Hj'. by apply attempts_left_mono.
Qed.

End worker.

(** ** Undisturbed runs *)

Section undisturbed.
  Context `{Run : Runtime, Sch : Schedule, Wk : Worker, L : !RuntimeLaws Run}.

(** Nothing fails, no one else writes, a step takes at most [pace], and the clocks of worker
    and server differ by at most [skew]: little, compared with the time to send a mail. *)
Record undisturbed (pace skew : Z) : Prop := {
  no_fault n : sched_fault n = None;
  no_others n d : sched_env n d = d;
  step_pace n : Z.of_nat (sched_tick n) ≤ pace;
  clock_skew n : - skew ≤ sched_skew n ≤ skew;
  prompt : 4 * pace + 2 * skew < sendTimeout
}.

Context (pace skew : Z) (U : undisturbed pace skew).

Lemma undisturbed_quiet w : quiet w.
Proof. intros n d _. split; [apply (no_fault _ _ U)|apply (no_others _ _ U)]. Qed.

Lemma undisturbed_env (R : relation DB) `{!PreOrder R} : EnvGuar R.
Proof. intros n d. rewrite (no_others _ _ U). reflexivity. Qed.

(** At most [j] steps after [w]. *)
Definition after (j : nat) (w w' : World) : Prop :=
  (w_step w ≤ w_step w' ≤ w_step w + j)%nat ∧ w_clock w ≤ w_clock w' ≤ w_clock w + Z.of_nat j * pace.

Lemma pace_nonneg : 0 ≤ pace.
Proof. pose proof (step_pace _ _ U 0). lia. Qed.

Lemma after_refl w : after 0 w w.
Proof. split; lia. Qed.

Lemma after_advance j w w' : after j w w' → after (S j) w (advance w').
Proof. intros [Hs Hc]. pose proof (step_pace _ _ U (w_step w')). split; simpl; lia. Qed.

Lemma after_exec j w w' d : after j w w' → after (S j) w (advance (w' <| w_db := d |>)).
Proof. intros H. by apply after_advance. Qed.

Lemma after_trans i j w w1 w2 : after i w w1 → after j w1 w2 → after (i + j) w w2.
Proof. intros [? ?] [? ?]. split; lia. Qed.

Lemma after_le i j w w' : (i ≤ j)%nat → after i w w' → after j w w'.
Proof. intros Hij [? ?]. pose proof pace_nonneg. split; [lia|]. nia. Qed.

(** The pool runs a statement as it stands. *)
Lemma works_pool {A} (s : stmt A) w Q :
  Q (s (w_clock w) (w_db w)).1 (advance (w <| w_db := (s (w_clock w) (w_db w)).2 |>)) →
  works (try (exec Pool s)) w Q.
Proof.
  intros HQ. eexists _, _. split; [|exact HQ]. unfold try.
  by rewrite (quiet_pool s w (undisturbed_quiet w)).
Qed.

(** ** The parts of an iteration *)

(** What the sender gets. *)
Definition message (m : MailOutbox) : Message :=
  mkMessage (MailOutbox_ID m) (MailOutbox_Kind m) (MailOutbox_Recipient m) (MailOutbox_Subject m)
    (MailOutbox_Body m).

Definition accepted (m : MailOutbox) : Prop := ∀ n deadline, send n (message m) deadline = None.

(** A delivery with time enough that the sender accepts. *)
Lemma deliver_works row until w : ctx_Err (S (w_step w)) = None → ∃ r w',
  deliver row until w = (Ok r, w') ∧ after 4 w w' ∧ w_db w' = w_db w
  ∧ (accepted row → w_clock w + 2 * pace + skew < MailOutbox_ExpiresAt row →
     w_clock w + 2 * pace + skew < until - leaseFinishReserve →
     r = None ∧ ∃ deadline, w_sent w' = w_sent w ++ [(MailOutbox_ID row, deadline)]).
Proof.
  intros Hctx. unfold deliver, ctx_check, mbind, M_bind, time_Now, next_step, mret, M_ret, hand_over. simpl.
  rewrite Hctx. simpl. pose proof (λ n, step_pace _ _ U n) as Hp. pose proof (λ n, clock_skew _ _ U n) as Hk.
  pose proof (prompt _ _ U). pose proof pace_nonneg.
  pose proof (Hp (w_step w)). pose proof (Hp (S (w_step w))). pose proof (Hp (S (S (w_step w)))).
  pose proof (Hp (S (S (S (w_step w))))). pose proof (Hk (w_step w)). pose proof (Hk (S (S (w_step w)))).
  destruct (_ <=? _) eqn:E; simpl; (eexists _, _; split_and!; [reflexivity|split; simpl; lia|done|]).
  - intros _ He Hu. exfalso. apply Z.leb_le in E. revert E. unfold send_deadline.
    repeat case_match; lia.
  - intros Ha _ _. split; [apply Ha|]. by eexists.
Qed.

(** The outcome of a delivery concerns its row alone. *)
Lemma outcome_elsewhere id lease s now d j : outcome_stmt id lease s → j ≠ id →
  mail_outbox (s now d).2 !! j = mail_outbox d !! j.
Proof.
  intros Hs Hj. destruct (Hs now d) as [(m & m' & _ & _ & -> & _)|[_ ->]]; [|done].
  simpl. by rewrite lookup_insert_ne.
Qed.

Lemma CompleteMail_sends id lease now d m :
  mail_outbox d !! id = Some m → holds_lease now (Some lease) m = true →
  ∃ m', mail_outbox (CompleteMail id (Some lease) now d).2 !! id = Some m' ∧ MailOutbox_Status m' = StatusSent.
Proof.
  intros Hm Hl. unfold CompleteMail, update_row. rewrite Hm, Hl. simpl.
  eexists. split; [apply lookup_insert_eq|done].
Qed.

(** How [finishDelivery] ends. *)
Lemma works_end stage row (x : res error Z) w (Q : option error → World → Prop) :
  (∀ err, Q err w) →
  works match x with
        | Err err => mret (Some (stage_failure stage row err))
        | Ok count => if negb (count =? 1)
                      then mret (Some (stage_failure "confirm_lease" row (EText "邮件领取租约已失效")))
                      else mret None
        end w Q.
Proof. intros HQ. destruct x; [case_match|]; by apply works_ret. Qed.

(** A sent mail is recorded as sent while the lease runs. *)
Lemma finish_works row lease e w : works (finishDelivery row lease e) w (λ _ w',
  after 2 w w' ∧ w_sent w' = w_sent w
  ∧ (∀ j, j ≠ MailOutbox_ID row → mail_outbox (w_db w') !! j = mail_outbox (w_db w) !! j)
  ∧ (e = None → ∀ m, mail_outbox (w_db w) !! MailOutbox_ID row = Some m →
       holds_lease (w_clock w) (Some lease) m = true →
       ∃ m', mail_outbox (w_db w') !! MailOutbox_ID row = Some m' ∧ MailOutbox_Status m' = StatusSent)).
Proof.
  unfold finishDelivery. apply works_bind. destruct e as [cause|].
  - apply works_bind, works_next_step, works_bind, works_pool, works_bind.
    eexists _, _. split; [reflexivity|]. apply works_ret, works_end. intros _. split_and!; [|done| |done].
    + by apply after_exec, after_advance, after_refl.
    + intros j Hj. simpl. by apply (outcome_elsewhere (MailOutbox_ID row) lease); [apply RetryMail_outcome|].
  - apply works_bind, works_pool, works_ret, works_end. intros _. split_and!; [|done| |].
    + apply (after_le 1); [lia|]. by apply after_exec, after_refl.
    + intros j Hj. simpl. by apply (outcome_elsewhere (MailOutbox_ID row) lease); [apply CompleteMail_outcome|].
    + intros _ m Hm Hl. simpl. by apply CompleteMail_sends with m.
Qed.

(** [row] is [c] as claimed under [lease]. *)
Record claimed (c row : MailOutbox) (lease : string) (until : time) : Prop := {
  claimed_ID : MailOutbox_ID row = MailOutbox_ID c;
  claimed_message : message row = message c;
  claimed_status : MailOutbox_Status row = StatusProcessing;
  claimed_lease : MailOutbox_LeaseID row = Some lease;
  claimed_until : MailOutbox_LeasedUntil row = Some until;
  claimed_attempts : MailOutbox_Attempts row = MailOutbox_Attempts c + 1;
  claimed_expires : MailOutbox_ExpiresAt row = MailOutbox_ExpiresAt c
}.

(** A mail that is due is claimed, or another one is claimed first. *)
Lemma ClaimMail_due lease n now d k m :
  outbox_ok d → mail_outbox d !! k = Some m → claimable now maxDeliveryAttempts m = true →
  ∃ c row, mail_outbox d !! MailOutbox_ID c = Some c ∧ claimable now maxDeliveryAttempts c = true
    ∧ claimed c row lease (now + seconds n)
    ∧ ClaimMail (Some lease) n maxDeliveryAttempts now d
      = (Ok row, d <| mail_outbox := <[MailOutbox_ID c := row]> (mail_outbox d) |>).
Proof.
  intros [Hkey _] Hk Hc. unfold ClaimMail. set (rows := select_rows _ _).
  assert (m ∈ merge_sort claim_order rows) as Hm by (rewrite merge_sort_Permutation; apply elem_of_select_rows; eauto).
  destruct (merge_sort claim_order rows) as [|c l] eqn:E; [by apply elem_of_nil in Hm|].
  assert (c ∈ rows) as Hr by (rewrite <-(merge_sort_Permutation claim_order), E; left).
  apply elem_of_select_rows in Hr as [[j Hj] Hcc]. pose proof (Hkey _ _ Hj) as <-.
  eexists c, _. split_and!; [done..| |unfold returning_one, update_row; by rewrite Hj]. by split.
Qed.

(** The relations that an iteration respects. *)
Definition worker_evolves (d d' : DB) : Prop := mails_live d d' ∧ same_mails d d'.

Global Instance worker_evolves_preorder : PreOrder worker_evolves.
Proof.
  split; [by split|]. intros d1 d2 d3 [H1 S1] [H2 S2]. split; by etransitivity.
Qed.

Global Instance worker_evolves_guar : MailGuar worker_evolves.
Proof.
  assert (Hsame : MailGuar same_mails) by apply _. assert (Hlive : MailGuar mails_live) by apply _.
  split; intros; intros now d; (split; [apply Hlive|apply Hsame]).
Qed.

Lemma finishDelivery_guar row lease e : guar worker_evolves (finishDelivery row lease e).
Proof.
  pose proof (undisturbed_env worker_evolves).
  unfold finishDelivery. guar_auto; [apply guar_RetryMail|apply guar_CompleteMail].
Qed.

(** Between [d1], where [c] is claimed, and [d'] an attempt was used up. *)
Lemma claim_uses_up d1 d2 d' c row :
  outbox_ok d1 → mail_outbox d1 !! MailOutbox_ID c = Some c → Terminal (MailOutbox_Status c) = false →
  MailOutbox_Attempts c < maxDeliveryAttempts →
  mail_outbox d2 !! MailOutbox_ID c = Some row → MailOutbox_Attempts row = MailOutbox_Attempts c + 1 →
  worker_evolves d1 d2 → worker_evolves d2 d' → (budget d' < budget d1)%nat.
Proof.
  intros Hok Hc Ht Ha Hr Har H12 H2. pose proof (proj1 H12 Hok) as [Hok2 _].
  destruct (proj2 (proj1 H2 Hok2) _ _ Hr) as (c' & Hc' & Hs%attempts_monotone).
  assert (worker_evolves d1 d') as [? ?] by (by etransitivity).
  apply (budget_claimed d1 d' (MailOutbox_ID c) c c'); try done. lia.
Qed.

Lemma claimable_open now m : claimable now maxDeliveryAttempts m = true →
  Terminal (MailOutbox_Status m) = false ∧ MailOutbox_Attempts m < maxDeliveryAttempts
  ∧ now < MailOutbox_ExpiresAt m.
Proof.
  unfold claimable. intros H. bool_to_prop. split_and!; [|lia..].
  destruct H as [H|H]; bool_to_prop; unfold Terminal;
    match goal with H : MailOutbox_Status m = _ |- _ => by rewrite H end.
Qed.

Lemma ExpireMail_spares batch now d k m : outbox_ok d → mail_outbox d !! k = Some m →
  expirable now maxDeliveryAttempts m = false →
  mail_outbox (ExpireMail maxDeliveryAttempts batch now d).2 !! k = Some m.
Proof.
  intros [Hkey _] Hk He. unfold ExpireMail, update_where. simpl. rewrite lookup_fmap, Hk. simpl.
  rewrite bool_decide_eq_false_2; [done|]. intros Hin. by rewrite (expired_expirable _ _ _ _ _ Hkey Hk Hin) in He.
Qed.

(** ** An iteration *)

(** The mail waits, and there is time for [j] steps before it expires. *)
Record due (j : nat) (m : MailOutbox) (w : World) : Prop := {
  due_pending : MailOutbox_Status m = StatusPending;
  due_available : MailOutbox_AvailableAt m ≤ w_clock w;
  due_attempts : MailOutbox_Attempts m < maxDeliveryAttempts;
  due_in_time : w_clock w + Z.of_nat j * pace + skew < MailOutbox_ExpiresAt m
}.

Lemma due_le i j m w : (i ≤ j)%nat → due j m w → due i m w.
Proof. intros Hij [Hs Ha Hn He]. pose proof pace_nonneg. split; [done..|]. nia. Qed.

Lemma due_after i j m w w' : due (i + j) m w → after i w w' → due j m w'.
Proof. intros [Hs Ha Hn He] [_ Hc]. split; [done|lia|done|lia]. Qed.

Definition delivered (k : string) (w : World) : Prop :=
  (∃ m, mail_outbox (w_db w) !! k = Some m ∧ MailOutbox_Status m = StatusSent)
  ∧ ∃ deadline, (k, deadline) ∈ w_sent w.

Lemma due_claimable m w now : due 5 m w → w_clock w ≤ now ≤ w_clock w + 2 * pace →
  claimable now maxDeliveryAttempts m = true ∧ expirable now maxDeliveryAttempts m = false.
Proof.
  intros [Hs Ha Hn He] Hnow. pose proof pace_nonneg. pose proof (clock_skew _ _ U 0).
  unfold claimable, expirable. rewrite Hs. unfold StatusPending. simpl.
  rewrite (proj2 (Z.leb_le _ _)), (proj2 (Z.ltb_lt _ _)), (proj2 (Z.ltb_lt _ _)) by lia.
  rewrite (proj2 (Z.leb_gt _ _)), (proj2 (Z.leb_gt _ _)) by lia. done.
Qed.

(** What follows a claim. *)
Lemma deliver_claimed row lease until w :
  ctx_Err (S (w_step w)) = None →
  works (sendErr ← deliver row until; err ← finishDelivery row lease sendErr; mret (true, err)) w
    (λ r w', r.1 = true ∧ after 6 w w' ∧ worker_evolves (w_db w) (w_db w')
       ∧ (∀ j, j ≠ MailOutbox_ID row → mail_outbox (w_db w') !! j = mail_outbox (w_db w) !! j)
       ∧ (accepted row → mail_outbox (w_db w) !! MailOutbox_ID row = Some row →
          MailOutbox_Status row = StatusProcessing → MailOutbox_LeaseID row = Some lease →
          MailOutbox_LeasedUntil row = Some until →
          w_clock w + 2 * pace + skew < MailOutbox_ExpiresAt row →
          w_clock w + 4 * pace + skew < until - leaseFinishReserve → delivered (MailOutbox_ID row) w')).
Proof.
  intros Hctx. destruct (deliver_works row until w Hctx) as (r & w1 & Hr & Ha & Hdb & Hsend).
  apply works_bind. exists r, w1. split; [done|]. apply works_bind.
  destruct (finish_works row lease r w1) as (err & w2 & Hf & Ha2 & Hs & Hother & Hsent).
  pose proof (finishDelivery_guar row lease r w1) as Hg. rewrite Hf in Hg. simpl in Hg.
  exists err, w2. split; [done|]. apply works_ret. rewrite Hdb in *. split_and!; try done.
  { by apply (after_trans 4 2 _ w1). }
  intros Hacc Hrow Hst Hl Hu He Ht. pose proof pace_nonneg.
  destruct (Hsend Hacc ltac:(lia) ltac:(lia)) as [-> [deadline Hd]]. split.
  - apply (Hsent eq_refl row Hrow). unfold holds_lease, lease_running. rewrite Hl, Hst, Hu. destruct Ha as [_ Ha].
    simpl. rewrite !bool_decide_eq_true_2 by done. apply Z.ltb_lt. pose proof (clock_skew _ _ U 0).
    unfold leaseFinishReserve, Second in Ht. lia.
  - exists deadline. rewrite Hs, Hd. set_solver.
Qed.

(** A lease is long enough for a delivery. *)
Lemma lease_suffices w d : w_clock (advance (w <| w_db := d |>)) + 4 * pace + skew
  < w_clock w + seconds (leaseDuration / Second) - leaseFinishReserve.
Proof.
  pose proof (step_pace _ _ U (w_step w)). pose proof (prompt _ _ U). pose proof pace_nonneg.
  pose proof (clock_skew _ _ U 0). change (seconds (leaseDuration / Second)) with (60 * Second).
  unfold leaseFinishReserve, sendTimeout, Second in *. simpl. lia.
Qed.

Lemma ProcessOne_due k m w :
  outbox_ok (w_db w) → mail_outbox (w_db w) !! k = Some m → due 5 m w → accepted m →
  (∀ n, (w_step w ≤ n < w_step w + 9)%nat → ctx_Err n = None) →
  works ProcessOne w (λ r w', r.1 = true ∧ after 9 w w'
    ∧ (delivered k w' ∨ mail_outbox (w_db w') !! k = Some m ∧ (budget (w_db w') < budget (w_db w))%nat)).
Proof.
  intros Hok Hk Hdue Hacc Hctx. pose proof pace_nonneg. pose proof (proj1 Hok _ _ Hk) as Hid.
  unfold ProcessOne. apply works_bind, works_pool.
  pose proof (guar_ExpireMail (R := worker_evolves) expiredMailBatchSize (w_clock w) (w_db w)) as H1.
  destruct (due_claimable m w (w_clock w) Hdue ltac:(lia)) as [_ He].
  pose proof (ExpireMail_spares expiredMailBatchSize (w_clock w) _ k m Hok Hk He) as Hk1.
  change (ExpireMail _ _ _ _).1 with (@Ok error unit tt). cbv iota beta.
  destruct (ExpireMail _ _ _ _) as [r1 d1]. simpl in H1, Hk1. cbn [snd].
  pose proof (proj1 H1 Hok) as [Hok1 _].
  apply works_bind, works_next_step, works_bind, works_pool.
  set (w2 := advance (advance (w <| w_db := d1 |>))).
  assert (after 2 w w2) as Ha2 by (by apply after_advance, after_exec, after_refl).
  assert (w_db w2 = d1) as Hdb2 by done. set (lease := NewID _).
  destruct (due_claimable m w (w_clock w2) Hdue ltac:(destruct Ha2; lia)) as [Hc2 _].
  rewrite Hdb2. clear He. clearbody lease.
  destruct (ClaimMail_due lease (leaseDuration / Second) (w_clock w2) d1 k m Hok1 Hk1 Hc2)
    as (c & row & Hc & Hcc & Hrow & E).
  pose proof (guar_ClaimMail (R := worker_evolves) lease (leaseDuration / Second) (w_clock w2) d1) as H2.
  rewrite E in H2 |- *. cbn [fst snd] in H2 |- *. set (d2 := d1 <| mail_outbox := _ |>) in *.
  rewrite (claimed_until _ _ _ _ Hrow), (claimed_status _ _ _ _ Hrow), (claimed_lease _ _ _ _ Hrow).
  rewrite !bool_decide_eq_true_2 by done. set (w3 := advance (w2 <| w_db := d2 |>)).
  assert (after 3 w w3) as Ha3 by (by apply after_exec).
  destruct (deliver_claimed row lease (w_clock w2 + seconds (leaseDuration / Second)) w3)
    as (r & w' & Hrun & Hr1 & Ha & H3 & Hother & Hdel).
  { apply Hctx. destruct Ha3. lia. }
  exists r, w'. split; [exact Hrun|]. split_and!; [done|by apply (after_trans 3 6 _ w3)|].
  rewrite (claimed_ID _ _ _ _ Hrow) in *. assert (mail_outbox d2 !! MailOutbox_ID c = Some row) as Hc3
    by apply lookup_insert_eq.
  destruct (decide (k = MailOutbox_ID c)) as [->|Hne]; [left|right].
  - assert (c = m) as -> by congruence. apply Hdel; try apply Hrow; [|done|..].
    + intros n deadline. rewrite (claimed_message _ _ _ _ Hrow). apply Hacc.
    + rewrite (claimed_expires _ _ _ _ Hrow). pose proof (due_in_time _ _ _ Hdue). destruct Ha3. lia.
    + by apply lease_suffices.
  - split; [rewrite Hother by done; by apply lookup_insert_Some; right|].
    destruct (claimable_open _ _ Hcc) as (Ht & Hat & _).
    apply (Nat.lt_le_trans _ (budget d1)); [|apply budget_mono; [apply H1..|done]].
    apply (claim_uses_up d1 d2 _ c row); try done. apply Hrow.
Qed.

(** ** The loop *)

(** Reporting an error only writes to the log. *)
Lemma works_report worked err c w Q :
  (∀ w', w_step w' = w_step w → w_clock w' = w_clock w → w_db w' = w_db w → w_sent w' = w_sent w → Q tt w') →
  works (match err with
         | Some e => if reported worked e c then log_attrs "邮件队列处理失败" (failure_attrs e) else mret tt
         | None => mret tt
         end) w Q.
Proof.
  intros HQ. destruct err as [e|]; [destruct (reported _ _ _)|];
    (eexists _, _; split; [reflexivity|]); by apply HQ.
Qed.

(** The end of an iteration, while the worker goes on. *)
Lemma works_go_on worked err w :
  (∀ n, (w_step w ≤ n < w_step w + 2)%nat → ctx_Err n = None) →
  works (c ← ctx_check;
         _ ← match err with
             | Some e => if reported worked e c then log_attrs "邮件队列处理失败" (failure_attrs e) else mret tt
             | None => mret tt
             end;
         c ← ctx_check;
         match c with
         | Some _ => mret None
         | None => if (worked && bool_decide (err = None))%bool then mret (Some tt)
                   else _ ← next_step; mret (Some tt)
         end) w
    (λ r w', r = Some tt ∧ after 3 w w' ∧ w_db w' = w_db w ∧ w_sent w' = w_sent w).
Proof.
  intros Hctx. unfold ctx_check. apply works_bind, works_bind, works_next_step, works_ret, works_bind, works_report.
  intros w2 Hs Hc Hd Hw. apply works_bind, works_bind, works_next_step, works_ret.
  rewrite Hctx by (rewrite Hs; simpl; lia). simpl.
  assert (after 1 w w2) as H2 by (destruct (after_advance 0 w w (after_refl w)); split; rewrite ?Hs, ?Hc; done).
  destruct (worked && _)%bool.
  - apply works_ret. split_and!; [done| |done..]. apply (after_le 2); [lia|]. by apply after_advance.
  - apply works_bind, works_next_step, works_ret. split_and!; [done| |done..]. by apply after_advance, after_advance.
Qed.

Lemma run_once_due k m w :
  outbox_ok (w_db w) → mail_outbox (w_db w) !! k = Some m → due 6 m w → accepted m →
  (∀ n, (w_step w ≤ n < w_step w + 13)%nat → ctx_Err n = None) →
  works run_once w (λ r w', r = Some tt ∧ after 13 w w'
    ∧ (delivered k w' ∨ mail_outbox (w_db w') !! k = Some m ∧ (budget (w_db w') < budget (w_db w))%nat)).
Proof.
  intros Hok Hk Hdue Hacc Hctx. unfold run_once, ctx_check. apply works_bind, works_bind, works_next_step, works_ret.
  rewrite Hctx by lia. simpl. unfold run_body. apply works_bind.
  pose proof (after_advance 0 w w (after_refl w)) as Ha1.
  destruct (ProcessOne_due k m (advance w)) as ([worked err] & w1 & Hrun & _ & Ha & Hp); try done.
  { by apply (due_after 1 5 m w). }
  { intros n Hn. apply Hctx. simpl in Hn. lia. }
  exists (worked, err), w1. split; [exact Hrun|].
  pose proof (after_trans 1 9 _ _ _ Ha1 Ha) as Ha2.
  destruct (works_go_on worked err w1) as (r & w2 & Hgo & Hr & Ha3 & Hdb & Hsent).
  { intros n Hn. apply Hctx. destruct Ha2. lia. }
  exists r, w2. split; [exact Hgo|]. split_and!; [done|by apply (after_trans 10 3 _ w1)|].
  unfold delivered. rewrite Hdb, Hsent. exact Hp.
Qed.

(** The record of what was handed over only grows. *)
Definition remembers {A} (m : M A) : Prop := ∀ w x, x ∈ w_sent w → x ∈ w_sent (m w).2.

Lemma remembers_same {A} (m : M A) : (∀ w, w_sent (m w).2 = w_sent w) → remembers m.
Proof. intros H w x. by rewrite H. Qed.

Lemma remembers_bind {A B} (m : M A) (f : A → M B) : remembers m → (∀ a, remembers (f a)) → remembers (m ≫= f).
Proof.
  intros Hm Hf w x Hx. specialize (Hm w x Hx). unfold mbind, M_bind.
  destruct (m w) as [[a|e] w1]; [by apply Hf|done].
Qed.

Lemma remembers_hand_over row deadline : remembers (hand_over row deadline).
Proof. intros w x Hx. simpl. set_solver. Qed.

Ltac remembers_auto :=
  repeat lazymatch goal with
  | |- remembers (mbind _ _) => apply remembers_bind; [|intros ?]
  | |- remembers (hand_over _ _) => apply remembers_hand_over
  | |- remembers (try (exec _ _)) => apply remembers_same; intros ?; apply try_exec_sent
  | |- remembers (match ?x with _ => _ end) => destruct x
  | |- remembers (let _ := _ in _) => cbv zeta
  | |- remembers _ => by apply remembers_same
  end.

Lemma remembers_run_loop fuel : remembers (run_loop fuel).
Proof.
  assert (remembers run_once).
  { unfold run_once, run_body, ProcessOne, deliver, finishDelivery, ctx_check. remembers_auto. }
  induction fuel as [|fuel IH]; simpl; [by apply remembers_same|].
  apply remembers_bind; [done|]. intros [[]|]; [done|by apply remembers_same].
Qed.

Lemma run_loop_guar (R : relation DB) `{!PreOrder R, !MailGuar R} fuel : guar R (run_loop fuel).
Proof. pose proof (undisturbed_env R). exact (Run_guar R fuel 1). Qed.

(** What was handed over and recorded stays so. *)
Lemma delivered_stays k fuel w : outbox_ok (w_db w) → delivered k w → delivered k (run_loop fuel w).2.
Proof.
  intros Hok [(m & Hm & Hs) [deadline Hd]]. split; [|exists deadline; by apply remembers_run_loop].
  destruct (run_loop_guar mails_live fuel w Hok) as [_ H]. destruct (H k m Hm) as (m' & Hm' & Hr).
  exists m'. split; [done|]. by rewrite (terminal_final m m') by (done || by rewrite Hs).
Qed.

Lemma run_loop_due k m b fuel w :
  outbox_ok (w_db w) → mail_outbox (w_db w) !! k = Some m → accepted m →
  (budget (w_db w) < b ≤ fuel)%nat → due (13 * b) m w →
  (∀ n, (w_step w ≤ n < w_step w + 13 * b)%nat → ctx_Err n = None) →
  delivered k (run_loop fuel w).2.
Proof.
  revert fuel w. induction b as [|b IH]; intros [|fuel] w Hok Hk Hacc Hb Hdue Hctx; try lia.
  destruct (run_once_due k m w) as (r & w1 & Hrun & -> & Ha & Hp); try done.
  { apply (due_le 6 (13 * S b)); [lia|done]. }
  { intros n Hn. apply Hctx. lia. }
  assert (outbox_ok (w_db w1)) as Hok1.
  { pose proof (undisturbed_env mails_live). pose proof (run_once_guar mails_live w Hok) as [Hr _]. by rewrite Hrun in Hr. }
  simpl. unfold mbind, M_bind. rewrite Hrun. destruct Hp as [Hp|[Hk1 Hb1]]; [by apply delivered_stays|].
  apply IH; [done..|lia| |].
  - apply (due_after 13 (13 * b) m w); [|done]. by replace (13 + 13 * b)%nat with (13 * S b)%nat by lia.
  - intros n Hn. apply Hctx. destruct Ha. lia.
Qed.

End undisturbed.

(** C21: A due mail is delivered. In an undisturbed run, a mail that is pending and available, has
    attempts left, does not expire too soon and is accepted by the sender has been handed to the
    sender and is recorded as sent after one iteration more than there are attempts left to all
    mails together, whatever happens to the others, if the worker is not stopped before. *)
Theorem due_mail_delivered `{Run : Runtime, Sch : Schedule, Wk : Worker, L : !RuntimeLaws Run}
    pace skew poll k m fuel w :
  let turns := S (budget (w_db w)) in
  undisturbed pace skew → 0 < poll → (turns ≤ fuel)%nat →
  outbox_ok (w_db w) → mail_outbox (w_db w) !! k = Some m → accepted m →
  due pace skew (13 * turns) m w →
  (∀ n, (w_step w ≤ n < w_step w + 13 * turns)%nat → ctx_Err n = None) →
  delivered k (Run_ fuel poll w).2.
Proof.
  intros turns U Hp Hf Hok Hk Hacc Hdue Hctx. unfold Run_. destruct (Z.leb_spec poll 0); [lia|].
  apply (run_loop_due pace skew U k m turns); try done. lia.
Qed.
