(* ===== verification/AccountModel.v ===== *)
(** * [internal/modules/account]: domain types and dependencies

    [enums.go], [model.go], [errors.go], [validation.go], [dependencies.go], [service.go],
    [mapping.go] and [authentication_result.go]. The enumerations are Go string types, so
    any string may occur; their [Valid] predicates are decidable. What the service takes
    from other packages are the classes [Passwords], [Federation] and [Authorizer]. *)
From S2P Require Import Prelude.
From S2P Require Import Text.
From S2P Require Import GoErrors.
From S2P Require Import Runtime.
From S2P Require Import Identity.
From S2P Require Import Schema.
From S2P Require Import Storage.

(** ** enums.go *)

Definition UserPending : string := "pending".
Definition UserActive : string := "active".
Definition UserDisabled : string := "disabled".
Definition UserStatus_Valid (v : string) : bool := bool_decide (v ∈ [UserPending; UserActive; UserDisabled]).
Definition Settable_ (v : string) : bool := ((v ==? UserActive) || (v ==? UserDisabled))%bool.

Definition RoleUser : string := "user".
Definition RoleAdmin : string := "admin".
Definition UserRole_Valid (v : string) : bool := bool_decide (v ∈ [RoleUser; RoleAdmin]).

Definition MethodPassword : string := "password".
Definition MethodOAuth : string := "oauth".
Definition AuthMethod_Valid (v : string) : bool := bool_decide (v ∈ [MethodPassword; MethodOAuth]).

Definition FlowLogin : string := "login".
Definition FlowRegister : string := "register".
Definition FlowReauthenticate : string := "reauthenticate".
Definition FlowLinkIdentity : string := "link_identity".
Definition FlowPurpose_Valid (v : string) : bool :=
  bool_decide (v ∈ [FlowLogin; FlowRegister; FlowReauthenticate; FlowLinkIdentity]).
Definition PublicStart (v : string) : bool := ((v ==? FlowLogin) || (v ==? FlowRegister))%bool.

Definition FlowPending : string := "pending".
Definition FlowProcessing : string := "processing".
Definition FlowVerified : string := "verified".
Definition FlowAuthorized : string := "authorized".
Definition FlowClaimed : string := "claimed".
Definition FlowConsumed : string := "consumed".
Definition FlowFailed : string := "failed".
Definition FlowStatus_Valid (v : string) : bool :=
  bool_decide (v ∈ [FlowPending; FlowProcessing; FlowVerified; FlowAuthorized; FlowClaimed;
                    FlowConsumed; FlowFailed]).
Definition Initial (v : string) : bool := ((v ==? FlowPending) || (v ==? FlowAuthorized))%bool.
Definition Verifiable (v : string) : bool := ((v ==? FlowVerified) || (v ==? FlowAuthorized))%bool.

Definition VerifyRegister : string := "register".
Definition VerifyResetPassword : string := "reset_password".
Definition VerifyChangeEmail : string := "change_email".
Definition VerificationPurpose_Valid (v : string) : bool :=
  bool_decide (v ∈ [VerifyRegister; VerifyResetPassword; VerifyChangeEmail]).

Definition OperationLinkAccount : string := "link_account".
Definition OperationUnlinkAccount : string := "unlink_account".
Definition OperationSetPassword : string := "set_password".
Definition OperationChangeEmail : string := "change_email".
Definition Operation_Valid (v : string) : bool :=
  bool_decide (v ∈ [OperationLinkAccount; OperationUnlinkAccount; OperationSetPassword;
                    OperationChangeEmail]).

Definition ResultSession : string := "session".
Definition ResultRedirect : string := "redirect".
Definition ResultReauthenticated : string := "reauthenticated".
Definition ResultLinkPending : string := "link_pending".
Definition AuthResult_Valid (v : string) : bool :=
  bool_decide (v ∈ [ResultSession; ResultRedirect; ResultReauthenticated; ResultLinkPending]).

Definition AuditSuccess : string := "success".
Definition AuditFailure : string := "failure".
Definition AuditDenied : string := "denied".
Definition AuditOutcome_Valid (v : string) : bool :=
  bool_decide (v ∈ [AuditSuccess; AuditFailure; AuditDenied]).

Definition ActorUser : string := "user".
Definition ActorSystem : string := "system".
Definition ActorAnonymous : string := "anonymous".
Definition AuditActorType_Valid (v : string) : bool :=
  bool_decide (v ∈ [ActorUser; ActorSystem; ActorAnonymous]).

Definition CredentialProvider : string := "credential".
Definition LocalNamespace : string := "local".
Definition SecurityNotificationKind : string := "security_notification".

(** ** model.go: errors, prefixes and values *)

Definition ErrVerification : Error := New Invalid "verification_invalid".
Definition ErrFlow : Error := New Invalid "flow_invalid".
Definition ErrReauthentication : Error := New Invalid "reauthentication_invalid".
Definition ErrInvalid : Error := New Invalid "认证参数无效".
Definition ErrCredentials : Error := New Unauthenticated "登录凭据或验证证明无效".
Definition ErrNotFound : Error := New NotFound "资源不存在".
Definition ErrConflict : Error := New Conflict "账号或邮箱已被使用".
Definition ErrLastAccount : Error := New Conflict "必须保留并验证至少一个可用登录账号".
Definition ErrForbidden : Error := New Forbidden "无权执行此操作".
Definition ErrRateLimited : Error := New RateLimited "请求过于频繁，请稍后再试".
Definition ErrUnavailable : Error := New Unavailable "认证依赖暂不可用".
Definition ErrRegistrationRequired : Error := New Conflict "registration_required".

Definition SessionPrefix : string := "tk_".
Definition FlowPrefix : string := "flow_".
Definition ChallengePrefix : string := "verify_".

(** [authorization.Subject]. *)
Record Subject_ : Type := mkSubject { UserID : string; SessionID : string }.

Record Request : Type := mkRequest {
  Subject_of : Subject_;
  RequestID : string;
  ClientIP : string
}.

Definition r_UserID (r : Request) : string := UserID (Subject_of r).
Definition r_SessionID (r : Request) : string := SessionID (Subject_of r).

Record UserRecord : Type := mkUserRecord {
  UserRecord_ID : string;
  UserRecord_DisplayName : string;
  UserRecord_Email : option string;
  UserRecord_EmailVerified : bool;
  UserRecord_Status : string;
  UserRecord_Role : string;
  UserRecord_CreatedAt : time
}.

Record AccountRecord : Type := mkAccountRecord {
  AccountRecord_ID : string;
  AccountRecord_Provider : string;
  AccountRecord_CreatedAt : time;
  AccountRecord_LastUsedAt : option time;
  AccountRecord_Enabled : bool
}.

Record Profile : Type := mkProfile {
  Profile_User : UserRecord;
  Profile_Accounts : list AccountRecord;
  Profile_SessionID : string
}.

Record SessionRecord : Type := mkSessionRecord {
  SessionRecord_ID : string;
  SessionRecord_Method : string;
  SessionRecord_AuthenticatedAt : time;
  SessionRecord_CreatedAt : time;
  SessionRecord_LastSeenAt : time;
  SessionRecord_IdleExpiresAt : time;
  SessionRecord_AbsoluteExpiresAt : time
}.

Record SessionCredentials : Type := mkSessionCredentials {
  Token : string;
  Credentials_ID : string;
  Credentials_IdleExpiresAt : time;
  Credentials_AbsoluteExpiresAt : time
}.

Record FlowResult : Type := mkFlowResult {
  FlowResult_ID : string;
  FlowResult_Token : string;
  AuthorizationURL : string;
  FlowResult_ExpiresAt : time
}.

Record LinkConfirmation : Type := mkLinkConfirmation {
  FlowID : string;
  Link_Provider : string;
  Link_Name : string
}.

Record CallbackResult : Type := mkCallbackResult {
  callback_result : string;
  callback_session : option SessionCredentials;
  callback_reauthenticationID : string;
  callback_link : option LinkConfirmation
}.

Record ReauthenticationResult : Type := mkReauthenticationResult {
  reauth_result : string;
  reauth_flow : option FlowResult;
  reauth_reauthenticationID : string
}.

Record VerifiedIdentity : Type := mkVerifiedIdentity {
  Namespace : string;
  Identity_Subject : string;
  Identity_Name : string
}.

Record Reauthentication : Type := mkReauthentication {
  Method : string;
  Operation : string;
  Password : string;
  Target : string;
  AccountID : string
}.

Record Verification : Type := mkVerification {
  Purpose : string;
  NewPassword : string
}.

(** ** authentication_result.go *)

Definition sessionCallback (session : SessionCredentials) : CallbackResult :=
  mkCallbackResult ResultSession (Some session) "" None.
Definition reauthenticatedCallback (id : string) : CallbackResult :=
  mkCallbackResult ResultReauthenticated None id None.
Definition linkPendingCallback (link : LinkConfirmation) : CallbackResult :=
  mkCallbackResult ResultLinkPending None "" (Some link).
Definition redirectReauthentication (flow : FlowResult) : ReauthenticationResult :=
  mkReauthenticationResult ResultRedirect (Some flow) "".
Definition completedReauthentication (id : string) : ReauthenticationResult :=
  mkReauthenticationResult ResultReauthenticated None id.

(** ** errors.go *)

Definition storageErrors : ErrorPolicy :=
  {| Resource := "account"; policy_NotFound := Some ErrNotFound;
     UniqueConstraints := list_to_map
       [("users_email_normalized_key", ErrConflict); ("accounts_provider_identity_key", ErrConflict);
        ("accounts_namespace_identity_key", ErrConflict); ("accounts_user_credential_key", ErrConflict)] |}.

Definition wrap (kind : Error) (cause : error) : error :=
  EMulti (Error_message kind) [EBusiness kind; cause].

Definition proofError (kind : Error) (err : error) : error :=
  if Is err (TBusiness ErrCredentials) then wrap kind err else err.

Definition no_rows (err : error) : bool := Is err (TSentinel PgxErrNoRows).

Definition credentialLookupError (err : error) : error :=
  if no_rows err then EBusiness ErrCredentials else err.

(** [if errors.Is(err, pgx.ErrNoRows) { return b }]. *)
Definition missing_as (b : error) (err : error) : error := if no_rows err then b else err.

(** ** validation.go *)

Definition maxEmailBytes : Z := 254.
Definition maxDisplayNameRunes : Z := 100.
Definition maxProviderIDRunes : Z := 64.
Definition maxProviderSubjectBytes : Z := 1024.
Definition maxProviderNamespaceBytes : Z := 2048.

Definition normalizeEmail `{Runtime} (value : string) : res error string :=
  let value := TrimSpace value in
  if ((maxEmailBytes <? len value) || negb (Email value))%bool
  then Err (EBusiness ErrInvalid) else Ok (ToLower value).

(** ** mapping.go *)

Definition text (p : option string) : string := match p with Some s => s | None => "" end.

Definition userRecord (u : User) : UserRecord :=
  {| UserRecord_ID := User_ID u; UserRecord_DisplayName := User_DisplayName u;
     UserRecord_Email := User_Email u;
     UserRecord_EmailVerified := bool_decide (is_Some (User_EmailVerifiedAt u));
     UserRecord_Status := User_Status u; UserRecord_Role := User_Role u;
     UserRecord_CreatedAt := User_CreatedAt u |}.

(** ** dependencies.go and service.go *)

(** The step numbers tell repeated calls apart. *)
Class Passwords := {
  Passwords_Hash : nat → string → res error string;
  Passwords_Verify : nat → string → string → res error (bool * bool); (* matches, needsUpgrade *)
  Passwords_Validate : string → bool
}.

Class Federation := {
  Federation_Enabled : string → bool;
  Federation_Version : string → string;
  Federation_Start : nat → string → string → string → res error (string * string);
  Federation_Verify : nat → string → string → string → string → res error VerifiedIdentity
}.

(** The whole federation is switched off. *)
Definition disabledFederation : Federation := {|
  Federation_Enabled _ := false;
  Federation_Version _ := "";
  Federation_Start _ _ _ _ := Err (EBusiness ErrUnavailable);
  Federation_Verify _ _ _ _ _ := Err (EBusiness ErrUnavailable)
|}.

Class Authorizer := { RequireAdmin : Subject_ → M unit }.

Class Options := {
  IdleTTL : time;
  MaxTTL : time;
  FrontendURL : string
}.

(** The conditions of [NewService] on its options. *)
Definition NewService (o : Options) : res error Options :=
  if ((IdleTTL <? Minute) || (MaxTTL <? IdleTTL))%bool
  then Err (EText "账户服务依赖不完整") else Ok o.
