(* ===== verification/Password.v ===== *)
(** * [internal/platform/password]: password hashing with limits

    Argon2 and its encoding are a library ([Argon2]). [Hash] and [Verify] are functions of
    what [ctx.Err()] answers at the moments they ask; [Slots] is the semaphore that bounds
    how many hashes are computed at once. [hasher_passwords] is the implementation of the
    account module's [Passwords]. *)
From S2P Require Import Prelude.
From S2P Require Import Text.
From S2P Require Import GoErrors.
From S2P Require Import Runtime.
From S2P Require Import AccountModel.

(** ** The library *)

(** [argon2id.Params]; [uint32] except [Parallelism], a [uint8]. *)
Record Argon2Params : Type := mkArgon2Params {
  Memory : Z; Iterations : Z; Parallelism : Z; SaltLength : Z; KeyLength : Z
}.

Global Instance Argon2Params_eq_dec : EqDecision Argon2Params.
Proof. solve_decision. Defined.

(** The step stands for the random salt. [ComparePasswordAndHash] does not decide when the text
    does not decode, and when [argon2.IDKey] panics: without a pass, a lane or a byte of key. *)
Class Argon2 := {
  CreateHash : nat → string → Argon2Params → res string string;
  DecodeHash : string → option Argon2Params;
  ComparePasswordAndHash : string → string → option bool
}.

(** A hash the library made decodes to its parameters and matches its password. With the
    parameters of this package its text has about a hundred bytes. A hash that decodes is
    compared if its parameters are ones that [argon2.IDKey] computes with. *)
Class Argon2Laws (A : Argon2) := {
  CreateHash_decodes n v p h : CreateHash n v p = Ok h → DecodeHash h = Some p;
  CreateHash_matches n v p h : CreateHash n v p = Ok h → ComparePasswordAndHash v h = Some true;
  CreateHash_length n v p h : CreateHash n v p = Ok h →
    Memory p < 100000 → Iterations p < 10 → Parallelism p < 10 → SaltLength p <= 32 → KeyLength p <= 32 →
    len h <= 160;
  DecodeHash_compares v h p : DecodeHash h = Some p →
    1 <= Iterations p → 1 <= Parallelism p → 1 <= KeyLength p →
    is_Some (ComparePasswordAndHash v h)
}.

(** ** Limits *)

Definition memory : Z := 19 * 1024.
Definition iterations : Z := 2.
Definition parallelism : Z := 1.
Definition saltBytes : Z := 16.
Definition keyBytes : Z := 32.

Definition minPasswordRunes : Z := 15.
Definition maxPasswordRunes : Z := 128.
Definition maxPasswordBytes : Z := 512.
Definition maxEncodedHashBytes : Z := 256.
Definition minHashMemoryKiB : Z := 8.
Definition maxHashMemoryKiB : Z := 64 * 1024.
Definition maxHashIterations : Z := 4.
Definition minHashSaltBytes : Z := 16.
Definition maxHashSaltBytes : Z := 32.

Definition default_params : Argon2Params :=
  mkArgon2Params memory iterations parallelism saltBytes keyBytes.

Definition Validate (value : string) : bool :=
  let n := RuneCountInString value in
  (ValidString value && (minPasswordRunes <=? n) && (n <=? maxPasswordRunes)
   && (len value <=? maxPasswordBytes))%bool.

Definition allowedParams (p : option Argon2Params) : bool :=
  match p with
  | None => false
  | Some p =>
    (minHashMemoryKiB <=? Memory p) && (Memory p <=? maxHashMemoryKiB)
    && (1 <=? Iterations p) && (Iterations p <=? maxHashIterations) && (Parallelism p =? parallelism)
    && (minHashSaltBytes <=? SaltLength p) && (SaltLength p <=? maxHashSaltBytes)
    && (KeyLength p =? keyBytes)
  end%bool.

(** ** Hashing and verification *)

(** What [ctx.Err()] answers on entry, before and after the wait for a slot, and at the end. *)
Record Moments : Type := mkMoments {
  at_entry : option error;
  before_wait : option error;
  after_wait : option error;
  at_end : option error
}.

Definition undisturbed : Moments := mkMoments None None None None.

(** [acquire]: if the context ends before a slot is free the answer is its error, and also
    if it has ended when the slot is taken. *)
Definition acquire (m : Moments) : res error unit :=
  match before_wait m with
  | Some err => Err err
  | None =>
    match after_wait m with
    | Some err => Err err
    | None => Ok tt
    end
  end.

Section hasher.
  Context `{A : Argon2}.

Definition Hash (m : Moments) (n : nat) (value : string) : res error string :=
  if maxPasswordBytes <? len value then Err (EText "密码长度超出上限")
  else
    res_bind (acquire m) (λ _,
    match CreateHash n value default_params with
    | Err err => Err (EMulti "密码哈希生成失败" [EText err])
    | Ok hash =>
      match at_end m with
      | Some err => Err err
      | None => Ok hash
      end
    end).

(** The constructor hashes a fixed text, for the time a wrong hash takes. *)
Definition dummy_password : string := "dummy password used only for timing".

Record Hasher : Type := mkHasher { slots : Z; dummy : string }.

Definition New_ (n : nat) (concurrency : Z) : res error Hasher :=
  let concurrency := if concurrency <? 1 then 1 else concurrency in
  res_bind (Hash undisturbed n dummy_password) (λ hash, Ok (mkHasher concurrency hash)).

Definition Verify (h : Hasher) (m : Moments) (hash value : string) : res error (bool * bool) :=
  match at_entry m with
  | Some err => Err err
  | None =>
    if maxPasswordBytes <? len value then Ok (false, false)
    else
      let params := if len hash <=? maxEncodedHashBytes then DecodeHash hash else None in
      let valid := allowedParams params in
      let hash := if negb valid then dummy h else hash in
      res_bind (acquire m) (λ _,
      match ComparePasswordAndHash value hash with
      | None => Err (EText "密码哈希验证失败")
      | Some matched =>
        match at_end m with
        | Some err => Err err
        | None =>
          let matched := (matched && valid)%bool in
          Ok (matched, (matched && match params with
                                   | Some p => (Memory p <? memory) || (Iterations p <? iterations)
                                   | None => false
                                   end)%bool)
        end
      end)
  end.

(** Contexts of the calls, by step. *)
Class HashContexts := { moments : nat → Moments }.

Definition hasher_passwords `{C : HashContexts} (h : Hasher) : Passwords := {|
  Passwords_Hash n value := Hash (moments n) n value;
  Passwords_Verify n hash value := Verify h (moments n) hash value;
  Passwords_Validate := Validate
|}.

(** ** What the hasher promises *)

Section facts.
  Context `{L : !Argon2Laws A}.

Lemma CreateHash_default n v h : CreateHash n v default_params = Ok h →
  DecodeHash h = Some default_params ∧ ComparePasswordAndHash v h = Some true ∧ len h <= maxEncodedHashBytes.
Proof.
  intros H. split_and!; eauto using CreateHash_decodes, CreateHash_matches.
  trans 160; [by eapply CreateHash_length|done].
Qed.

Lemma Hash_Ok m n value hash : Hash m n value = Ok hash →
  len value <= maxPasswordBytes ∧ CreateHash n value default_params = Ok hash.
Proof.
  unfold Hash. destruct (Z.ltb_spec maxPasswordBytes (len value)); [done|].
  destruct (acquire m); simpl; [|done].
  destruct (CreateHash _ _ _); [|done]. destruct (at_end m); [done|]. intros [= ->]. done.
Qed.

Lemma New_dummy n concurrency h : New_ n concurrency = Ok h →
  1 <= slots h ∧ DecodeHash (dummy h) = Some default_params.
Proof.
  unfold New_. destruct (Hash _ _ _) as [d|] eqn:E; [|done]. intros [= <-]. simpl.
  apply Hash_Ok in E as [_ E]. apply CreateHash_default in E as (? & _).
  split; [|done]. destruct (Z.ltb_spec concurrency 1); lia.
Qed.

(** What [allowedParams] accepts, in numbers. *)
Lemma allowedParams_iff p : allowedParams (Some p) = true ↔
  8 <= Memory p <= 65536 ∧ 1 <= Iterations p <= 4 ∧ Parallelism p = 1
  ∧ 16 <= SaltLength p <= 32 ∧ KeyLength p = 32.
Proof.
  unfold allowedParams. rewrite !andb_true_iff, !Z.leb_le, !Z.eqb_eq.
  change minHashMemoryKiB with 8. change maxHashMemoryKiB with 65536. change maxHashIterations with 4.
  change parallelism with 1. change minHashSaltBytes with 16. change maxHashSaltBytes with 32.
  change keyBytes with 32. lia.
Qed.

Lemma allowed_compares v h p : DecodeHash h = Some p → allowedParams (Some p) = true →
  is_Some (ComparePasswordAndHash v h).
Proof. intros Hd Ha%allowedParams_iff. apply (DecodeHash_compares v h p Hd); lia. Qed.

(** Undisturbed, [Verify] decides exactly. *)
Lemma Verify_decides n concurrency h hash value :
  New_ n concurrency = Ok h →
  ∃ matches upgrade, Verify h undisturbed hash value = Ok (matches, upgrade)
    ∧ (matches = true ↔
       len value <= maxPasswordBytes ∧ len hash <= maxEncodedHashBytes
       ∧ ∃ p, DecodeHash hash = Some p ∧ allowedParams (Some p) = true
              ∧ ComparePasswordAndHash value hash = Some true)
    ∧ (upgrade = true ↔
       matches = true ∧ ∃ p, DecodeHash hash = Some p ∧ (Memory p < memory ∨ Iterations p < iterations)).
Proof.
  intros Hn. apply New_dummy in Hn as [_ Hd].
  unfold Verify, acquire, res_bind. simpl at_entry. simpl before_wait. simpl after_wait. simpl at_end. cbv iota beta zeta.
  destruct (Z.ltb_spec maxPasswordBytes (len value)) as [Hv|Hv].
  { eexists _, _. split; [done|]. split; split; try done; [lia|naive_solver]. }
  destruct (Z.leb_spec (len hash) maxEncodedHashBytes) as [Hh|Hh].
  2: { destruct (allowed_compares value _ _ Hd eq_refl) as [b Hb]. simpl. rewrite Hb.
       eexists _, _. split; [done|]. rewrite andb_false_r. split; split; try done; [lia|naive_solver]. }
  destruct (DecodeHash hash) as [p|] eqn:Ep.
  2: { destruct (allowed_compares value _ _ Hd eq_refl) as [b Hb]. simpl. rewrite Hb.
       eexists _, _. split; [done|]. rewrite andb_false_r. split; split; try done; naive_solver. }
  destruct (allowedParams (Some p)) eqn:Ea; cbn [negb].
  - destruct (allowed_compares value _ _ Ep Ea) as [b Hb]. rewrite Hb.
    eexists _, _. split; [done|]. rewrite andb_true_r. split.
    + split; [intros ->; eauto 10|]. intros (_ & _ & ? & ? & ? & ?). congruence.
    + rewrite andb_true_iff, orb_true_iff, !Z.ltb_lt. naive_solver.
  - destruct (allowed_compares value _ _ Hd eq_refl) as [b Hb]. rewrite Hb.
    eexists _, _. split; [done|]. rewrite andb_false_r.
    split; split; try done; [|naive_solver]. intros (_ & _ & ? & ? & ? & ?). congruence.
Qed.

(** A password verifies against the hash made of it, and the hash needs no replacement. *)
Lemma Hash_Verify n1 concurrency h m n value hash :
  New_ n1 concurrency = Ok h → Hash m n value = Ok hash →
  Verify h undisturbed hash value = Ok (true, false).
Proof.
  intros Hn H. apply Hash_Ok in H as [Hl H]. apply CreateHash_default in H as (Hd & Hc & Hlen).
  unfold Verify, acquire, res_bind. simpl at_entry. simpl before_wait. simpl after_wait. simpl at_end.
  destruct (Z.ltb_spec maxPasswordBytes (len value)); [lia|].
  destruct (Z.leb_spec (len hash) maxEncodedHashBytes); [|lia].
  rewrite Hd. change (allowedParams (Some default_params)) with true. cbn [negb]. rewrite Hc. done.
Qed.

(** C31: Undisturbed, [Verify] decides exactly: the text of the password and of the hash are short,
    the hash decodes to parameters within the bounds, and matches. It never fails, although the
    library panics on other parameters, and a hash made with
    weaker parameters than today's is to be replaced. A password verifies against the hash made
    of it, which needs no replacement. *)
Theorem Verify_exact n concurrency h :
  New_ n concurrency = Ok h →
  (∀ hash value, ∃ matches upgrade, Verify h undisturbed hash value = Ok (matches, upgrade)
    ∧ (matches = true ↔
       len value <= maxPasswordBytes ∧ len hash <= maxEncodedHashBytes
       ∧ ∃ p, DecodeHash hash = Some p
              ∧ (8 <= Memory p <= 65536 ∧ 1 <= Iterations p <= 4 ∧ Parallelism p = 1
                 ∧ 16 <= SaltLength p <= 32 ∧ KeyLength p = 32)
              ∧ ComparePasswordAndHash value hash = Some true)
    ∧ (upgrade = true ↔
       matches = true ∧ ∃ p, DecodeHash hash = Some p ∧ (Memory p < memory ∨ Iterations p < iterations)))
  ∧ (∀ m k value hash, Hash m k value = Ok hash → Verify h undisturbed hash value = Ok (true, false)).
Proof.
  intros Hn. split; intros; [|by eapply Hash_Verify].
  destruct (Verify_decides n concurrency h hash value Hn) as (m & u & Hv & Hm & Hu).
  exists m, u. split_and!; [done| |done]. setoid_rewrite <-allowedParams_iff. exact Hm.
Qed.

End facts.

End hasher.

(** Whatever its context does, [Verify] accepts only what [Verify_exact] describes. *)
Lemma Verify_true `{A : Argon2} h m hash value u : Verify h m hash value = Ok (true, u) →
  len value <= maxPasswordBytes ∧ len hash <= maxEncodedHashBytes
  ∧ ∃ p, DecodeHash hash = Some p ∧ allowedParams (Some p) = true
         ∧ ComparePasswordAndHash value hash = Some true.
Proof.
  unfold Verify. destruct (at_entry m); [done|].
  destruct (Z.ltb_spec maxPasswordBytes (len value)); [done|].
  destruct (acquire m); simpl; [|done].
  destruct (ComparePasswordAndHash _ _) as [b|] eqn:Ec; [|done].
  destruct (at_end m); [done|]. intros [= Hb _]. apply andb_true_iff in Hb as [-> Ha].
  rewrite Ha in Ec. destruct (Z.leb_spec (len hash) maxEncodedHashBytes); [|done].
  destruct (DecodeHash hash) as [p|]; [|done]. eauto 10.
Qed.

(** ** The semaphore *)

Module Slots.

(** What one call of [Hash] or [Verify] is doing. *)
Inductive phase : Type :=
| Entering     (* has not asked for a slot *)
| Waiting      (* in the [select] *)
| Taken        (* has sent to the channel *)
| Computing
| Left.        (* has returned *)

(** [used] is the number of elements in the channel, [capacity] its buffer. *)
Record state : Type := mkState { used : nat; calls : list phase }.

Inductive step (capacity : nat) : state → state → Prop :=
| step_call n cs : step capacity (mkState n cs) (mkState n (cs ++ [Entering]))
| step_refused n cs i : cs !! i = Some Entering →
    step capacity (mkState n cs) (mkState n (<[i := Left]> cs))
| step_wait n cs i : cs !! i = Some Entering →
    step capacity (mkState n cs) (mkState n (<[i := Waiting]> cs))
| step_send n cs i : cs !! i = Some Waiting → (n < capacity)%nat →
    step capacity (mkState n cs) (mkState (S n) (<[i := Taken]> cs))
| step_done n cs i : cs !! i = Some Waiting →
    step capacity (mkState n cs) (mkState n (<[i := Left]> cs))
| step_late n cs i : cs !! i = Some Taken →
    step capacity (mkState (S n) cs) (mkState n (<[i := Left]> cs))
| step_compute n cs i : cs !! i = Some Taken →
    step capacity (mkState n cs) (mkState n (<[i := Computing]> cs))
| step_return n cs i : cs !! i = Some Computing →
    step capacity (mkState (S n) cs) (mkState n (<[i := Left]> cs)).

Definition start : state := mkState 0 [].

Definition holds_slot (p : phase) : bool :=
  match p with Taken | Computing => true | _ => false end.

Definition holders (cs : list phase) : nat := length (List.filter holds_slot cs).

Definition computing (cs : list phase) : nat :=
  length (List.filter (λ p, match p with Computing => true | _ => false end) cs).

Lemma holders_insert cs i p q : cs !! i = Some p →
  (holders (<[i := q]> cs) + Nat.b2n (holds_slot p) = holders cs + Nat.b2n (holds_slot q))%nat.
Proof.
  unfold holders. revert i. induction cs as [|c cs IH]; intros [|i] H; simplify_eq/=.
  - destruct (holds_slot p), (holds_slot q); simpl; lia.
  - specialize (IH i H). destruct (holds_slot c); simpl; lia.
Qed.

Lemma holders_app cs p : holders (cs ++ [p]) = (holders cs + Nat.b2n (holds_slot p))%nat.
Proof. unfold holders. rewrite List.filter_app, length_app. simpl. by destruct (holds_slot p). Qed.

Lemma computing_holders cs : (computing cs ≤ holders cs)%nat.
Proof. unfold computing, holders. induction cs as [|[] cs IH]; simpl; lia. Qed.

(** The channel holds one element for every call between its send and its receive. *)
Definition counted (capacity : nat) (s : state) : Prop :=
  used s = holders (calls s) ∧ (used s ≤ capacity)%nat.

Lemma step_slots capacity s s' : step capacity s s' → counted capacity s → counted capacity s'.
Proof.
  unfold counted. destruct 1; simpl; intros [Hu Hc]; rewrite ?holders_app;
    try match goal with H : _ !! _ = Some _ |- context [<[_ := ?q]> _] =>
          pose proof (holders_insert _ _ _ q H) end; simpl in *; lia.
Qed.

Lemma reachable_slots capacity s : rtc (step capacity) start s → counted capacity s.
Proof.
  intros H. assert (counted capacity start) as H0 by (split; simpl; [done|lia]).
  induction H; eauto using step_slots.
Qed.

Lemma holder_exists cs : (0 < holders cs)%nat →
  ∃ j p, cs !! j = Some p ∧ holds_slot p = true.
Proof.
  unfold holders. induction cs as [|c cs IH]; simpl; [lia|]. destruct (holds_slot c) eqn:E.
  - intros _. by exists 0%nat, c.
  - intros H. destruct (IH H) as (j & p & ? & ?). by exists (S j), p.
Qed.

(** No deadlock: whenever a call waits, it can take a slot, or another call can give one back. *)
Lemma slots_progress capacity s i : (0 < capacity)%nat → rtc (step capacity) start s →
  calls s !! i = Some Waiting →
  ∃ s', step capacity s s'
    ∧ (calls s' !! i = Some Taken ∨ (used s' < used s)%nat ∧ calls s' !! i = Some Waiting).
Proof.
  intros H0 H Hi. apply reachable_slots in H as [Hu Hc]. destruct s as [n cs]. simpl in *.
  destruct (decide (n < capacity)%nat) as [Hn|Hn].
  { eexists. split; [by apply step_send|]. left. apply list_lookup_insert_eq. by eapply lookup_lt_Some. }
  destruct (holder_exists cs) as (j & p & Hj & Hp); [lia|].
  destruct n as [|n]; [lia|].
  assert (i ≠ j) by (intros ->; rewrite Hi in Hj; by simplify_eq).
  exists (mkState n (<[j := Left]> cs)). split.
  - destruct p; try done; [by apply step_late|by apply step_return].
  - right. simpl. split; [lia|]. by rewrite list_lookup_insert_ne.
Qed.

(** C32: At most [capacity] hashes are being computed, when every call has returned all slots are
    free again, and whenever a call waits it can take a slot, or another call can give one
    back. *)
Theorem slots_bounded capacity s : (0 < capacity)%nat → rtc (step capacity) start s →
  (computing (calls s) ≤ capacity)%nat
  ∧ (Forall (λ p, p = Left) (calls s) → used s = 0%nat)
  ∧ ∀ i, calls s !! i = Some Waiting →
      ∃ s', step capacity s s'
        ∧ (calls s' !! i = Some Taken ∨ (used s' < used s)%nat ∧ calls s' !! i = Some Waiting).
Proof.
  intros H0 H. pose proof (reachable_slots _ _ H) as [Hu Hc]. split_and!.
  - pose proof (computing_holders (calls s)). lia.
  - rewrite Hu. intros Hl. unfold holders. clear Hu Hc H. induction Hl as [|p l -> _ IH]; [done|exact IH].
  - intros i. by apply slots_progress.
Qed.

End Slots.
