(* ===== verification/AppConfig.v ===== *)
(** * Configuration: [internal/platform/configenv], [internal/app/appfx/config.go],
    [internal/app/api/config.go] and [internal/app/worker/config.go]

    Environment variables are read through a [lookup] function. The conversion of their
    texts to the fields of a structure is a library's ([env_parse]); the program decides which
    values reach it, hides its error texts and validates the result. *)
From S2P Require Import Prelude.
From S2P Require Import Text.
From S2P Require Import GoErrors.
From S2P Require Import Runtime.
From S2P Require Import HttpApi.
From S2P Require Import FederationClient.
From S2P Require Import AccountModel.
From Stdlib Require Import Ascii.

(** ** configenv *)

(** What [env.GetFieldParams] says about a field. *)
Record FieldParams : Type := mkField {
  Key : string; HasDefaultValue : bool; DefaultValue : string
}.

(** The errors of the library; [detail] is its text, which may quote the value. *)
Inductive env_error : Type :=
| AggregateError (Errors : list env_error)
| ParseError (Name detail : string)
| VarIsNotSetError (Key_ : string)
| EmptyVarError (Key_ : string)
| OtherEnvError (detail : string).

Fixpoint sanitize (err : env_error) : option error :=
  match err with
  | AggregateError errors => Join (map sanitize errors)
  | ParseError name _ => Some (EText (name +:+ " 格式无效"))
  | VarIsNotSetError key => Some (EText (key +:+ " 未设置"))
  | EmptyVarError key => Some (EText (key +:+ " 不能为空"))
  | OtherEnvError _ => Some (EText "环境配置解析失败")
  end.

(** An aggregate of the library holds at least one error. *)
Fixpoint reports (err : env_error) : bool :=
  match err with AggregateError errors => existsb reports errors | _ => true end.

Section configenv.
  Context {T : Type} (zero : T).
  (** The fields of the structure; [None] is an error of the library. *)
  Context (fields : option (list FieldParams)).
  (** The structure filled in from the values, completely or up to an error. *)
  Context (env_parse : gmap string string → T * option env_error).

(** The values of the variables that are set, or the refusal of an empty one whose field has
    a default. *)
Fixpoint collect (lookup : string → option string) (fields : list FieldParams)
    (values : gmap string string) : res error (gmap string string) :=
  match fields with
  | [] => Ok values
  | field :: fields =>
    match lookup (Key field) with
    | None => collect lookup fields values
    | Some value =>
      if ((value ==? "") && HasDefaultValue field && (DefaultValue field !=? ""))%bool
      then Err (EText (Key field +:+ " 不能为空"))
      else collect lookup fields (<[Key field := value]> values)
    end
  end.

(** [lookup] may be nil. *)
Definition env_Parse (lookup : option (string → option string)) : T * option error :=
  match lookup with
  | None => (zero, Some (EText "环境变量读取函数不能为空"))
  | Some lookup =>
    match fields with
    | None => (zero, Some (EText "配置结构定义无效"))
    | Some fields =>
      match collect lookup fields ∅ with
      | Err err => (zero, Some err)
      | Ok values =>
        match env_parse values with
        | (cfg, Some err) => (cfg, sanitize err)
        | (cfg, None) => (cfg, None)
        end
      end
    end
  end.

End configenv.

(** ** appfx/config.go *)

Record InfraConfig : Type := mkInfraConfig {
  Infra_DatabaseURL : string;
  Infra_DBMaxConns : Z;
  Infra_LogLevel : Z;
  Infra_OTelEnabled : bool;
  Infra_OTelServiceName : string;
  Infra_ShutdownTimeout : Z
}.

Section validation.
  Context `{Url : UrlParser}.

Definition ValidateDatabaseURL (raw : string) : option error :=
  let invalid := Some (EText "DATABASE_URL 必须为 PostgreSQL URL") in
  match url_Parse raw with
  | None => invalid
  | Some u =>
    if ((Host u ==? "") || ((Scheme u !=? "postgres") && (Scheme u !=? "postgresql")))%bool
    then invalid else None
  end.

Definition InfraConfig_Validate (c : InfraConfig) : option error :=
  match ValidateDatabaseURL (Infra_DatabaseURL c) with
  | Some err => Some err
  | None =>
    if Infra_DBMaxConns c <? 1 then Some (EText "DB_MAX_CONNS 必须为正整数")
    else if Infra_ShutdownTimeout c <=? 0 then Some (EText "SHUTDOWN_TIMEOUT 必须为正时长")
    else if (Infra_OTelEnabled c && (TrimSpace (Infra_OTelServiceName c) ==? ""))%bool
    then Some (EText "启用遥测时必须显式设置非空的 OTEL_SERVICE_NAME")
    else None
  end.

(** ** api/config.go *)

Record Config : Type := mkApiConfig {
  Environment : string;
  HTTPAddr : string;
  DatabaseURL : string;
  DBMaxConns : Z;
  LogLevel : Z;
  RequestTimeout : Z;
  ShutdownTimeout : Z;
  DocsEnabled : bool;
  AuthProvidersFile : string;
  AuthSessionIdleTTL : Z;
  AuthSessionMaxTTL : Z;
  Config_FrontendURL : string;
  OTelEnabled : bool;
  OTelServiceName : string
}.

(** The zero value of the structure. *)
Definition zero_config : Config := mkApiConfig "" "" "" 0 0 0 0 false "" 0 0 "" false "".

(** The tags of the fields. *)
Definition config_fields : list FieldParams :=
  [mkField "APP_ENV" true "production"; mkField "HTTP_ADDR" true "127.0.0.1:8080";
   mkField "DATABASE_URL" false ""; mkField "DB_MAX_CONNS" true "10"; mkField "LOG_LEVEL" true "info";
   mkField "REQUEST_TIMEOUT" true "15s"; mkField "SHUTDOWN_TIMEOUT" true "10s";
   mkField "DOCS_ENABLED" true "false"; mkField "AUTH_PROVIDERS_FILE" false "";
   mkField "AUTH_SESSION_IDLE_TTL" true "30m"; mkField "AUTH_SESSION_MAX_TTL" true "24h";
   mkField "FRONTEND_URL" false ""; mkField "OTEL_ENABLED" true "false";
   mkField "OTEL_SERVICE_NAME" false ""].

Definition infrastructure (cfg : Config) : InfraConfig :=
  mkInfraConfig (DatabaseURL cfg) (DBMaxConns cfg) (LogLevel cfg) (OTelEnabled cfg)
    (OTelServiceName cfg) (ShutdownTimeout cfg).

(** The first entry that is not positive. *)
Definition positive_durations (entries : list (string * Z)) : option error :=
  find_map (λ '(key, value), if value <=? 0 then Some (EText (key +:+ " 必须为正时长")) else None) entries.

Definition Config_Validate (c : Config) : option error :=
  if ((Environment c !=? "production") && (Environment c !=? "development")
      && (Environment c !=? "test"))%bool
  then Some (EText "APP_ENV must be production, development or test")
  else match SplitHostPort (HTTPAddr c) with
  | None => Some (EText "HTTP_ADDR must be host:port")
  | Some _ =>
    match InfraConfig_Validate (infrastructure c) with
    | Some err => Some err
    | None =>
      match positive_durations [("REQUEST_TIMEOUT", RequestTimeout c);
                                ("AUTH_SESSION_IDLE_TTL", AuthSessionIdleTTL c);
                                ("AUTH_SESSION_MAX_TTL", AuthSessionMaxTTL c)] with
      | Some err => Some err
      | None =>
        if Config_FrontendURL c ==? "" then Some (EText "需要前端地址")
        else if ((AuthSessionIdleTTL c <? Minute) || (AuthSessionMaxTTL c <? AuthSessionIdleTTL c))%bool
        then Some (EText "会话期限配置无效")
        else
          let invalid := Some (EText "FRONTEND_URL 必须为 HTTP(S) URL") in
          match url_Parse (Config_FrontendURL c) with
          | None => invalid
          | Some frontend =>
            if ((Host frontend ==? "")
                || ((Scheme frontend !=? "http") && (Scheme frontend !=? "https")))%bool
            then invalid else None
          end
      end
    end
  end.

Definition Config_Parse (env_parse : gmap string string → Config * option env_error)
    (lookup : option (string → option string)) : Config * option error :=
  let '(c, err) := env_Parse zero_config (Some config_fields) env_parse lookup in
  match err with
  | Some err => (c, Some err)
  | None => (c, Config_Validate c)
  end.

(** ** worker/config.go *)

Record WorkerConfig : Type := mkWorkerConfig {
  Worker_DatabaseURL : string;
  Worker_DBMaxConns : Z;
  MailPollInterval : Z;
  Worker_LogLevel : Z;
  Worker_ShutdownTimeout : Z;
  Worker_OTelEnabled : bool;
  Worker_OTelServiceName : string
}.

Definition zero_worker_config : WorkerConfig := mkWorkerConfig "" 0 0 0 0 false "".

Definition worker_fields : list FieldParams :=
  [mkField "DATABASE_URL" false ""; mkField "DB_MAX_CONNS" true "5";
   mkField "MAIL_POLL_INTERVAL" true "1s"; mkField "LOG_LEVEL" true "info";
   mkField "SHUTDOWN_TIMEOUT" true "10s"; mkField "OTEL_ENABLED" true "false";
   mkField "OTEL_SERVICE_NAME" false ""].

Definition worker_infrastructure (cfg : WorkerConfig) : InfraConfig :=
  mkInfraConfig (Worker_DatabaseURL cfg) (Worker_DBMaxConns cfg) (Worker_LogLevel cfg)
    (Worker_OTelEnabled cfg) (Worker_OTelServiceName cfg) (Worker_ShutdownTimeout cfg).

Definition WorkerConfig_Validate (c : WorkerConfig) : option error :=
  match InfraConfig_Validate (worker_infrastructure c) with
  | Some err => Some err
  | None =>
    if MailPollInterval c <=? 0 then Some (EText "MAIL_POLL_INTERVAL 必须为正时长") else None
  end.

Definition WorkerConfig_Parse (env_parse : gmap string string → WorkerConfig * option env_error)
    (lookup : option (string → option string)) : WorkerConfig * option error :=
  let '(c, err) := env_Parse zero_worker_config (Some worker_fields) env_parse lookup in
  match err with
  | Some err => (c, Some err)
  | None => (c, WorkerConfig_Validate c)
  end.

(** ** Facts *)

(** The options [newAccounts] takes from the configuration. *)
Definition config_options (c : Config) : Options :=
  {| IdleTTL := AuthSessionIdleTTL c; MaxTTL := AuthSessionMaxTTL c;
     FrontendURL := Config_FrontendURL c |}.

Lemma Validate_options c : Config_Validate c = None →
  NewService (config_options c) = Ok (config_options c).
Proof.
  unfold Config_Validate, NewService. intros H. split_matches_in H.
  simpl. destruct (_ || _)%bool eqn:E'; [|done]. bool_to_prop. lia.
Qed.

Lemma Validate_positive c : Config_Validate c = None →
  0 < RequestTimeout c ∧ 0 < ShutdownTimeout c ∧ 1 <= DBMaxConns c
  ∧ Minute <= AuthSessionIdleTTL c <= AuthSessionMaxTTL c.
Proof.
  unfold Config_Validate, InfraConfig_Validate, positive_durations. simpl. intros H.
  split_matches_in H; bool_to_prop; lia.
Qed.

Lemma collect_lookup lookup fields values values' key :
  collect lookup fields values = Ok values' →
  values' !! key = if bool_decide (key ∈ Key <$> fields)
                   then (match lookup key with Some v => Some v | None => values !! key end)
                   else values !! key.
Proof.
  revert values. induction fields as [|f fields IH]; intros values H; cbn [collect] in H.
  { simplify_eq. done. }
  assert (Hl : ∀ vs, collect lookup fields vs = Ok values' →
    (∀ k, k ≠ Key f → vs !! k = values !! k) → 
    (key = Key f → vs !! key = match lookup key with Some v => Some v | None => values !! key end) →
    values' !! key = if bool_decide (key ∈ Key <$> (f :: fields))
                     then match lookup key with Some v => Some v | None => values !! key end
                     else values !! key).
  { intros vs Hvs H1 H2. rewrite (IH vs Hvs). destruct (decide (key = Key f)) as [Hk|Hk].
    - rewrite (bool_decide_eq_true_2 (key ∈ Key <$> f :: fields)) by (rewrite fmap_cons, Hk; left).
      rewrite H2 by done. destruct (bool_decide _); [|done]. by destruct (lookup key).
    - rewrite H1 by done. rewrite (bool_decide_ext (key ∈ Key <$> f :: fields) (key ∈ Key <$> fields)); [done|].
      rewrite fmap_cons, elem_of_cons. naive_solver. }
  destruct (lookup (Key f)) as [v|] eqn:El.
  - destruct (_ && _ && _)%bool; [done|]. apply (Hl _ H).
    + intros k Hk. by rewrite lookup_insert_ne.
    + intros ->. rewrite El. apply lookup_insert_eq.
  - apply (Hl _ H); [done|]. intros ->. by rewrite El.
Qed.

Lemma collect_nonempty lookup fields values values' f :
  collect lookup fields values = Ok values' → f ∈ fields → HasDefaultValue f = true →
  DefaultValue f ≠ "" → lookup (Key f) ≠ Some "".
Proof.
  revert values. induction fields as [|g fields IH]; intros values H Hf Hh Hd Hv; [by apply elem_of_nil in Hf|].
  cbn [collect] in H. apply elem_of_cons in Hf as [<-|Hf].
  - rewrite Hv, Hh in H. simpl in H. rewrite bool_decide_eq_false_2 in H by done. done.
  - destruct (lookup (Key g)) as [v|]; [|by eapply IH].
    destruct (_ && _ && _)%bool; [done|by eapply IH].
Qed.

(** What the library's error texts contain never reaches the program's error. *)
Fixpoint redact (err : env_error) : env_error :=
  match err with
  | AggregateError errors => AggregateError (map redact errors)
  | ParseError name _ => ParseError name ""
  | VarIsNotSetError key => VarIsNotSetError key
  | EmptyVarError key => EmptyVarError key
  | OtherEnvError _ => OtherEnvError ""
  end.

Lemma sanitize_redact err : sanitize (redact err) = sanitize err.
Proof.
  revert err. fix go 1. intros [errors|name d|key|key|d]; try reflexivity. simpl. f_equal.
  induction errors as [|e errors IH]; [reflexivity|]. simpl. f_equal; [apply go|exact IH].
Qed.

(** A failed conversion is always reported. *)
Lemma sanitize_reports err : reports err = true → is_Some (sanitize err).
Proof.
  revert err. fix go 1. intros [errors|name d|key|key|d] H; try (by eexists).
  simpl in *. destruct (Join (map sanitize errors)) eqn:E; [by eexists|exfalso].
  apply Join_None in E. induction errors as [|e errors IH]; [done|].
  simpl in *. inversion E as [|? ? He Hes]; subst. apply orb_true_iff in H as [H|H]; [|by apply IH].
  apply go in H as [x Hx]. congruence.
Qed.

(** C36: A configuration the API starts with: only the values of its own variables reached the
    conversion, unset ones are left to the defaults, no variable with a default was set to the
    empty string, all durations are positive, and the account service accepts the options. *)
Theorem Parse_starts env_parse lookup c :
  (∀ values cfg err, env_parse values = (cfg, Some err) → reports err = true) →
  Config_Parse env_parse (Some lookup) = (c, None) →
  (∃ values, env_parse values = (c, None)
    ∧ (∀ key, values !! key = if bool_decide (key ∈ Key <$> config_fields) then lookup key else None))
  ∧ (∀ f, f ∈ config_fields → HasDefaultValue f = true → lookup (Key f) ≠ Some "")
  ∧ 0 < RequestTimeout c ∧ 0 < ShutdownTimeout c ∧ 1 <= DBMaxConns c
  ∧ NewService (config_options c) = Ok (config_options c).
Proof.
  unfold Config_Parse, env_Parse. intros Hlib H.
  destruct (collect lookup config_fields ∅) as [values|e] eqn:Ec; [|done].
  destruct (env_parse values) as [cfg [e|]] eqn:Ee.
  { apply Hlib, sanitize_reports in Ee as [x Hx]. by rewrite Hx in H. }
  injection H as <- Hv. split_and!.
  - exists values. split; [done|]. intros key. rewrite (collect_lookup _ _ _ _ key Ec), lookup_empty.
    destruct (bool_decide _); [|done]. by destruct (lookup key).
  - intros f Hf Hh. apply (collect_nonempty _ _ _ _ f Ec Hf Hh).
    assert (Forall (λ f, HasDefaultValue f = true → DefaultValue f ≠ "") config_fields) as Hd
      by (repeat constructor; done).
    rewrite Forall_forall in Hd. by apply Hd.
  - apply Validate_positive in Hv. lia.
  - apply Validate_positive in Hv. lia.
  - apply Validate_positive in Hv. lia.
  - by apply Validate_options.
Qed.

End validation.
