(* ===== verification/AccountStore.v ===== *)
(** * [internal/modules/account/store.go], [store_flows.go]: the only writers

    Every write of the account module goes through these operations. They check the
    fields before the statement runs; the statement keeps the constraints. [q] is the
    handle the store was made for: the pool or a transaction. *)
From S2P Require Import Prelude.
From S2P Require Import Text.
From S2P Require Import GoErrors.
From S2P Require Import Runtime.
From S2P Require Import Identity.
From S2P Require Import Schema.
From S2P Require Import Json.
From S2P Require Import Storage.
From S2P Require Import Queries.
From S2P Require Import AuthQueries.
From S2P Require Import MailQueries.
From S2P Require Import AccountModel.

Definition maxAuditActionRunes : Z := 100.
Definition maxAuditMetadataBytes : Z := Z.shiftl 8 10.
Definition maxMailKindBytes : Z := 64.
Definition maxMailSubjectBytes : Z := 998.
Definition maxMailBodyBytes : Z := Z.shiftl 64 10.

Definition sha256_size : Z := 32.

(** The zero [time.Time], January 1 of the year 1, on the axis of nanoseconds since 1970. *)
Definition zero_time : time := - 62135596800 * Second.

Definition validBytes (value : string) (max : Z) : bool :=
  ((value !=? "") && (len value <=? max) && ValidString value && negb (ContainsByte NUL value))%bool.

Definition validOptionalIdentifier (values : list (option string)) : bool :=
  forallb (λ v, match v with Some id => Identifier id | None => true end) values.

Section store.
  Context `{Run : Runtime, Sch : Schedule}.

(** [return ErrInvalid] unless the parameters are valid. *)
Definition require_valid (ok : bool) : M unit := if ok then mret tt else fail (EBusiness ErrInvalid).

Definition validEmailPair (email normalized : option string) : bool :=
  match email, normalized with
  | Some email, Some normalized =>
    match normalizeEmail email with
    | Ok value => ((value ==? normalized) && (email ==? TrimSpace email))%bool
    | Err _ => false
    end
  | _, _ => false
  end.

Definition store_CreatePendingUser (q : dbtx) (email normalized : option string) : M User :=
  _ ← require_valid (validEmailPair email normalized);
  n ← next_step;
  exec q (CreatePendingUser (NewID n) email normalized).

Definition store_CreateFederatedUser (q : dbtx) (name : string) : M User :=
  _ ← require_valid (TextWithin name maxDisplayNameRunes);
  n ← next_step;
  exec q (CreateFederatedUser (NewID n) name).

Definition store_ActivateUser (q : dbtx) (id : string) : M User :=
  u ← exec q (GetUser id);
  _ ← require_valid (validEmailPair (User_Email u) (User_EmailNormalized u));
  exec q (ActivateUser id).

Definition store_UpdateUserEmail (q : dbtx) (id : string) (email normalized : option string)
    : M User :=
  _ ← require_valid (validEmailPair email normalized);
  exec q (UpdateUserEmail id email normalized).

Definition store_ReleasePendingEmail (q : dbtx) (email : string) : M unit :=
  match normalizeEmail email with
  | Err _ => fail (EBusiness ErrInvalid)
  | Ok normalized =>
    if normalized !=? email then fail (EBusiness ErrInvalid)
    else exec q (ReleasePendingEmail (Some email))
  end.

Definition store_UpdateUserProfile (q : dbtx) (id name session_id : string) : M User :=
  _ ← require_valid (TextWithin name maxDisplayNameRunes);
  exec q (UpdateUserProfile id name session_id).

Definition store_SetUserStatus (q : dbtx) (id status : string) : M User :=
  _ ← require_valid (Settable_ status);
  exec q (SetUserStatus id status).

Definition nonempty (s : option string) : bool :=
  match s with Some s => s !=? "" | None => false end.

(** A credential belongs to its user, any other account to a provider's namespace. *)
Definition account_params_ok (p : CreateAccountParams) : bool :=
  (Identifier (CreateAccount_UserID p)
   && (CreateAccount_ProviderID p !=? "") && TextWithin (CreateAccount_ProviderID p) maxProviderIDRunes
   && validBytes (CreateAccount_ProviderAccountID p) maxProviderSubjectBytes
   && validBytes (CreateAccount_ProviderNamespace p) maxProviderNamespaceBytes
   && if CreateAccount_ProviderID p ==? CredentialProvider
      then (CreateAccount_ProviderNamespace p ==? LocalNamespace)
           && (CreateAccount_ProviderAccountID p ==? CreateAccount_UserID p)
           && nonempty (CreateAccount_PasswordHash p)
      else (CreateAccount_ProviderNamespace p !=? LocalNamespace)
           && (CreateAccount_PasswordHash p ==? None))%bool.

(** The identifier is drawn by the store. *)
Definition store_CreateAccount (q : dbtx) (p : CreateAccountParams) : M Account :=
  _ ← require_valid (account_params_ok p);
  n ← next_step;
  exec q (CreateAccount (mkCreateAccountParams (NewID n) (CreateAccount_UserID p)
            (CreateAccount_ProviderID p) (CreateAccount_ProviderAccountID p)
            (CreateAccount_ProviderNamespace p) (CreateAccount_PasswordHash p))).

Definition store_ChangePassword (q : dbtx) (id user_id : string) (hash : option string) : M Z :=
  _ ← require_valid (nonempty hash);
  exec q (ChangePassword id user_id hash).

Definition store_UpgradePasswordHash (q : dbtx) (id user_id : string) (new old : option string)
    : M unit :=
  _ ← require_valid (nonempty new);
  a ← exec q (GetAccount id user_id);
  _ ← require_valid (Account_ProviderID a ==? CredentialProvider);
  exec q (UpgradePasswordHash id user_id new old).

Definition session_params_ok (p : CreateSessionParams) : bool :=
  (Identifier (CreateSession_UserID p) && Identifier (CreateSession_AuthSourceID p)
   && (len (CreateSession_TokenHash p) =? sha256_size) && AuthMethod_Valid (CreateSession_AuthMethod p)
   && (0 <? CreateSession_AuthVersion p) && (0 <? CreateSession_IdleSeconds p)
   && (CreateSession_IdleSeconds p <=? CreateSession_MaxSeconds p))%bool.

Definition store_CreateSession (q : dbtx) (p : CreateSessionParams) : M UserSession :=
  _ ← require_valid (session_params_ok p);
  n ← next_step;
  exec q (CreateSession (mkCreateSessionParams (NewID n) (CreateSession_UserID p)
            (CreateSession_TokenHash p) (CreateSession_AuthMethod p) (CreateSession_AuthSourceID p)
            (CreateSession_AuthVersion p) (CreateSession_IdleSeconds p) (CreateSession_MaxSeconds p))).

Definition is_some {A} (o : option A) : bool := match o with Some _ => true | None => false end.

(** A flow bound to a user is bound to a session, and only public flows are unbound. *)
Definition flow_params_ok (p : CreateFlowParams) : bool :=
  (Identifier (CreateFlow_ID p)
   && validOptionalIdentifier [CreateFlow_UserID p; CreateFlow_SessionID p; CreateFlow_AccountID p;
                               CreateFlow_ReauthenticationID p]
   && FlowPurpose_Valid (CreateFlow_Purpose p) && Initial (CreateFlow_Status p)
   && match CreateFlow_TokenHash p with Some h => len h =? sha256_size | None => true end
   && Bool.eqb (is_some (CreateFlow_UserID p)) (is_some (CreateFlow_SessionID p))
   && (PublicStart (CreateFlow_Purpose p) || is_some (CreateFlow_UserID p))
   && (negb (is_some (CreateFlow_UserID p)) || (0 <? CreateFlow_AuthVersion p))
   && (negb (is_some (CreateFlow_AccountID p)) || (0 <? CreateFlow_AccountVersion p)))%bool.

Definition store_CreateFlow (q : dbtx) (p : CreateFlowParams) : M AuthFlow :=
  _ ← require_valid (flow_params_ok p);
  exec q (CreateFlow p).

Definition verification_params_ok (p : CreateVerificationParams) : bool :=
  (Identifier (CreateVerification_UserID p)
   && validOptionalIdentifier [CreateVerification_SessionID p; CreateVerification_ReauthenticationID p]
   && VerificationPurpose_Valid (CreateVerification_Purpose p)
   && (len (CreateVerification_TokenHash p) =? sha256_size)
   && (0 <? CreateVerification_AuthVersion p) && (0 <? CreateVerification_TtlSeconds p)
   && is_ok (normalizeEmail (CreateVerification_Email p)))%bool.

Definition store_CreateVerification (q : dbtx) (p : CreateVerificationParams) : M AuthVerification :=
  _ ← require_valid (verification_params_ok p);
  n ← next_step;
  exec q (CreateVerification (mkCreateVerificationParams (NewID n) (CreateVerification_UserID p)
            (CreateVerification_Purpose p) (CreateVerification_TokenHash p)
            (CreateVerification_Email p) (CreateVerification_AuthVersion p)
            (CreateVerification_SessionID p) (CreateVerification_ReauthenticationID p)
            (CreateVerification_TtlSeconds p))).

Definition store_RateLimit (q : dbtx) (bucket_key : string) (window_seconds : Z) : M RateLimitRow :=
  _ ← require_valid ((len bucket_key =? sha256_size) && (0 <? window_seconds))%bool;
  exec q (RateLimit bucket_key window_seconds).

(** Anonymous events have no actor, all others have one; the metadata is an object. *)
Definition audit_params_ok (p : AppendAuditParams) : bool :=
  ((AppendAudit_Action p !=? "") && TextWithin (AppendAudit_Action p) maxAuditActionRunes
   && AuditOutcome_Valid (AppendAudit_Outcome p) && AuditActorType_Valid (AppendAudit_ActorType p)
   && Bool.eqb (AppendAudit_ActorType p ==? ActorAnonymous) (negb (is_some (AppendAudit_ActorID p)))
   && validOptionalIdentifier [AppendAudit_ActorID p; AppendAudit_ResourceID p;
                               AppendAudit_ScopeSubject p; AppendAudit_SessionID p]
   && (len (Marshal (AppendAudit_Metadata p)) <=? maxAuditMetadataBytes)
   && is_object (AppendAudit_Metadata p))%bool.

Definition store_AppendAudit (q : dbtx) (p : AppendAuditParams) : M unit :=
  _ ← require_valid (audit_params_ok p);
  n ← next_step;
  exec q (AppendAudit (mkAppendAuditParams (NewID n) (AppendAudit_Action p) (AppendAudit_Outcome p)
            (AppendAudit_ActorType p) (AppendAudit_ActorID p) (AppendAudit_ResourceType p)
            (AppendAudit_ResourceID p) (AppendAudit_ScopeSubject p) (AppendAudit_SessionID p)
            (AppendAudit_RequestID p) (AppendAudit_ReasonCode p) (AppendAudit_Metadata p))).

Definition store_EnqueueMail (q : dbtx) (p : EnqueueMailParams) : M unit :=
  _ ← require_valid (Identifier (EnqueueMail_ID p) && validBytes (EnqueueMail_Kind p) maxMailKindBytes
                     && validBytes (EnqueueMail_Subject p) maxMailSubjectBytes
                     && validBytes (EnqueueMail_Body p) maxMailBodyBytes
                     && (EnqueueMail_ExpiresAt p !=? zero_time))%bool;
  _ ← lift (normalizeEmail (EnqueueMail_Recipient p));
  exec q (EnqueueMail p).

Definition store_BumpUserVersion (q : dbtx) (id : string) : M unit := exec q (BumpUserVersion id).
Definition store_RevokeAccount (q : dbtx) (id user_id : string) : M Z := exec q (RevokeAccount id user_id).
Definition store_RevokeSession (q : dbtx) (id user_id : string) : M Z := exec q (RevokeSession id user_id).
Definition store_RevokeUserSessions (q : dbtx) (user_id : string) : M unit :=
  exec q (RevokeUserSessions user_id).
Definition store_TouchAccount (q : dbtx) (id user_id : string) : M unit := exec q (TouchAccount id user_id).
Definition store_TouchSession (q : dbtx) (idle_seconds : Z) (id user_id : string) (renewal_ms : Z)
    : M unit := exec q (TouchSession idle_seconds id user_id renewal_ms).

(** ** store_flows.go *)

(** One row must have changed. *)
Definition transitionResult (m : M Z) : M unit :=
  count ← m;
  if count =? 1 then mret tt else fail (EBusiness ErrCredentials).

Definition claimPendingFlow (q : dbtx) (id : string) : M unit := transitionResult (exec q (ClaimFlow id)).

Definition claimAuthorization (q : dbtx) (id claim : string) : M unit :=
  transitionResult (exec q (ClaimAuthorization id (Some claim))).

Definition consumeFlow (q : dbtx) (id expected : string) : M unit :=
  if bool_decide (expected ∈ [FlowProcessing; FlowVerified; FlowAuthorized; FlowClaimed])
  then transitionResult (exec q (FinishFlow id expected))
  else fail (EBusiness ErrCredentials).

Definition verifyFlow (q : dbtx) (id status : string) (verified : VerifiedIdentity) : M unit :=
  _ ← require_valid (Verifiable status && validBytes (Namespace verified) maxProviderNamespaceBytes
                     && (Namespace verified !=? LocalNamespace)
                     && validBytes (Identity_Subject verified) maxProviderSubjectBytes
                     && TextWithin (Identity_Name verified) maxDisplayNameRunes)%bool;
  verifiedAt ← time_Now;
  transitionResult (exec q (VerifyFlow (mkVerifyFlowParams id status (Namespace verified)
                      (Identity_Subject verified) (Identity_Name verified) (Some verifiedAt)))).

Definition consumeVerification (q : dbtx) (id user : string) : M unit :=
  transitionResult (exec q (ConsumeVerification id user)).

Definition store_FailFlow (q : dbtx) (id : string) : M unit := exec q (FailFlow id).

End store.
