(* ===== verification/AccountCore.v ===== *)
(** * [internal/modules/account]: the parts shared by its operations

    [audit.go], [authorization.go], [rate_limit.go], [notifications.go], the creation of
    challenges ([challenges.go]) and of sessions ([session.go]), and the verification of
    operation proofs ([reauthentication.go]). *)
From S2P Require Import Prelude.
From S2P Require Import Text.
From S2P Require Import GoErrors.
From S2P Require Import Runtime.
From S2P Require Import Identity.
From S2P Require Import Schema.
From S2P Require Import Json.
From S2P Require Import Storage.
From S2P Require Import Queries.
From S2P Require Import AuthQueries.
From S2P Require Import MailQueries.
From S2P Require Import AccountModel.
From S2P Require Import AccountStore.

(** ** audit.go *)

Record auditEvent : Type := mkAuditEvent_ {
  Event_Action : string;
  Event_Outcome : string;
  Event_ResourceType : string;
  Event_ResourceID : string;
  Event_ScopeSubject : string;
  Event_Reason : string;
  Event_Metadata : option json
}.

(** The fixed metadata records, as encoded by their tags. *)
Definition userStatusAuditMetadata (status : string) : json := JObject [("status", JString status)].
Definition accountProviderAuditMetadata (provider : string) : json :=
  JObject [("provider", JString provider)].
Definition loginAuditMetadata (method : string) : json := JObject [("method", JString method)].

Definition optional (v : string) : option string := if v ==? "" then None else Some v.

Definition success (action resource_type resource_id scope : string) (metadata : option json)
    : auditEvent :=
  mkAuditEvent_ action AuditSuccess resource_type resource_id scope "" metadata.

Section core.
  Context `{Run : Runtime, Sch : Schedule, Opt : Options, Pwd : Passwords, Fed : Federation}.

Definition audit_params (r : Request) (event : auditEvent) : AppendAuditParams :=
  mkAppendAuditParams "" (Event_Action event) (Event_Outcome event)
    (if r_UserID r !=? "" then ActorUser else ActorAnonymous)
    (if r_UserID r !=? "" then Some (r_UserID r) else None)
    (Event_ResourceType event) (optional (Event_ResourceID event))
    (optional (Event_ScopeSubject event))
    (if Identifier (r_SessionID r) then Some (r_SessionID r) else None)
    (optional (RequestID r)) (optional (Event_Reason event))
    (match Event_Metadata event with Some m => m | None => JObject [] end).

Definition audit (q : dbtx) (r : Request) (event : auditEvent) : M unit :=
  store_AppendAudit q (audit_params r event).

Definition failure_event (r : Request) (action : string) (err : error) : auditEvent :=
  let '(outcome, reason) :=
    if Is err (TBusiness ErrForbidden) then (AuditDenied, "permission_denied")
    else if Is err (TBusiness ErrCredentials) then (AuditFailure, "invalid_credentials")
    else (AuditFailure, "operation_failed") in
  mkAuditEvent_ action outcome "user" "" (r_UserID r) reason None.

(** Runs on the pool, after the business transaction; never changes the result. *)
Definition recordFailure (r : Request) (action : string) (err : error) : M unit :=
  if Is err (TBusiness ErrRateLimited) then mret tt
  else
    x ← try (audit Pool r (failure_event r action err));
    match x with
    | Ok _ => mret tt
    | Err e => log_attrs "审计写入失败"
                 ([("stage", "append_audit"); ("action", action); ("request_id", RequestID r)]
                  ++ DiagnosticAttrs (Some e))
    end.

(** [defer s.recordFailureOnReturn(ctx, r, action, &failureErr)] *)
Definition recordFailureOnReturn {A} (r : Request) (action : string) (m : M A) : M A :=
  with_defer m (λ err, _ ← recordFailure r action err; mret err).

(** ** authorization.go *)

Definition requireSubject (s : Subject_) : res error unit :=
  res_bind (RequireSubject (UserID s)) (λ _, RequireSubject (SessionID s)).

Definition unauthenticated : error := EBusiness ErrUnauthenticated.

Definition lockSelf (q : dbtx) (r : Request) : M (User * UserSession) :=
  _ ← lift (requireSubject (Subject_of r));
  user ← map_err (missing_as unauthenticated) (exec q (LockUser (r_UserID r)));
  session ← map_err (missing_as unauthenticated)
              (exec q (GetValidSession (r_SessionID r) (r_UserID r)));
  mret (user, session).

Definition readSelf (q : dbtx) (r : Request) : M (User * UserSession) :=
  _ ← lift (requireSubject (Subject_of r));
  user ← map_err (missing_as unauthenticated) (exec q (GetUser (r_UserID r)));
  session ← map_err (missing_as unauthenticated)
              (exec q (GetValidSession (r_SessionID r) (r_UserID r)));
  mret (user, session).

Definition invalidate (q : dbtx) (userID : string) : M unit :=
  _ ← store_BumpUserVersion q userID;
  store_RevokeUserSessions q userID.

(** ** rate_limit.go *)

Definition ipRequestLimit : Z := 60.
Definition ipRateWindow : time := Minute.
Definition subjectRequestLimit : Z := 10.
Definition subjectRateWindow : time := 15 * Minute.

(** [int64(d.Seconds())] *)
Definition Seconds (d : time) : Z := d `quot` Second.

Definition limit (category key : string) (max : Z) (window : time) : M unit :=
  let digest := sha256_Sum256 (category +:+ String NUL "" +:+ key) in
  bucket ← map_err (wrap ErrUnavailable) (store_RateLimit Pool digest (Seconds window));
  if max <? RateLimit_Count bucket
  then match WithRetryAfter (Some (EBusiness ErrRateLimited))
               (RateLimit_RetryAfterSeconds bucket * Second) with
       | Some e => fail e
       | None => mret tt
       end
  else mret tt.

Definition entryLimit (r : Request) (category key : string) : M unit :=
  _ ← limit (category +:+ ".ip") (ClientIP r) ipRequestLimit ipRateWindow;
  limit (category +:+ ".subject") key subjectRequestLimit subjectRateWindow.

(** ** notifications.go *)

Definition securityNotificationTTL : time := 24 * Hour.
Definition verificationMailSubject : string := "Verify your account".
Definition securityNotificationSubject : string := "Account security notification".
Definition registrationCompletedNotification : string :=
  "您的账户已完成注册，邮箱验证及密码设置成功。您现在可以登录。".
Definition passwordResetNotification : string :=
  "您的账户密码已重置。如非本人操作，请立即联系管理员。".
Definition passwordChangedNotification : string :=
  "您的账户密码已修改。如非本人操作，请立即联系管理员。".
Definition emailChangedNotification : string :=
  "账户联系邮箱已修改。如果不是本人操作，请联系管理员。".
Definition accountLinkedNotification : string := "新的第三方登录账号已绑定。".
Definition accountUnlinkedNotification : string :=
  "一个登录账号已解除绑定，请使用保留的方式重新登录。".

(** The template with the link in its [href] attribute. *)
Definition verificationMailBody (link : string) : string :=
  "<p>请在有效期内完成账户验证。请勿转发此邮件。</p><p><a href=" +:+ quote
    +:+ EscapeString link +:+ quote +:+ ">验证账户</a></p>".

(** [url.Values.Encode] sorts the keys. *)
Definition link_fragment (purpose token : string) : string :=
  "purpose=" +:+ QueryEscape purpose +:+ "&token=" +:+ QueryEscape token.

Definition enqueueVerificationMail (q : dbtx) (v : AuthVerification) (token : string) : M unit :=
  match url_Link FrontendURL "/auth/verify" (link_fragment (AuthVerification_Purpose v) token) with
  | None => fail (EBusiness ErrUnavailable)
  | Some link =>
    n ← next_step;
    store_EnqueueMail q (mkEnqueueMailParams (NewID n) (AuthVerification_Purpose v)
      (AuthVerification_Email v) verificationMailSubject (verificationMailBody link)
      (AuthVerification_ExpiresAt v))
  end.

Definition enqueueSecurityNotification (q : dbtx) (user : User) (body : string) : M unit :=
  match User_Email user, User_EmailVerifiedAt user with
  | Some email, Some _ =>
    n ← next_step;
    now ← time_Now;
    store_EnqueueMail q (mkEnqueueMailParams (NewID n) SecurityNotificationKind email
      securityNotificationSubject ("<p>" +:+ EscapeString body +:+ "</p>")
      (now + securityNotificationTTL))
  | _, _ => mret tt
  end.

(** ** challenges.go *)

Definition registrationChallengeTTL : time := 24 * Hour.
Definition passwordResetChallengeTTL : time := 15 * Minute.
Definition emailChangeChallengeTTL : time := 5 * Minute.

Definition createChallenge (q : dbtx) (user : User) (purpose email : string) (ttl : time)
    (session reauth : option string) : M AuthVerification :=
  n ← next_step;
  let '(token, hash) := NewToken n ChallengePrefix in
  verification ← store_CreateVerification q (mkCreateVerificationParams "" (User_ID user) purpose
                   hash email (User_AuthVersion user) session reauth (Seconds ttl));
  _ ← enqueueVerificationMail q verification token;
  mret verification.

(** ** session.go: new sessions *)

Definition newSession (q : dbtx) (r : Request) (user : User) (account : Account) (method : string)
    : M SessionCredentials :=
  if ((User_Status user !=? UserActive) || (Account_UserID account !=? User_ID user)
      || (Account_RevokedAt account !=? None))%bool
  then fail (EBusiness ErrCredentials)
  else
    n ← next_step;
    let '(token, hash) := NewToken n SessionPrefix in
    row ← store_CreateSession q (mkCreateSessionParams "" (User_ID user) hash method
            (Account_ID account) (User_AuthVersion user) (Seconds IdleTTL) (Seconds MaxTTL));
    _ ← store_TouchAccount q (Account_ID account) (User_ID user);
    let r := mkRequest (mkSubject (User_ID user) (UserSession_ID row)) (RequestID r) (ClientIP r) in
    _ ← audit q r (success "auth.login" "session" (UserSession_ID row) (User_ID user)
                     (Some (loginAuditMetadata method)));
    mret (mkSessionCredentials token (UserSession_ID row) (UserSession_IdleExpiresAt row)
            (UserSession_AbsoluteExpiresAt row)).

(** ** linked_accounts.go, reauthentication.go: proofs *)

Definition accountEnabled (account : Account) : bool :=
  ((Account_ProviderID account ==? CredentialProvider)
   || Federation_Enabled (Account_ProviderID account))%bool.

Definition accountRecords (rows : list Account) : list AccountRecord :=
  (λ a, {| AccountRecord_ID := Account_ID a; AccountRecord_Provider := Account_ProviderID a;
           AccountRecord_CreatedAt := Account_CreatedAt a;
           AccountRecord_LastUsedAt := Account_LastUsedAt a;
           AccountRecord_Enabled := accountEnabled a |}) <$> rows.

Definition validateOperation (operation target : string) : res error unit :=
  let check (ok : bool) := if ok then Ok tt else Err (EBusiness ErrInvalid) in
  if operation ==? OperationLinkAccount then check (Federation_Enabled target)
  else if operation ==? OperationUnlinkAccount then check (Identifier target)
  else if operation ==? OperationSetPassword then check (target ==? CredentialProvider)
  else if operation ==? OperationChangeEmail
  then match normalizeEmail target with
       | Ok normalized => check (normalized ==? target)
       | Err _ => check false
       end
  else check false.

Definition reauth_failed : error := EBusiness ErrReauthentication.

(** The error of a lookup during the check of a proof. *)
Definition proof_lookup (err : error) : error :=
  proofError ErrReauthentication (credentialLookupError err).

(** Is the proof in the state that [claim] asks for? *)
Definition claim_matches (claim : option string) (proof : AuthFlow) : bool :=
  match claim with
  | None => AuthFlow_Status proof ==? FlowAuthorized
  | Some claim => ((AuthFlow_Status proof ==? FlowClaimed)
                   && (AuthFlow_ClaimedBy proof ==? Some claim))%bool
  end.

Definition authorization (q : dbtx) (r : Request) (id operation target : string)
    (claim : option string) : M AuthFlow :=
  if negb (Identifier id) then fail reauth_failed
  else
    proof ← map_err (missing_as reauth_failed) (exec q (GetFlow id));
    if AuthFlow_Purpose proof !=? FlowReauthenticate then fail reauth_failed
    else
    match AuthFlow_UserID proof, AuthFlow_SessionID proof, AuthFlow_AccountID proof with
    | Some user_id, Some session_id, Some account_id =>
      if ((user_id !=? r_UserID r) || (session_id !=? r_SessionID r))%bool then fail reauth_failed
      else if ((AuthFlow_Operation proof !=? operation) || (AuthFlow_Target proof !=? target))%bool
      then fail reauth_failed
      else if negb (claim_matches claim proof) then fail reauth_failed
      else
        user ← map_err proof_lookup (exec q (GetUser user_id));
        if ((User_Status user !=? UserActive)
            || negb (User_AuthVersion user =? AuthFlow_AuthVersion proof))%bool
        then fail reauth_failed
        else
          account ← map_err proof_lookup (exec q (GetAccount account_id (User_ID user)));
          if (negb (Account_Version account =? AuthFlow_AccountVersion proof)
              || negb (accountEnabled account))%bool
          then fail reauth_failed
          else
            _ ← map_err proof_lookup (exec q (GetValidSession session_id (User_ID user)));
            mret proof
    | _, _, _ => fail reauth_failed
    end.

Definition finishAuthorization (q : dbtx) (proof : AuthFlow) : M unit :=
  map_err (proofError ErrReauthentication) (consumeFlow q (AuthFlow_ID proof) (AuthFlow_Status proof)).

End core.
