(* ===== verification/AccountSessions.v ===== *)
(** * [internal/modules/account]: sessions, passwords, profile, registration and e-mail

    [session.go], [registration.go], [challenges.go], [email.go], [password.go],
    [profile.go], [admin.go] and [admin_checker.go]. *)
From S2P Require Import Prelude.
From S2P Require Import Text.
From S2P Require Import GoErrors.
From S2P Require Import Runtime.
From S2P Require Import Identity.
From S2P Require Import Pagination.
From S2P Require Import Schema.
From S2P Require Import Json.
From S2P Require Import Storage.
From S2P Require Import Queries.
From S2P Require Import AuthQueries.
From S2P Require Import AccountModel.
From S2P Require Import AccountStore.
From S2P Require Import AccountCore.

Section service.
  Context `{Run : Runtime, Sch : Schedule, Opt : Options, Pwd : Passwords, Fed : Federation}.

Definition storage (err : error) : error := MapError err storageErrors.

(** [db.WithTransaction(ctx, s.database, storageErrors, ...)] *)
Definition transaction {A} (fn : dbtx → M A) : M A := WithTransaction storageErrors fn.

Definition business {A} (b : Error) : M A := fail (EBusiness b).

(** A call of [Passwords]. *)
Definition hash_password (password : string) : M string :=
  n ← next_step; lift (Passwords_Hash n password).

Definition verify_password (hash : option string) (password : string) : M (bool * bool) :=
  n ← next_step; lift (Passwords_Verify n (text hash) password).

(** ** session.go *)

Definition AuthenticateSession (token : string) : M (string * string) :=
  match TokenDigest token SessionPrefix with
  | Err _ => fail (ESentinel IdentityErrUnauthorized)
  | Ok hash =>
    session ← map_err (missing_as (ESentinel IdentityErrUnauthorized)) (exec Pool (FindSession hash));
    let renewalInterval := Minute `min` (IdleTTL `quot` 2) in
    now ← time_Now;
    _ ← (if renewalInterval <=? now - UserSession_LastSeenAt session
         then store_TouchSession Pool (Seconds IdleTTL) (UserSession_ID session)
                (UserSession_UserID session) (renewalInterval `quot` Millisecond)
         else mret tt);
    mret (UserSession_UserID session, UserSession_ID session)
  end.

(** The business transaction of [Login], with what was read before it. *)
Definition login_transaction (r : Request) (user : User) (account : Account) (newHash : string)
    : M SessionCredentials :=
  transaction (λ q,
    currentUser ← exec q (LockUser (User_ID user));
    currentAccount ← map_err credentialLookupError
                       (exec q (GetAccount (Account_ID account) (User_ID user)));
    if (negb (User_AuthVersion currentUser =? User_AuthVersion user)
        || negb (Account_Version currentAccount =? Account_Version account)
        || (User_Status currentUser !=? UserActive))%bool
    then business ErrCredentials
    else
      _ ← (if newHash !=? ""
           then store_UpgradePasswordHash q (Account_ID account) (User_ID user) (Some newHash)
                  (Account_PasswordHash account)
           else mret tt);
      newSession q r currentUser currentAccount MethodPassword).

Definition Login (r : Request) (email password : string) : M SessionCredentials :=
  recordFailureOnReturn r "auth.login" (
    match normalizeEmail email with
    | Err _ => business ErrCredentials
    | Ok email =>
      _ ← entryLimit r "login" email;
      found ← try (exec Pool (FindUserByEmail (Some email)));
      _ ← match found with
          | Err e => if no_rows e then mret tt else fail (storage e)
          | Ok _ => mret tt
          end;
      let user_id := match found with Ok user => User_ID user | Err _ => "" end in
      credential ← try (exec Pool (GetPasswordAccount user_id));
      _ ← match credential with
          | Err e => if no_rows e then mret tt else fail (storage e)
          | Ok _ => mret tt
          end;
      '(valid, upgrade) ← verify_password
                            (match credential with Ok a => Account_PasswordHash a | Err _ => None end)
                            password;
      match found, credential with
      | Ok user, Ok account =>
        if (negb valid || (User_Status user !=? UserActive)
            || (User_EmailVerifiedAt user ==? None))%bool
        then business ErrCredentials
        else
          newHash ← (if (upgrade : bool) then hash_password password else mret "");
          login_transaction r user account newHash
      | _, _ => business ErrCredentials
      end
    end).

Definition sessionRecord (s : UserSession) : SessionRecord :=
  {| SessionRecord_ID := UserSession_ID s; SessionRecord_Method := UserSession_AuthMethod s;
     SessionRecord_AuthenticatedAt := UserSession_AuthenticatedAt s;
     SessionRecord_CreatedAt := UserSession_CreatedAt s;
     SessionRecord_LastSeenAt := UserSession_LastSeenAt s;
     SessionRecord_IdleExpiresAt := UserSession_IdleExpiresAt s;
     SessionRecord_AbsoluteExpiresAt := UserSession_AbsoluteExpiresAt s |}.

Definition Sessions (r : Request) (p : Params) : M (Result SessionRecord) :=
  match Params_Validate p with
  | Some _ => business ErrInvalid
  | None =>
    '(user, _) ← map_err storage (readSelf Pool r);
    rows ← map_err storage (exec Pool (ListSessions (User_ID user) (FetchLimit p) (Offset p)));
    lift (Build rows p sessionRecord)
  end.

Definition RevokeSession (r : Request) (id : string) (all : bool) : M unit :=
  if (negb all && negb (Identifier id))%bool then business ErrInvalid
  else transaction (λ q,
    '(user, _) ← lockSelf q r;
    _ ← (if all then invalidate q (User_ID user)
         else count ← store_RevokeSession q id (User_ID user);
              if count =? 0 then business ErrNotFound else mret tt);
    let '(kind, target) := if all then ("user", User_ID user) else ("session", id) in
    audit q r (success "session.revoke" kind target (User_ID user) None)).

(** ** registration.go *)

Definition Register (r : Request) (email : string) : M unit :=
  email ← lift (normalizeEmail email);
  if FrontendURL ==? "" then business ErrUnavailable
  else
    _ ← entryLimit r "register" email;
    transaction (λ q,
      user ← store_CreatePendingUser q (Some email) (Some email);
      if User_Status user !=? UserPending then mret tt
      else
        _ ← createChallenge q user VerifyRegister email registrationChallengeTTL None None;
        mret tt).

Definition ForgotPassword (r : Request) (email : string) : M unit :=
  email ← lift (normalizeEmail email);
  if FrontendURL ==? "" then business ErrUnavailable
  else
    _ ← entryLimit r "forgot" email;
    transaction (λ q,
      found ← try (exec q (FindUserByEmail (Some email)));
      match found with
      | Err e => if no_rows e then mret tt else fail e
      | Ok user =>
        if ((User_Status user !=? UserActive) || negb (User_RecoveryEnabled user)
            || (User_EmailVerifiedAt user ==? None))%bool
        then mret tt
        else
          credential ← try (exec q (GetPasswordAccount (User_ID user)));
          match credential with
          | Err e => if no_rows e then mret tt else fail e
          | Ok _ =>
            _ ← createChallenge q user VerifyResetPassword (text (User_EmailNormalized user))
                  passwordResetChallengeTTL None None;
            mret tt
          end
      end).

Definition credential_params (user_id password_hash : string) : CreateAccountParams :=
  mkCreateAccountParams "" user_id CredentialProvider user_id LocalNamespace (Some password_hash).

Definition completeRegistration (q : dbtx) (user : User) (v : AuthVerification) (hash : string)
    : M User :=
  if ((User_Status user !=? UserPending)
      || (text (User_EmailNormalized user) !=? AuthVerification_Email v))%bool
  then business ErrCredentials
  else
    _ ← store_CreateAccount q (credential_params (User_ID user) hash);
    store_ActivateUser q (User_ID user).

Definition completePasswordReset (q : dbtx) (user : User) (v : AuthVerification) (hash : string)
    : M unit :=
  if ((User_Status user !=? UserActive) || negb (User_RecoveryEnabled user)
      || (User_EmailVerifiedAt user ==? None)
      || (text (User_EmailNormalized user) !=? AuthVerification_Email v))%bool
  then business ErrCredentials
  else
    account ← map_err credentialLookupError (exec q (GetPasswordAccount (User_ID user)));
    _ ← store_ChangePassword q (Account_ID account) (User_ID user) (Some hash);
    invalidate q (User_ID user).

(** ** email.go *)

Definition ChangeEmail (r : Request) (email reauthID : string) : M unit :=
  recordFailureOnReturn r "user.email_change" (
    email ← lift (normalizeEmail email);
    if FrontendURL ==? "" then business ErrUnavailable
    else
      _ ← entryLimit r "email" (r_UserID r);
      transaction (λ q,
        '(user, session) ← readSelf q r;
        _ ← authorization q r reauthID OperationChangeEmail email None;
        verification ← createChallenge q user VerifyChangeEmail email emailChangeChallengeTTL
                         (Some (UserSession_ID session)) (Some reauthID);
        map_err (proofError ErrReauthentication)
          (claimAuthorization q reauthID (AuthVerification_ID verification)))).

Definition completeEmailChange (q : dbtx) (user : User) (v : AuthVerification) : M unit :=
  match AuthVerification_SessionID v, AuthVerification_ReauthenticationID v with
  | Some session_id, Some reauth_id =>
    let req := mkRequest (mkSubject (User_ID user) session_id) "" "" in
    _ ← map_err credentialLookupError (exec q (GetValidSession session_id (User_ID user)));
    proof ← authorization q req reauth_id OperationChangeEmail (AuthVerification_Email v)
              (Some (AuthVerification_ID v));
    _ ← finishAuthorization q proof;
    _ ← store_ReleasePendingEmail q (AuthVerification_Email v);
    _ ← store_UpdateUserEmail q (User_ID user) (Some (AuthVerification_Email v))
          (Some (AuthVerification_Email v));
    _ ← store_RevokeUserSessions q (User_ID user);
    enqueueSecurityNotification q user emailChangedNotification
  | _, _ => business ErrCredentials
  end.

(** ** challenges.go *)

(** The callback of the transaction assigns [r.UserID], which the deferred function
    reads. *)
Definition assign_user (id : string) : M unit := λ w, (Ok tt, w <| w_user := id |>).

Definition captured_request (r : Request) : M Request := λ w,
  (Ok (mkRequest (mkSubject (w_user w) (r_SessionID r)) (RequestID r) (ClientIP r)), w).

Definition verification_hash (input : Verification) : M string :=
  if ((Purpose input ==? VerifyRegister) || (Purpose input ==? VerifyResetPassword))%bool then
    if negb (Passwords_Validate (NewPassword input)) then business ErrInvalid
    else hash_password (NewPassword input)
  else if Purpose input ==? VerifyChangeEmail then
    if NewPassword input !=? "" then business ErrInvalid else mret ""
  else business ErrInvalid.

Definition verify_transaction (r : Request) (v : AuthVerification) (input : Verification)
    (hash : string) : M unit :=
  transaction (λ q,
    user ← exec q (LockUser (AuthVerification_UserID v));
    if (negb (User_AuthVersion user =? AuthVerification_AuthVersion v)
        || (User_Status user ==? UserDisabled))%bool
    then business ErrCredentials
    else
      '(user, notification) ←
        (if Purpose input ==? VerifyRegister then
           user ← completeRegistration q user v hash;
           mret (user, registrationCompletedNotification)
         else if Purpose input ==? VerifyResetPassword then
           _ ← completePasswordReset q user v hash;
           mret (user, passwordResetNotification)
         else if Purpose input ==? VerifyChangeEmail then
           _ ← completeEmailChange q user v;
           mret (user, "")
         else business ErrInvalid);
      _ ← consumeVerification q (AuthVerification_ID v) (User_ID user);
      _ ← (if notification !=? "" then enqueueSecurityNotification q user notification else mret tt);
      _ ← assign_user (User_ID user);
      audit q (mkRequest (mkSubject (User_ID user) (r_SessionID r)) (RequestID r) (ClientIP r))
        (success ("auth." +:+ Purpose input) "user" (User_ID user) (User_ID user) None)).

Definition VerifyChallenge (r : Request) (token : string) (input : Verification) : M unit :=
  _ ← assign_user (r_UserID r);
  with_defer (
    _ ← limit "verify.ip" (ClientIP r) ipRequestLimit ipRateWindow;
    match TokenDigest token ChallengePrefix with
    | Err _ => business ErrCredentials
    | Ok hash =>
      verification ← map_err credentialLookupError (exec Pool (FindVerification hash));
      if AuthVerification_Purpose verification !=? Purpose input then business ErrCredentials
      else
        hash ← verification_hash input;
        verify_transaction r verification input hash
    end)
    (λ err,
      let err := proofError ErrVerification err in
      r ← captured_request r;
      _ ← recordFailure r "auth.verify" err;
      mret err).

(** ** password.go *)

Definition maxLoginAccounts : Z := 10.

Definition set_password_transaction (r : Request) (userBefore : User) (before : option Account)
    (reauthID hash : string) : M unit :=
  transaction (λ q,
    '(user, _) ← lockSelf q r;
    if negb (User_AuthVersion user =? User_AuthVersion userBefore) then business ErrReauthentication
    else
      current ← try (exec q (GetPasswordAccount (User_ID user)));
      _ ← match before with
          | Some passwordAccount =>
            currentAccount ← map_err proof_lookup (lift current);
            if ((Account_ID currentAccount !=? Account_ID passwordAccount)
                || negb (Account_Version currentAccount =? Account_Version passwordAccount))%bool
            then business ErrReauthentication
            else
              _ ← store_ChangePassword q (Account_ID passwordAccount) (User_ID user) (Some hash);
              mret tt
          | None =>
            match current with
            | Ok _ => business ErrConflict
            | Err e =>
              if negb (no_rows e) then fail e
              else if User_EmailVerifiedAt user ==? None then business ErrInvalid
              else
                proof ← authorization q r reauthID OperationSetPassword CredentialProvider None;
                accounts ← exec q (ListAccounts (User_ID user));
                if maxLoginAccounts <=? Z.of_nat (length accounts) then business ErrConflict
                else
                  _ ← store_CreateAccount q (credential_params (User_ID user) hash);
                  finishAuthorization q proof
            end
          end;
      _ ← invalidate q (User_ID user);
      _ ← enqueueSecurityNotification q user passwordChangedNotification;
      audit q r (success "account.password_change" "user" (User_ID user) (User_ID user) None)).

Definition SetPassword (r : Request) (currentPassword newPassword reauthID : string) : M unit :=
  recordFailureOnReturn r "account.password_change" (
    if ((reauthID !=? "") && negb (Identifier reauthID))%bool then business ErrInvalid
    else if negb (Passwords_Validate newPassword) then business ErrInvalid
    else
      _ ← entryLimit r "password" (r_UserID r);
      '(userBefore, _) ← map_err storage (readSelf Pool r);
      credential ← try (exec Pool (GetPasswordAccount (User_ID userBefore)));
      before ← match credential with
               | Err e => if no_rows e then mret None else fail e
               | Ok a => mret (Some a)
               end;
      _ ← match before with
          | Some passwordAccount =>
            '(matches, _) ← verify_password (Account_PasswordHash passwordAccount) currentPassword;
            if negb matches then business ErrReauthentication else mret tt
          | None =>
            if ((currentPassword !=? "") || (reauthID ==? ""))%bool then business ErrInvalid
            else mret tt
          end;
      hash ← hash_password newPassword;
      set_password_transaction r userBefore before reauthID hash).

(** ** profile.go *)

Definition Me (r : Request) : M Profile :=
  '(u, session) ← map_err storage (readSelf Pool r);
  accounts ← map_err storage (exec Pool (ListAccounts (User_ID u)));
  mret (mkProfile (userRecord u) (accountRecords accounts) (UserSession_ID session)).

Definition UpdateProfile (r : Request) (name : string) : M UserRecord :=
  let '(name, valid) := RequiredText name maxDisplayNameRunes in
  if negb valid then business ErrInvalid
  else transaction (λ q,
    '(u, session) ← readSelf q r;
    u ← map_err (missing_as unauthenticated)
          (store_UpdateUserProfile q (User_ID u) name (UserSession_ID session));
    _ ← audit q r (success "user.update" "user" (User_ID u) (User_ID u) None);
    mret (userRecord u)).

(** ** admin_checker.go *)

(** The interface [authorization.Authorizer] and its implementation. *)
Definition AdminChecker_RequireAdmin (subject : Subject_) : M unit :=
  _ ← lift (requireSubject subject);
  user ← map_err (λ e, if no_rows e then unauthenticated else storage e)
           (exec Pool (GetSessionUser (UserID subject) (SessionID subject)));
  if User_Role user !=? RoleAdmin then business ErrForbidden else mret tt.

Global Instance AdminChecker : Authorizer := {| RequireAdmin := AdminChecker_RequireAdmin |}.

End service.

(** ** admin.go, for any authorizer *)

Section admin.
  Context `{Run : Runtime, Sch : Schedule, Opt : Options, Pwd : Passwords, Fed : Federation}.
  Context {Aut : Authorizer}.

Definition Users (r : Request) (p : Params) : M (Result UserRecord) :=
  recordFailureOnReturn r "user.list" (
    match Params_Validate p with
    | Some _ => business ErrInvalid
    | None =>
      _ ← RequireAdmin (Subject_of r);
      rows ← map_err storage (exec Pool (ListUsers (FetchLimit p) (Offset p)));
      lift (Build rows p userRecord)
    end).

Definition SetStatus (r : Request) (id status : string) : M UserRecord :=
  recordFailureOnReturn r "user.status_change" (
    if (negb (Identifier id) || negb (Settable_ status))%bool then business ErrInvalid
    else
      _ ← RequireAdmin (Subject_of r);
      transaction (λ q,
        u ← exec q (GetUser id);
        if User_Status u ==? UserPending then business ErrInvalid
        else
          u ← store_SetUserStatus q id status;
          _ ← store_RevokeUserSessions q id;
          _ ← audit q r (success "user.status_change" "user" id id
                           (Some (userStatusAuditMetadata status)));
          mret (userRecord u))).

Definition RevokeUserSessions (r : Request) (id : string) : M unit :=
  recordFailureOnReturn r "session.revoke_all" (
    if negb (Identifier id) then business ErrInvalid
    else
      _ ← RequireAdmin (Subject_of r);
      transaction (λ q,
        _ ← exec q (GetUser id);
        _ ← invalidate q id;
        audit q r (success "session.revoke_all" "user" id id None))).

End admin.
