(* ===== verification/AccountFlows.v ===== *)
(** * [internal/modules/account]: federated login, operation proofs and linked accounts

    [oauth_start.go], [federation.go], [reauthentication.go] and [linked_accounts.go]. *)
From S2P Require Import Prelude.
From S2P Require Import Text.
From S2P Require Import GoErrors.
From S2P Require Import Runtime.
From S2P Require Import Identity.
From S2P Require Import Schema.
From S2P Require Import Json.
From S2P Require Import Storage.
From S2P Require Import Queries.
From S2P Require Import AuthQueries.
From S2P Require Import AccountModel.
From S2P Require Import AccountStore.
From S2P Require Import AccountCore.
From S2P Require Import AccountSessions.

(** [protocolState] as JSON: one member, read back by its name. *)
Definition protocol_Marshal (verifier : string) : json := JObject [("Verifier", JString verifier)].

Definition protocol_Unmarshal (protocol : option json) : option string :=
  match protocol with
  | Some (JObject members) =>
    match find_map (λ m : string * json, if m.1 ==? "Verifier" then Some m.2 else None) members with
    | Some (JString v) => Some v
    | Some JNull | None => Some ""
    | Some _ => None
    end
  | Some JNull => Some ""
  | _ => None
  end.

Section flows.
  Context `{Run : Runtime, Sch : Schedule, Opt : Options, Pwd : Passwords, Fed : Federation}.

(** ** oauth_start.go *)

Record oauthFlowStart : Type := mkOauthFlowStart {
  start_params : CreateFlowParams;
  start_token : string;
  start_authorizationURL : string
}.

Definition prepareOAuthFlow (provider : string) : M oauthFlowStart :=
  if negb (Federation_Enabled provider) then business ErrInvalid
  else
    n ← next_step;
    let '(token, tokenHash) := NewToken n FlowPrefix in
    n ← next_step;
    let '(state, stateHash) := NewToken n "" in
    n ← next_step;
    let '(verifier, _) := NewToken n "" in
    n ← next_step;
    '(authorizationURL, version) ← lift (Federation_Start n provider state verifier);
    n ← next_step;
    mret (mkOauthFlowStart
      (mkCreateFlowParams (NewID n) "" (Some tokenHash) provider version None None 0 None 0 "" ""
         None (Some stateHash) (Some (protocol_Marshal verifier)) FlowPending None)
      token authorizationURL).

Definition persist (start : oauthFlowStart) (q : dbtx) (params : CreateFlowParams) : M FlowResult :=
  row ← store_CreateFlow q params;
  mret (mkFlowResult (AuthFlow_ID row) (start_token start) (start_authorizationURL start)
          (AuthFlow_ExpiresAt row)).

(** The protocol material of [start] for another purpose, owner and proof. *)
Definition flow_params (start : oauthFlowStart) (purpose : string) (user session : option string)
    (auth_version : Z) (account : option string) (account_version : Z)
    (operation target : string) (reauth : option string) : CreateFlowParams :=
  let p := start_params start in
  mkCreateFlowParams (CreateFlow_ID p) purpose (CreateFlow_TokenHash p) (CreateFlow_ProviderID p)
    (CreateFlow_ConfigVersion p) user session auth_version account account_version operation target
    reauth (CreateFlow_StateHash p) (CreateFlow_ProtocolState p) (CreateFlow_Status p)
    (CreateFlow_AuthenticatedAt p).

Definition startLoginFlow (provider purpose : string) : M FlowResult :=
  start ← prepareOAuthFlow provider;
  transaction (λ q,
    persist start q (flow_params start purpose None None 0 None 0 "" "" None)).

Definition StartLogin (r : Request) (provider purpose : string) : M FlowResult :=
  if negb (PublicStart purpose) then business ErrInvalid
  else
    _ ← limit "oauth.ip" (ClientIP r) ipRequestLimit ipRateWindow;
    startLoginFlow provider purpose.

Definition startLinkFlow (r : Request) (provider reauthID : string) : M FlowResult :=
  start ← prepareOAuthFlow provider;
  transaction (λ q,
    '(user, session) ← readSelf q r;
    _ ← authorization q r reauthID OperationLinkAccount provider None;
    flow ← persist start q
             (flow_params start FlowLinkIdentity (Some (User_ID user)) (Some (UserSession_ID session))
                (User_AuthVersion user) None 0 OperationLinkAccount provider (Some reauthID));
    _ ← map_err (proofError ErrReauthentication) (claimAuthorization q reauthID (FlowResult_ID flow));
    mret flow).

Definition StartLink (r : Request) (provider reauthID : string) : M FlowResult :=
  _ ← entryLimit r "link" (r_UserID r);
  startLinkFlow r provider reauthID.

Definition startReauthenticationFlow (r : Request) (account : Account) (operation target : string)
    : M FlowResult :=
  start ← prepareOAuthFlow (Account_ProviderID account);
  transaction (λ q,
    '(user, session) ← readSelf q r;
    current ← map_err credentialLookupError (exec q (GetAccount (Account_ID account) (User_ID user)));
    if (negb (Account_Version current =? Account_Version account) || negb (accountEnabled current))%bool
    then business ErrCredentials
    else
      persist start q
        (flow_params start FlowReauthenticate (Some (User_ID user)) (Some (UserSession_ID session))
           (User_AuthVersion user) (Some (Account_ID account)) (Account_Version account)
           operation target None)).

(** ** reauthentication.go *)

(** The proof of the password branch: created as already authorized. *)
Definition password_proof (id : string) (user : User) (session : UserSession) (account : Account)
    (operation target : string) (now : time) : CreateFlowParams :=
  mkCreateFlowParams id FlowReauthenticate None "" "" (Some (User_ID user))
    (Some (UserSession_ID session)) (User_AuthVersion user) (Some (Account_ID account))
    (Account_Version account) operation target None None None FlowAuthorized (Some now).

Definition Reauthenticate (r : Request) (input : Reauthentication) : M ReauthenticationResult :=
  recordFailureOnReturn r "auth.reauthenticate" (
    _ ← lift (validateOperation (Operation input) (Target input));
    _ ← entryLimit r "reauth" (r_UserID r);
    '(user, _) ← map_err storage (readSelf Pool r);
    account ← (if Method input ==? MethodPassword
               then map_err (missing_as reauth_failed) (exec Pool (GetPasswordAccount (User_ID user)))
               else if Method input ==? MethodOAuth then
                 if negb (Identifier (AccountID input)) then business ErrInvalid
                 else map_err (missing_as reauth_failed)
                        (exec Pool (GetAccount (AccountID input) (User_ID user)))
               else business ErrInvalid);
    if ((Operation input ==? OperationUnlinkAccount) && (Account_ID account ==? Target input))%bool
    then business ErrLastAccount
    else if Method input ==? MethodOAuth then
      if ((Account_ProviderID account ==? CredentialProvider) || negb (accountEnabled account))%bool
      then business ErrInvalid
      else
        result ← startReauthenticationFlow r account (Operation input) (Target input);
        mret (redirectReauthentication result)
    else
      '(valid, _) ← verify_password (Account_PasswordHash account) (Password input);
      if negb valid then business ErrReauthentication
      else transaction (λ q,
        '(currentUser, session) ← readSelf q r;
        currentAccount ← map_err proof_lookup (exec q (GetAccount (Account_ID account) (User_ID user)));
        if (negb (Account_Version currentAccount =? Account_Version account)
            || negb (User_AuthVersion currentUser =? User_AuthVersion user))%bool
        then business ErrReauthentication
        else
          now ← time_Now;
          n ← next_step;
          _ ← store_CreateFlow q (password_proof (NewID n) user session account
                                    (Operation input) (Target input) now);
          mret (completedReauthentication (NewID n)))).

(** ** federation.go *)

Definition maxOAuthCodeBytes : Z := Z.shiftl 8 10.
Definition maxOAuthStateBytes : Z := 128.

(** A valid, trimmed name of at most [maxDisplayNameRunes] runes. *)
Definition clean_name (name : string) : string :=
  if negb (ValidString name) then ""
  else encode (take (Z.to_nat maxDisplayNameRunes) (decode (TrimSpace name))).

Definition identity_ok (v : VerifiedIdentity) : bool :=
  ((Identity_Subject v !=? "") && (len (Identity_Subject v) <=? maxProviderSubjectBytes)
   && (Namespace v !=? "") && (len (Namespace v) <=? maxProviderNamespaceBytes))%bool.

Definition completeReauthentication (q : dbtx) (user : User) (flow : AuthFlow)
    (verified : VerifiedIdentity) : M CallbackResult :=
  match AuthFlow_AccountID flow with
  | None => business ErrCredentials
  | Some account_id =>
    account ← map_err credentialLookupError (exec q (GetAccount account_id (User_ID user)));
    if (negb (Account_Version account =? AuthFlow_AccountVersion flow)
        || (Account_ProviderNamespace account !=? Namespace verified)
        || (Account_ProviderAccountID account !=? Identity_Subject verified)
        || negb (accountEnabled account))%bool
    then business ErrCredentials
    else
      _ ← verifyFlow q (AuthFlow_ID flow) FlowAuthorized verified;
      mret (reauthenticatedCallback (AuthFlow_ID flow))
  end.

Definition completeLinkProof (q : dbtx) (bound : Request) (flow : AuthFlow)
    (verified : VerifiedIdentity) : M CallbackResult :=
  match AuthFlow_ReauthenticationID flow with
  | None => business ErrCredentials
  | Some reauth_id =>
    _ ← authorization q bound reauth_id OperationLinkAccount (AuthFlow_ProviderID flow)
          (Some (AuthFlow_ID flow));
    _ ← verifyFlow q (AuthFlow_ID flow) FlowVerified verified;
    mret (linkPendingCallback (mkLinkConfirmation (AuthFlow_ID flow) (AuthFlow_ProviderID flow)
                                 (Identity_Name verified)))
  end.

Definition completeBoundFlow (r : Request) (flow : AuthFlow) (verified : VerifiedIdentity)
    : M CallbackResult :=
  transaction (λ q,
    match AuthFlow_UserID flow, AuthFlow_SessionID flow with
    | Some user_id, Some session_id =>
      let bound := mkRequest (mkSubject user_id session_id) (RequestID r) "" in
      '(user, _) ← map_err (λ e, if Is e (TBusiness ErrUnauthenticated) then EBusiness ErrFlow else e)
                     (readSelf q bound);
      if negb (User_AuthVersion user =? AuthFlow_AuthVersion flow) then business ErrCredentials
      else if AuthFlow_Purpose flow ==? FlowReauthenticate
      then completeReauthentication q user flow verified
      else if AuthFlow_Purpose flow ==? FlowLinkIdentity
      then completeLinkProof q bound flow verified
      else business ErrCredentials
    | _, _ => business ErrCredentials
    end).

(** The transaction of [completeLogin]: log in to the account found before it, or register. *)
Definition login_flow_transaction (r : Request) (flow : AuthFlow) (verified : VerifiedIdentity)
    (found : option Account) : M CallbackResult :=
  transaction (λ q,
    '(user, account) ←
      match found with
      | Some account =>
        user ← exec q (LockUser (Account_UserID account));
        current ← map_err credentialLookupError
                    (exec q (GetAccount (Account_ID account) (Account_UserID account)));
        if (negb (Account_Version current =? Account_Version account)
            || (User_Status user !=? UserActive) || negb (accountEnabled current))%bool
        then business ErrCredentials
        else mret (user, current)
      | None =>
        user ← store_CreateFederatedUser q (Identity_Name verified);
        account ← store_CreateAccount q
                    (mkCreateAccountParams "" (User_ID user) (AuthFlow_ProviderID flow)
                       (Identity_Subject verified) (Namespace verified) None);
        _ ← audit q (mkRequest (mkSubject (User_ID user) "") (RequestID r) "")
              (success "auth.register" "user" (User_ID user) (User_ID user) None);
        mret (user, account)
      end;
    _ ← consumeFlow q (AuthFlow_ID flow) FlowProcessing;
    session ← newSession q r user account MethodOAuth;
    mret (sessionCallback session)).

Definition completeLogin (r : Request) (flow : AuthFlow) (verified : VerifiedIdentity)
    : M CallbackResult :=
  found ← try (exec Pool (FindProviderAccount (Namespace verified) (Identity_Subject verified)));
  match found with
  | Err e =>
    if negb (no_rows e) then fail e
    else if AuthFlow_Purpose flow !=? FlowRegister then business ErrRegistrationRequired
    else login_flow_transaction r flow verified None
  | Ok account => login_flow_transaction r flow verified (Some account)
  end.

(** What [Callback] does once it has claimed the flow. *)
Definition callback_claimed (r : Request) (flow : AuthFlow) (code : string) : M CallbackResult :=
  match protocol_Unmarshal (AuthFlow_ProtocolState flow) with
  | None => business ErrCredentials
  | Some verifier =>
    n ← next_step;
    verified ← lift (Federation_Verify n (AuthFlow_ProviderID flow) (AuthFlow_ConfigVersion flow)
                       code verifier);
    if negb (identity_ok verified) then business ErrCredentials
    else
      let verified := mkVerifiedIdentity (Namespace verified) (Identity_Subject verified)
                        (clean_name (Identity_Name verified)) in
      if ((AuthFlow_Purpose flow ==? FlowLogin) || (AuthFlow_Purpose flow ==? FlowRegister))%bool
      then completeLogin r flow verified
      else if ((AuthFlow_Purpose flow ==? FlowReauthenticate)
               || (AuthFlow_Purpose flow ==? FlowLinkIdentity))%bool
      then completeBoundFlow r flow verified
      else business ErrCredentials
  end.

(** The deferred clean-up. *)
Definition fail_flow_on_error {A} (id : string) (m : M A) : M A :=
  with_defer m (λ err, _ ← try (store_FailFlow Pool id); mret err).

Definition Callback (r : Request) (token code state : string) : M CallbackResult :=
  with_defer (
    _ ← limit "callback.ip" (ClientIP r) ipRequestLimit ipRateWindow;
    match TokenDigest token FlowPrefix with
    | Err _ => business ErrCredentials
    | Ok hash =>
      flow ← map_err credentialLookupError (exec Pool (FindFlow hash));
      if ((AuthFlow_Status flow !=? FlowPending) || (len code =? 0) || (maxOAuthCodeBytes <? len code)
          || (maxOAuthStateBytes <? len state))%bool
      then business ErrCredentials
      else if AuthFlow_StateHash flow !=? Some (Digest state) then business ErrCredentials
      else if Federation_Version (AuthFlow_ProviderID flow) !=? AuthFlow_ConfigVersion flow
      then business ErrCredentials
      else
        _ ← claimPendingFlow Pool (AuthFlow_ID flow);
        fail_flow_on_error (AuthFlow_ID flow) (callback_claimed r flow code)
    end)
    (λ err,
      let err := proofError ErrFlow err in
      _ ← recordFailure r "auth.oauth_callback" err;
      mret err).

(** ** linked_accounts.go *)

(** The transaction of [ConfirmLink] for a flow that is not consumed yet. *)
Definition link_verified (q : dbtx) (r : Request) (user : User) (flow : AuthFlow) (reauth_id : string)
    : M unit :=
  if ((AuthFlow_Status flow !=? FlowVerified)
      || (Federation_Version (AuthFlow_ProviderID flow) !=? AuthFlow_ConfigVersion flow))%bool
  then business ErrCredentials
  else
    proof ← authorization q r reauth_id OperationLinkAccount (AuthFlow_ProviderID flow)
              (Some (AuthFlow_ID flow));
    found ← try (exec q (FindProviderAccount (AuthFlow_VerifiedNamespace flow)
                           (AuthFlow_VerifiedSubject flow)));
    account ← match found with
              | Ok account =>
                if Account_UserID account !=? User_ID user then business ErrConflict
                else mret account
              | Err e =>
                if negb (no_rows e) then fail e
                else
                  rows ← exec q (ListAccounts (User_ID user));
                  if maxLoginAccounts <=? Z.of_nat (length rows) then business ErrConflict
                  else
                    store_CreateAccount q
                      (mkCreateAccountParams "" (User_ID user) (AuthFlow_ProviderID flow)
                         (AuthFlow_VerifiedSubject flow) (AuthFlow_VerifiedNamespace flow) None)
              end;
    _ ← finishAuthorization q proof;
    _ ← finishAuthorization q flow;
    _ ← enqueueSecurityNotification q user accountLinkedNotification;
    audit q r (success "account.link" "account" (Account_ID account) (User_ID user)
                 (Some (accountProviderAuditMetadata (AuthFlow_ProviderID flow)))).

Definition ConfirmLink (r : Request) (flowID : string) : M unit :=
  with_defer (
    if negb (Identifier flowID) then business ErrFlow
    else transaction (λ q,
      '(user, session) ← lockSelf q r;
      flow ← map_err credentialLookupError (exec q (GetFlow flowID));
      if AuthFlow_Purpose flow !=? FlowLinkIdentity then business ErrCredentials
      else
      match AuthFlow_UserID flow, AuthFlow_SessionID flow, AuthFlow_ReauthenticationID flow with
      | Some user_id, Some session_id, Some reauth_id =>
        if ((user_id !=? User_ID user) || (session_id !=? UserSession_ID session)
            || negb (AuthFlow_AuthVersion flow =? User_AuthVersion user))%bool
        then business ErrCredentials
        else if AuthFlow_Status flow ==? FlowConsumed then
          account ← map_err credentialLookupError
                      (exec q (FindProviderAccount (AuthFlow_VerifiedNamespace flow)
                                 (AuthFlow_VerifiedSubject flow)));
          if Account_UserID account ==? User_ID user then mret tt else business ErrCredentials
        else link_verified q r user flow reauth_id
      | _, _, _ => business ErrCredentials
      end))
    (λ err,
      let err := proofError ErrFlow err in
      _ ← recordFailure r "account.link" err;
      mret err).

Definition usable_accounts (id : string) (rows : list Account) : list Account :=
  List.filter (λ row, (Account_ID row !=? id) && accountEnabled row)%bool rows.

Definition Unlink (r : Request) (id reauthID : string) : M unit :=
  recordFailureOnReturn r "account.unlink" (
    if negb (Identifier id) then business ErrInvalid
    else transaction (λ q,
      '(user, _) ← lockSelf q r;
      account ← exec q (GetAccount id (User_ID user));
      proof ← authorization q r reauthID OperationUnlinkAccount id None;
      if ((AuthFlow_AccountID proof ==? None) || (AuthFlow_AccountID proof ==? Some id))%bool
      then business ErrLastAccount
      else
        rows ← exec q (ListAccounts (User_ID user));
        if (length (usable_accounts id rows) =? 0)%nat then business ErrLastAccount
        else
          _ ← store_RevokeAccount q id (User_ID user);
          _ ← finishAuthorization q proof;
          _ ← invalidate q (User_ID user);
          _ ← enqueueSecurityNotification q user accountUnlinkedNotification;
          audit q r (success "account.unlink" "account" id (User_ID user)
                       (Some (accountProviderAuditMetadata (Account_ProviderID account)))))).

End flows.
