(* ===== verification/AccountHttp.v ===== *)
(** * [internal/modules/account]: HTTP handlers and outputs

    [http.go], [admin_http.go], [dto.go] and [admin_dto.go]: each route calls one operation of
    the service for the request's principal. Input records have the fields of the request
    bodies and paths; DTOs have the fields of the records they are converted from. *)
From S2P Require Import Prelude.
From S2P Require Import Text.
From S2P Require Import GoErrors.
From S2P Require Import Runtime.
From S2P Require Import Identity.
From S2P Require Import Pagination.
From S2P Require Import Schema.
From S2P Require Import Storage.
From S2P Require Import HttpApi.
From S2P Require Import AccountModel.
From S2P Require Import AccountStore.
From S2P Require Import AccountCore.
From S2P Require Import AccountSessions.
From S2P Require Import AccountFlows.

(** ** dto.go: inputs *)

Record RegisterInput : Type := mkRegisterInput { register_Email : string }.
Record LoginInput : Type := mkLoginInput { login_Email : string; login_Password : string }.
Record ForgotInput : Type := mkForgotInput { forgot_Email : string }.
Record OAuthStartInput : Type := mkOAuthStartInput { start_Provider : string; start_Purpose : string }.
Record CallbackInput : Type := mkCallbackInput {
  callback_Token : string; callback_Code : string; callback_State : string
}.
Record VerifyInput : Type := mkVerifyInput {
  verify_Token : string; verify_Purpose : string; verify_NewPassword : string
}.
Record UpdateInput : Type := mkUpdateInput { update_DisplayName : string }.
Record ReauthenticateInput : Type := mkReauthenticateInput {
  reauth_Method : string; reauth_Password : string; reauth_AccountID : string;
  reauth_Operation : string; reauth_Target : string
}.
Record LinkInput : Type := mkLinkInput { link_Provider : string; link_ReauthenticationID : string }.
Record ConfirmLinkInput : Type := mkConfirmLinkInput { confirm_FlowID : string }.
Record UnlinkInput : Type := mkUnlinkInput { unlink_ID : string; unlink_ReauthenticationID : string }.
Record PasswordInput : Type := mkPasswordInput {
  set_NewPassword : string; set_CurrentPassword : string; set_ReauthenticationID : option string
}.
Record EmailInput : Type := mkEmailInput { change_Email : string; change_ReauthenticationID : string }.
Record IDInput : Type := mkIDInput { input_ID : string }.
Record ListInput : Type := mkListInput { list_PageQuery : PageQuery }.
Record StatusInput : Type := mkStatusInput { status_ID : string; status_Status : string }.

Definition ListInput_Params (input : ListInput) : Params := PageQuery_Params (list_PageQuery input).

(** ** dto.go: outputs *)

Record SessionCreateResponse : Type := mkSessionCreateResponse {
  Response_Token : string;
  TokenType : string;
  Response_SessionID : string;
  Response_IdleExpiresAt : time;
  Response_AbsoluteExpiresAt : time
}.

(** [AuthFlowResponse] has the fields of [FlowResult]. *)
Definition AuthFlowResponse : Type := FlowResult.

Record AuthCallbackResponse : Type := mkAuthCallbackResponse {
  Callback_Result : string;
  Callback_Session : option SessionCreateResponse;
  Callback_ReauthenticationID : option string;
  Callback_FlowID : option string;
  Callback_Provider : option string;
  Callback_Name : option string
}.

Record UserReauthenticateResponse : Type := mkUserReauthenticateResponse {
  Reauth_Result : string;
  Reauth_ReauthenticationID : option string;
  Reauth_Flow : option AuthFlowResponse
}.

Global Instance eta_AuthCallbackResponse : Settable AuthCallbackResponse.
Proof.
  refine {| eta := λ r, mkAuthCallbackResponse (Callback_Result r) (Callback_Session r)
              (Callback_ReauthenticationID r) (Callback_FlowID r) (Callback_Provider r)
              (Callback_Name r); eta_id := _ |}; solve_eta.
Defined.
Global Instance eta_UserReauthenticateResponse : Settable UserReauthenticateResponse.
Proof.
  refine {| eta := λ r, mkUserReauthenticateResponse (Reauth_Result r) (Reauth_ReauthenticationID r)
              (Reauth_Flow r); eta_id := _ |}; solve_eta.
Defined.

Definition sessionDTO (s : SessionCredentials) : SessionCreateResponse :=
  {| Response_Token := Token s; TokenType := "Bearer"; Response_SessionID := Credentials_ID s;
     Response_IdleExpiresAt := Credentials_IdleExpiresAt s;
     Response_AbsoluteExpiresAt := Credentials_AbsoluteExpiresAt s |}.

Definition flowDTO (f : FlowResult) : AuthFlowResponse :=
  mkFlowResult (FlowResult_ID f) (FlowResult_Token f) (AuthorizationURL f) (FlowResult_ExpiresAt f).

Definition profileDTO (p : Profile) : Profile :=
  mkProfile (Profile_User p) (map (λ a, a) (Profile_Accounts p)) (Profile_SessionID p).

Definition no_store {D} (d : D) : Output D := mkOutput [("Cache-Control", "no-store")] d.

Definition sessionOutput (value : SessionCredentials) : Output SessionCreateResponse :=
  no_store (sessionDTO value).
Definition flowOutput (value : FlowResult) : Output AuthFlowResponse := no_store (flowDTO value).
Definition userDTO (value : UserRecord) : UserRecord := value.
Definition sessionRecordDTO (value : SessionRecord) : SessionRecord := value.

Definition errInvalidAuthenticationResult : error := EText "认证结果状态无效".

(** The zero values of the parts a result does not have. *)
Definition zero_credentials : SessionCredentials := mkSessionCredentials "" "" zero_time zero_time.
Definition zero_link : LinkConfirmation := mkLinkConfirmation "" "" "".
Definition zero_flow : FlowResult := mkFlowResult "" "" "" zero_time.

Definition IsZero (t : time) : bool := t =? zero_time.

Definition callbackOutput (result : CallbackResult) : res error (Output AuthCallbackResponse) :=
  let body := mkAuthCallbackResponse (callback_result result) None None None None None in
  let session := default zero_credentials (callback_session result) in
  let link := default zero_link (callback_link result) in
  if callback_result result ==? ResultSession then
    if ((Credentials_ID session ==? "") || (Token session ==? "")
        || IsZero (Credentials_IdleExpiresAt session)
        || IsZero (Credentials_AbsoluteExpiresAt session))%bool
    then Err errInvalidAuthenticationResult
    else Ok (no_store (body <| Callback_Session := Some (sessionDTO session) |>))
  else if callback_result result ==? ResultReauthenticated then
    if callback_reauthenticationID result ==? "" then Err errInvalidAuthenticationResult
    else Ok (no_store (body <| Callback_ReauthenticationID := Some (callback_reauthenticationID result) |>))
  else if callback_result result ==? ResultLinkPending then
    if ((FlowID link ==? "") || (Link_Provider link ==? ""))%bool
    then Err errInvalidAuthenticationResult
    else Ok (no_store (body <| Callback_FlowID := Some (FlowID link) |>
                            <| Callback_Provider := Some (Link_Provider link) |>
                            <| Callback_Name := Some (Link_Name link) |>))
  else Err errInvalidAuthenticationResult.

Definition reauthenticateOutput (result : ReauthenticationResult)
    : res error (Output UserReauthenticateResponse) :=
  let body := mkUserReauthenticateResponse (reauth_result result) None None in
  let flow := default zero_flow (reauth_flow result) in
  if reauth_result result ==? ResultRedirect then
    if ((FlowResult_ID flow ==? "") || (FlowResult_Token flow ==? "") || (AuthorizationURL flow ==? "")
        || IsZero (FlowResult_ExpiresAt flow))%bool
    then Err errInvalidAuthenticationResult
    else Ok (no_store (body <| Reauth_Flow := Some (flowDTO flow) |>))
  else if reauth_result result ==? ResultReauthenticated then
    if reauth_reauthenticationID result ==? "" then Err errInvalidAuthenticationResult
    else Ok (no_store (body <| Reauth_ReauthenticationID := Some (reauth_reauthenticationID result) |>))
  else Err errInvalidAuthenticationResult.

(** ** http.go *)

Definition maxRequestBodyBytes : Z := Z.shiftl 16 10.

Definition no_store_middleware : middleware := λ _ next c,
  next (SetHeader "Cache-Control" "no-store" c).

Definition operation (policy : AuthPolicy) (spec : HumaOperation) : res error HttpApi.Operation :=
  res_bind (NewOperation policy
    (spec <| op_Errors := [400; 401; 403; 404; 409; 413; 422; 429; 500; 503; 504] |>
          <| MaxBodyBytes := maxRequestBodyBytes |>)) (λ op,
  let s := Operation_spec op in
  Ok (mkOperation (s <| Middlewares := Middlewares s ++ [no_store_middleware] |>)
        (Operation_policy op))).

Definition request (ctx : Ctx) : Request :=
  let p := Current (ctx_principal ctx) in
  let m := Metadata ctx in
  mkRequest (mkSubject (Principal_Subject p) (Principal_SessionID p)) (Meta_ID m) (Meta_ClientIP m).

Section handlers.
  Context `{Run : Runtime, Sch : Schedule, Opt : Options, Pwd : Passwords, Fed : Federation,
            Aut : Authorizer}.

Definition registerUser (_ : unit) (ctx : Ctx) (input : RegisterInput) : M unit :=
  Register (request ctx) (register_Email input).
Definition loginUser (_ : unit) (ctx : Ctx) (input : LoginInput) : M SessionCredentials :=
  Login (request ctx) (login_Email input) (login_Password input).
Definition startOAuth (_ : unit) (ctx : Ctx) (input : OAuthStartInput) : M FlowResult :=
  StartLogin (request ctx) (start_Provider input) (start_Purpose input).
Definition oauthCallback (_ : unit) (ctx : Ctx) (input : CallbackInput) : M (Output AuthCallbackResponse) :=
  result ← Callback (request ctx) (callback_Token input) (callback_Code input) (callback_State input);
  lift (callbackOutput result).
Definition forgotPassword (_ : unit) (ctx : Ctx) (input : ForgotInput) : M unit :=
  ForgotPassword (request ctx) (forgot_Email input).
Definition verifyUser (_ : unit) (ctx : Ctx) (input : VerifyInput) : M unit :=
  VerifyChallenge (request ctx) (verify_Token input)
    {| Purpose := verify_Purpose input; NewPassword := verify_NewPassword input |}.
Definition getProfile (_ : unit) (ctx : Ctx) (_ : unit) : M Profile := Me (request ctx).
Definition updateProfile (_ : unit) (ctx : Ctx) (input : UpdateInput) : M UserRecord :=
  UpdateProfile (request ctx) (update_DisplayName input).
Definition reauthenticateUser (_ : unit) (ctx : Ctx) (input : ReauthenticateInput)
    : M (Output UserReauthenticateResponse) :=
  result ← Reauthenticate (request ctx)
    {| Method := reauth_Method input; Password := reauth_Password input;
       AccountID := reauth_AccountID input; AccountModel.Operation := reauth_Operation input;
       Target := reauth_Target input |};
  lift (reauthenticateOutput result).
Definition setPassword (_ : unit) (ctx : Ctx) (input : PasswordInput) : M unit :=
  let id := match set_ReauthenticationID input with Some id => id | None => "" end in
  SetPassword (request ctx) (set_CurrentPassword input) (set_NewPassword input) id.
Definition changeEmail (_ : unit) (ctx : Ctx) (input : EmailInput) : M unit :=
  ChangeEmail (request ctx) (change_Email input) (change_ReauthenticationID input).
Definition startAccountLink (_ : unit) (ctx : Ctx) (input : LinkInput) : M FlowResult :=
  StartLink (request ctx) (link_Provider input) (link_ReauthenticationID input).
Definition confirmAccountLink (_ : unit) (ctx : Ctx) (input : ConfirmLinkInput) : M unit :=
  ConfirmLink (request ctx) (confirm_FlowID input).
Definition unlinkAccount (_ : unit) (ctx : Ctx) (input : UnlinkInput) : M unit :=
  Unlink (request ctx) (unlink_ID input) (unlink_ReauthenticationID input).
Definition listSessions (_ : unit) (ctx : Ctx) (input : ListInput) : M (Result SessionRecord) :=
  Sessions (request ctx) (ListInput_Params input).
Definition revokeSession (_ : unit) (ctx : Ctx) (input : IDInput) : M unit :=
  RevokeSession (request ctx) (input_ID input) false.
Definition revokeMySessions (_ : unit) (ctx : Ctx) (_ : unit) : M unit :=
  RevokeSession (request ctx) "" true.

(** admin_http.go *)
Definition listUsers (_ : unit) (ctx : Ctx) (input : ListInput) : M (Result UserRecord) :=
  Users (request ctx) (ListInput_Params input).
Definition setUserStatus (_ : unit) (ctx : Ctx) (input : StatusInput) : M UserRecord :=
  SetStatus (request ctx) (status_ID input) (status_Status input).
Definition revokeUserSessions (_ : unit) (ctx : Ctx) (input : IDInput) : M unit :=
  RevokeUserSessions (request ctx) (input_ID input).

(** ** The routes *)

Definition authenticationRoutes : list (res error (Route unit)) :=
  let spec := λ id path status, operation Public (operation_spec id "POST" path ["Authentication"] status) in
  [ NoContentEndpoint (spec "register-user" "/v1/auth/register" 202) registerUser;
    MapEndpoint (spec "login-user" "/v1/auth/login" 0) loginUser sessionOutput;
    MapEndpoint (spec "start-oauth" "/v1/auth/oauth/{provider}" 0) startOAuth flowOutput;
    Endpoint (spec "oauth-callback" "/v1/auth/oauth/callback" 0) oauthCallback;
    NoContentEndpoint (spec "forgot-password" "/v1/auth/password/forgot" 202) forgotPassword;
    NoContentEndpoint (spec "verify-user" "/v1/auth/verify" 0) verifyUser ].

Definition profileRoutes : list (res error (Route unit)) :=
  let spec := λ id method, operation Session (operation_spec id method "/v1/me" ["Profile"] 0) in
  [ ItemEndpoint (spec "get-me" "GET") getProfile profileDTO;
    ItemEndpoint (spec "update-me" "PATCH") updateProfile userDTO ].

Definition securityRoutes : list (res error (Route unit)) :=
  let spec := λ id method path status,
    operation Session (operation_spec id method path ["Account Security"] status) in
  [ Endpoint (spec "reauthenticate-user" "POST" "/v1/me/reauthenticate" 0) reauthenticateUser;
    NoContentEndpoint (spec "set-password" "PUT" "/v1/me/password" 0) setPassword;
    NoContentEndpoint (spec "change-email" "POST" "/v1/me/email" 202) changeEmail ].

Definition linkedAccountRoutes : list (res error (Route unit)) :=
  let spec := λ id path, operation Session (operation_spec id "POST" path ["Linked Accounts"] 0) in
  [ MapEndpoint (spec "link-account" "/v1/me/accounts/link") startAccountLink flowOutput;
    NoContentEndpoint (spec "confirm-account-link" "/v1/me/accounts/link/confirm") confirmAccountLink;
    NoContentEndpoint (spec "unlink-account" "/v1/me/accounts/{id}/unlink") unlinkAccount ].

Definition sessionRoutes : list (res error (Route unit)) :=
  let spec := λ id method path, operation Session (operation_spec id method path ["Sessions"] 0) in
  [ PageEndpoint (spec "list-sessions" "GET" "/v1/me/sessions") listSessions sessionRecordDTO;
    NoContentEndpoint (spec "revoke-session" "DELETE" "/v1/me/sessions/{id}") revokeSession;
    NoContentEndpoint (spec "revoke-my-sessions" "DELETE" "/v1/me/sessions") revokeMySessions ].

Definition Routes : list (res error (Route unit)) :=
  concat [authenticationRoutes; profileRoutes; securityRoutes; linkedAccountRoutes; sessionRoutes].

Definition AdminRoutes : list (res error (Route unit)) :=
  let spec := λ id method path,
    operation Session (operation_spec id method path ["User Administration"] 0) in
  [ PageEndpoint (spec "list-users" "GET" "/v1/admin/users") listUsers userDTO;
    ItemEndpoint (spec "set-user-status" "PATCH" "/v1/admin/users/{id}/status") setUserStatus userDTO;
    NoContentEndpoint (spec "revoke-user-sessions" "DELETE" "/v1/admin/users/{id}/sessions")
      revokeUserSessions ].

End handlers.
