(* ===== verification/Dto.v ===== *)
(** * The bodies of requests and replies: [dto.go], [admin_dto.go], [httpapi/pagination.go]

    A DTO is a Go struct with tags. [typ] is what the tags say of a value, and what the
    contract is generated from; a [struct A] gives for every field its name, its tags and the
    value it takes from the data, so that one declaration yields both the type of a body
    ([struct_type]) and its JSON ([struct_encode]), as reflection does. [conforms] is the
    documented meaning of the tags. Texts are checked for their length and their enumeration;
    what a [format] means is the library's ([format_ok]). *)
From S2P Require Import Prelude.
From S2P Require Import Text.
From S2P Require Import Runtime.
From S2P Require Import Pagination.
From S2P Require Import Schema.
From S2P Require Import HttpApi.
From S2P Require Import AccountModel.
From S2P Require AccountHttp.
From S2P Require Projects.
From S2P Require Tasks.
From S2P Require Import ModuleRoutes.

(** ** Values and types *)

Inductive value : Type :=
| VString (s : string)
| VBool (b : bool)
| VInt (n : Z)
| VTime (t : time)
| VNull
| VList (items : list value)
| VObject (members : list (string * value)).

Record tags : Type := mkTags {
  minLength : option Z; maxLength : option Z; enum : list string; format : string
}.

(** The fields of a struct by name; an optional one has [omitempty]. [TOneOf] is a [Schema]
    method made with [oneOf]. *)
Inductive typ : Type :=
| TString (g : tags)
| TBool
| TInt
| TTime
| TPointer (t : typ)
| TSlice (t : typ)
| TStruct (fields : list (string * bool * typ))
| TOneOf (alternatives : list typ).

Fixpoint member (members : list (string * value)) (name : string) : option value :=
  match members with
  | [] => None
  | (k, v) :: rest => if k ==? name then Some v else member rest name
  end.

Section conforms.
  Context (format_ok : string → string → bool).

Definition string_ok (g : tags) (s : string) : bool :=
  (match minLength g with Some n => n <=? RuneCountInString s | None => true end
   && match maxLength g with Some n => RuneCountInString s <=? n | None => true end
   && match enum g with [] => true | values => bool_decide (s ∈ values) end
   && ((format g ==? "") || format_ok (format g) s))%bool.

(** A struct has all its fields but the optional ones, and no others; [oneOf] is exactly one. *)
Fixpoint conforms (t : typ) (v : value) {struct t} : bool :=
  match t, v with
  | TString g, VString s => string_ok g s
  | TBool, VBool _ => true
  | TInt, VInt _ => true
  | TTime, VTime _ => true
  | TPointer _, VNull => true
  | TPointer t, v => conforms t v
  | TSlice t, VList items => forallb (conforms t) items
  | TStruct fields, VObject members =>
    (forallb (λ f : string * bool * typ,
       match member members f.1.1 with Some v => conforms f.2 v | None => f.1.2 end) fields
     && forallb (λ m : string * value, existsb (λ f : string * bool * typ, f.1.1 ==? m.1) fields) members)%bool
  | TOneOf alternatives, v =>
    (length (List.filter (λ b : bool, b) (map (λ t, conforms t v) alternatives)) =? 1)%nat
  | _, _ => false
  end.

End conforms.

(** ** Structs *)

(** [None] is a nil pointer with [omitempty]. *)
Record field (A : Type) : Type := mkField {
  field_name : string;
  omitempty : bool;
  field_type : typ;
  field_value : A → option value
}.
Arguments mkField {A}.
Arguments field_name {A}.
Arguments omitempty {A}.
Arguments field_type {A}.
Arguments field_value {A}.

Definition struct (A : Type) : Type := list (field A).

Definition struct_type {A} (s : struct A) : typ :=
  TStruct (map (λ f, (field_name f, omitempty f, field_type f)) s).

Definition struct_encode {A} (s : struct A) (a : A) : value :=
  VObject (omap (λ f, (λ v, (field_name f, v)) <$> field_value f a) s).

(** Tags. *)
Definition plain : typ := TString (mkTags None None [] "").
Definition sized (min max : Z) : typ := TString (mkTags (Some min) (Some max) [] "").
Definition bounded (max : Z) : typ := TString (mkTags None (Some max) [] "").
Definition email : typ := TString (mkTags None (Some 254) [] "email").
Definition one_of (values : list string) : typ := TString (mkTags None None values "").
Definition id_text : typ := sized 1 255.

(** Fields of a struct that is encoded. *)
Definition string_field {A} (name : string) (t : typ) (get : A → string) : field A :=
  mkField name false t (λ a, Some (VString (get a))).
Definition bool_field {A} (name : string) (get : A → bool) : field A :=
  mkField name false TBool (λ a, Some (VBool (get a))).
Definition int_field {A} (name : string) (get : A → Z) : field A :=
  mkField name false TInt (λ a, Some (VInt (get a))).
Definition time_field {A} (name : string) (get : A → time) : field A :=
  mkField name false TTime (λ a, Some (VTime (get a))).
Definition struct_field {A B} (name : string) (s : struct B) (get : A → B) : field A :=
  mkField name false (struct_type s) (λ a, Some (struct_encode s (get a))).
Definition slice_field {A B} (name : string) (s : struct B) (get : A → list B) : field A :=
  mkField name false (TSlice (struct_type s)) (λ a, Some (VList (map (struct_encode s) (get a)))).
(** A pointer without [omitempty] is null when it is nil. *)
Definition pointer_field {A B} (name : string) (t : typ) (show : B → value) (get : A → option B) : field A :=
  mkField name false (TPointer t) (λ a, Some (match get a with Some b => show b | None => VNull end)).
(** A pointer with [omitempty] is left out. *)
Definition omitted_field {A B} (name : string) (t : typ) (show : B → value) (get : A → option B) : field A :=
  mkField name true (TPointer t) (λ a, show <$> get a).

(** Fields of a struct that is only read. *)
Definition required (name : string) (t : typ) : string * bool * typ := (name, false, t).
Definition optional (name : string) (t : typ) : string * bool * typ := (name, true, t).

(** ** account/dto.go: replies *)

Module account.

Definition User : struct UserRecord :=
  [ string_field "id" id_text UserRecord_ID;
    string_field "display_name" plain UserRecord_DisplayName;
    pointer_field "email" plain VString UserRecord_Email;
    bool_field "email_verified" UserRecord_EmailVerified;
    string_field "status" (one_of ["pending"; "active"; "disabled"]) UserRecord_Status;
    string_field "role" (one_of ["user"; "admin"]) UserRecord_Role;
    time_field "created_at" UserRecord_CreatedAt ].

Definition Account : struct AccountRecord :=
  [ string_field "id" id_text AccountRecord_ID;
    string_field "provider" plain AccountRecord_Provider;
    time_field "created_at" AccountRecord_CreatedAt;
    pointer_field "last_used_at" TTime VTime AccountRecord_LastUsedAt;
    bool_field "enabled" AccountRecord_Enabled ].

Definition UserProfile : struct Profile :=
  [ struct_field "user" User Profile_User;
    slice_field "accounts" Account Profile_Accounts;
    string_field "session_id" id_text Profile_SessionID ].

Definition Session : struct SessionRecord :=
  [ string_field "id" id_text SessionRecord_ID;
    string_field "method" (one_of ["password"; "oauth"]) SessionRecord_Method;
    time_field "authenticated_at" SessionRecord_AuthenticatedAt;
    time_field "created_at" SessionRecord_CreatedAt;
    time_field "last_seen_at" SessionRecord_LastSeenAt;
    time_field "idle_expires_at" SessionRecord_IdleExpiresAt;
    time_field "absolute_expires_at" SessionRecord_AbsoluteExpiresAt ].

Definition SessionCreateResponse : struct AccountHttp.SessionCreateResponse :=
  [ string_field "token" plain AccountHttp.Response_Token;
    string_field "token_type" (one_of ["Bearer"]) AccountHttp.TokenType;
    string_field "session_id" id_text AccountHttp.Response_SessionID;
    time_field "idle_expires_at" AccountHttp.Response_IdleExpiresAt;
    time_field "absolute_expires_at" AccountHttp.Response_AbsoluteExpiresAt ].

Definition AuthFlowResponse : struct FlowResult :=
  [ string_field "flow_id" id_text FlowResult_ID;
    string_field "token" plain FlowResult_Token;
    string_field "authorization_url" plain AuthorizationURL;
    time_field "expires_at" FlowResult_ExpiresAt ].

(** What a result may be, as the contract has it. *)
Definition AuthSessionResult : typ :=
  TStruct [ required "result" (one_of ["session"]);
            required "session" (struct_type SessionCreateResponse) ].
Definition AuthReauthenticatedResult : typ :=
  TStruct [ required "result" (one_of ["reauthenticated"]); required "reauthentication_id" id_text ].
Definition AuthLinkPendingResult : typ :=
  TStruct [ required "result" (one_of ["link_pending"]); required "flow_id" id_text;
            required "provider" plain; required "name" plain ].
Definition AuthRedirectResult : typ :=
  TStruct [ required "result" (one_of ["redirect"]); required "flow" (struct_type AuthFlowResponse) ].

(** The structs that carry them. *)
Definition AuthCallbackResponse : struct AccountHttp.AuthCallbackResponse :=
  [ string_field "result" plain AccountHttp.Callback_Result;
    omitted_field "session" (struct_type SessionCreateResponse) (struct_encode SessionCreateResponse)
      AccountHttp.Callback_Session;
    omitted_field "reauthentication_id" id_text VString AccountHttp.Callback_ReauthenticationID;
    omitted_field "flow_id" id_text VString AccountHttp.Callback_FlowID;
    omitted_field "provider" plain VString AccountHttp.Callback_Provider;
    omitted_field "name" plain VString AccountHttp.Callback_Name ].

Definition UserReauthenticateResponse : struct AccountHttp.UserReauthenticateResponse :=
  [ string_field "result" plain AccountHttp.Reauth_Result;
    omitted_field "reauthentication_id" id_text VString AccountHttp.Reauth_ReauthenticationID;
    omitted_field "flow" (struct_type AuthFlowResponse) (struct_encode AuthFlowResponse)
      AccountHttp.Reauth_Flow ].

(** Their [Schema] methods. *)
Definition AuthCallbackResponse_Schema : typ :=
  TOneOf [AuthSessionResult; AuthReauthenticatedResult; AuthLinkPendingResult].
Definition UserReauthenticateResponse_Schema : typ :=
  TOneOf [AuthRedirectResult; AuthReauthenticatedResult].

(** ** account/dto.go and admin_dto.go: requests *)

Definition UserRegisterRequest : typ := TStruct [ required "email" email ].
Definition UserLoginRequest : typ :=
  TStruct [ required "email" email; required "password" (sized 1 128) ].
Definition UserPasswordForgotRequest : typ := UserRegisterRequest.
Definition AuthOAuthStartRequest : typ := TStruct [ required "purpose" (one_of ["login"; "register"]) ].
Definition AuthOAuthCallbackRequest : typ :=
  TStruct [ required "token" (sized 1 128); required "code" (sized 1 8192); required "state" (sized 1 128) ].

Definition UserRegistrationVerifyRequest : typ :=
  TStruct [ required "token" (sized 1 128); required "purpose" (one_of ["register"]);
            required "new_password" (sized 15 128) ].
Definition UserPasswordResetVerifyRequest : typ :=
  TStruct [ required "token" (sized 1 128); required "purpose" (one_of ["reset_password"]);
            required "new_password" (sized 15 128) ].
Definition UserEmailVerifyRequest : typ :=
  TStruct [ required "token" (sized 1 128); required "purpose" (one_of ["change_email"]) ].
Definition UserVerifyRequest_Schema : typ :=
  TOneOf [UserRegistrationVerifyRequest; UserPasswordResetVerifyRequest; UserEmailVerifyRequest].

Definition UserUpdateRequest : typ := TStruct [ required "display_name" (sized 1 100) ].

Definition operations : typ := one_of ["link_account"; "unlink_account"; "set_password"; "change_email"].
Definition UserPasswordReauthenticateRequest : typ :=
  TStruct [ required "method" (one_of ["password"]); required "password" (sized 1 128);
            required "operation" operations; required "target" id_text ].
Definition UserOAuthReauthenticateRequest : typ :=
  TStruct [ required "method" (one_of ["oauth"]); required "account_id" id_text;
            required "operation" operations; required "target" id_text ].
Definition UserReauthenticateRequest_Schema : typ :=
  TOneOf [UserPasswordReauthenticateRequest; UserOAuthReauthenticateRequest].

Definition AccountLinkRequest : typ :=
  TStruct [ required "provider" (sized 1 64); required "reauthentication_id" id_text ].
Definition AccountLinkConfirmRequest : typ := TStruct [ required "flow_id" id_text ].
Definition AccountUnlinkRequest : typ := TStruct [ required "reauthentication_id" id_text ].
Definition UserPasswordSetRequest : typ :=
  TStruct [ required "new_password" (sized 15 128); optional "current_password" (bounded 128);
            optional "reauthentication_id" (TPointer id_text) ].
Definition UserEmailChangeRequest : typ :=
  TStruct [ required "email" email; required "reauthentication_id" id_text ].
Definition UserStatusUpdateRequest : typ := TStruct [ required "status" (one_of ["active"; "disabled"]) ].

End account.

(** ** project/dto.go *)

Module project.

Definition Project : struct Projects.Record_ :=
  [ string_field "id" id_text Projects.Record_ID;
    string_field "name" plain Projects.Record_Name;
    string_field "description" plain Projects.Record_Description;
    time_field "created_at" Projects.Record_CreatedAt;
    time_field "updated_at" Projects.Record_UpdatedAt ].

Definition ProjectCreateRequest : typ :=
  TStruct [ required "name" (sized 1 100); optional "description" (bounded 2000) ].
Definition ProjectUpdateRequest : typ := ProjectCreateRequest.

End project.

(** ** task/dto.go *)

Module task.

Definition statuses : typ := one_of ["todo"; "in_progress"; "done"].

Definition Task : struct Tasks.Record_ :=
  [ string_field "id" id_text Tasks.Record_ID;
    string_field "title" plain Tasks.Record_Title;
    string_field "description" plain Tasks.Record_Description;
    string_field "status" statuses Tasks.Record_Status;
    time_field "created_at" Tasks.Record_CreatedAt;
    time_field "updated_at" Tasks.Record_UpdatedAt ].

(** The default of a missing status is the library's to fill in. *)
Definition TaskCreateRequest : typ :=
  TStruct [ required "title" (sized 1 200); optional "description" (bounded 2000);
            optional "status" statuses ].
Definition TaskUpdateRequest : typ :=
  TStruct [ required "title" (sized 1 200); optional "description" (bounded 2000);
            required "status" statuses ].

End task.

(** ** httpapi/pagination.go *)

Definition pageFields {T} (item : struct T) : struct (Result T) :=
  [ slice_field "items" item Items;
    bool_field "has_more" HasMore;
    int_field "limit" Result_Limit;
    int_field "offset" Result_Offset ].

(** The defaults and the bounds of the tags of [PageQuery]. *)
Definition page_query (limit offset : option Z) : option HttpApi.PageQuery :=
  let l := default 20 limit in
  let o := default 0 offset in
  if ((1 <=? l) && (l <=? 100) && (0 <=? o) && (o <=? 10000))%bool
  then Some (HttpApi.mkPageQuery l o) else None.

(** ** Inputs

    [encoding/json] fills the fields of a struct from the members of an object: a missing
    member leaves the zero value. Path parameters come from the router. *)

Definition get (v : value) (name : string) : option value :=
  match v with VObject members => member members name | _ => None end.

Definition get_string (v : value) (name : string) : string :=
  match get v name with Some (VString s) => s | _ => "" end.

Definition get_pointer (v : value) (name : string) : option string :=
  match get v name with Some (VString s) => Some s | _ => None end.

Definition RegisterInput (body : value) : AccountHttp.RegisterInput :=
  AccountHttp.mkRegisterInput (get_string body "email").
Definition LoginInput (body : value) : AccountHttp.LoginInput :=
  AccountHttp.mkLoginInput (get_string body "email") (get_string body "password").
Definition ForgotInput (body : value) : AccountHttp.ForgotInput :=
  AccountHttp.mkForgotInput (get_string body "email").
Definition OAuthStartInput (provider : string) (body : value) : AccountHttp.OAuthStartInput :=
  AccountHttp.mkOAuthStartInput provider (get_string body "purpose").
Definition CallbackInput (body : value) : AccountHttp.CallbackInput :=
  AccountHttp.mkCallbackInput (get_string body "token") (get_string body "code") (get_string body "state").
Definition VerifyInput (body : value) : AccountHttp.VerifyInput :=
  AccountHttp.mkVerifyInput (get_string body "token") (get_string body "purpose")
    (get_string body "new_password").
Definition UpdateInput (body : value) : AccountHttp.UpdateInput :=
  AccountHttp.mkUpdateInput (get_string body "display_name").
Definition ReauthenticateInput (body : value) : AccountHttp.ReauthenticateInput :=
  AccountHttp.mkReauthenticateInput (get_string body "method") (get_string body "password")
    (get_string body "account_id") (get_string body "operation") (get_string body "target").
Definition LinkInput (body : value) : AccountHttp.LinkInput :=
  AccountHttp.mkLinkInput (get_string body "provider") (get_string body "reauthentication_id").
Definition ConfirmLinkInput (body : value) : AccountHttp.ConfirmLinkInput :=
  AccountHttp.mkConfirmLinkInput (get_string body "flow_id").
Definition UnlinkInput (id : string) (body : value) : AccountHttp.UnlinkInput :=
  AccountHttp.mkUnlinkInput id (get_string body "reauthentication_id").
Definition PasswordInput (body : value) : AccountHttp.PasswordInput :=
  AccountHttp.mkPasswordInput (get_string body "new_password") (get_string body "current_password")
    (get_pointer body "reauthentication_id").
Definition EmailInput (body : value) : AccountHttp.EmailInput :=
  AccountHttp.mkEmailInput (get_string body "email") (get_string body "reauthentication_id").
Definition StatusInput (id : string) (body : value) : AccountHttp.StatusInput :=
  AccountHttp.mkStatusInput id (get_string body "status").
Definition CreateInput (body : value) : ModuleRoutes.project.CreateInput :=
  ModuleRoutes.project.mkCreateInput (get_string body "name") (get_string body "description").
Definition ProjectUpdateInput (id : string) (body : value) : ModuleRoutes.project.UpdateInput :=
  ModuleRoutes.project.mkUpdateInput id (get_string body "name") (get_string body "description").
Definition TaskCreateInput (body : value) : Tasks.Details :=
  Tasks.mkDetails (get_string body "title") (get_string body "description") (get_string body "status").
Definition TaskUpdateInput (id : string) (body : value) : ModuleRoutes.task.TaskUpdateInput :=
  ModuleRoutes.task.mkTaskUpdateInput id (TaskCreateInput body).
