(* ===== verification/DtoFacts.v ===== *)
(** * Bodies that conform

    A struct conforms when its fields do ([conforms_struct]), so each reply of the API conforms
    when its data are valid. For the requests that may be one of several, the contract accepts
    exactly what the service tells apart ([request_alternatives]). *)
From S2P Require Import Prelude.
From S2P Require Import Text.
From S2P Require Import Runtime.
From S2P Require Import Pagination.
From S2P Require Import Schema.
From S2P Require Import AccountModel.
From S2P Require AccountHttp.
From S2P Require Projects.
From S2P Require Tasks.
From S2P Require Import Dto.

Section facts.
  Context (format_ok : string → string → bool).

Local Abbreviation conforms := (conforms format_ok).

(** ** Structs *)

(** The field of [a] is as its type says. *)
Definition field_ok {A} (a : A) (f : field A) : Prop :=
  match field_value f a with
  | Some v => conforms (field_type f) v = true
  | None => omitempty f = true
  end.

Lemma member_names (members : list (string * value)) name v :
  member members name = Some v → name ∈ members.*1.
Proof.
  induction members as [|[k w] rest IH]; simpl; [done|]. case_bool_decide; [subst; left|].
  intros Hm. right. auto.
Qed.

Lemma member_encode {A} (s : struct A) a f :
  NoDup (map field_name s) → f ∈ s →
  member (omap (λ f, (λ v, (field_name f, v)) <$> field_value f a) s) (field_name f) = field_value f a.
Proof.
  induction s as [|g s IH]; [by intros _ ?%elem_of_nil|]. simpl. intros [Hn Hd]%NoDup_cons Hf.
  assert (Hnew : field_value g a = None ∨ field_name g ≠ field_name f ∨ f = g).
  { apply elem_of_cons in Hf as [->|Hf]; [by right; right|]. right. left. intros E. apply Hn.
    rewrite E. apply list_elem_of_fmap. eauto. }
  apply elem_of_cons in Hf as [->|Hf].
  - destruct (field_value g a) as [v|] eqn:Ev; simpl; [by rewrite bool_decide_eq_true_2|].
    destruct (member _ (field_name g)) as [v|] eqn:Em; [|done]. exfalso. apply Hn.
    apply member_names, list_elem_of_fmap in Em as ([k w] & E & Hin). simpl in E. subst k.
    apply list_elem_of_omap in Hin as (h & Hh & E). destruct (field_value h a); [|done]. simpl in E.
    injection E as E _. rewrite <-E. apply list_elem_of_fmap. eauto.
  - destruct (field_value g a) as [v|]; simpl; [|by apply IH].
    rewrite bool_decide_eq_false_2; [by apply IH|]. intros E. apply Hn. rewrite E.
    apply list_elem_of_fmap. eauto.
Qed.

Lemma conforms_struct {A} (s : struct A) a :
  NoDup (map field_name s) → Forall (field_ok a) s → conforms (struct_type s) (struct_encode s a) = true.
Proof.
  intros Hd Hs. simpl. apply andb_true_iff. split; apply forallb_forall.
  - intros f' Hf'. apply list_elem_of_In, list_elem_of_fmap in Hf' as (f & -> & Hf). simpl.
    rewrite member_encode by done. rewrite Forall_forall in Hs. specialize (Hs f Hf). unfold field_ok in Hs.
    by destruct (field_value f a).
  - intros m Hm. apply list_elem_of_In, list_elem_of_omap in Hm as (f & Hf & E).
    destruct (field_value f a); [|done]. injection E as <-. apply existsb_exists.
    exists (field_name f, omitempty f, field_type f). split.
    + apply list_elem_of_In, list_elem_of_fmap. eauto.
    + by apply bool_decide_eq_true_2.
Qed.

(** ** Texts *)

Lemma string_ok_plain s : string_ok format_ok (mkTags None None [] "") s = true.
Proof. done. Qed.

Lemma conforms_id s : Identifier s = true → conforms id_text (VString s) = true.
Proof.
  intros H%Identifier_runes. simpl. unfold string_ok. simpl.
  rewrite !(proj2 (Z.leb_le _ _)) by lia. done.
Qed.

Lemma conforms_one_of values s : s ∈ values → conforms (one_of values) (VString s) = true.
Proof.
  intros H. simpl. unfold string_ok. simpl. rewrite andb_true_r.
  destruct values; [by apply elem_of_nil in H|]. by apply bool_decide_eq_true_2.
Qed.

(** ** Replies *)

Definition user_record_ok (u : UserRecord) : Prop :=
  Identifier (UserRecord_ID u) = true ∧ UserStatus_Valid (UserRecord_Status u) = true
  ∧ UserRole_Valid (UserRecord_Role u) = true.

Definition account_record_ok (a : AccountRecord) : Prop := Identifier (AccountRecord_ID a) = true.

Definition profile_ok (p : Profile) : Prop :=
  user_record_ok (Profile_User p) ∧ Forall account_record_ok (Profile_Accounts p)
  ∧ Identifier (Profile_SessionID p) = true.

Definition session_record_ok (s : SessionRecord) : Prop :=
  Identifier (SessionRecord_ID s) = true ∧ AuthMethod_Valid (SessionRecord_Method s) = true.

Definition credentials_ok (c : SessionCredentials) : Prop := Identifier (Credentials_ID c) = true.

Definition flow_result_ok (f : FlowResult) : Prop := Identifier (FlowResult_ID f) = true.

Definition callback_ok (r : CallbackResult) : Prop :=
  (∀ c, callback_session r = Some c → credentials_ok c)
  ∧ (callback_result r = ResultReauthenticated → Identifier (callback_reauthenticationID r) = true)
  ∧ (∀ l, callback_link r = Some l → Identifier (FlowID l) = true).

Definition reauthentication_ok (r : ReauthenticationResult) : Prop :=
  (∀ f, reauth_flow r = Some f → flow_result_ok f)
  ∧ (reauth_result r = ResultReauthenticated → Identifier (reauth_reauthenticationID r) = true).

(** One struct after the other, each field by its text. *)
Ltac struct_fields :=
  apply conforms_struct; [by apply (bool_decide_unpack _)|];
  repeat apply List.Forall_cons; try apply List.Forall_nil; unfold field_ok;
  cbn [field_value field_type omitempty string_field bool_field int_field time_field struct_field
       slice_field pointer_field omitted_field].

Lemma User_conforms u : user_record_ok u → conforms (struct_type account.User) (struct_encode account.User u) = true.
Proof.
  intros (Hi & Hs & Hr). unfold UserStatus_Valid, UserRole_Valid in *. bool_to_prop. struct_fields; try done.
  - by apply conforms_id.
  - by destruct (UserRecord_Email u).
  - by apply conforms_one_of.
  - by apply conforms_one_of.
Qed.

Lemma Account_conforms a :
  account_record_ok a → conforms (struct_type account.Account) (struct_encode account.Account a) = true.
Proof.
  intros Hi. struct_fields; try done.
  - by apply conforms_id.
  - by destruct (AccountRecord_LastUsedAt a).
Qed.

Lemma conforms_list {A} (s : struct A) (P : A → Prop) l :
  (∀ a, P a → conforms (struct_type s) (struct_encode s a) = true) → Forall P l →
  conforms (TSlice (struct_type s)) (VList (map (struct_encode s) l)) = true.
Proof.
  intros Hs Hl. cbn [Dto.conforms]. apply forallb_forall. intros v Hv.
  apply list_elem_of_In, list_elem_of_fmap in Hv as (a & -> & Ha). rewrite Forall_forall in Hl. auto.
Qed.

Lemma UserProfile_conforms p :
  profile_ok p → conforms (struct_type account.UserProfile) (struct_encode account.UserProfile p) = true.
Proof.
  intros (Hu & Ha & Hs). struct_fields.
  - by apply User_conforms.
  - by apply (conforms_list _ account_record_ok), Ha; apply Account_conforms.
  - by apply conforms_id.
Qed.

Lemma Session_conforms s :
  session_record_ok s → conforms (struct_type account.Session) (struct_encode account.Session s) = true.
Proof.
  intros (Hi & Hm). unfold AuthMethod_Valid in *. bool_to_prop. struct_fields; try done.
  - by apply conforms_id.
  - by apply conforms_one_of.
Qed.

Lemma SessionCreateResponse_conforms c : credentials_ok c →
  conforms (struct_type account.SessionCreateResponse)
    (struct_encode account.SessionCreateResponse (AccountHttp.sessionDTO c)) = true.
Proof.
  intros Hi. struct_fields; try done. by apply conforms_id.
Qed.

Lemma AuthFlowResponse_conforms f : flow_result_ok f →
  conforms (struct_type account.AuthFlowResponse)
    (struct_encode account.AuthFlowResponse (AccountHttp.flowDTO f)) = true.
Proof. intros Hi. struct_fields; try done. by apply conforms_id. Qed.

Lemma pageFields_conforms {T} (item : struct T) (P : T → Prop) r :
  (∀ a, P a → conforms (struct_type item) (struct_encode item a) = true) → Forall P (Items r) →
  conforms (struct_type (pageFields item)) (struct_encode (pageFields item) r) = true.
Proof. intros Hi Hr. struct_fields; try done. by apply (conforms_list _ P). Qed.

(** A result has one form: the others are told apart by the first member. *)
Lemma session_result sv : conforms (struct_type account.SessionCreateResponse) sv = true →
  conforms account.AuthCallbackResponse_Schema (VObject [("result", VString ResultSession); ("session", sv)]) = true.
Proof.
  unfold account.AuthCallbackResponse_Schema, account.AuthSessionResult.
  generalize (struct_type account.SessionCreateResponse). intros st H. simpl. by rewrite H.
Qed.

Lemma flow_result fv : conforms (struct_type account.AuthFlowResponse) fv = true →
  conforms account.UserReauthenticateResponse_Schema (VObject [("result", VString ResultRedirect); ("flow", fv)]) = true.
Proof.
  unfold account.UserReauthenticateResponse_Schema, account.AuthRedirectResult.
  generalize (struct_type account.AuthFlowResponse). intros st H. simpl. by rewrite H.
Qed.

(** Both results that end with a proof. *)
Lemma reauthenticated_result id : Identifier id = true →
  let v := VObject [("result", VString ResultReauthenticated); ("reauthentication_id", VString id)] in
  conforms account.AuthCallbackResponse_Schema v = true ∧ conforms account.UserReauthenticateResponse_Schema v = true.
Proof. intros H%conforms_id. simpl in H. simpl. by rewrite H. Qed.

Lemma AuthCallbackResponse_conforms r out :
  callback_ok r → AccountHttp.callbackOutput r = Ok out →
  conforms account.AuthCallbackResponse_Schema
    (struct_encode account.AuthCallbackResponse (HttpApi.Output_Body out)) = true.
Proof.
  intros (Hs & Hr & Hl). unfold AccountHttp.callbackOutput.
  case_bool_decide as E1; [|case_bool_decide as E2; [|case_bool_decide as E3; [|done]]]; rewrite ?E1, ?E2, ?E3.
  - destruct (callback_session r) as [c|] eqn:Ec; [|done]. simpl default. destruct (_ || _)%bool; [done|].
    intros [= <-]. apply session_result, SessionCreateResponse_conforms. auto.
  - destruct (_ ==? ""); [done|]. intros [= <-]. by apply reauthenticated_result, Hr.
  - destruct (callback_link r) as [l|] eqn:El; [|done]. simpl default. destruct (_ || _)%bool; [done|].
    intros [= <-]. specialize (Hl l eq_refl). apply conforms_id in Hl. simpl in *. by rewrite Hl.
Qed.

Lemma UserReauthenticateResponse_conforms r out :
  reauthentication_ok r → AccountHttp.reauthenticateOutput r = Ok out →
  conforms account.UserReauthenticateResponse_Schema
    (struct_encode account.UserReauthenticateResponse (HttpApi.Output_Body out)) = true.
Proof.
  intros (Hf & Hr). unfold AccountHttp.reauthenticateOutput.
  case_bool_decide as E1; [|case_bool_decide as E2; [|done]]; rewrite ?E1, ?E2.
  - destruct (reauth_flow r) as [c|] eqn:Ec; [|done]. simpl default. destruct (_ || _)%bool; [done|].
    intros [= <-]. apply flow_result, AuthFlowResponse_conforms. auto.
  - destruct (_ ==? ""); [done|]. intros [= <-]. by apply reauthenticated_result, Hr.
Qed.

Lemma Project_conforms p : Identifier (Projects.Record_ID p) = true →
  conforms (struct_type project.Project) (struct_encode project.Project p) = true.
Proof. intros Hi. struct_fields; try done. by apply conforms_id. Qed.

Lemma Task_conforms t :
  Identifier (Tasks.Record_ID t) = true → Tasks.Status_Valid (Tasks.Record_Status t) = true →
  conforms (struct_type task.Task) (struct_encode task.Task t) = true.
Proof.
  intros Hi Hs. struct_fields; try done; [by apply conforms_id|]. apply conforms_one_of.
  unfold Tasks.Status_Valid, Tasks.Todo, Tasks.InProgress, Tasks.Done in Hs. bool_to_prop.
  rewrite !orb_true_iff, !bool_decide_eq_true in Hs. set_solver.
Qed.

(** ** Requests *)

Lemma oneOf_some ts v : conforms (TOneOf ts) v = true → ∃ t, t ∈ ts ∧ conforms t v = true.
Proof.
  simpl. intros H. apply Nat.eqb_eq in H.
  destruct (List.filter _ _) as [|b l] eqn:E; [done|].
  assert (b ∈ List.filter (λ b : bool, b) (map (λ t, conforms t v) ts)) as Hb by (rewrite E; left).
  apply list_elem_of_In, filter_In in Hb as [Hb ->]. apply list_elem_of_In, list_elem_of_fmap in Hb as (t & Ht & Hin).
  by exists t.
Qed.

Lemma struct_object fields v : conforms (TStruct fields) v = true → ∃ members, v = VObject members.
Proof. destruct v; try done. eauto. Qed.

Lemma struct_string fields v name g : conforms (TStruct fields) v = true → required name (TString g) ∈ fields →
  string_ok format_ok g (get_string v name) = true.
Proof.
  intros H Hf. destruct (struct_object _ _ H) as [ms ->]. simpl in H.
  apply andb_true_iff in H as [H _]. rewrite forallb_forall in H. apply list_elem_of_In, H in Hf. simpl in Hf.
  unfold get_string, get. destruct (member ms name) as [[]|]; done.
Qed.

Lemma struct_undeclared fields v name : conforms (TStruct fields) v = true → name ∉ fields.*1.*1 →
  get_string v name = "".
Proof.
  intros H Hn. destruct (struct_object _ _ H) as [ms ->]. simpl in H. apply andb_true_iff in H as [_ H].
  unfold get_string, get. destruct (member ms name) as [w|] eqn:E; [|done]. exfalso. apply Hn.
  apply member_names, list_elem_of_fmap in E as (m & -> & Hm). rewrite forallb_forall in H.
  apply list_elem_of_In, H, existsb_exists in Hm as (f & Hf & Hk). bool_to_prop.
  apply list_elem_of_In in Hf. apply list_elem_of_fmap. exists f.1. split; [done|]. apply list_elem_of_fmap. eauto.
Qed.

Lemma sized_ok min max s : string_ok format_ok (mkTags (Some min) (Some max) [] "") s = true ↔
  min ≤ RuneCountInString s ≤ max.
Proof. unfold string_ok. simpl. rewrite !andb_true_r, andb_true_iff, !Z.leb_le. done. Qed.

Lemma enum_ok values s : values ≠ [] → string_ok format_ok (mkTags None None values "") s = true ↔ s ∈ values.
Proof.
  intros Hv. unfold string_ok. simpl. rewrite andb_true_r.
  destruct values; [done|]. by rewrite bool_decide_eq_true.
Qed.

Definition runes (min max : Z) (s : string) : Prop := min ≤ RuneCountInString s ≤ max.

(** What [VerifyChallenge] tells apart: a new password comes with a registration or with a
    reset, and with nothing else. *)
Definition verify_described (i : AccountHttp.VerifyInput) : Prop :=
  runes 1 128 (AccountHttp.verify_Token i)
  ∧ (AccountHttp.verify_Purpose i ∈ [VerifyRegister; VerifyResetPassword]
       ∧ runes 15 128 (AccountHttp.verify_NewPassword i)
     ∨ AccountHttp.verify_Purpose i = VerifyChangeEmail ∧ AccountHttp.verify_NewPassword i = "").

(** What [Reauthenticate] tells apart: a password, or an account of a provider. *)
Definition reauthenticate_described (i : AccountHttp.ReauthenticateInput) : Prop :=
  AccountHttp.reauth_Operation i
    ∈ [OperationLinkAccount; OperationUnlinkAccount; OperationSetPassword; OperationChangeEmail]
  ∧ runes 1 255 (AccountHttp.reauth_Target i)
  ∧ (AccountHttp.reauth_Method i = MethodPassword ∧ runes 1 128 (AccountHttp.reauth_Password i)
       ∧ AccountHttp.reauth_AccountID i = ""
     ∨ AccountHttp.reauth_Method i = MethodOAuth ∧ runes 1 255 (AccountHttp.reauth_AccountID i)
       ∧ AccountHttp.reauth_Password i = "").

(** The body of an input. *)
Definition verify_body (i : AccountHttp.VerifyInput) : value :=
  VObject ([("token", VString (AccountHttp.verify_Token i)); ("purpose", VString (AccountHttp.verify_Purpose i))]
    ++ if AccountHttp.verify_NewPassword i ==? "" then []
       else [("new_password", VString (AccountHttp.verify_NewPassword i))]).

Definition reauthenticate_body (i : AccountHttp.ReauthenticateInput) : value :=
  VObject ([("method", VString (AccountHttp.reauth_Method i))]
    ++ (if AccountHttp.reauth_Method i ==? MethodPassword
        then [("password", VString (AccountHttp.reauth_Password i))]
        else [("account_id", VString (AccountHttp.reauth_AccountID i))])
    ++ [("operation", VString (AccountHttp.reauth_Operation i)); ("target", VString (AccountHttp.reauth_Target i))]).

(** Turns a conforming struct into facts about its members. *)
Ltac field_facts H :=
  repeat match goal with
  | |- context [get_string ?v ?name] =>
    lazymatch goal with
    | _ : context [get_string v name] |- _ => fail
    | _ =>
      first [ let E := fresh "E" in
              pose proof (struct_undeclared _ v name H ltac:(by apply (bool_decide_unpack _))) as E; rewrite E
            | let E := fresh "E" in
              pose proof (struct_string _ v name _ H
                ltac:(apply list_elem_of_In; repeat (first [left; reflexivity|right]))) as E;
              try apply sized_ok in E; try (apply enum_ok in E; [|done]) ]
    end
  end.

Lemma verify_sound v : conforms account.UserVerifyRequest_Schema v = true → verify_described (VerifyInput v).
Proof.
  intros (t & Ht & H)%oneOf_some. rewrite !elem_of_cons, elem_of_nil in Ht.
  unfold verify_described, VerifyInput. cbn [AccountHttp.verify_Token AccountHttp.verify_Purpose AccountHttp.verify_NewPassword].
  destruct Ht as [-> |[-> |[-> |[]]]]; field_facts H.
  - apply list_elem_of_singleton in E0. rewrite E0. split; [done|]. left. split; [left|done].
  - apply list_elem_of_singleton in E0. rewrite E0. split; [done|]. left. split; [right; left|done].
  - apply list_elem_of_singleton in E0. rewrite E0. split; [done|]. by right.
Qed.

Lemma reauthenticate_sound v : conforms account.UserReauthenticateRequest_Schema v = true →
  reauthenticate_described (ReauthenticateInput v).
Proof.
  intros (t & Ht & H)%oneOf_some. rewrite !elem_of_cons, elem_of_nil in Ht.
  unfold reauthenticate_described, ReauthenticateInput.
  cbn [AccountHttp.reauth_Operation AccountHttp.reauth_Target AccountHttp.reauth_Method
       AccountHttp.reauth_Password AccountHttp.reauth_AccountID].
  destruct Ht as [-> |[-> |[]]]; field_facts H; split_and!; try done.
  - left. split_and!; [by apply list_elem_of_singleton in E1|done..].
  - right. split_and!; [by apply list_elem_of_singleton in E1|done..].
Qed.

Ltac body_conforms := lazy -[string_ok];
  repeat match goal with H : runes ?a ?b ?s |- _ => rewrite (proj2 (sized_ok a b s) H); clear H end;
  repeat match goal with H : ?s ∈ ?l |- context [string_ok _ (mkTags None None ?l "") ?s] =>
    rewrite (proj2 (enum_ok l s ltac:(done)) H) end; try reflexivity.

Lemma verify_complete i : verify_described i →
  conforms account.UserVerifyRequest_Schema (verify_body i) = true ∧ VerifyInput (verify_body i) = i.
Proof.
  destruct i as [t p n]. unfold verify_described, verify_body.
  cbn [AccountHttp.verify_Token AccountHttp.verify_Purpose AccountHttp.verify_NewPassword].
  intros (Ht & [[Hp Hn]|[-> ->]]); [|split; [body_conforms|done]].
  case_bool_decide as E; [subst n; by destruct Hn|]. split; [|done].
  rewrite !elem_of_cons, elem_of_nil in Hp. destruct Hp as [-> |[-> |[]]]; body_conforms.
Qed.

Lemma reauthenticate_complete i : reauthenticate_described i →
  conforms account.UserReauthenticateRequest_Schema (reauthenticate_body i) = true
  ∧ ReauthenticateInput (reauthenticate_body i) = i.
Proof.
  destruct i as [m p a o t]. unfold reauthenticate_described, reauthenticate_body.
  cbn [AccountHttp.reauth_Operation AccountHttp.reauth_Target AccountHttp.reauth_Method
       AccountHttp.reauth_Password AccountHttp.reauth_AccountID].
  unfold OperationLinkAccount, OperationUnlinkAccount, OperationSetPassword, OperationChangeEmail.
  intros (Ho & Ht & [(-> & Hp & ->)|(-> & Ha & ->)]); (split; [body_conforms|done]).
Qed.

(** C15: For the requests that may be one of several the contract accepts exactly what the service
    tells apart: whatever conforms is filled into a described input, and every described input
    is the reading of a body that conforms. *)
Theorem request_alternatives :
  (∀ v, conforms account.UserVerifyRequest_Schema v = true → verify_described (VerifyInput v))
  ∧ (∀ i, verify_described i →
       conforms account.UserVerifyRequest_Schema (verify_body i) = true ∧ VerifyInput (verify_body i) = i)
  ∧ (∀ v, conforms account.UserReauthenticateRequest_Schema v = true →
       reauthenticate_described (ReauthenticateInput v))
  ∧ (∀ i, reauthenticate_described i →
       conforms account.UserReauthenticateRequest_Schema (reauthenticate_body i) = true
       ∧ ReauthenticateInput (reauthenticate_body i) = i).
Proof.
  split_and!; [apply verify_sound|apply verify_complete|apply reauthenticate_sound|apply reauthenticate_complete].
Qed.

End facts.
