(* ===== verification/Contract.v ===== *)
(** * The contract and the checks of the services

    The tags of the requests and the checks of the services say the same twice: what a value
    may be, how long a text may be, how large a page. Here they are compared
    ([contract_agrees]): a body that conforms is refused by no check of a size or of an
    enumeration, and what the services tell apart can be asked for. *)
From S2P Require Import Prelude.
From S2P Require Import Text.
From S2P Require Import Runtime.
From S2P Require Import Pagination.
From S2P Require HttpApi.
From S2P Require Import AccountModel.
From S2P Require AccountHttp.
From S2P Require Password.
From S2P Require Projects.
From S2P Require Tasks.
From S2P Require ModuleRoutes.
From S2P Require Import Dto.
From S2P Require Import DtoFacts.

(** ** Texts *)

(** A text as JSON delivers it, without NUL; and one with something to read in it. *)
Definition clean (s : string) : Prop := ValidString s = true ∧ ContainsByte NUL s = false.
Definition written (s : string) : Prop := clean s ∧ TrimSpace s ≠ "".

Lemma runes_nonneg s : 0 ≤ RuneCountInString s.
Proof. unfold RuneCountInString. lia. Qed.

Lemma runes_TrimSpace s : RuneCountInString (TrimSpace s) ≤ RuneCountInString s.
Proof.
  unfold RuneCountInString. rewrite decode_TrimSpace.
  destruct (trim_chunks_split (decode s)) as (a & b & E & _). rewrite E at 2. rewrite !length_app. lia.
Qed.

Lemma clean_TrimSpace s : clean s → clean (TrimSpace s).
Proof.
  intros [Hv Hn]. split; [by apply ValidString_TrimSpace|].
  destruct (TrimSpace_infix s) as (a & b & E). rewrite E, !ContainsByte_app in Hn.
  apply orb_false_iff in Hn as [_ Hn]. by apply orb_false_iff in Hn as [-> _].
Qed.

Lemma TextWithin_clean s max : clean s → RuneCountInString s ≤ max → TextWithin s max = true.
Proof.
  intros [Hv Hn] Hr. pose proof (runes_nonneg s).
  unfold TextWithin. by rewrite Hv, Hn, !(proj2 (Z.leb_le _ _)) by lia.
Qed.

Lemma RequiredText_written s max :
  written s → RuneCountInString s ≤ max → RequiredText s max = (TrimSpace s, true).
Proof.
  intros [Hc Hw] Hr. unfold RequiredText. f_equal. rewrite bool_decide_eq_false_2 by done.
  apply TextWithin_clean; [by apply clean_TrimSpace|]. pose proof (runes_TrimSpace s). lia.
Qed.

(** ** Fields *)

Section contract.
  Context (format_ok : string → string → bool).

Local Abbreviation conforms := (conforms format_ok).

(** The value of an optional member, or the zero value. *)
Lemma struct_optional fields v name g :
  conforms (TStruct fields) v = true → optional name (TString g) ∈ fields →
  get_string v name = "" ∨ string_ok format_ok g (get_string v name) = true.
Proof.
  intros H Hf. destruct (struct_object _ _ _ H) as [ms ->]. simpl in H.
  apply andb_true_iff in H as [H _]. rewrite forallb_forall in H. apply list_elem_of_In, H in Hf. simpl in Hf.
  unfold get_string, get. destruct (member ms name) as [[]|]; auto.
Qed.

Lemma bounded_field fields v name max : 0 ≤ max →
  conforms (TStruct fields) v = true → optional name (bounded max) ∈ fields →
  RuneCountInString (get_string v name) ≤ max.
Proof.
  intros Hm H Hf. destruct (struct_optional _ _ _ _ H Hf) as [-> |Hs]; [by apply Hm|].
  unfold string_ok in Hs. simpl in Hs. rewrite !andb_true_r in Hs. lia.
Qed.

Lemma sized_field fields v name min max :
  conforms (TStruct fields) v = true → required name (sized min max) ∈ fields →
  min ≤ RuneCountInString (get_string v name) ≤ max.
Proof. intros H Hf. by apply (sized_ok format_ok), (struct_string _ _ _ _ _ H Hf). Qed.

Lemma enum_field fields v name values : values ≠ [] →
  conforms (TStruct fields) v = true → required name (one_of values) ∈ fields →
  get_string v name ∈ values.
Proof. intros Hv H Hf. by apply (enum_ok format_ok values), (struct_string _ _ _ _ _ H Hf). Qed.

Ltac in_struct := apply list_elem_of_In; repeat (first [left; reflexivity|right]).

(** ** Requests *)

Definition object (members : list (string * string)) : value :=
  VObject (map (λ m, (m.1, VString m.2)) members).

Lemma one_of_member values s : values ≠ [] →
  string_ok format_ok (mkTags None None values "") s = bool_decide (s ∈ values).
Proof.
  intros Hv. apply eq_true_iff_eq. by rewrite bool_decide_eq_true, (enum_ok format_ok).
Qed.

Lemma purposes_agree s : PublicStart s = conforms account.AuthOAuthStartRequest (object [("purpose", s)]).
Proof.
  simpl. rewrite one_of_member, !andb_true_r by done. unfold PublicStart.
  apply eq_true_iff_eq. rewrite orb_true_iff, !bool_decide_eq_true. set_solver.
Qed.

Lemma statuses_agree s : Settable_ s = conforms account.UserStatusUpdateRequest (object [("status", s)]).
Proof.
  simpl. rewrite one_of_member, !andb_true_r by done. unfold Settable_.
  apply eq_true_iff_eq. rewrite orb_true_iff, !bool_decide_eq_true. set_solver.
Qed.

Lemma passwords_agree s : ValidString s = true →
  Password.Validate s = conforms account.UserPasswordSetRequest (object [("new_password", s)]).
Proof.
  intros Hv. pose proof (len_le_runes s).
  apply eq_true_iff_eq. unfold Password.Validate, Password.minPasswordRunes, Password.maxPasswordRunes,
    Password.maxPasswordBytes. rewrite Hv.
  simpl. rewrite !andb_true_r, (sized_ok format_ok), !andb_true_iff, !Z.leb_le. lia.
Qed.

Lemma project_admitted v :
  let i := CreateInput v in
  conforms project.ProjectCreateRequest v = true →
  written (ModuleRoutes.project.create_Name i) → clean (ModuleRoutes.project.create_Description i) →
  Projects.validate (ModuleRoutes.project.create_Name i) (ModuleRoutes.project.create_Description i)
  = Ok (TrimSpace (ModuleRoutes.project.create_Name i)).
Proof.
  intros i H Hn Hd. unfold Projects.validate.
  pose proof (sized_field _ _ "name" _ _ H ltac:(in_struct)).
  pose proof (bounded_field _ _ "description" 2000 ltac:(lia) H ltac:(in_struct)).
  rewrite RequiredText_written; [|done|unfold Projects.maxNameRunes; subst i; simpl; lia].
  by rewrite TextWithin_clean.
Qed.

Lemma details_admitted i :
  written (Tasks.Title i) → RuneCountInString (Tasks.Title i) ≤ 200 →
  clean (Tasks.Description i) → RuneCountInString (Tasks.Description i) ≤ 2000 →
  Tasks.Status_Valid (Tasks.Details_Status i) = true → ∃ i', Tasks.validate i = Ok i'.
Proof.
  intros Ht Hl Hd Hm Hs. unfold Tasks.validate. rewrite RequiredText_written, TextWithin_clean, Hs by done.
  by eexists.
Qed.

Lemma task_status_valid s : s ∈ ["todo"; "in_progress"; "done"] → Tasks.Status_Valid s = true.
Proof. intros H. rewrite !elem_of_cons, elem_of_nil in H. by destruct H as [-> |[-> |[-> |[]]]]. Qed.

Lemma task_created v :
  let i := TaskCreateInput v in
  conforms task.TaskCreateRequest v = true → written (Tasks.Title i) → clean (Tasks.Description i) →
  ∃ i', Tasks.validate (Tasks.with_default_status i) = Ok i'.
Proof.
  intros i H Ht Hd.
  pose proof (sized_field _ _ "title" _ _ H ltac:(in_struct)).
  pose proof (bounded_field _ _ "description" 2000 ltac:(lia) H ltac:(in_struct)).
  pose proof (struct_optional _ _ "status" _ H ltac:(in_struct)) as Hs.
  apply details_admitted; unfold Tasks.with_default_status; case_bool_decide as E; try done; simpl in *; try lia.
  destruct Hs as [Hs|Hs]; [done|]. by apply task_status_valid, (enum_ok format_ok).
Qed.

Lemma task_updated id v :
  let i := ModuleRoutes.task.update_Body (TaskUpdateInput id v) in
  conforms task.TaskUpdateRequest v = true → written (Tasks.Title i) → clean (Tasks.Description i) →
  ∃ i', Tasks.validate i = Ok i'.
Proof.
  intros i H Ht Hd.
  pose proof (sized_field _ _ "title" _ _ H ltac:(in_struct)).
  pose proof (bounded_field _ _ "description" 2000 ltac:(lia) H ltac:(in_struct)).
  pose proof (enum_field _ _ "status" ["todo"; "in_progress"; "done"] ltac:(done) H ltac:(in_struct)).
  apply details_admitted; simpl in *; try done; try lia. by apply task_status_valid.
Qed.

Lemma display_name_admitted v :
  let name := AccountHttp.update_DisplayName (UpdateInput v) in
  conforms account.UserUpdateRequest v = true → written name →
  RequiredText name maxDisplayNameRunes = (TrimSpace name, true).
Proof.
  intros name H Hn. pose proof (sized_field _ _ "display_name" _ _ H ltac:(in_struct)).
  apply RequiredText_written; [done|]. unfold maxDisplayNameRunes. subst name. simpl in *. lia.
Qed.

Lemma page_admitted limit offset q :
  page_query limit offset = Some q → Params_Validate (HttpApi.PageQuery_Params q) = None.
Proof.
  unfold page_query. intros H. apply Params_Validate_None. destruct (_ && _)%bool eqn:E; [|done].
  injection H as <-. unfold params_ok, MaxLimit, MaxOffset. simpl. lia.
Qed.

Lemma page_described p : Params_Validate p = None →
  page_query (Some (Limit p)) (Some (Offset p)) = Some (HttpApi.mkPageQuery (Limit p) (Offset p)).
Proof.
  intros H%Params_Validate_None. unfold params_ok, MaxLimit, MaxOffset in H. unfold page_query. simpl.
  by rewrite !(proj2 (Z.leb_le _ _)) by lia.
Qed.

(** C14: The contract and the services agree. A body that conforms is refused by no check of an
    enumeration, of a size or of a page, as long as its texts are valid, without NUL, and names
    are not blank; and whatever the services take for a purpose, a status, a password or a page
    can be asked for. *)
Theorem contract_agrees :
  (∀ s, PublicStart s = conforms account.AuthOAuthStartRequest (object [("purpose", s)]))
  ∧ (∀ s, Settable_ s = conforms account.UserStatusUpdateRequest (object [("status", s)]))
  ∧ (∀ s, ValidString s = true →
       Password.Validate s = conforms account.UserPasswordSetRequest (object [("new_password", s)]))
  ∧ (∀ v, let name := AccountHttp.update_DisplayName (UpdateInput v) in
       conforms account.UserUpdateRequest v = true → written name →
       RequiredText name maxDisplayNameRunes = (TrimSpace name, true))
  ∧ (∀ v, let i := CreateInput v in
       conforms project.ProjectCreateRequest v = true →
       written (ModuleRoutes.project.create_Name i) → clean (ModuleRoutes.project.create_Description i) →
       Projects.validate (ModuleRoutes.project.create_Name i) (ModuleRoutes.project.create_Description i)
       = Ok (TrimSpace (ModuleRoutes.project.create_Name i)))
  ∧ (∀ v, let i := TaskCreateInput v in
       conforms task.TaskCreateRequest v = true → written (Tasks.Title i) → clean (Tasks.Description i) →
       ∃ i', Tasks.validate (Tasks.with_default_status i) = Ok i')
  ∧ (∀ id v, let i := ModuleRoutes.task.update_Body (TaskUpdateInput id v) in
       conforms task.TaskUpdateRequest v = true → written (Tasks.Title i) → clean (Tasks.Description i) →
       ∃ i', Tasks.validate i = Ok i')
  ∧ (∀ limit offset q, page_query limit offset = Some q →
       Params_Validate (HttpApi.PageQuery_Params q) = None)
  ∧ (∀ p, Params_Validate p = None →
       page_query (Some (Limit p)) (Some (Offset p)) = Some (HttpApi.mkPageQuery (Limit p) (Offset p))).
Proof.
  split_and!; eauto using purposes_agree, statuses_agree, passwords_agree, display_name_admitted,
    project_admitted, task_created, task_updated, page_admitted, page_described.
Qed.

End contract.
