(* ===== verification/AccountHistory.v ===== *)
(** * The authentication tables over time

    [auth_ok d]: every row is valid, identifiers, e-mail addresses, token digests and
    logins are unique, and references point to rows. [history d d']: what the operations
    never undo: no row disappears, what identifies a row is fixed, revocations and
    consumptions are final, versions only grow, flows follow [flow_step], and the audit
    trail is only appended to. [evolves] combines the two; every statement of the store
    satisfies it here, every operation of the service in [AccountFacts]. *)
From S2P Require Import Prelude.
From S2P Require Import Text.
From S2P Require Import GoErrors.
From S2P Require Import Runtime.
From S2P Require Import Identity.
From S2P Require Import Schema.
From S2P Require Import Json.
From S2P Require Import Storage.
From S2P Require Import Logic.
From S2P Require Import Queries.
From S2P Require Import AuthQueries.
From S2P Require Import MailQueries.
From S2P Require Import Owned.
From S2P Require Import Tables.
From S2P Require Import AccountModel.
From S2P Require Import AccountStore.

(** ** Valid rows *)

Section rows.
  Context `{Run : Runtime}.

Definition user_ok (u : User) : Prop :=
  UserStatus_Valid (User_Status u) = true ∧ UserRole_Valid (User_Role u) = true
  ∧ 1 ≤ User_AuthVersion u
  ∧ ((User_Email u = None ∧ User_EmailNormalized u = None)
     ∨ validEmailPair (User_Email u) (User_EmailNormalized u) = true)
  ∧ (User_RecoveryEnabled u = true → is_Some (User_EmailVerifiedAt u)).

Definition user_clash (a b : User) : Prop :=
  is_Some (User_EmailNormalized a) ∧ User_EmailNormalized a = User_EmailNormalized b.

Definition user_history (u u' : User) : Prop :=
  User_ID u' = User_ID u ∧ User_Role u' = User_Role u ∧ User_CreatedAt u' = User_CreatedAt u
  ∧ User_AuthVersion u ≤ User_AuthVersion u'
  ∧ (User_Status u ≠ UserPending → User_Status u' ≠ UserPending).

(** Passwords belong to the local namespace and only to it. *)
Definition account_ok (a : Account) : Prop :=
  1 ≤ Account_Version a
  ∧ if Account_ProviderID a ==? CredentialProvider
    then Account_ProviderNamespace a = LocalNamespace
         ∧ Account_ProviderAccountID a = Account_UserID a ∧ nonempty (Account_PasswordHash a) = true
    else Account_ProviderNamespace a ≠ LocalNamespace ∧ Account_PasswordHash a = None.

Definition account_clash (a b : Account) : Prop :=
  Account_RevokedAt a = None ∧ Account_RevokedAt b = None
  ∧ ((Account_ProviderID a = Account_ProviderID b
      ∧ Account_ProviderAccountID a = Account_ProviderAccountID b)
     ∨ (Account_ProviderNamespace a = Account_ProviderNamespace b
        ∧ Account_ProviderAccountID a = Account_ProviderAccountID b)
     ∨ (Account_ProviderID a = CredentialProvider ∧ Account_ProviderID b = CredentialProvider
        ∧ Account_UserID a = Account_UserID b)).

Definition account_history (a a' : Account) : Prop :=
  Account_ID a' = Account_ID a ∧ Account_UserID a' = Account_UserID a
  ∧ Account_ProviderID a' = Account_ProviderID a
  ∧ Account_ProviderAccountID a' = Account_ProviderAccountID a
  ∧ Account_ProviderNamespace a' = Account_ProviderNamespace a
  ∧ Account_Version a ≤ Account_Version a'
  ∧ (is_Some (Account_RevokedAt a) → Account_RevokedAt a' = Account_RevokedAt a).

Definition session_ok (s : UserSession) : Prop :=
  len (UserSession_TokenHash s) = sha256_size
  ∧ AuthMethod_Valid (UserSession_AuthMethod s) = true
  ∧ 1 ≤ UserSession_AuthVersion s
  ∧ UserSession_IdleExpiresAt s ≤ UserSession_AbsoluteExpiresAt s.

Definition session_clash (a b : UserSession) : Prop :=
  UserSession_TokenHash a = UserSession_TokenHash b.

Definition session_history (s s' : UserSession) : Prop :=
  UserSession_ID s' = UserSession_ID s ∧ UserSession_UserID s' = UserSession_UserID s
  ∧ UserSession_TokenHash s' = UserSession_TokenHash s
  ∧ UserSession_AuthMethod s' = UserSession_AuthMethod s
  ∧ UserSession_AuthSourceID s' = UserSession_AuthSourceID s
  ∧ UserSession_AuthVersion s' = UserSession_AuthVersion s
  ∧ UserSession_AbsoluteExpiresAt s' = UserSession_AbsoluteExpiresAt s
  ∧ (is_Some (UserSession_RevokedAt s) → UserSession_RevokedAt s' = UserSession_RevokedAt s).

(** Flows bound to a user are bound to a session; only logins and registrations are not;
    the protocol secrets are gone once the flow is verified or over. *)
Definition flow_ok (f : AuthFlow) : Prop :=
  FlowPurpose_Valid (AuthFlow_Purpose f) = true ∧ FlowStatus_Valid (AuthFlow_Status f) = true
  ∧ (is_Some (AuthFlow_UserID f) ↔ is_Some (AuthFlow_SessionID f))
  ∧ (PublicStart (AuthFlow_Purpose f) = false → is_Some (AuthFlow_UserID f))
  ∧ (AuthFlow_Status f ∈ [FlowVerified; FlowConsumed; FlowFailed] → AuthFlow_ProtocolState f = None)
  ∧ (AuthFlow_Status f = FlowVerified → AuthFlow_VerifiedNamespace f ≠ LocalNamespace
     ∧ AuthFlow_VerifiedSubject f ≠ "").

Definition flow_clash (a b : AuthFlow) : Prop :=
  is_Some (AuthFlow_TokenHash a) ∧ AuthFlow_TokenHash a = AuthFlow_TokenHash b.

(** The life of a flow. *)
Inductive flow_step : AuthFlow → AuthFlow → Prop :=
| flow_claimed f :
    AuthFlow_Status f = FlowPending →
    flow_step f (f <| AuthFlow_Status := FlowProcessing |>)
| flow_verified f status ns subject name at_ :
    AuthFlow_Status f = FlowProcessing → Verifiable status = true →
    flow_step f (f <| AuthFlow_Status := status |> <| AuthFlow_VerifiedNamespace := ns |>
                   <| AuthFlow_VerifiedSubject := subject |> <| AuthFlow_VerifiedName := name |>
                   <| AuthFlow_AuthenticatedAt := at_ |> <| AuthFlow_ProtocolState := None |>)
| flow_authorization_claimed f claim :
    AuthFlow_Status f = FlowAuthorized →
    flow_step f (f <| AuthFlow_Status := FlowClaimed |> <| AuthFlow_ClaimedBy := claim |>)
| flow_consumed f :
    AuthFlow_Status f ∈ [FlowProcessing; FlowVerified; FlowAuthorized; FlowClaimed] →
    flow_step f (f <| AuthFlow_Status := FlowConsumed |> <| AuthFlow_ProtocolState := None |>)
| flow_failed f :
    AuthFlow_Status f ∈ [FlowPending; FlowProcessing] →
    flow_step f (f <| AuthFlow_Status := FlowFailed |> <| AuthFlow_ProtocolState := None |>).

Definition verification_ok (v : AuthVerification) : Prop :=
  VerificationPurpose_Valid (AuthVerification_Purpose v) = true
  ∧ len (AuthVerification_TokenHash v) = sha256_size
  ∧ 1 ≤ AuthVerification_AuthVersion v ∧ is_ok (normalizeEmail (AuthVerification_Email v)) = true.

Definition verification_clash (a b : AuthVerification) : Prop :=
  AuthVerification_TokenHash a = AuthVerification_TokenHash b.

Definition verification_history (v v' : AuthVerification) : Prop :=
  v' = v <| AuthVerification_ConsumedAt := AuthVerification_ConsumedAt v' |>
  ∧ (is_Some (AuthVerification_ConsumedAt v) → v' = v).

(** ** Valid databases and histories *)

Record auth_ok (d : DB) : Prop := {
  users_ok : table_ok user_ok user_clash User_ID (users d);
  accounts_ok : table_ok account_ok account_clash Account_ID (accounts d);
  sessions_ok : table_ok session_ok session_clash UserSession_ID (user_sessions d);
  flows_ok : table_ok flow_ok flow_clash AuthFlow_ID (auth_flows d);
  verifications_ok : table_ok verification_ok verification_clash AuthVerification_ID
                       (auth_verifications d);
  account_owner k a : accounts d !! k = Some a → is_Some (users d !! Account_UserID a);
  session_owner k s : user_sessions d !! k = Some s → is_Some (users d !! UserSession_UserID s);
  flow_owner k f : auth_flows d !! k = Some f →
    references (AuthFlow_UserID f) (users d) = true
    ∧ references (AuthFlow_SessionID f) (user_sessions d) = true;
  verification_owner k v : auth_verifications d !! k = Some v →
    is_Some (users d !! AuthVerification_UserID v)
}.

(** Every administrator was one before. *)
Definition no_promotion (t t' : gmap string User) : Prop :=
  ∀ k u', t' !! k = Some u' → User_Role u' = RoleAdmin →
    ∃ u, t !! k = Some u ∧ User_Role u = RoleAdmin.

Record history (d d' : DB) : Prop := {
  users_history : rows_evolve user_history (users d) (users d');
  accounts_history : rows_evolve account_history (accounts d) (accounts d');
  sessions_history : rows_evolve session_history (user_sessions d) (user_sessions d');
  flows_history : rows_evolve (rtc flow_step) (auth_flows d) (auth_flows d');
  verifications_history : rows_evolve verification_history (auth_verifications d)
                            (auth_verifications d');
  audit_history : audit_events d `prefix_of` audit_events d';
  no_new_admin : no_promotion (users d) (users d')
}.

Definition evolves (d d' : DB) : Prop := auth_ok d → auth_ok d' ∧ history d d'.

Global Instance user_history_preorder : PreOrder user_history.
Proof.
  split; unfold user_history.
  - intros u. split_and!; auto. lia.
  - intros u1 u2 u3 (?&?&?&?&?) (?&?&?&?&?). split_and!; try congruence; [lia|auto].
Qed.

Global Instance account_history_preorder : PreOrder account_history.
Proof.
  split; unfold account_history.
  - intros a. split_and!; auto. lia.
  - intros a1 a2 a3 (?&?&?&?&?&?&Q1) (?&?&?&?&?&?&Q2). split_and!; try congruence; [lia|].
    intros Hr. rewrite Q2; [auto|]. by rewrite Q1.
Qed.

Global Instance session_history_preorder : PreOrder session_history.
Proof.
  split; unfold session_history.
  - intros a. split_and!; auto.
  - intros a1 a2 a3 (?&?&?&?&?&?&?&Q1) (?&?&?&?&?&?&?&Q2). split_and!; try congruence.
    intros Hr. rewrite Q2; [auto|]. by rewrite Q1.
Qed.

Global Instance verification_history_preorder : PreOrder verification_history.
Proof.
  split; unfold verification_history.
  - intros v. split; [by destruct v|done].
  - intros v1 v2 v3 [E1 H1] [E2 H2]. split.
    + rewrite E2, E1. by destruct v1.
    + intros Hc. specialize (H1 Hc). subst v2. auto.
Qed.

Global Instance no_promotion_preorder : PreOrder no_promotion.
Proof.
  split; unfold no_promotion; [eauto|]. intros t1 t2 t3 H12 H23 k u3 H3 Hr.
  destruct (H23 k u3 H3 Hr) as (u2 & ? & ?). eauto.
Qed.

Global Instance history_preorder : PreOrder history.
Proof.
  split.
  - intros d. split; reflexivity.
  - intros d1 d2 d3 [] []. split; by etransitivity.
Qed.

Global Instance evolves_preorder : PreOrder evolves.
Proof.
  split.
  - intros d Hd. split; [done|reflexivity].
  - intros d1 d2 d3 H12 H23 H1. destruct (H12 H1) as [H2 ?]. destruct (H23 H2) as [H3 ?].
    split; [done|by etransitivity].
Qed.

Lemma evolves_refl d : evolves d d.
Proof. reflexivity. Qed.

(** ** Changing one table *)

Lemma references_evolve {A} (rho : relation A) key t t' :
  rows_evolve rho t t' → references key t = true → references key t' = true.
Proof.
  unfold references. destruct key; [|done]. intros He H. bool_to_prop.
  apply bool_decide_eq_true. by eapply evolve_is_Some.
Qed.

Lemma references_Some {A} k (t : gmap string A) : references (Some k) t = true → is_Some (t !! k).
Proof. unfold references. intros H. by bool_to_prop. Qed.

Lemma evolves_users d t :
  auth_ok d → table_ok user_ok user_clash User_ID t ∧ rows_evolve user_history (users d) t →
  no_promotion (users d) t →
  auth_ok (d <| users := t |>) ∧ history d (d <| users := t |>).
Proof.
  intros [] [Ht He] Hpromo. split; split; simpl; try done.
  - intros k a Ha. eapply evolve_is_Some; eauto.
  - intros k a Ha. eapply evolve_is_Some; eauto.
  - intros k f Hf. destruct (flow_owner0 k f Hf). split; [|done]. by eapply references_evolve.
  - intros k v Hv. eapply evolve_is_Some; eauto.
Qed.

Lemma no_promotion_insert k u t : User_Role u = RoleUser → no_promotion t (<[k := u]> t).
Proof.
  intros Hr j b. rewrite lookup_insert_Some. intros [[_ <-]|[_ Hb]] Ha; [|eauto].
  rewrite Hr in Ha. discriminate Ha.
Qed.

Lemma evolves_accounts d t :
  auth_ok d →
  table_ok account_ok account_clash Account_ID t ∧ rows_evolve account_history (accounts d) t →
  (∀ k a, t !! k = Some a → is_Some (users d !! Account_UserID a)) →
  auth_ok (d <| accounts := t |>) ∧ history d (d <| accounts := t |>).
Proof. intros [] [Ht He] Hfk. split; split; simpl; done. Qed.

Lemma evolves_sessions d t :
  auth_ok d →
  table_ok session_ok session_clash UserSession_ID t
    ∧ rows_evolve session_history (user_sessions d) t →
  (∀ k s, t !! k = Some s → is_Some (users d !! UserSession_UserID s)) →
  auth_ok (d <| user_sessions := t |>) ∧ history d (d <| user_sessions := t |>).
Proof.
  intros [] [Ht He] Hfk. split; split; simpl; try done.
  intros k f Hf. destruct (flow_owner0 k f Hf). split; [done|]. by eapply references_evolve.
Qed.

Lemma evolves_flows d t :
  auth_ok d →
  table_ok flow_ok flow_clash AuthFlow_ID t ∧ rows_evolve (rtc flow_step) (auth_flows d) t →
  (∀ k f, t !! k = Some f → references (AuthFlow_UserID f) (users d) = true
     ∧ references (AuthFlow_SessionID f) (user_sessions d) = true) →
  auth_ok (d <| auth_flows := t |>) ∧ history d (d <| auth_flows := t |>).
Proof. intros [] [Ht He] Hfk. split; split; simpl; done. Qed.

Lemma evolves_verifications d t :
  auth_ok d →
  table_ok verification_ok verification_clash AuthVerification_ID t
    ∧ rows_evolve verification_history (auth_verifications d) t →
  (∀ k v, t !! k = Some v → is_Some (users d !! AuthVerification_UserID v)) →
  auth_ok (d <| auth_verifications := t |>) ∧ history d (d <| auth_verifications := t |>).
Proof. intros [] [Ht He] Hfk. split; split; simpl; done. Qed.

(** A statement that touches none of these tables. *)
Lemma evolves_other d d' :
  users d' = users d → accounts d' = accounts d → user_sessions d' = user_sessions d →
  auth_flows d' = auth_flows d → auth_verifications d' = auth_verifications d →
  audit_events d `prefix_of` audit_events d' → evolves d d'.
Proof.
  intros E1 E2 E3 E4 E5 Ha [].
  split; split; rewrite ?E1, ?E2, ?E3, ?E4, ?E5; try done; reflexivity.
Qed.

(** One user, account, session, flow or verification updated in place. *)
Lemma evolves_update_user d k (P : User → bool) (f : User → User) :
  auth_ok d →
  (∀ r, users d !! k = Some r → P r = true → user_ok r →
     user_ok (f r) ∧ user_history r (f r)
     ∧ (User_EmailNormalized (f r) = User_EmailNormalized r
        ∨ ∀ j b, j ≠ k → users d !! j = Some b → User_EmailNormalized b ≠ User_EmailNormalized (f r))) →
  ∀ r t, update_row k P f (users d) = Some (r, t) →
  auth_ok (d <| users := t |>) ∧ history d (d <| users := t |>).
Proof.
  intros Hd Hf r t (u & Hu & HP & -> & ->)%update_row_Some.
  destruct (Hf u Hu HP (table_row _ _ _ _ _ _ (users_ok _ Hd) Hu)) as (Hok & Hh & Hcl).
  apply evolves_users; [done| |].
  2:{ intros j b. rewrite lookup_insert_Some. intros [[<- <-]|[_ Hb]]; [|eauto].
      destruct Hh as (_ & -> & _). eauto. }
  apply table_update; [typeclasses eauto|exact (users_ok _ Hd)|done..|by destruct Hh|done|].
  intros j b Hj Hb. unfold user_clash. destruct Hcl as [->|Hcl]; [done|].
  specialize (Hcl j b Hj Hb). split; intros [? ?]; congruence.
Qed.

Lemma evolves_update_account d k (P : Account → bool) (f : Account → Account) :
  auth_ok d →
  (∀ r, P r = true → account_ok r → account_ok (f r)) →
  (∀ r, P r = true → account_history r (f r)) →
  ∀ r t, update_row k P f (accounts d) = Some (r, t) →
  auth_ok (d <| accounts := t |>) ∧ history d (d <| accounts := t |>).
Proof.
  intros Hd Hf Hh r t (a & Ha & HP & -> & ->)%update_row_Some.
  pose proof (Hh a HP) as (Hid & Hus & Hpr & Hpa & Hns & _ & Hrev).
  apply evolves_accounts; [done| |].
  - apply table_update; [typeclasses eauto|eauto using accounts_ok..|]. intros j b Hj Hb. unfold account_clash.
    rewrite Hus, Hpr, Hpa, Hns.
    assert (Account_RevokedAt (f a) = None → Account_RevokedAt a = None) as Hr.
    { intros Hn. destruct (Account_RevokedAt a) eqn:E; [|done]. rewrite Hrev in Hn; [done|eauto]. }
    split; intros (?&?&?); auto.
  - intros j b. rewrite lookup_insert_Some. intros [[_ <-]|[_ Hb]].
    + rewrite Hus. by eapply account_owner.
    + by eapply account_owner.
Qed.

Lemma evolves_update_session d k (P : UserSession → bool) (f : UserSession → UserSession) :
  auth_ok d →
  (∀ r, P r = true → session_ok r → session_ok (f r)) →
  (∀ r, P r = true → session_history r (f r)) →
  ∀ r t, update_row k P f (user_sessions d) = Some (r, t) →
  auth_ok (d <| user_sessions := t |>) ∧ history d (d <| user_sessions := t |>).
Proof.
  intros Hd Hf Hh r t (s & Hs & HP & -> & ->)%update_row_Some.
  pose proof (Hh s HP) as (Hid & Hus & Htok & _).
  apply evolves_sessions; [done| |].
  - apply table_update; [typeclasses eauto|eauto using sessions_ok..|]. intros j b Hj Hb. unfold session_clash. by rewrite Htok.
  - intros j b. rewrite lookup_insert_Some. intros [[_ <-]|[_ Hb]].
    + rewrite Hus. by eapply session_owner.
    + by eapply session_owner.
Qed.

Lemma flow_step_fixed f f' : flow_step f f' →
  AuthFlow_ID f' = AuthFlow_ID f ∧ AuthFlow_TokenHash f' = AuthFlow_TokenHash f
  ∧ AuthFlow_UserID f' = AuthFlow_UserID f ∧ AuthFlow_SessionID f' = AuthFlow_SessionID f.
Proof. by destruct 1. Qed.

Lemma evolves_update_flow d k (P : AuthFlow → bool) (f : AuthFlow → AuthFlow) :
  auth_ok d →
  (∀ r, P r = true → flow_ok r → flow_ok (f r)) → (∀ r, P r = true → flow_step r (f r)) →
  ∀ r t, update_row k P f (auth_flows d) = Some (r, t) →
  auth_ok (d <| auth_flows := t |>) ∧ history d (d <| auth_flows := t |>).
Proof.
  intros Hd Hf Hh r t (x & Hx & HP & -> & ->)%update_row_Some.
  destruct (flow_step_fixed _ _ (Hh x HP)) as (Hid & Htok & Hus & Hse).
  apply evolves_flows; [done| |].
  - apply table_update; [typeclasses eauto|eauto using flows_ok, rtc_once..|]. intros j b Hj Hb. unfold flow_clash. by rewrite Htok.
  - intros j b. rewrite lookup_insert_Some. intros [[_ <-]|[_ Hb]].
    + rewrite Hus, Hse. by eapply flow_owner.
    + by eapply flow_owner.
Qed.

(** ** Every statement *)

Ltac solve_row :=
  unfold user_ok, user_history, account_history, session_ok, session_history; split_and!; simpl; try done; try lia; try (by left); try (by right).

(** What remains of an [UPDATE ... WHERE id = ...] is its effect on the row. *)
Ltac update_case :=
  match goal with
  | |- context [update_row ?k ?P ?f ?t] =>
    let r := fresh "r" in let u := fresh "t" in let E := fresh "Eu" in
    destruct (update_row k P f t) as [[r u]|] eqn:E; simpl;
      [|by (split; [assumption|reflexivity])]
  end.

Lemma CreatePendingUser_evolves id e n :
  validEmailPair e n = true → stmt_guar evolves (CreatePendingUser id e n).
Proof.
  intros Hp now d Hd. unfold CreatePendingUser.
  destruct n as [n|]; [|by destruct e].
  destruct (select_rows _ _) as [|u l] eqn:Es; [|split; [done|reflexivity]].
  destruct (exists_row _ _) eqn:Ei; [split; [done|reflexivity]|]. simpl.
  rewrite select_rows_nil in Es. apply evolves_users; [done| |by apply no_promotion_insert].
  apply (table_insert user_ok user_clash User_ID user_history _ (new_user id "" e (Some n) "pending" now));
    [by apply users_ok|done|split_and!; simpl; try done; by right|].
  intros k b Hb. specialize (Es k b Hb). bool_to_prop. unfold user_clash. simpl.
  split; intros [? ?]; congruence.
Qed.

Lemma CreateFederatedUser_evolves id name : stmt_guar evolves (CreateFederatedUser id name).
Proof.
  intros now d Hd. unfold CreateFederatedUser.
  destruct (exists_row _ _) eqn:Ei; [split; [done|reflexivity]|]. simpl.
  apply evolves_users; [done| |by apply no_promotion_insert].
  apply (table_insert user_ok user_clash User_ID user_history _ (new_user id name None None "active" now));
    [by apply users_ok|done|split_and!; simpl; try done; by left|].
  intros k b Hb. unfold user_clash. simpl. split; [by intros [[] _]|].
  intros [[x Hx] E]. congruence.
Qed.

Lemma ActivateUser_evolves id : stmt_guar evolves (ActivateUser id).
Proof.
  intros now d Hd. unfold ActivateUser, returning_one. update_case.
  eapply evolves_update_user; [done| |exact Eu]. intros u _ Hs (?&?&?&?&?). bool_to_prop.
  solve_row.
Qed.

Lemma UpdateUserProfile_evolves id name sid : stmt_guar evolves (UpdateUserProfile id name sid).
Proof.
  intros now d Hd. unfold UpdateUserProfile, returning_one. update_case.
  eapply evolves_update_user; [done| |exact Eu]. intros u _ Hs (?&?&?&?&?).
  solve_row.
Qed.

Lemma UpdateUserEmail_evolves id e n :
  validEmailPair e n = true → stmt_guar evolves (UpdateUserEmail id e n).
Proof.
  intros Hp now d Hd. unfold UpdateUserEmail. update_case.
  destruct (exists_row _ _) eqn:Ex; [split; [done|reflexivity]|]. simpl.
  rewrite exists_row_false in Ex.
  eapply evolves_update_user; [done| |exact Eu]. intros u Hu Hs (?&?&?&?&?).
  solve_row.
  right. intros j b Hj Hb Hn. specialize (Ex j b Hb).
  rewrite (table_key _ _ _ _ _ _ (users_ok _ Hd) Hb) in Ex.
  destruct n as [n|]; [|by destruct e].
  rewrite !bool_decide_eq_false_2, bool_decide_eq_true_2 in Ex by (done || congruence). done.
Qed.

Lemma ReleasePendingEmail_evolves e : stmt_guar evolves (ReleasePendingEmail e).
Proof.
  intros now d Hd. unfold ReleasePendingEmail. simpl. apply evolves_users; [done| |].
  2:{ intros k u'. unfold update_where. rewrite lookup_fmap_Some. intros (u & <- & Hu).
      destruct (_ && _)%bool; eauto. }
  apply table_update_where; [typeclasses eauto|by apply users_ok|..].
  - intros u HP (?&?&?&?&?). bool_to_prop. solve_row.
  - intros a b. unfold user_clash. simpl. split; [by intros [[] _]|]. intros [[x Hx] E]. congruence.
Qed.

Lemma BumpUserVersion_evolves id : stmt_guar evolves (BumpUserVersion id).
Proof.
  intros now d Hd. unfold BumpUserVersion, no_result. update_case.
  eapply evolves_update_user; [done| |exact Eu]. intros u _ _ (?&?&?&?&?).
  solve_row.
Qed.

Lemma SetUserStatus_evolves id status :
  Settable_ status = true → stmt_guar evolves (SetUserStatus id status).
Proof.
  intros Hset now d Hd. unfold SetUserStatus, returning_one. update_case.
  assert (UserStatus_Valid status = true ∧ status ≠ UserPending) as [Hv Hn].
  { unfold Settable_ in Hset. apply orb_true_iff in Hset as [H|H]; bool_to_prop; subst; done. }
  eapply evolves_update_user; [done| |exact Eu]. intros u _ _ (?&?&?&?&?).
  solve_row.
Qed.

Lemma CreateAccount_evolves arg :
  account_params_ok arg = true → stmt_guar evolves (CreateAccount arg).
Proof.
  intros Hp now d Hd. unfold CreateAccount.
  destruct (exists_row _ _) eqn:E1; [split; [done|reflexivity]|].
  destruct (exists_row (λ a, same_provider_identity a _) _) eqn:E2; [split; [done|reflexivity]|].
  destruct (exists_row (λ a, same_namespace_identity a _) _) eqn:E3; [split; [done|reflexivity]|].
  destruct (exists_row (λ a, same_user_credential a _) _) eqn:E4; [split; [done|reflexivity]|].
  destruct (negb _) eqn:E5; [split; [done|reflexivity]|]. simpl.
  set (row := account_row arg now) in *.
  rewrite exists_row_false in E2, E3, E4. bool_to_prop.
  apply evolves_accounts; [done| |].
  - apply (table_insert account_ok account_clash Account_ID account_history _ row);
      [by apply accounts_ok|done|..].
    + unfold account_params_ok in Hp. split; simpl; [lia|].
      destruct (_ ==? CredentialProvider); bool_to_prop; done.
    + intros k b Hb. specialize (E2 k b Hb). specialize (E3 k b Hb). specialize (E4 k b Hb).
      assert (¬ account_clash b row) as Hno.
      { intros (Hr & _ & Hc).
        unfold same_provider_identity, same_namespace_identity, same_user_credential, account_active in *.
        rewrite bool_decide_eq_true_2 in E2, E3, E4 by done. simpl in *.
        destruct Hc as [[? ?]|[[? ?]|(?&?&?)]].
        - by rewrite !bool_decide_eq_true_2 in E2.
        - by rewrite !bool_decide_eq_true_2 in E3.
        - by rewrite !bool_decide_eq_true_2 in E4. }
      split; [|done]. intros (?&?&Hc). apply Hno. split_and!; [done..|]. naive_solver.
  - intros k a. rewrite lookup_insert_Some. intros [[_ <-]|[_ Ha]]; [by apply references_Some|].
    by eapply account_owner.
Qed.

Lemma ChangePassword_evolves id uid h :
  nonempty h = true → stmt_guar evolves (ChangePassword id uid h).
Proof.
  intros Hh now d Hd. unfold ChangePassword, rows_affected. update_case.
  eapply evolves_update_account; [done|..|exact Eu]; intros a HP; cbv beta in HP; bool_to_prop.
  - intros [? Hok]. split; simpl; [lia|].
    assert ((Account_ProviderID a ==? CredentialProvider) = true) as E by (by apply bool_decide_eq_true).
    rewrite E in Hok |- *. naive_solver.
  - split_and!; simpl; try done. lia.
Qed.

Lemma RevokeAccount_evolves id uid : stmt_guar evolves (RevokeAccount id uid).
Proof.
  intros now d Hd. unfold RevokeAccount, rows_affected. update_case.
  eapply evolves_update_account; [done|..|exact Eu]; intros a HP; unfold account_active in HP; bool_to_prop.
  - intros [? Hok]. split; simpl; [lia|done].
  - split_and!; simpl; try done; [lia|]. intros [x Hx]. congruence.
Qed.

Lemma TouchAccount_evolves id uid : stmt_guar evolves (TouchAccount id uid).
Proof.
  intros now d Hd. unfold TouchAccount, no_result. update_case.
  eapply evolves_update_account; [done|..|exact Eu]; intros a HP; [done|].
  by split_and!.
Qed.

Lemma UpgradePasswordHash_evolves id uid new old :
  nonempty new = true → stmt_guar evolves (UpgradePasswordHash id uid new old).
Proof.
  intros Hh now d Hd. unfold UpgradePasswordHash, no_result. update_case.
  eapply evolves_update_account; [done|..|exact Eu]; intros a HP; [|by split_and!].
  intros [? Hok]. split; simpl; [done|]. case_bool_decide; [naive_solver|].
  destruct Hok as [? Hn]. unfold sql_eq in HP. rewrite Hn in HP. simpl in HP. bool_to_prop. done.
Qed.

Lemma CreateSession_evolves arg :
  session_params_ok arg = true → stmt_guar evolves (CreateSession arg).
Proof.
  intros Hp now d Hd. unfold CreateSession.
  destruct (exists_row _ _) eqn:E1; [split; [done|reflexivity]|].
  destruct (exists_row (λ s, UserSession_TokenHash s ==? _) _) eqn:E2; [split; [done|reflexivity]|].
  destruct (negb _) eqn:E3; [split; [done|reflexivity]|]. simpl.
  set (row := session_row arg now) in *. rewrite exists_row_false in E2.
  unfold session_params_ok in Hp. bool_to_prop. apply evolves_sessions; [done| |].
  - apply (table_insert session_ok session_clash UserSession_ID session_history _ row);
      [by apply sessions_ok|done|..].
    + unfold session_ok. split_and!; simpl; [done..|lia|].
      unfold seconds, Second. lia.
    + intros k b Hb. specialize (E2 k b Hb). bool_to_prop. unfold session_clash.
      split; congruence.
  - intros k s. rewrite lookup_insert_Some. intros [[_ <-]|[_ Hs]]; [by apply references_Some|].
    by eapply session_owner.
Qed.

Lemma RevokeSession_evolves id uid : stmt_guar evolves (RevokeSession id uid).
Proof.
  intros now d Hd. unfold RevokeSession, rows_affected. update_case.
  eapply evolves_update_session; [done|..|exact Eu]; intros s HP; [done|].
  solve_row. by destruct (UserSession_RevokedAt s); intros [].
Qed.

Lemma TouchSession_evolves idle id uid ms : stmt_guar evolves (TouchSession idle id uid ms).
Proof.
  intros now d Hd. unfold TouchSession, no_result. update_case.
  eapply evolves_update_session; [done|..|exact Eu]; intros s HP; [|solve_row].
  intros (?&?&?&?). solve_row.
Qed.

Lemma RevokeUserSessions_evolves uid : stmt_guar evolves (RevokeUserSessions uid).
Proof.
  intros now d Hd. unfold RevokeUserSessions. simpl. apply evolves_sessions; [done| |].
  - apply table_update_where; [typeclasses eauto|by apply sessions_ok|..|done].
    intros s HP Hok. bool_to_prop. split; [done|]. solve_row. intros [x Hx]. congruence.
  - intros k s. unfold update_where. rewrite lookup_fmap_Some. intros (s0 & <- & Hs).
    destruct (_ && _)%bool; by eapply (session_owner _ Hd _ _ Hs).
Qed.

Lemma CreateFlow_evolves arg : flow_params_ok arg = true → stmt_guar evolves (CreateFlow arg).
Proof.
  intros Hp now d Hd. unfold CreateFlow.
  destruct (exists_row _ _) eqn:E1; [split; [done|reflexivity]|].
  destruct (exists_row (λ f, sql_eq _ _) _) eqn:E2; [split; [done|reflexivity]|].
  set (row := flow_row arg now) in *.
  destruct (references (AuthFlow_UserID row) (users d)) eqn:E3; [|split; [done|reflexivity]].
  destruct (references (AuthFlow_SessionID row) (user_sessions d)) eqn:E4;
    [|split; [done|reflexivity]]. rewrite exists_row_false in E2.
  unfold flow_params_ok in Hp. bool_to_prop. apply evolves_flows; [done| |].
  - apply (table_insert flow_ok flow_clash AuthFlow_ID (rtc flow_step) _ row);
      [by apply flows_ok|done|..].
    + assert (CreateFlow_Status arg = FlowPending ∨ CreateFlow_Status arg = FlowAuthorized) as Hst.
      { match goal with H : Initial _ = true |- _ => apply orb_true_iff in H as [H|H] end;
          bool_to_prop; auto. }
      unfold flow_ok. split_and!; simpl.
      * done.
      * by destruct Hst as [-> | ->].
      * destruct (CreateFlow_UserID arg), (CreateFlow_SessionID arg); try done; split; by eauto.
      * intros Hpub. destruct (CreateFlow_UserID arg); [eauto|].
        destruct H2 as [H2|H2]; [by rewrite H2 in Hpub|done].
      * intros Hin. exfalso. destruct Hst as [Hst|Hst]; rewrite Hst in Hin; set_solver.
      * intros Hv. exfalso. destruct Hst as [Hst|Hst]; rewrite Hst in Hv; discriminate Hv.
    + intros k b Hb. specialize (E2 k b Hb). unfold flow_clash, sql_eq in *.
      split; intros [[x Hx] E]; rewrite Hx in *; rewrite <-E in E2 || rewrite E in E2; by bool_to_prop.
  - intros k f. rewrite lookup_insert_Some. intros [[_ <-]|[_ Hf]]; [done|by eapply flow_owner].
Qed.

Lemma ClaimFlow_evolves id : stmt_guar evolves (ClaimFlow id).
Proof.
  intros now d Hd. unfold ClaimFlow, rows_affected. update_case.
  eapply evolves_update_flow; [done|..|exact Eu]; intros f HP; unfold flow_in in HP; bool_to_prop.
  - intros (?&?&?&?&Hs&?). unfold flow_ok. split_and!; simpl; try done; set_solver.
  - by apply flow_claimed.
Qed.

Lemma VerifyFlow_evolves arg :
  Verifiable (VerifyFlow_Status arg) = true → VerifyFlow_VerifiedNamespace arg ≠ LocalNamespace →
  VerifyFlow_VerifiedSubject arg ≠ "" → stmt_guar evolves (VerifyFlow arg).
Proof.
  intros Hv Hns Hsub now d Hd. unfold VerifyFlow, rows_affected. update_case.
  eapply evolves_update_flow; [done|..|exact Eu]; intros f HP; unfold flow_in in HP; bool_to_prop.
  - intros (?&?&?&?&Hs&?). unfold flow_ok. split_and!; simpl; try done.
    unfold Verifiable in Hv. apply orb_true_iff in Hv as [E|E]; bool_to_prop; by rewrite E.
  - by apply flow_verified.
Qed.

Lemma FinishFlow_evolves id status :
  status ∈ [FlowProcessing; FlowVerified; FlowAuthorized; FlowClaimed] →
  stmt_guar evolves (FinishFlow id status).
Proof.
  intros Hin now d Hd. unfold FinishFlow, rows_affected. update_case.
  eapply evolves_update_flow; [done|..|exact Eu]; intros f HP; unfold flow_in in HP; bool_to_prop.
  - intros (?&?&?&?&Hs&?). unfold flow_ok. by split_and!.
  - apply flow_consumed. by subst.
Qed.

Lemma FailFlow_evolves id : stmt_guar evolves (FailFlow id).
Proof.
  intros now d Hd. unfold FailFlow, no_result. update_case.
  eapply evolves_update_flow; [done|..|exact Eu]; intros f HP.
  - intros (?&?&?&?&Hs&?). unfold flow_ok. by split_and!.
  - apply flow_failed. apply orb_true_iff in HP as [E|E]; bool_to_prop; rewrite E; set_solver.
Qed.

Lemma ClaimAuthorization_evolves id claim : stmt_guar evolves (ClaimAuthorization id claim).
Proof.
  intros now d Hd. unfold ClaimAuthorization, rows_affected. update_case.
  eapply evolves_update_flow; [done|..|exact Eu]; intros f HP; unfold flow_in in HP; bool_to_prop.
  - intros (?&?&?&?&Hs&?). unfold flow_ok. split_and!; simpl; try done; set_solver.
  - by apply flow_authorization_claimed.
Qed.

Lemma CreateVerification_evolves arg :
  verification_params_ok arg = true → stmt_guar evolves (CreateVerification arg).
Proof.
  intros Hp now d Hd. unfold CreateVerification.
  destruct (exists_row _ _) eqn:E1; [split; [done|reflexivity]|].
  destruct (exists_row (λ v, AuthVerification_TokenHash v ==? _) _) eqn:E2; [split; [done|reflexivity]|].
  destruct (negb _) eqn:E3; [split; [done|reflexivity]|]. simpl.
  set (row := verification_row arg now) in *. rewrite exists_row_false in E2.
  unfold verification_params_ok in Hp. bool_to_prop. apply evolves_verifications; [done| |].
  - apply (table_insert verification_ok verification_clash AuthVerification_ID verification_history _ row);
      [by apply verifications_ok|done|..].
    + unfold verification_ok. split_and!; simpl; try done. lia.
    + intros k b Hb. specialize (E2 k b Hb). bool_to_prop. unfold verification_clash.
      split; congruence.
  - intros k v. rewrite lookup_insert_Some. intros [[_ <-]|[_ Hv]]; [by apply references_Some|].
    by eapply verification_owner.
Qed.

Lemma ConsumeVerification_evolves id uid : stmt_guar evolves (ConsumeVerification id uid).
Proof.
  intros now d Hd. unfold ConsumeVerification, rows_affected. update_case.
  apply update_row_Some in Eu as (v & Hv & HP & -> & ->).
  unfold verification_open in HP. bool_to_prop.
  apply evolves_verifications; [done| |].
  - apply table_update; [typeclasses eauto|by apply verifications_ok|done|done|done| |done].
    split; [done|]. intros [x Hx]. congruence.
  - intros j b. rewrite lookup_insert_Some. intros [[_ <-]|[_ Hb]];
      [exact (verification_owner _ Hd _ _ Hv)|exact (verification_owner _ Hd _ _ Hb)].
Qed.

Lemma AppendAudit_evolves arg : stmt_guar evolves (AppendAudit arg).
Proof.
  intros now d. unfold AppendAudit. destruct (existsb _ _); [reflexivity|]. simpl.
  apply evolves_other; try done. simpl. by eexists.
Qed.

Lemma RateLimit_evolves key window : stmt_guar evolves (RateLimit key window).
Proof. intros now d. simpl. by apply evolves_other. Qed.

Lemma EnqueueMail_evolves arg : stmt_guar evolves (EnqueueMail arg).
Proof. intros now d. unfold EnqueueMail. destruct (exists_row _ _); [reflexivity|]. by apply evolves_other. Qed.

End rows.
