(* ===== verification/AccountGuar.v ===== *)
(** * Every operation of the account service respects a relation between databases

    [guar R m] for the store, for the shared parts and for each operation of
    [AccountSessions] and [AccountFlows], whatever fails and whatever other clients do, for
    every [R] that the statements of the store respect ([AccountGuar]). *)
From S2P Require Import Prelude.
From S2P Require Import Text.
From S2P Require Import GoErrors.
From S2P Require Import Runtime.
From S2P Require Import Identity.
From S2P Require Import Pagination.
From S2P Require Import Schema.
From S2P Require Import Storage.
From S2P Require Import Logic.
From S2P Require Import Queries.
From S2P Require Import AuthQueries.
From S2P Require Import MailQueries.
From S2P Require Import AccountModel.
From S2P Require Import AccountStore.
From S2P Require Import AccountCore.
From S2P Require Import AccountSessions.
From S2P Require Import AccountFlows.

(** The identifier was drawn by the program. *)
Definition drawn `{Run : Runtime} (id : string) : Prop := ∃ n, id = NewID n.

(** What a relation between databases must allow so that every operation respects it: each
    statement of the store, where its parameters pass the checks of the store and identifiers
    of new rows are drawn. *)
Class AccountGuar `{Run : Runtime} (R : relation DB) : Prop := {
  guar_CreatePendingUser id e n :
    drawn id → validEmailPair e n = true → stmt_guar R (CreatePendingUser id e n);
  guar_CreateFederatedUser id name : drawn id → stmt_guar R (CreateFederatedUser id name);
  guar_ActivateUser id : stmt_guar R (ActivateUser id);
  guar_UpdateUserProfile id name sid : stmt_guar R (UpdateUserProfile id name sid);
  guar_UpdateUserEmail id e n :
    validEmailPair e n = true → stmt_guar R (UpdateUserEmail id e n);
  guar_ReleasePendingEmail e : stmt_guar R (ReleasePendingEmail e);
  guar_BumpUserVersion id : stmt_guar R (BumpUserVersion id);
  guar_SetUserStatus id status :
    Settable_ status = true → stmt_guar R (SetUserStatus id status);
  guar_CreateAccount arg :
    drawn (CreateAccount_ID arg) → account_params_ok arg = true → stmt_guar R (CreateAccount arg);
  guar_ChangePassword id uid h : nonempty h = true → stmt_guar R (ChangePassword id uid h);
  guar_RevokeAccount id uid : stmt_guar R (RevokeAccount id uid);
  guar_TouchAccount id uid : stmt_guar R (TouchAccount id uid);
  guar_UpgradePasswordHash id uid new old :
    nonempty new = true → stmt_guar R (UpgradePasswordHash id uid new old);
  guar_CreateSession arg :
    drawn (CreateSession_ID arg) → session_params_ok arg = true → stmt_guar R (CreateSession arg);
  guar_RevokeSession id uid : stmt_guar R (AuthQueries.RevokeSession id uid);
  guar_TouchSession idle id uid ms : stmt_guar R (TouchSession idle id uid ms);
  guar_RevokeUserSessions uid : stmt_guar R (AuthQueries.RevokeUserSessions uid);
  guar_CreateFlow arg : flow_params_ok arg = true → stmt_guar R (CreateFlow arg);
  guar_ClaimFlow id : stmt_guar R (ClaimFlow id);
  guar_VerifyFlow arg :
    Verifiable (VerifyFlow_Status arg) = true → VerifyFlow_VerifiedNamespace arg ≠ LocalNamespace →
    VerifyFlow_VerifiedSubject arg ≠ "" → stmt_guar R (VerifyFlow arg);
  guar_FinishFlow id status :
    status ∈ [FlowProcessing; FlowVerified; FlowAuthorized; FlowClaimed] →
    stmt_guar R (FinishFlow id status);
  guar_FailFlow id : stmt_guar R (FailFlow id);
  guar_ClaimAuthorization id claim : stmt_guar R (ClaimAuthorization id claim);
  guar_CreateVerification arg :
    drawn (CreateVerification_ID arg) → verification_params_ok arg = true → stmt_guar R (CreateVerification arg);
  guar_ConsumeVerification id uid : stmt_guar R (ConsumeVerification id uid);
  guar_AppendAudit arg : drawn (AppendAudit_ID arg) → stmt_guar R (AppendAudit arg);
  guar_RateLimit key window : stmt_guar R (RateLimit key window);
  guar_EnqueueMail arg : Identifier (EnqueueMail_ID arg) = true → stmt_guar R (EnqueueMail arg)
}.

#[export] Hint Extern 0 (PreOrder _) => typeclasses eauto : guar.
#[export] Hint Extern 0 (EnvGuar _) => typeclasses eauto : guar.
#[export] Hint Extern 0 (AccountGuar _) => typeclasses eauto : guar.
#[export] Hint Extern 1 (stmt_guar _ (CreatePendingUser _ _ _)) => apply guar_CreatePendingUser; [by eexists|] : guar.
#[export] Hint Extern 1 (stmt_guar _ (CreateFederatedUser _ _)) => apply guar_CreateFederatedUser; by eexists : guar.
#[export] Hint Extern 1 (stmt_guar _ (ActivateUser _)) => apply guar_ActivateUser : guar.
#[export] Hint Extern 1 (stmt_guar _ (UpdateUserProfile _ _ _)) => apply guar_UpdateUserProfile : guar.
#[export] Hint Extern 1 (stmt_guar _ (UpdateUserEmail _ _ _)) => apply guar_UpdateUserEmail : guar.
#[export] Hint Extern 1 (stmt_guar _ (ReleasePendingEmail _)) => apply guar_ReleasePendingEmail : guar.
#[export] Hint Extern 1 (stmt_guar _ (BumpUserVersion _)) => apply guar_BumpUserVersion : guar.
#[export] Hint Extern 1 (stmt_guar _ (SetUserStatus _ _)) => apply guar_SetUserStatus : guar.
#[export] Hint Extern 1 (stmt_guar _ (ChangePassword _ _ _)) => apply guar_ChangePassword : guar.
#[export] Hint Extern 1 (stmt_guar _ (RevokeAccount _ _)) => apply guar_RevokeAccount : guar.
#[export] Hint Extern 1 (stmt_guar _ (TouchAccount _ _)) => apply guar_TouchAccount : guar.
#[export] Hint Extern 1 (stmt_guar _ (UpgradePasswordHash _ _ _ _)) => apply guar_UpgradePasswordHash : guar.
#[export] Hint Extern 1 (stmt_guar _ (AuthQueries.RevokeSession _ _)) => apply guar_RevokeSession : guar.
#[export] Hint Extern 1 (stmt_guar _ (TouchSession _ _ _ _)) => apply guar_TouchSession : guar.
#[export] Hint Extern 1 (stmt_guar _ (AuthQueries.RevokeUserSessions _)) => apply guar_RevokeUserSessions : guar.
#[export] Hint Extern 1 (stmt_guar _ (CreateFlow _)) => apply guar_CreateFlow : guar.
#[export] Hint Extern 1 (stmt_guar _ (ClaimFlow _)) => apply guar_ClaimFlow : guar.
#[export] Hint Extern 1 (stmt_guar _ (FinishFlow _ _)) => apply guar_FinishFlow : guar.
#[export] Hint Extern 1 (stmt_guar _ (FailFlow _)) => apply guar_FailFlow : guar.
#[export] Hint Extern 1 (stmt_guar _ (ClaimAuthorization _ _)) => apply guar_ClaimAuthorization : guar.
#[export] Hint Extern 1 (stmt_guar _ (ConsumeVerification _ _)) => apply guar_ConsumeVerification : guar.
#[export] Hint Extern 1 (stmt_guar _ (AppendAudit _)) => apply guar_AppendAudit; by eexists : guar.
#[export] Hint Extern 1 (stmt_guar _ (RateLimit _ _)) => apply guar_RateLimit : guar.

Lemma guar_require {B} (R : relation DB) `{!PreOrder R} ok (f : unit → M B) :
  (ok = true → guar R (f tt)) → guar R (require_valid ok ≫= f).
Proof.
  intros Hf w. unfold require_valid. destruct ok; [exact (Hf eq_refl w)|]. simpl. reflexivity.
Qed.

(** [guar_auto], knowing what the checks of the store established. *)
Ltac evolve_step :=
  match goal with
  | |- guar _ (mbind _ (require_valid _)) => refine (guar_require _ _ _ _); intros ?
  | |- guar _ _ => solve [eauto 2 with guar nocore]
  | |- EnvGuar _ => typeclasses eauto
  | |- AccountGuar _ => typeclasses eauto
  | _ => guar_step
  end.
Ltac evolve_auto := repeat evolve_step.

Section facts.
  Context `{Run : Runtime, Sch : Schedule, Opt : Options, Pwd : Passwords, Fed : Federation}.
  Context (R : relation DB) `{Pre : !PreOrder R, Env : !EnvGuar R, AG : !AccountGuar R}.

Lemma store_CreatePendingUser_guar q e n : guar R (store_CreatePendingUser q e n).
Proof. unfold store_CreatePendingUser. evolve_auto. Qed.

Lemma store_CreateFederatedUser_guar q name : guar R (store_CreateFederatedUser q name).
Proof. unfold store_CreateFederatedUser. evolve_auto. Qed.

Lemma store_ActivateUser_guar q id : guar R (store_ActivateUser q id).
Proof. unfold store_ActivateUser. evolve_auto. Qed.

Lemma store_UpdateUserEmail_guar q id e n : guar R (store_UpdateUserEmail q id e n).
Proof. unfold store_UpdateUserEmail. evolve_auto. Qed.

Lemma store_ReleasePendingEmail_guar q e : guar R (store_ReleasePendingEmail q e).
Proof. unfold store_ReleasePendingEmail. evolve_auto. Qed.

Lemma store_UpdateUserProfile_guar q id name sid :
  guar R (store_UpdateUserProfile q id name sid).
Proof. unfold store_UpdateUserProfile. evolve_auto. Qed.

Lemma store_SetUserStatus_guar q id status : guar R (store_SetUserStatus q id status).
Proof. unfold store_SetUserStatus. evolve_auto. Qed.

Lemma store_CreateAccount_guar q p : guar R (store_CreateAccount q p).
Proof.
  unfold store_CreateAccount. evolve_auto. apply guar_CreateAccount; [by eexists|by destruct p].
Qed.

Lemma store_ChangePassword_guar q id uid h : guar R (store_ChangePassword q id uid h).
Proof. unfold store_ChangePassword. evolve_auto. Qed.

Lemma store_UpgradePasswordHash_guar q id uid new old :
  guar R (store_UpgradePasswordHash q id uid new old).
Proof. unfold store_UpgradePasswordHash. evolve_auto. Qed.

Lemma store_CreateSession_guar q p : guar R (store_CreateSession q p).
Proof.
  unfold store_CreateSession. evolve_auto. apply guar_CreateSession; [by eexists|by destruct p].
Qed.

Lemma store_CreateFlow_guar q p : guar R (store_CreateFlow q p).
Proof. unfold store_CreateFlow. evolve_auto. Qed.

Lemma store_CreateVerification_guar q p : guar R (store_CreateVerification q p).
Proof.
  unfold store_CreateVerification. evolve_auto. apply guar_CreateVerification; [by eexists|by destruct p].
Qed.

Lemma store_RateLimit_guar q key window : guar R (store_RateLimit q key window).
Proof. unfold store_RateLimit. evolve_auto. Qed.

Lemma store_AppendAudit_guar q p : guar R (store_AppendAudit q p).
Proof. unfold store_AppendAudit. evolve_auto. Qed.

Lemma store_EnqueueMail_guar q p : guar R (store_EnqueueMail q p).
Proof. unfold store_EnqueueMail. evolve_auto. bool_to_prop. by apply guar_EnqueueMail. Qed.

Lemma verifyFlow_guar q id status v : guar R (verifyFlow q id status v).
Proof.
  unfold verifyFlow, transitionResult. evolve_auto. bool_to_prop.
  apply guar_VerifyFlow; simpl; [done..|]. unfold validBytes in *. by bool_to_prop.
Qed.

Lemma consumeFlow_guar q id expected : guar R (consumeFlow q id expected).
Proof.
  unfold consumeFlow, transitionResult. evolve_auto. bool_to_prop. by apply guar_FinishFlow.
Qed.

Lemma transition_guar q (s : stmt Z) : stmt_guar R s → guar R (transitionResult (exec q s)).
Proof. intros Hs. unfold transitionResult. evolve_auto. Qed.

End facts.

#[export] Hint Resolve store_CreatePendingUser_guar store_CreateFederatedUser_guar
  store_ActivateUser_guar store_UpdateUserEmail_guar store_ReleasePendingEmail_guar
  store_UpdateUserProfile_guar store_SetUserStatus_guar store_CreateAccount_guar
  store_ChangePassword_guar store_UpgradePasswordHash_guar store_CreateSession_guar
  store_CreateFlow_guar store_CreateVerification_guar store_RateLimit_guar
  store_AppendAudit_guar store_EnqueueMail_guar verifyFlow_guar consumeFlow_guar : guar.


Section shared.
  Context `{Run : Runtime, Sch : Schedule, Opt : Options, Pwd : Passwords, Fed : Federation}.
  Context (R : relation DB) `{Pre : !PreOrder R, Env : !EnvGuar R, AG : !AccountGuar R}.

Lemma claimPendingFlow_guar q id : guar R (claimPendingFlow q id).
Proof. apply transition_guar; eauto with guar. Qed.

Lemma claimAuthorization_guar q id claim : guar R (claimAuthorization q id claim).
Proof. apply transition_guar; eauto with guar. Qed.

Lemma consumeVerification_guar q id uid : guar R (consumeVerification q id uid).
Proof. apply transition_guar; eauto with guar. Qed.

Lemma audit_guar q r event : guar R (audit q r event).
Proof. unfold audit. evolve_auto. Qed.

Hint Resolve claimPendingFlow_guar claimAuthorization_guar consumeVerification_guar
  audit_guar : guar.

Lemma recordFailure_guar r action err : guar R (recordFailure r action err).
Proof. unfold recordFailure. evolve_auto. Qed.

Hint Resolve recordFailure_guar : guar.

Lemma recordFailureOnReturn_guar {A} r action (m : M A) :
  guar R m → guar R (recordFailureOnReturn r action m).
Proof. intros Hm. unfold recordFailureOnReturn. evolve_auto. Qed.

Lemma lockSelf_guar q r : guar R (lockSelf q r).
Proof. unfold lockSelf. evolve_auto. Qed.

Lemma readSelf_guar q r : guar R (readSelf q r).
Proof. unfold readSelf. evolve_auto. Qed.

Lemma invalidate_guar q id : guar R (invalidate q id).
Proof. unfold invalidate, store_BumpUserVersion, store_RevokeUserSessions. evolve_auto. Qed.

Lemma limit_guar category key max window : guar R (limit category key max window).
Proof. unfold limit. evolve_auto. Qed.

Hint Resolve limit_guar : guar.

Lemma entryLimit_guar r category key : guar R (entryLimit r category key).
Proof. unfold entryLimit. evolve_auto. Qed.

Lemma enqueueVerificationMail_guar q v token : guar R (enqueueVerificationMail q v token).
Proof. unfold enqueueVerificationMail. evolve_auto. Qed.

Lemma enqueueSecurityNotification_guar q u body :
  guar R (enqueueSecurityNotification q u body).
Proof. unfold enqueueSecurityNotification. evolve_auto. Qed.

Hint Resolve enqueueVerificationMail_guar : guar.

Lemma createChallenge_guar q u purpose email ttl session reauth :
  guar R (createChallenge q u purpose email ttl session reauth).
Proof. unfold createChallenge. evolve_auto. Qed.

Lemma newSession_guar q r u a method : guar R (newSession q r u a method).
Proof. unfold newSession, store_TouchAccount. evolve_auto. Qed.

Lemma authorization_guar q r id operation target claim :
  guar R (authorization q r id operation target claim).
Proof. unfold authorization. evolve_auto. Qed.

Lemma finishAuthorization_guar q proof : guar R (finishAuthorization q proof).
Proof. unfold finishAuthorization. evolve_auto. Qed.

End shared.

#[export] Hint Resolve claimPendingFlow_guar claimAuthorization_guar
  consumeVerification_guar audit_guar recordFailure_guar lockSelf_guar readSelf_guar
  invalidate_guar limit_guar entryLimit_guar enqueueVerificationMail_guar
  enqueueSecurityNotification_guar createChallenge_guar newSession_guar
  authorization_guar finishAuthorization_guar : guar.

(** ** The operations *)

Ltac operation :=
  unfold verification_hash, transaction, business, hash_password, verify_password, fail_flow_on_error,
    store_RevokeSession, store_RevokeAccount, store_RevokeUserSessions, store_TouchSession,
    store_FailFlow, assign_user, captured_request;
  repeat (evolve_step || (apply recordFailureOnReturn_guar)).

Section operations.
  Context `{Run : Runtime, Sch : Schedule, Opt : Options, Pwd : Passwords, Fed : Federation}.
  Context (R : relation DB) `{Pre : !PreOrder R, Env : !EnvGuar R, AG : !AccountGuar R}.

Lemma AuthenticateSession_guar token : guar R (AuthenticateSession token).
Proof. unfold AuthenticateSession. operation. Qed.

Lemma Login_guar r email password : guar R (Login r email password).
Proof. unfold Login, login_transaction. operation. Qed.

Lemma Sessions_guar r p : guar R (Sessions r p).
Proof. unfold Sessions. operation. Qed.

Lemma service_RevokeSession_guar r id all : guar R (AccountSessions.RevokeSession r id all).
Proof. unfold AccountSessions.RevokeSession. operation. Qed.

Lemma Register_guar r email : guar R (Register r email).
Proof. unfold Register. operation. Qed.

Lemma ForgotPassword_guar r email : guar R (ForgotPassword r email).
Proof. unfold ForgotPassword. operation. Qed.

Lemma ChangeEmail_guar r email reauth : guar R (ChangeEmail r email reauth).
Proof. unfold ChangeEmail. operation. Qed.

Lemma completeRegistration_guar q u v h : guar R (completeRegistration q u v h).
Proof. unfold completeRegistration. operation. Qed.

Lemma completePasswordReset_guar q u v h : guar R (completePasswordReset q u v h).
Proof. unfold completePasswordReset. operation. Qed.

Lemma completeEmailChange_guar q u v : guar R (completeEmailChange q u v).
Proof. unfold completeEmailChange. operation. Qed.

Hint Resolve completeRegistration_guar completePasswordReset_guar
  completeEmailChange_guar : guar.

Lemma guar_assign_user id : guar R (assign_user id).
Proof. intros w. simpl; reflexivity. Qed.

Lemma guar_captured_request r : guar R (captured_request r).
Proof. intros w. simpl; reflexivity. Qed.

Hint Resolve guar_assign_user guar_captured_request : guar.

Lemma verify_transaction_guar r v input h : guar R (verify_transaction r v input h).
Proof. unfold verify_transaction. operation. Qed.

Hint Resolve verify_transaction_guar : guar.

Lemma VerifyChallenge_guar r token input : guar R (VerifyChallenge r token input).
Proof. unfold VerifyChallenge, verification_hash. operation. Qed.

Lemma SetPassword_guar r current new reauth : guar R (SetPassword r current new reauth).
Proof. unfold SetPassword, set_password_transaction. operation. Qed.

Lemma Me_guar r : guar R (Me r).
Proof. unfold Me. operation. Qed.

Lemma UpdateProfile_guar r name : guar R (UpdateProfile r name).
Proof. unfold UpdateProfile. operation. Qed.

Lemma RequireAdmin_guar s : guar R (AdminChecker_RequireAdmin s).
Proof. unfold AdminChecker_RequireAdmin. operation. Qed.

Lemma prepareOAuthFlow_guar provider : guar R (prepareOAuthFlow provider).
Proof. unfold prepareOAuthFlow. operation. Qed.

Lemma persist_guar start q params : guar R (persist start q params).
Proof. unfold persist. operation. Qed.

Hint Resolve prepareOAuthFlow_guar persist_guar : guar.

Lemma StartLogin_guar r provider purpose : guar R (StartLogin r provider purpose).
Proof. unfold StartLogin, startLoginFlow. operation. Qed.

Lemma StartLink_guar r provider reauth : guar R (StartLink r provider reauth).
Proof. unfold StartLink, startLinkFlow. operation. Qed.

Lemma startReauthenticationFlow_guar r a operation target :
  guar R (startReauthenticationFlow r a operation target).
Proof. unfold startReauthenticationFlow. operation. Qed.

Hint Resolve startReauthenticationFlow_guar : guar.

Lemma Reauthenticate_guar r input : guar R (Reauthenticate r input).
Proof. unfold Reauthenticate. operation. Qed.

Lemma completeReauthentication_guar q u f v : guar R (completeReauthentication q u f v).
Proof. unfold completeReauthentication. operation. Qed.

Lemma completeLinkProof_guar q r f v : guar R (completeLinkProof q r f v).
Proof. unfold completeLinkProof. operation. Qed.

Hint Resolve completeReauthentication_guar completeLinkProof_guar : guar.

Lemma completeBoundFlow_guar r f v : guar R (completeBoundFlow r f v).
Proof. unfold completeBoundFlow. operation. Qed.

Lemma login_flow_transaction_guar r f v found : guar R (login_flow_transaction r f v found).
Proof. unfold login_flow_transaction. operation. Qed.

Hint Resolve completeBoundFlow_guar login_flow_transaction_guar : guar.

Lemma completeLogin_guar r f v : guar R (completeLogin r f v).
Proof. unfold completeLogin. operation. Qed.

Hint Resolve completeLogin_guar : guar.

Lemma callback_claimed_guar r f code : guar R (callback_claimed r f code).
Proof. unfold callback_claimed. operation. Qed.

Hint Resolve callback_claimed_guar : guar.

Lemma Callback_guar r token code state : guar R (Callback r token code state).
Proof. unfold Callback. operation. Qed.

Lemma link_verified_guar q r u f reauth : guar R (link_verified q r u f reauth).
Proof. unfold link_verified. operation. Qed.

Hint Resolve link_verified_guar : guar.

Lemma ConfirmLink_guar r id : guar R (ConfirmLink r id).
Proof. unfold ConfirmLink. operation. Qed.

Lemma Unlink_guar r id reauth : guar R (Unlink r id reauth).
Proof. unfold Unlink. operation. Qed.

End operations.

(** ** Administration, for every authorizer that respects the relation *)

Section administration.
  Context `{Run : Runtime, Sch : Schedule, Opt : Options, Pwd : Passwords, Fed : Federation}.
  Context (R : relation DB) `{Pre : !PreOrder R, Env : !EnvGuar R, AG : !AccountGuar R} {Aut : Authorizer}.
  Context (authorizer_guar : ∀ s, guar R (RequireAdmin s)).

Hint Resolve authorizer_guar : guar.

Lemma Users_guar r p : guar R (Users r p).
Proof. unfold Users. operation. Qed.

Lemma SetStatus_guar r id status : guar R (SetStatus r id status).
Proof. unfold SetStatus. operation. Qed.

Lemma admin_RevokeUserSessions_guar r id : guar R (AccountSessions.RevokeUserSessions r id).
Proof. unfold AccountSessions.RevokeUserSessions. operation. Qed.

End administration.

#[export] Hint Resolve completeRegistration_guar completePasswordReset_guar
  completeEmailChange_guar guar_assign_user guar_captured_request verify_transaction_guar
  prepareOAuthFlow_guar persist_guar startReauthenticationFlow_guar
  completeReauthentication_guar completeLinkProof_guar completeBoundFlow_guar
  login_flow_transaction_guar completeLogin_guar callback_claimed_guar
  link_verified_guar : guar.
