(* ===== verification/AccountFacts.v ===== *)
(** * What successful operations of the account service establish

    Every operation respects the history ([AccountHistory] with [AccountGuar]); [returns] is
    about successful runs, [histories] collects the history along a run. *)
From S2P Require Import Prelude.
From S2P Require Import Text.
From S2P Require Import GoErrors.
From S2P Require Import Runtime.
From S2P Require Import Identity.
From S2P Require Import Pagination.
From S2P Require Import Schema.
From S2P Require Import Storage.
From S2P Require Import Logic.
From S2P Require Import Queries.
From S2P Require Import AuthQueries.
From S2P Require Import MailQueries.
From S2P Require Import AccountModel.
From S2P Require Import AccountStore.
From S2P Require Import AccountCore.
From S2P Require Import AccountSessions.
From S2P Require Import AccountFlows.
From S2P Require Import AccountHistory.
From S2P Require Import AccountGuar.

(** Every statement of the store respects the history. *)
Global Instance evolves_account_guar `{Run : Runtime} : AccountGuar evolves.
Proof.
  split; eauto using CreatePendingUser_evolves, CreateFederatedUser_evolves, ActivateUser_evolves, UpdateUserProfile_evolves, UpdateUserEmail_evolves, ReleasePendingEmail_evolves, BumpUserVersion_evolves, SetUserStatus_evolves, CreateAccount_evolves, ChangePassword_evolves, RevokeAccount_evolves, TouchAccount_evolves, UpgradePasswordHash_evolves, CreateSession_evolves, RevokeSession_evolves, TouchSession_evolves, RevokeUserSessions_evolves, CreateFlow_evolves, ClaimFlow_evolves, VerifyFlow_evolves, FinishFlow_evolves, FailFlow_evolves, ClaimAuthorization_evolves, CreateVerification_evolves, ConsumeVerification_evolves, AppendAudit_evolves, RateLimit_evolves, EnqueueMail_evolves.
Qed.

(** ** What successful operations establish *)

Section returns.
  Context `{Run : Runtime, Sch : Schedule, Opt : Options, Pwd : Passwords, Fed : Federation}.

(** From a valid database, a success of [m] ends in a state with [Q]. *)
Definition returns {A} (m : M A) (Q : A → DB → Prop) : Prop :=
  ∀ w a w', auth_ok (w_db w) → m w = (Ok a, w') → Q a (w_db w').

Lemma returns_bind {A B} (m : M A) (f : A → M B) Q :
  guar evolves m → (∀ a, returns (f a) Q) → returns (m ≫= f) Q.
Proof.
  intros Hm Hf w b w' Hok (a & w1 & R & H)%run_bind_ok. eapply Hf; [|done].
  specialize (Hm w Hok). rewrite R in Hm. apply Hm.
Qed.

Lemma returns_fail {A} e Q : returns (fail e : M A) Q.
Proof. by intros w a w' _ H. Qed.

Lemma returns_defer {A} (m : M A) k Q : returns m Q → returns (with_defer m k) Q.
Proof. intros Hm w a w' Hok H%run_defer_ok. by eapply Hm. Qed.

Lemma returns_tx `{!EnvGuar evolves} {A} policy (fn : dbtx → M A) Q :
  (∀ t, returns (fn (Tx t)) Q) → returns (WithTransaction policy fn) Q.
Proof.
  intros Hfn w a w' Hok (w1 & H & -> & _)%run_tx_ok. rewrite w_db_advance.
  eapply Hfn; [|exact H]. apply (env_guar (R := evolves) (w_step w) (w_db w) Hok).
Qed.

(** Once [Q] holds only operations that keep it may follow. *)
Lemma returns_keep {A B} (m : M A) (f : A → M B) (Q : DB → Prop) :
  returns m (λ _, Q) → (∀ a, guar (keeps Q) (f a)) → returns (m ≫= f) (λ _, Q).
Proof.
  intros Hm Hf w b w' Hok (a & w1 & R & H)%run_bind_ok.
  specialize (Hf a w1). rewrite H in Hf. apply Hf. by eapply Hm.
Qed.

Lemma returns_mono {A} (m : M A) (Q Q' : A → DB → Prop) :
  returns m Q → (∀ a d, Q a d → Q' a d) → returns m Q'.
Proof. intros Hm HQ w a w' Hok H. eapply HQ, Hm; eauto. Qed.

End returns.

(** Walks over the part of an operation before its transaction. *)
Ltac returns_step :=
  lazymatch goal with
  | |- returns (fail _) _ => apply returns_fail
  | |- returns (business _) _ => apply returns_fail
  | |- returns (with_defer _ _) _ => apply returns_defer
  | |- returns (recordFailureOnReturn _ _ _) _ => apply returns_defer
  | |- returns (let _ := _ in _) _ => cbv zeta
  | |- returns (match ?x with _ => _ end) _ =>
    let E := fresh "E" in first [is_var x; destruct x | destruct x eqn:E]
  | |- returns (match ?x with _ => _ end _) _ =>
    let E := fresh "E" in first [is_var x; destruct x | destruct x eqn:E]; cbv beta iota
  | |- returns (mbind _ _) _ => apply returns_bind; [solve [operation]|intros ?]
  end.

Ltac to_transaction :=
  repeat returns_step; unfold transaction; try (apply returns_tx; intros t start result done_ Hok H).

(** ** The history of a run *)

Lemma guar_run `{Run : Runtime} {A} (m : M A) w x w' :
  m w = (x, w') → auth_ok (w_db w) → guar evolves m →
  auth_ok (w_db w') ∧ history (w_db w) (w_db w').
Proof. intros H Hok G. specialize (G w Hok). by rewrite H in G. Qed.

Lemma stmt_run `{Run : Runtime} {A} (s : stmt A) now d x d' :
  s now d = (x, d') → auth_ok d → stmt_guar evolves s → auth_ok d' ∧ history d d'.
Proof. intros H Hok G. specialize (G now d Hok). by rewrite H in G. Qed.

Lemma env_valid `{Run : Runtime, Sch : Schedule, !EnvGuar evolves} n d :
  auth_ok d → auth_ok (sched_env n d) ∧ history d (sched_env n d).
Proof. exact (env_guar (R := evolves) n d). Qed.

(** Records for each run in the context that it keeps the database valid, and how it
    changes it, going forward from a valid one. *)
Ltac histories :=
  repeat match goal with
  | Hok : auth_ok (w_db ?w), R : ?m ?w = (_, ?w') |- _ =>
    lazymatch goal with
    | _ : auth_ok (w_db w') |- _ => fail
    | |- _ => let Hk := fresh "Hok" in let Hh := fresh "Hh" in
              destruct (guar_run m _ _ _ R Hok) as [Hk Hh]; [solve [operation]|]
    end
  | Hok : auth_ok (w_db ?w), R : _ _ (sched_env ?n (w_db ?w)) = (_, _) |- _ =>
    lazymatch goal with
    | _ : auth_ok (sched_env n (w_db w)) |- _ => fail
    | |- _ => let Hk := fresh "Hok" in let Hh := fresh "Hh" in
              destruct (env_valid n _ Hok) as [Hk Hh]
    end
  | Hok : auth_ok ?d, R : ?s ?t ?d = (_, ?d') |- _ =>
    lazymatch goal with
    | _ : auth_ok d' |- _ => fail
    | |- _ => let Hk := fresh "Hok" in let Hh := fresh "Hh" in
              destruct (stmt_run s _ _ _ _ R Hok) as [Hk Hh]; [solve [eauto with guar nocore]|]
    end
  end.

(** The history along the recorded runs. *)
Ltac run_history :=
  repeat match goal with
  | H : history ?d ?d' |- history ?d ?d' => exact H
  | H : history ?d ?d1 |- history ?d _ => transitivity d1; [exact H|]
  end; reflexivity.
