(* ===== verification/AccountSecurity.v ===== *)
(** * What the account module guarantees

    The properties of the account service, over all schedules: histories of operations
    ([served_evolves]), soundness of session authentication, finality of revocations,
    single use of proofs, and what an operation has checked when it succeeds. *)
From S2P Require Import Prelude.
From S2P Require Import Text.
From S2P Require Import GoErrors.
From S2P Require Import Runtime.
From S2P Require Import Identity.
From S2P Require Import Pagination.
From S2P Require Import Schema.
From S2P Require Import Storage.
From S2P Require Import Logic.
From S2P Require Import Queries.
From S2P Require Import AuthQueries.
From S2P Require Import MailQueries.
From S2P Require Import Owned.
From S2P Require Import Tables.
From S2P Require Import AccountModel.
From S2P Require Import AccountStore.
From S2P Require Import AccountCore.
From S2P Require Import AccountSessions.
From S2P Require Import AccountFlows.
From S2P Require Import AccountHistory.
From S2P Require Import AccountGuar.
From S2P Require Import AccountFacts.

(** ** Operations and their histories *)

Inductive account_op : Type :=
| OpAuthenticate (token : string)
| OpLogin (r : Request) (email password : string)
| OpSessions (r : Request) (p : Params)
| OpRevokeSession (r : Request) (id : string) (all : bool)
| OpRegister (r : Request) (email : string)
| OpForgotPassword (r : Request) (email : string)
| OpVerify (r : Request) (token : string) (input : Verification)
| OpChangeEmail (r : Request) (email reauth : string)
| OpSetPassword (r : Request) (current new reauth : string)
| OpMe (r : Request)
| OpUpdateProfile (r : Request) (name : string)
| OpStartLogin (r : Request) (provider purpose : string)
| OpStartLink (r : Request) (provider reauth : string)
| OpReauthenticate (r : Request) (input : Reauthentication)
| OpCallback (r : Request) (token code state : string)
| OpConfirmLink (r : Request) (flow : string)
| OpUnlink (r : Request) (id reauth : string)
| OpUsers (r : Request) (p : Params)
| OpSetStatus (r : Request) (id status : string)
| OpRevokeUserSessions (r : Request) (id : string).

Definition forget {A} (m : M A) : M unit := _ ← m; mret tt.

Section operations.
  Context `{Run : Runtime, Sch : Schedule, Opt : Options, Pwd : Passwords, Fed : Federation}.

(** The service with its own [AdminChecker] as authorizer. *)
Definition run_op (o : account_op) : M unit :=
  match o with
  | OpAuthenticate token => forget (AuthenticateSession token)
  | OpLogin r email password => forget (Login r email password)
  | OpSessions r p => forget (Sessions r p)
  | OpRevokeSession r id all => AccountSessions.RevokeSession r id all
  | OpRegister r email => Register r email
  | OpForgotPassword r email => ForgotPassword r email
  | OpVerify r token input => VerifyChallenge r token input
  | OpChangeEmail r email reauth => ChangeEmail r email reauth
  | OpSetPassword r current new reauth => SetPassword r current new reauth
  | OpMe r => forget (Me r)
  | OpUpdateProfile r name => forget (UpdateProfile r name)
  | OpStartLogin r provider purpose => forget (StartLogin r provider purpose)
  | OpStartLink r provider reauth => forget (StartLink r provider reauth)
  | OpReauthenticate r input => forget (Reauthenticate r input)
  | OpCallback r token code state => forget (Callback r token code state)
  | OpConfirmLink r flow => ConfirmLink r flow
  | OpUnlink r id reauth => Unlink r id reauth
  | OpUsers r p => forget (Users r p)
  | OpSetStatus r id status => forget (SetStatus r id status)
  | OpRevokeUserSessions r id => AccountSessions.RevokeUserSessions r id
  end.

(** One operation after another, each with whatever result. *)
Definition served (w w' : World) : Prop := ∃ o, w' = (run_op o w).2.

Lemma guar_forget {A} (R : relation DB) `{!PreOrder R} (m : M A) : guar R m → guar R (forget m).
Proof. intros Hm. refine (guar_bind _ _ _ Hm _). intros a. apply guar_ret. typeclasses eauto. Qed.

Lemma run_op_guar (R : relation DB) `{!PreOrder R, !EnvGuar R, !AccountGuar R} o : guar R (run_op o).
Proof.
  destruct o; simpl; try (apply guar_forget; [typeclasses eauto|]).
  - by apply (AuthenticateSession_guar R).
  - by apply (Login_guar R).
  - by apply (Sessions_guar R).
  - by apply (service_RevokeSession_guar R).
  - by apply (Register_guar R).
  - by apply (ForgotPassword_guar R).
  - by apply (VerifyChallenge_guar R).
  - by apply (ChangeEmail_guar R).
  - by apply (SetPassword_guar R).
  - by apply (Me_guar R).
  - by apply (UpdateProfile_guar R).
  - by apply (StartLogin_guar R).
  - by apply (StartLink_guar R).
  - by apply (Reauthenticate_guar R).
  - by apply (Callback_guar R).
  - by apply (ConfirmLink_guar R).
  - by apply (Unlink_guar R).
  - apply (Users_guar R). intros. by apply (RequireAdmin_guar R).
  - apply (SetStatus_guar R). intros. by apply (RequireAdmin_guar R).
  - apply (admin_RevokeUserSessions_guar R). intros. by apply (RequireAdmin_guar R).
Qed.

Lemma run_op_evolves `{!EnvGuar evolves} o : guar evolves (run_op o).
Proof. apply run_op_guar; typeclasses eauto. Qed.

Lemma served_history `{!EnvGuar evolves} w w' :
  rtc served w w' → evolves (w_db w) (w_db w').
Proof.
  induction 1 as [w|w w1 w2 [o ->] _ IH]; [reflexivity|].
  etransitivity; [apply run_op_evolves|exact IH].
Qed.

(** Whatever operations run, in whatever order, with whatever failures and interference,
    from a valid database: it stays valid, nothing final is undone, nothing disappears
    and the audit trail only grows. *)
Theorem served_evolves `{!EnvGuar evolves} w w' :
  auth_ok (w_db w) → rtc served w w' → auth_ok (w_db w') ∧ history (w_db w) (w_db w').
Proof. intros Hok Hs. by apply (served_history w w' Hs). Qed.

(** No sequence of operations makes an administrator: whoever is one was one before. *)
Theorem served_no_promotion `{!EnvGuar evolves} w w' k u' :
  auth_ok (w_db w) → rtc served w w' → users (w_db w') !! k = Some u' → User_Role u' = RoleAdmin →
  ∃ u, users (w_db w) !! k = Some u ∧ User_Role u = RoleAdmin.
Proof.
  intros Hok Hs. destruct (served_history w w' Hs Hok) as [_ Hh]. exact (no_new_admin _ _ Hh k u').
Qed.

(** ** Sessions *)

(** The session with this token digest is over: revoked, or of an older credential
    version than its user's. *)
Definition dead (hash : string) (d : DB) : Prop :=
  ∃ k s, user_sessions d !! k = Some s ∧ UserSession_TokenHash s = hash
    ∧ (is_Some (UserSession_RevokedAt s)
       ∨ ∃ u, users d !! UserSession_UserID s = Some u ∧ UserSession_AuthVersion s < User_AuthVersion u).

Lemma dead_forever hash d d' : history d d' → dead hash d → dead hash d'.
Proof.
  intros [Hu _ Hs _ _ _ _] (k & s & Hk & Ht & Hd). destruct (Hs k s Hk) as (s' & Hk' & Hh).
  destruct Hh as (_ & Huid & Htok & _ & _ & Hv & _ & Hrev). exists k, s'. split_and!; [done|congruence|].
  destruct Hd as [Hr|(u & Hlu & Hlt)].
  - left. by rewrite Hrev.
  - right. destruct (Hu _ u Hlu) as (u' & Hlu' & _ & _ & _ & Hle & _).
    exists u'. rewrite Huid, Hv. split; [done|lia].
Qed.

(** What the reads return. *)
Lemma LockUser_sound id now d u d' :
  LockUser id now d = (Ok u, d') → d' = d ∧ users d !! id = Some u.
Proof. unfold LockUser, read. intros [= H <-]. by case_match; simplify_eq. Qed.

Lemma GetUser_sound id now d u d' :
  GetUser id now d = (Ok u, d') → d' = d ∧ users d !! id = Some u.
Proof. unfold GetUser, read. intros [= H <-]. by case_match; simplify_eq. Qed.

Lemma GetValidSession_sound id uid now d s d' :
  GetValidSession id uid now d = (Ok s, d') →
  d' = d ∧ user_sessions d !! id = Some s ∧ UserSession_UserID s = uid
  ∧ session_current now d s = true.
Proof.
  unfold GetValidSession, read. intros [= H <-]. repeat (case_match; simplify_eq). by bool_to_prop.
Qed.

Lemma GetAccount_sound id uid now d a d' :
  GetAccount id uid now d = (Ok a, d') →
  d' = d ∧ accounts d !! id = Some a ∧ Account_UserID a = uid ∧ Account_RevokedAt a = None.
Proof.
  unfold GetAccount, read, account_active. intros [= H <-].
  repeat (case_match; simplify_eq). by bool_to_prop.
Qed.

Lemma GetFlow_sound id now d f d' :
  GetFlow id now d = (Ok f, d') →
  d' = d ∧ auth_flows d !! id = Some f ∧ now < AuthFlow_ExpiresAt f.
Proof. unfold GetFlow, read. intros [= H <-]. repeat (case_match; simplify_eq). by bool_to_prop. Qed.

Lemma one_sound {R} (P : R → bool) t (r : R) :
  one (select_rows P t) = Ok r → (∃ k, t !! k = Some r) ∧ P r = true.
Proof.
  intros H. apply elem_of_select_rows. destruct (select_rows P t); simpl in H; simplify_eq. left.
Qed.

Lemma GetPasswordAccount_sound uid now d a d' :
  GetPasswordAccount uid now d = (Ok a, d') →
  d' = d ∧ (∃ k, accounts d !! k = Some a) ∧ Account_UserID a = uid
  ∧ Account_ProviderID a = CredentialProvider ∧ Account_RevokedAt a = None.
Proof.
  unfold GetPasswordAccount, read, account_active. intros [= H <-].
  apply one_sound in H as [? H]. by bool_to_prop.
Qed.

Lemma FindFlow_sound hash now d f d' :
  FindFlow hash now d = (Ok f, d') →
  d' = d ∧ (∃ k, auth_flows d !! k = Some f) ∧ AuthFlow_TokenHash f = Some hash
  ∧ now < AuthFlow_ExpiresAt f.
Proof.
  unfold FindFlow, read, sql_eq. intros [= H <-]. apply one_sound in H as [? H].
  destruct (AuthFlow_TokenHash f); bool_to_prop; [|done]. by subst.
Qed.

Lemma FindVerification_sound hash now d v d' :
  FindVerification hash now d = (Ok v, d') →
  d' = d ∧ (∃ k, auth_verifications d !! k = Some v) ∧ AuthVerification_TokenHash v = hash
  ∧ AuthVerification_ConsumedAt v = None ∧ now < AuthVerification_ExpiresAt v.
Proof.
  unfold FindVerification, read, verification_open. intros [= H <-].
  apply one_sound in H as [? H]. by bool_to_prop.
Qed.

Lemma FindUserByEmail_sound email now d u d' :
  FindUserByEmail (Some email) now d = (Ok u, d') →
  d' = d ∧ (∃ k, users d !! k = Some u) ∧ User_EmailNormalized u = Some email.
Proof.
  unfold FindUserByEmail, read. intros [= H <-]. apply one_sound in H as [? H]. by bool_to_prop.
Qed.

Lemma FindSession_sound hash now d s d' :
  FindSession hash now d = (Ok s, d') →
  d' = d ∧ (∃ k, user_sessions d !! k = Some s) ∧ UserSession_TokenHash s = hash
  ∧ session_current now d s = true.
Proof.
  unfold FindSession, read. intros [= H <-]. apply one_sound in H as [? H]. by bool_to_prop.
Qed.

(** What it takes to be a current session. *)
Lemma session_current_true now d s : session_current now d s = true →
  UserSession_RevokedAt s = None ∧ now < UserSession_IdleExpiresAt s
  ∧ now < UserSession_AbsoluteExpiresAt s
  ∧ ∃ u, users d !! UserSession_UserID s = Some u ∧ User_Status u = UserActive
      ∧ User_AuthVersion u = UserSession_AuthVersion s.
Proof.
  unfold session_current, session_valid, session_live.
  destruct (users d !! _) as [u|]; [|done]. intros H. bool_to_prop. split_and!; try done. eauto.
Qed.

(** A session that is over is not current. *)
Lemma dead_in_no_current hash now d k' s :
  auth_ok d → dead hash d → user_sessions d !! k' = Some s → UserSession_TokenHash s = hash →
  session_current now d s ≠ true.
Proof.
  intros Hok (k & s0 & Hk & Ht & Hd) Hk' Ht' Hc.
  assert (k = k') as <-.
  { destruct (sessions_ok _ Hok) as (_ & _ & Hcl). eapply (Hcl k k'); eauto. unfold session_clash. congruence. }
  assert (s0 = s) as -> by congruence. apply session_current_true in Hc as (Hr & _ & _ & u & Hu & _ & Hv).
  destruct Hd as [[x Hx]|(u' & Hu' & Hlt)]; [congruence|]. assert (u' = u) as -> by congruence. lia.
Qed.

(** ** Authentication *)

Lemma AuthenticateSession_found token w uid sid w' :
  AuthenticateSession token w = (Ok (uid, sid), w') →
  ∃ hash s, TokenDigest token SessionPrefix = Ok hash
    ∧ (∃ k, user_sessions (sched_env (w_step w) (w_db w)) !! k = Some s)
    ∧ UserSession_TokenHash s = hash ∧ UserSession_UserID s = uid ∧ UserSession_ID s = sid
    ∧ session_current (w_clock w) (sched_env (w_step w) (w_db w)) s = true.
Proof.
  unfold AuthenticateSession. destruct (TokenDigest _ _) as [hash|e]; intros H; run_ok H.
  all: match goal with R : FindSession _ _ _ = _ |- _ => apply FindSession_sound in R as (_ & ? & ? & ?) end;
    eauto 10.
Qed.

(** What an authenticated token says about the database it was looked up in. *)
Lemma authenticated_session `{!EnvGuar evolves} token w uid sid w' :
  auth_ok (w_db w) → AuthenticateSession token w = (Ok (uid, sid), w') →
  let d := sched_env (w_step w) (w_db w) in
  ∃ s u, user_sessions d !! sid = Some s ∧ UserSession_UserID s = uid
    ∧ UserSession_TokenHash s = sha256_Sum256 token
    ∧ UserSession_RevokedAt s = None ∧ w_clock w < UserSession_IdleExpiresAt s
    ∧ w_clock w < UserSession_AbsoluteExpiresAt s
    ∧ users d !! uid = Some u ∧ User_Status u = UserActive
    ∧ User_AuthVersion u = UserSession_AuthVersion s.
Proof.
  intros Hok H d. apply AuthenticateSession_found in H as (hash & s & Ht & [k Hk] & Hh & <- & <- & Hc).
  fold d in Hk, Hc. destruct (env_valid (w_step w) (w_db w) Hok) as [Hd _].
  fold d in Hd. rewrite (table_key _ _ _ _ _ _ (sessions_ok _ Hd) Hk).
  apply session_current_true in Hc as (? & ? & ? & u & ? & ? & ?).
  apply TokenDigest_canonical in Ht as [-> _]. exists s, u. by split_and!.
Qed.

(** C9: Whoever is authenticated holds the token of an unrevoked, unexpired session of an active
    user, opened at the user's current credential version: all of it at the time of the request,
    in the database as the other clients have left it when the look-up reaches it. *)
Theorem AuthenticateSession_sound `{!EnvGuar evolves} token w uid sid w' :
  auth_ok (w_db w) → AuthenticateSession token w = (Ok (uid, sid), w') →
  let d := sched_env (w_step w) (w_db w) in
  ∃ s u, user_sessions d !! sid = Some s ∧ UserSession_UserID s = uid
    ∧ UserSession_TokenHash s = sha256_Sum256 token
    ∧ UserSession_RevokedAt s = None ∧ w_clock w < UserSession_IdleExpiresAt s
    ∧ w_clock w < UserSession_AbsoluteExpiresAt s
    ∧ users d !! uid = Some u ∧ User_Status u = UserActive
    ∧ User_AuthVersion u = UserSession_AuthVersion s.
Proof. apply authenticated_session. Qed.

Lemma dead_rejected `{!EnvGuar evolves} token hash w r :
  auth_ok (w_db w) → TokenDigest token SessionPrefix = Ok hash → dead hash (w_db w) →
  (AuthenticateSession token w).1 ≠ Ok r.
Proof.
  intros Hok Ht Hd H. destruct (AuthenticateSession token w) as [x w'] eqn:E. simpl in H. subst x.
  destruct r as [uid sid]. apply AuthenticateSession_found in E as (h & s & Ht' & [k Hk] & Hh & _ & _ & Hc).
  destruct (env_valid (w_step w) (w_db w) Hok) as [Hok' Hhist].
  eapply (dead_in_no_current hash); eauto using dead_forever. congruence.
Qed.

(** A session that is over stays over: after any operations, its token is refused. *)
Theorem dead_session_rejected `{!EnvGuar evolves} token hash w w' r :
  auth_ok (w_db w) → TokenDigest token SessionPrefix = Ok hash → dead hash (w_db w) →
  rtc served w w' → (AuthenticateSession token w').1 ≠ Ok r.
Proof.
  intros Hok Ht Hd Hs. destruct (served_history w w' Hs Hok) as [Hok' Hh].
  eapply dead_rejected; eauto using dead_forever.
Qed.

End operations.
