(* ===== verification/Api.v ===== *)
(** * [internal/app/api]: assembling the API

    [accounts.go] (the account service with its hasher and identity providers), [wire.go] (the
    authenticator behind the HTTP layer) and [routes.go] (the catalog of routes and how each is
    bound). The theorems compose the layers: what a request to a protected route must have
    shown before its handler runs. *)
From stdpp Require Import pretty.
From S2P Require Import Prelude.
From S2P Require Import Text.
From S2P Require Import GoErrors.
From S2P Require Import Runtime.
From S2P Require Import Identity.
From S2P Require Import Pagination.
From S2P Require Import Schema.
From S2P Require Import Storage.
From S2P Require Import Logic.
From S2P Require Import HttpApi.
From S2P Require FederationClient.
From S2P Require Password.
From S2P Require AppConfig.
From S2P Require Import ModuleRoutes.
From S2P Require Import Tables.
From S2P Require Import AccountModel.
From S2P Require Import AccountSessions.
From S2P Require Import AccountFlows.
From S2P Require AccountHttp.
From S2P Require Import AccountHistory.
From S2P Require Import AccountGuar.
From S2P Require Import AccountFacts.
From S2P Require Import AccountSecurity.

(** ** accounts.go *)

Definition passwordHashConcurrency : Z := 4.

Definition mapProviderError (err : error) : error :=
  if Is err (TSentinel FederationErrProof) then EBusiness ErrCredentials
  else if Is err (TSentinel FederationErrUnavailable)
  then EMulti (Error_message ErrUnavailable +:+ ": " +:+ error_text err)
         [EBusiness ErrUnavailable; err]
  else err.

Definition map_provider {A} (r : res error A) : res error A :=
  match r with Ok a => Ok a | Err err => Err (mapProviderError err) end.

(** What the contexts of the calls answer, by step. *)
Class FederationContexts := { asked : nat → FederationClient.Asked }.

Definition federationAdapter `{OA : FederationClient.OAuth, C : FederationContexts}
    (registry : FederationClient.Registry) : Federation := {|
  Federation_Enabled id := FederationClient.Enabled registry id;
  Federation_Version id := FederationClient.Version registry id;
  Federation_Start n id state verifier :=
    map_provider (FederationClient.Start registry (asked n) id state verifier);
  Federation_Verify n id version code verifier :=
    map_provider (res_bind (FederationClient.Verify registry (asked n) n id version code verifier)
      (λ verified, Ok (mkVerifiedIdentity (FederationClient.Verified_Namespace verified)
                         (FederationClient.Verified_Subject verified)
                         (FederationClient.Verified_Name verified))))
|}.

(** The service: what its operations are parameterised by. *)
Record AccountService : Type := mkAccountService {
  service_options : Options;
  service_passwords : Passwords;
  service_federation : Federation
}.

(** The files of the host and the decoding of the providers file, in which the secrets are
    left out. *)
Class Host := {
  os_ReadFile : string → res error string;
  json_Unmarshal_providers : string → option (list FederationClient.Config)
}.

Section accounts.
  Context `{Run : Runtime, Url : FederationClient.UrlParser, OA : FederationClient.OAuth,
            C : FederationContexts, A : Password.Argon2, HC : Password.HashContexts, Hst : Host}.

(** Fills in the client secrets, stopping at the first file that cannot be read. *)
Fixpoint read_secrets (providers : list FederationClient.Config)
    : res error (list FederationClient.Config) :=
  match providers with
  | [] => Ok []
  | p :: providers =>
    match os_ReadFile (FederationClient.ClientSecretFile p) with
    | Err _ => Err (EText "读取提供商客户端密钥失败")
    | Ok secret =>
      let p := FederationClient.mkConfig (FederationClient.Config_ID p)
                 (FederationClient.Config_Protocol p) (FederationClient.ClientID p) (TrimSpace secret)
                 (FederationClient.ClientSecretFile p) (FederationClient.RedirectURI p) in
      res_bind (read_secrets providers) (λ rest, Ok (p :: rest))
    end
  end.

Definition read_providers (cfg : AppConfig.Config) : res error (list FederationClient.Config) :=
  if AppConfig.AuthProvidersFile cfg !=? "" then
    res_bind (os_ReadFile (AppConfig.AuthProvidersFile cfg)) (λ data,
    match json_Unmarshal_providers data with
    | None => Err (EText "第三方提供商配置文件无效")
    | Some providers => read_secrets providers
    end)
  else Ok [].

Definition newAccounts (n : nat) (cfg : AppConfig.Config) : res error AccountService :=
  res_bind (Password.New_ n passwordHashConcurrency) (λ hasher,
  res_bind (read_providers cfg) (λ providers,
  res_bind (FederationClient.New providers) (λ registry,
  res_bind (NewService (AppConfig.config_options cfg)) (λ options,
  Ok (mkAccountService options (Password.hasher_passwords hasher) (federationAdapter registry)))))).

End accounts.

(** ** wire.go and routes.go *)

(** [sessionAuthenticator] *)
Definition sessionAuthenticator `{Sch : Schedule, Run : Runtime, Opt : Options} : Authenticator := {|
  Authenticate raw :=
    '(user, session) ← AuthenticateSession raw;
    mret {| Principal_Subject := user; Principal_SessionID := session |}
|}.

(** The services have no state of their own, so the dependencies that vary are the
    authenticator and the readiness check. *)
Record Dependencies : Type := mkDependencies {
  Dependencies_Authenticator : Authenticator;
  Ready : M unit
}.

Record moduleRoutes : Type := mkModule {
  module_S : Type;
  module_routes : list (res error (Route module_S));
  selectService : Dependencies → module_S
}.

(** A route with the arguments it is bound to. *)
Record BoundRoute : Type := mkBound {
  bound_S : Type;
  bound_route : Route bound_S;
  bound_service : bound_S;
  bound_middlewares : list middleware
}.

Section routes.
  Context `{Run : Runtime, Sch : Schedule, Dl : Deadlines, Opt : Options, Pwd : Passwords,
            Fed : Federation}.

Definition routeCatalog : list moduleRoutes :=
  [ mkModule _ HealthRoutes Ready;
    mkModule _ AccountHttp.Routes (λ _, tt);
    mkModule _ AccountHttp.AdminRoutes (λ _, tt);
    mkModule _ project.projectRoutes (λ _, tt);
    mkModule _ task.taskRoutes (λ _, tt) ].

Definition bind_route {S} (deps : Dependencies) (select : Dependencies → S) (route : res error (Route S))
    : res error BoundRoute :=
  res_bind route (λ route,
    if Policy route ==? Session
    then Ok (mkBound S route (select deps) [Middleware (Auth := Dependencies_Authenticator deps)])
    else if Policy route ==? Public then Ok (mkBound S route (select deps) [])
    else Err (EText "未注册认证策略")).

Fixpoint bind_all {S} (deps : Dependencies) (select : Dependencies → S) (routes : list (res error (Route S)))
    : res error (list BoundRoute) :=
  match routes with
  | [] => Ok []
  | route :: routes =>
    res_bind (bind_route deps select route) (λ b,
    res_bind (bind_all deps select routes) (λ bs, Ok (b :: bs)))
  end.

Definition module_bind (deps : Dependencies) (m : moduleRoutes) : res error (list BoundRoute) :=
  bind_all deps (selectService m) (module_routes m).

(** The routes [NewHandler] registers; the dependencies of its check cannot be missing here. *)
Fixpoint bind_modules (deps : Dependencies) (ms : list moduleRoutes) : res error (list BoundRoute) :=
  match ms with
  | [] => Ok []
  | m :: ms =>
    res_bind (module_bind deps m) (λ bs, res_bind (bind_modules deps ms) (λ rest, Ok (bs ++ rest)))
  end.

Definition NewHandler (deps : Dependencies) : res error (list BoundRoute) :=
  bind_modules deps routeCatalog.

(** [Describe] registers the contract with a handler that refuses to serve. *)
Definition Describe {S} (route : Route S) : res error HumaOperation := contract (Route_operation route).

Fixpoint describe_all {S} (routes : list (res error (Route S))) : res error (list HumaOperation) :=
  match routes with
  | [] => Ok []
  | route :: routes =>
    res_bind route (λ route,
    res_bind (Describe route) (λ op,
    res_bind (describe_all routes) (λ ops, Ok (op :: ops))))
  end.

Definition module_describe (m : moduleRoutes) : res error (list HumaOperation) :=
  describe_all (module_routes m).

Fixpoint describe_modules (ms : list moduleRoutes) : res error (list HumaOperation) :=
  match ms with
  | [] => Ok []
  | m :: ms =>
    res_bind (module_describe m) (λ ops, res_bind (describe_modules ms) (λ rest, Ok (ops ++ rest)))
  end.

(** [marshal]: Huma's document of the registered operations as JSON. *)
Definition OpenAPI (marshal : list HumaOperation → res error string) : res error string :=
  res_bind (describe_modules routeCatalog) marshal.

Definition bound_spec (b : BoundRoute) : HumaOperation := Operation_spec (Route_operation (bound_route b)).

(** Serving a request that was routed to [b]. *)
Definition serve (b : BoundRoute) (parse : string → res ErrorModel (Route_I (bound_route b)))
    : res error (handler (Route_D (bound_route b))) :=
  Bind (bound_route b) (bound_service b) (bound_middlewares b) parse.

End routes.

(** ** The catalog *)

Section catalog.
  Context `{Run : Runtime, Sch : Schedule, Dl : Deadlines, Opt : Options, Pwd : Passwords,
            Fed : Federation}.

(** The operations open to everyone. *)
Definition public_operations : list string :=
  ["liveness"; "readiness"; "register-user"; "login-user"; "start-oauth"; "oauth-callback";
   "forgot-password"; "verify-user"].

(** How a route of the catalog is bound. *)
Definition well_bound (deps : Dependencies) (b : BoundRoute) : Prop :=
  let op := bound_spec b in
  Policy (bound_route b) = Public ∧ OperationID op ∈ public_operations ∧ bound_middlewares b = []
  ∨ Policy (bound_route b) = Session ∧ ¬ (OperationID op ∈ public_operations)
    ∧ bound_middlewares b = [Middleware (Auth := Dependencies_Authenticator deps)]
    ∧ 0 < MaxBodyBytes op ≤ defaultMaxRequestBodyBytes.

(** What can be computed about it. *)
Definition public_or_bounded (b : BoundRoute) : bool :=
  let op := bound_spec b in
  (is_ok (contract (Route_operation (bound_route b)))
   && (if bool_decide (OperationID op ∈ public_operations) then Policy (bound_route b) ==? Public
       else (Policy (bound_route b) ==? Session) && (0 <? MaxBodyBytes op)
            && (MaxBodyBytes op <=? defaultMaxRequestBodyBytes)))%bool.

Definition bound_by_policy (deps : Dependencies) (b : BoundRoute) : Prop :=
  bound_middlewares b =
    if Policy (bound_route b) ==? Session
    then [Middleware (Auth := Dependencies_Authenticator deps)] else [].

Lemma bind_all_policy {S} deps (select : Dependencies → S) routes bs :
  bind_all deps select routes = Ok bs → Forall (bound_by_policy deps) bs.
Proof.
  revert bs. induction routes as [|route routes IH]; intros bs; simpl; [intros [= <-]; apply List.Forall_nil|].
  unfold bind_route. destruct route as [route|]; [|done]. cbn [res_bind].
  destruct (Policy route ==? Session) eqn:Ep; [|destruct (Policy route ==? Public); [|done]];
    cbn [res_bind]; (destruct (bind_all deps select routes) as [rest|]; [|done]); intros [= <-];
    apply List.Forall_cons; auto; unfold bound_by_policy; simpl; by rewrite Ep.
Qed.

Lemma NewHandler_policy deps bs : NewHandler deps = Ok bs → Forall (bound_by_policy deps) bs.
Proof.
  unfold NewHandler. generalize routeCatalog. intros ms. revert bs.
  induction ms as [|m ms IH]; intros bs; simpl; [intros [= <-]; apply List.Forall_nil|].
  destruct (module_bind deps m) as [bs1|] eqn:E; [|done]. cbn [res_bind].
  destruct (bind_modules deps ms) as [rest|]; [|done]. intros [= <-].
  apply List.Forall_app. split; [by eapply bind_all_policy|by apply IH].
Qed.

Definition routes_or_nil (r : res error (list BoundRoute)) : list BoundRoute :=
  match r with Ok bs => bs | Err _ => [] end.

Lemma NewHandler_starts deps : NewHandler deps = Ok (routes_or_nil (NewHandler deps)).
Proof.
  assert (is_ok (NewHandler deps) = true) as H by (vm_compute; reflexivity).
  by destruct (NewHandler deps).
Qed.

Lemma catalog_computed deps : let bs := routes_or_nil (NewHandler deps) in
  bool_decide (NoDup (List.map (λ b, OperationID (bound_spec b)) bs)) = true
  ∧ bool_decide (NoDup (List.map (λ b, (op_Method (bound_spec b), op_Path (bound_spec b))) bs)) = true
  ∧ forallb public_or_bounded bs = true.
Proof. split_and!; vm_compute; reflexivity. Qed.

(** Middlewares of their own: those of the account module forbid caching. *)
Lemma catalog_middlewares deps :
  List.map (λ b, Middlewares (bound_spec b)) (routes_or_nil (NewHandler deps))
  = List.repeat [] 2 ++ List.repeat [AccountHttp.no_store_middleware] 20 ++ List.repeat [] 10.
Proof. reflexivity. Qed.

Lemma public_or_bounded_spec deps b :
  public_or_bounded b = true → bound_by_policy deps b → well_bound deps b.
Proof.
  unfold public_or_bounded, bound_by_policy, well_bound. intros [_ H]%andb_true_iff.
  destruct (bool_decide (OperationID _ ∈ _)) eqn:E; bool_to_prop.
  - match goal with H : Policy _ = Public |- _ => rewrite H end. intros ->. left. done.
  - match goal with H : Policy _ = Session |- _ => rewrite H end. intros ->. right. split_and!; done.
Qed.

(** C17: The program starts with this catalog: no contract is violated, no two routes share an
    address or an identifier, only the eight public operations are reachable without the
    session middleware, and every protected route bounds the body of a request. *)
Theorem catalog_policies deps : ∃ bs, NewHandler deps = Ok bs
  ∧ NoDup (List.map (λ b, OperationID (bound_spec b)) bs)
  ∧ NoDup (List.map (λ b, (op_Method (bound_spec b), op_Path (bound_spec b))) bs)
  ∧ Forall (well_bound deps) bs.
Proof.
  destruct (catalog_computed deps) as (Hids & Hp & Hw). exists (routes_or_nil (NewHandler deps)).
  bool_to_prop. split_and!; [apply NewHandler_starts|done..|].
  pose proof (NewHandler_policy _ _ (NewHandler_starts deps)) as Hb. revert Hw Hb.
  generalize (routes_or_nil (NewHandler deps)). intros bs. induction bs as [|b bs IH]; intros Hw Hb; [apply List.Forall_nil|].
  simpl in Hw. apply andb_true_iff in Hw as [Hw1 Hw2]. inversion Hb; subst.
  apply List.Forall_cons; [by apply public_or_bounded_spec|by apply IH].
Qed.

(** ** The exported contract *)

(** The exported operation [op] says of the bound route [b] all that was declared, and that a
    session is needed exactly when the session middleware stands before it. *)
Definition documents (deps : Dependencies) (op : HumaOperation) (b : BoundRoute) : Prop :=
  op = (bound_spec b) <| op_Security := op_Security op |>
  ∧ (op_Security op = Some [[("bearer", [])]]
       ∧ bound_middlewares b = [Middleware (Auth := Dependencies_Authenticator deps)]
     ∨ op_Security op = None ∧ bound_middlewares b = []).

Definition contract_ok (b : BoundRoute) : Prop := is_ok (contract (Route_operation (bound_route b))) = true.

Lemma contract_documents deps b : contract_ok b → bound_by_policy deps b →
  ∃ op, contract (Route_operation (bound_route b)) = Ok op ∧ documents deps op b.
Proof.
  unfold contract_ok, bound_by_policy, documents, Policy, bound_spec, contract. intros Hc ->.
  destruct (_ && _)%bool; [done|]. destruct (op_Security (Operation_spec _)) eqn:Es; [done|].
  eexists. split; [reflexivity|].
  destruct (Operation_policy _ ==? Session); (split; [|by auto]).
  - done.
  - rewrite Es. destruct (Operation_spec _). simpl in *. by subst.
Qed.

Lemma bind_all_describes {S} deps (select : Dependencies → S) routes bs :
  bind_all deps select routes = Ok bs → Forall contract_ok bs →
  ∃ ops, describe_all routes = Ok ops ∧ Forall2 (documents deps) ops bs.
Proof.
  revert bs. induction routes as [|[route|] routes IH]; intros bs; simpl; [intros [= <-] _|..|done].
  { exists []. split; [done|apply List.Forall2_nil]. }
  intros H Hc. unfold bind_route in H. cbn [res_bind] in H.
  assert (∃ b rest, bs = b :: rest ∧ bound_by_policy deps b ∧ Route_operation (bound_route b) = Route_operation route
    ∧ bind_all deps select routes = Ok rest) as (b & rest & -> & Hp & Ho & Hr).
  { unfold bound_by_policy. destruct (Policy route ==? Session) eqn:Ep; [|destruct (Policy route ==? Public); [|done]];
      cbn [res_bind] in H; (destruct (bind_all deps select routes) as [rest|]; [|done]); injection H as <-;
      eexists _, _; (split; [reflexivity|]); cbn [bound_middlewares bound_route bound_S]; by rewrite Ep. }
  inversion Hc as [|? ? Hc1 Hc2]; subst. destruct (contract_documents deps b Hc1 Hp) as (op & Hop & Hd).
  destruct (IH _ Hr Hc2) as (ops & He & Hf). rewrite Ho in Hop.
  exists (op :: ops). unfold Describe. rewrite Hop, He. split; [done|]. by apply List.Forall2_cons.
Qed.

Lemma bind_modules_describes deps ms bs :
  bind_modules deps ms = Ok bs → Forall contract_ok bs →
  ∃ ops, describe_modules ms = Ok ops ∧ Forall2 (documents deps) ops bs.
Proof.
  revert bs. induction ms as [|m ms IH]; intros bs; simpl; [intros [= <-] _|].
  { exists []. split; [done|apply List.Forall2_nil]. }
  unfold module_bind, module_describe.
  destruct (bind_all deps (selectService m) (module_routes m)) as [bs1|] eqn:E; [|done]. cbn [res_bind].
  destruct (bind_modules deps ms) as [bs2|]; [|done]. intros [= <-] [H1 H2]%List.Forall_app.
  destruct (bind_all_describes _ _ _ _ E H1) as (ops1 & -> & F1).
  destruct (IH _ eq_refl H2) as (ops2 & -> & F2).
  exists (ops1 ++ ops2). split; [done|]. by apply List.Forall2_app.
Qed.

(** C40: The contract that is exported offline and the routes that are served agree: one exported
    operation for every bound route, in order and with the same address, status, errors and
    limits, and a session is documented exactly where the session middleware was bound. *)
Theorem OpenAPI_describes_runtime deps : ∃ bs ops, NewHandler deps = Ok bs
  ∧ Forall2 (documents deps) ops bs ∧ ∀ marshal, OpenAPI marshal = marshal ops.
Proof.
  destruct (catalog_computed deps) as (_ & _ & Hw).
  destruct (bind_modules_describes deps routeCatalog _ (NewHandler_starts deps)) as (ops & Ho & Hf).
  { apply List.Forall_forall. intros b Hb. rewrite forallb_forall in Hw. apply Hw in Hb.
    unfold public_or_bounded in Hb. by apply andb_true_iff in Hb as [Hb _]. }
  exists (routes_or_nil (NewHandler deps)), ops. split_and!; [apply NewHandler_starts|done|].
  intros marshal. unfold OpenAPI. by rewrite Ho.
Qed.

End catalog.

(** ** Requests to protected routes *)

Section protected.
  Context `{Run : Runtime, Sch : Schedule, Dl : Deadlines, Opt : Options, Pwd : Passwords,
            Fed : Federation}.

(** [sessionAuthenticator] answers for a session: the interface as the HTTP layer relies on it. *)
Lemma session_authenticated `{!EnvGuar evolves} token w p w1 :
  auth_ok (w_db w) → Authenticate (Authenticator := sessionAuthenticator) token w = (Ok p, w1) →
  AuthenticateSession token w = (Ok (Principal_Subject p, Principal_SessionID p), w1).
Proof.
  intros Hok H. simpl in H. apply run_bind_ok in H as ([uid sid] & w2 & H & Hr).
  apply run_ret in Hr as [[= ->] ->]. done.
Qed.

(** The context a handler gets: the principal is set, the rest is the request's. *)
Definition on_behalf_of (p : Principal) (c c' : HContext) : Prop :=
  ctx_principal (h_ctx c') = Some p ∧ ctx_meta (h_ctx c') = ctx_meta (h_ctx c)
  ∧ h_input c' = h_input c ∧ h_header c' !! "Cache-Control" = Some "no-store".

Lemma in_forall {T} (P : T → Prop) l x : Forall P l → List.In x l → P x.
Proof. induction 1 as [|y l Hy _ IH]; simpl; [done|]. intros [<-|]; auto. Qed.

Lemma in_mapped {T U} (f : T → U) l x : List.In x l → List.In (f x) (List.map f l).
Proof. induction l as [|y l IH]; simpl; [done|]. intros [->|]; auto. Qed.

Lemma catalog_own_middlewares deps b :
  List.In b (routes_or_nil (NewHandler deps)) →
  Middlewares (bound_spec b) = [] ∨ Middlewares (bound_spec b) = [AccountHttp.no_store_middleware].
Proof.
  intros H. apply (in_mapped (λ b, Middlewares (bound_spec b))) in H.
  rewrite catalog_middlewares in H.
  apply List.in_app_or in H as [H%List.repeat_spec|[H%List.repeat_spec|H%List.repeat_spec]%List.in_app_or]; auto.
Qed.

(** How a protected route serves a request: the session middleware around the handler, with
    at most a header set before. *)
Lemma serve_session deps b parse h :
  List.In b (routes_or_nil (NewHandler deps)) → Policy (bound_route b) = Session →
  serve b parse = Ok h →
  ∃ before : HContext → HContext,
    (∀ c, h_ctx (before c) = h_ctx c ∧ h_Authorization (before c) = h_Authorization c
          ∧ h_input (before c) = h_input c)
    ∧ ∀ c, h c = Middleware (Auth := Dependencies_Authenticator deps) _
                   (huma_handler (bound_route b) (bound_service b) parse) (before c).
Proof.
  intros Hin Hp Hs. pose proof (NewHandler_policy _ _ (NewHandler_starts deps)) as Hb.
  apply (in_forall _ _ b) in Hb; [|done]. unfold bound_by_policy in Hb. rewrite Hp in Hb. simpl in Hb.
  unfold serve, Bind, contract in Hs. rewrite Hb in Hs. fold (Policy (bound_route b)) in Hs.
  rewrite Hp in Hs. simpl in Hs. fold (bound_spec b) in Hs.
  destruct (op_Security (bound_spec b)); [done|]. simpl in Hs. injection Hs as <-.
  destruct (catalog_own_middlewares deps b Hin) as [->| ->]; clear Hin.
  - exists id. split; [intros c; repeat split|reflexivity].
  - exists (SetHeader "Cache-Control" "no-store"). split; [intros c; repeat split|reflexivity].
Qed.

(** The request [c] carries the token of a session that is live, of a user who is active, when it
    arrives. *)
Definition presents_session (w : World) (c : HContext) (p : Principal) : Prop :=
  let d := sched_env (w_step w) (w_db w) in
  ∃ token s u, bearer (h_Authorization c) = (token, true)
    ∧ user_sessions d !! Principal_SessionID p = Some s ∧ UserSession_UserID s = Principal_Subject p
    ∧ UserSession_TokenHash s = sha256_Sum256 token ∧ UserSession_RevokedAt s = None
    ∧ w_clock w < UserSession_IdleExpiresAt s ∧ w_clock w < UserSession_AbsoluteExpiresAt s
    ∧ users d !! Principal_Subject p = Some u ∧ User_Status u = UserActive
    ∧ User_AuthVersion u = UserSession_AuthVersion s.

(** C12: On a protected route the handler runs only for a request that carries the token of a
    live session of an active user, and it runs for exactly that user and session; any other
    request is answered 401, 503 or 504, its input not looked at and nothing done for it beyond
    the look-up of its token. *)
Theorem protected_routes_guarded `{!EnvGuar evolves} ready b parse h c w x w' :
  let deps := mkDependencies sessionAuthenticator ready in
  auth_ok (w_db w) → List.In b (routes_or_nil (NewHandler deps)) →
  Policy (bound_route b) = Session → serve b parse = Ok h → h c w = (x, w') →
  ∃ r, x = Ok r
    ∧ ((refusal r ∧ w_db w' = w_db (looked_up (Auth := sessionAuthenticator) c w))
       ∨ ∃ p c' w1, presents_session w c p ∧ on_behalf_of p c c'
           ∧ huma_handler (bound_route b) (bound_service b) parse c' w1 = (Ok r, w')).
Proof.
  intros deps Hok Hin Hp Hs H.
  destruct (serve_session deps b parse h Hin Hp Hs) as (before & Hbefore & Hh). clear Hin.
  destruct (Hbefore c) as (Hctx & Hauth & Hinput). rewrite Hh in H.
  apply Middleware_cases in H as [(r & -> & Hr & Hd)|(token & p & w1 & Hb & Ha & _ & H)].
  - exists r. split; [done|]. left. split; [done|]. unfold looked_up in *. by rewrite Hauth in Hd.
  - edestruct (huma_handler_cases (bound_route b)) as (r & w2 & Hr & _). rewrite Hr in H.
    injection H as <- <-. exists r. split; [done|]. right.
    exists p. eexists _, _. split_and!; [|split_and!|exact Hr].
    + apply session_authenticated in Ha; [|done]. apply authenticated_session in Ha; [|done].
      destruct Ha as (s & u & Ha). exists token, s, u. rewrite Hauth in Hb. split; [exact Hb|exact Ha].
    + done.
    + simpl. by rewrite Hctx.
    + done.
    + apply lookup_insert_eq.
Qed.

(** C13: Conversely, whoever presents a token that authenticates, in the header the API asks for,
    has the handler of any protected route run in their name, unless time is up. *)
Theorem protected_routes_serve `{L : !RuntimeLaws Run, !EnvGuar evolves} ready b parse h c w token uid sid w1 :
  let deps := mkDependencies sessionAuthenticator ready in
  auth_ok (w_db w) → List.In b (routes_or_nil (NewHandler deps)) →
  Policy (bound_route b) = Session → serve b parse = Ok h →
  h_Authorization c = "Bearer " +:+ token → AuthenticateSession token w = (Ok (uid, sid), w1) →
  uid ≠ "" → ctx_done (w_step w1) ≠ Some CtxDeadlineExceeded →
  ∃ c', on_behalf_of {| Principal_Subject := uid; Principal_SessionID := sid |} c c'
    ∧ h c w = huma_handler (bound_route b) (bound_service b) parse c' (advance w1).
Proof.
  intros deps Hok Hin Hp Hs Hc Ha Hu Ht.
  destruct (serve_session deps b parse h Hin Hp Hs) as (before & Hbefore & Hh). clear Hin.
  destruct (Hbefore c) as (Hctx & Hauth & Hinput).
  exists (admitted (before c) {| Principal_Subject := uid; Principal_SessionID := sid |}). split.
  { split_and!; simpl; rewrite ?Hctx; try done. apply lookup_insert_eq. }
  rewrite Hh. unfold Middleware. rewrite Hauth, Hc.
  destruct (AuthenticateSession_found _ _ _ _ _ Ha) as (hash & s & Htok & _).
  rewrite (bearer_token token SessionPrefix hash Htok) by done.
  unfold mbind, M_bind, try. simpl. unfold mbind, M_bind. rewrite Ha. simpl.
  unfold after_authentication, ctx_Err, next_step, mbind, M_bind, mret, M_ret. simpl.
  rewrite bool_decide_eq_false_2 by done.
  destruct (ctx_done (w_step w1)) as [[]|]; done.
Qed.

End protected.

(** ** Identities from the registry *)

Lemma length_pretty_go k x s : (0 < x)%N → (x < 10 ^ N.of_nat k)%N →
  (String.length s < String.length (pretty_N_go x s) ≤ k + String.length s)%nat.
Proof.
  revert x s. induction k as [|k IH]; intros x s Hx Hk; [simpl in Hk; lia|].
  rewrite pretty_N_go_step by done.
  rewrite Nat2N.inj_succ, N.pow_succ_r' in Hk.
  destruct (N.eq_dec (x / 10) 0) as [E|E].
  - rewrite E, pretty_N_go_0. simpl. lia.
  - assert (0 < x / 10)%N as H0 by (by apply N.neq_0_lt_0).
    assert (x / 10 < 10 ^ N.of_nat k)%N as Hlt by (apply N.Div0.div_lt_upper_bound; lia).
    specialize (IH (x / 10)%N (String (pretty_N_char (x `mod` 10)) s) H0 Hlt). simpl in IH. lia.
Qed.

Lemma length_pretty_int64 z : 0 < z < 2 ^ 63 → 1 ≤ len (pretty z) ≤ 19.
Proof.
  intros Hz. destruct z as [|p|p]; [lia| |lia]. unfold len.
  change (pretty (Z.pos p)) with (pretty (N.pos p)). unfold pretty, pretty_N.
  rewrite decide_False by done.
  pose proof (length_pretty_go 19 (N.pos p) "") as H. simpl String.length in H.
  assert (N.pos p < 10 ^ N.of_nat 19)%N.
  { change (10 ^ N.of_nat 19)%N with 10000000000000000000%N. lia. }
  specialize (H eq_refl ltac:(done)). lia.
Qed.

Section identities.
  Context `{Run : Runtime, Url : FederationClient.UrlParser, OA : FederationClient.OAuth,
            C : FederationContexts}.

(** C33: The adapter's identities are ones the account service accepts, each from a provider
    that is configured at the version the flow was started with, and two of them with the same
    subject are the same user of the provider. Its failures are refused credentials, an
    unavailable dependency, or the end of the context. *)
Theorem federationAdapter_refines registry n id version code verifier :
  (∀ m token st user, FederationClient.GetUser m FederationClient.githubUserEndpoint token = Ok (st, Ok user) →
     FederationClient.github_ID user < 2 ^ 63) →
  match Federation_Verify (Federation := federationAdapter registry) n id version code verifier with
  | Ok v =>
    identity_ok v = true
    ∧ Federation_Version (Federation := federationAdapter registry) id = version
    ∧ Federation_Enabled (Federation := federationAdapter registry) id = true
    ∧ ∃ token user, FederationClient.GetUser n FederationClient.githubUserEndpoint token = Ok (200, Ok user)
      ∧ ∀ user', pretty (FederationClient.github_ID user') = Identity_Subject v →
                 FederationClient.github_ID user' = FederationClient.github_ID user
  | Err e =>
    As asBusiness e = Some ErrCredentials ∨ As asBusiness e = Some ErrUnavailable
    ∨ FederationClient.first_ask (asked n) = Some e ∨ FederationClient.second_ask (asked n) = Some e
  end.
Proof.
  intros Hint. simpl. destruct (FederationClient.Verify _ _ _ _ _ _ _) as [x|e] eqn:E; simpl.
  - apply FederationClient.Verify_sound in E as (Hv & He & _ & c & token & user & _ & Hg & Hp & ->).
    split_and!; [|done|done|].
    + pose proof (length_pretty_int64 (FederationClient.github_ID user)) as Hl.
      specialize (Hint _ _ _ _ Hg). specialize (Hl (conj Hp Hint)).
      unfold identity_ok, maxProviderSubjectBytes. simpl.
      destruct (Z.leb_spec (len (pretty (FederationClient.github_ID user))) 1024); [|lia].
      rewrite bool_decide_eq_false_2; [done|]. intros Hn. rewrite Hn in Hl. unfold len in Hl. simpl in Hl. lia.
    + exists token, user. split; [done|]. intros user' Hu. simpl in Hu. apply (inj (R := eq) (S := eq) pretty) in Hu. done.
  - unfold mapProviderError. apply FederationClient.Verify_errors in E.
    destruct (Is e (TSentinel FederationErrProof)); [by left|].
    destruct (Is e (TSentinel FederationErrUnavailable)); [by right; left|].
    right; right. naive_solver.
Qed.

End identities.
