(* ===== verification/Identifiers.v ===== *)
(** * Every row of the database is named by a well-formed identifier

    Identifiers are drawn by the program ([identity.NewID]) or checked before they are stored,
    so [validation.Identifier] holds of each of them, in all tables and at all times
    ([ids_ok], part of the system's invariant). What the program reads back from a row may
    therefore be passed to the checks of the stores, which ask for identifiers. *)
From S2P Require Import Prelude.
From S2P Require Import Text.
From S2P Require Import GoErrors.
From S2P Require Import Runtime.
From S2P Require Import Identity.
From S2P Require Import Schema.
From S2P Require Import Storage.
From S2P Require Import Logic.
From S2P Require Import Queries.
From S2P Require Import AuthQueries.
From S2P Require Import MailQueries.
From S2P Require Projects.
From S2P Require Tasks.
From S2P Require Import MailOutbox.
From S2P Require Import AccountModel.
From S2P Require Import AccountStore.
From S2P Require Import AccountGuar.

(** ** Tables *)

Definition named {A} (t : gmap string A) : Prop := map_Forall (λ k _, Identifier k = true) t.

Create HintDb ids discriminated.

Section tables.
  Context {A : Type}.
  Implicit Types t : gmap string A.

Lemma named_insert t k r : Identifier k = true → named t → named (<[k := r]> t).
Proof. intros Hk Ht. by apply map_Forall_insert_2. Qed.

Lemma named_delete t k : named t → named (delete k t).
Proof. intros Ht. by apply map_Forall_delete. Qed.

Lemma named_row t k r : named t → t !! k = Some r → Identifier k = true.
Proof. intros Ht Hk. exact (Ht k r Hk). Qed.

Lemma named_update_row t t' id P (f : A → A) r :
  update_row id P f t = Some (r, t') → named t → named t'.
Proof.
  unfold update_row. destruct (t !! id) as [r0|] eqn:E; [|done]. destruct (P r0); [|done].
  intros [= _ <-] Ht. eapply named_insert, Ht. by eapply named_row.
Qed.

Lemma named_update_where t P (f : A → A) : named t → named (update_where P f t).
Proof. intros Ht k r. unfold update_where. rewrite lookup_fmap_Some. intros (r0 & _ & Hk). by eapply Ht. Qed.

End tables.

#[export] Hint Resolve named_insert named_delete named_update_row named_update_where : ids.

Record ids_ok (d : DB) : Prop := {
  projects_named : named (projects d);
  tasks_named : named (tasks d);
  users_named : named (users d);
  accounts_named : named (accounts d);
  sessions_named : named (user_sessions d);
  flows_named : named (auth_flows d);
  verifications_named : named (auth_verifications d);
  audit_named : Forall (λ e, Identifier (AuditEvent_ID e) = true) (audit_events d);
  mails_named : named (mail_outbox d)
}.

(** ** Statements *)

Section statements.
  Context `{Run : Runtime, L : !RuntimeLaws Run}.

Lemma drawn_Identifier id : drawn id → Identifier id = true.
Proof. intros [n ->]. apply uuid_Identifier. Qed.

Lemma named_drawn {A} (t : gmap string A) k r : drawn k → named t → named (<[k := r]> t).
Proof. intros Hk. apply named_insert. by apply drawn_Identifier. Qed.

Lemma audit_drawn es arg now :
  drawn (AppendAudit_ID arg) → Forall (λ e, Identifier (AuditEvent_ID e) = true) es →
  Forall (λ e, Identifier (AuditEvent_ID e) = true) (es ++ [audit_row arg now]).
Proof. intros Hd%drawn_Identifier He. apply Forall_app. split; [done|]. by apply Forall_singleton. Qed.

Lemma flow_params_Identifier arg : flow_params_ok arg = true → Identifier (CreateFlow_ID arg) = true.
Proof. unfold flow_params_ok. rewrite !andb_true_iff. tauto. Qed.

End statements.

#[export] Hint Resolve named_drawn audit_drawn flow_params_Identifier : ids.
#[export] Hint Extern 1 (Identifier (NewID _) = true) => apply uuid_Identifier : ids.

(** A statement inserts a row under a good identifier, or changes or deletes rows there are. *)
Ltac ids_stmt :=
  lazymatch goal with
  | |- stmt_guar _ ?s =>
    let rec head t := lazymatch t with ?f _ => head f | _ => t end in
    let h := head s in
    unfold stmt_guar, keeps, h, returning_one, rows_affected, no_result;
    intros now d Hd; repeat case_match; simplify_eq/=; try exact Hd;
    destruct Hd; constructor; simpl; eauto with ids nocore
  end.

Section instances.
  Context `{Run : Runtime, L : !RuntimeLaws Run}.

Global Instance ids_account_guar : AccountGuar (keeps ids_ok).
Proof. split; intros; ids_stmt. Qed.

Global Instance ids_project_guar : Projects.ProjectGuar (keeps ids_ok).
Proof. split; intros; ids_stmt. Qed.

Global Instance ids_task_guar : Tasks.TaskGuar (keeps ids_ok).
Proof. split; intros; ids_stmt. Qed.

Global Instance ids_mail_guar : MailGuar (keeps ids_ok).
Proof. split; intros; ids_stmt. Qed.

Lemma ids_empty : ids_ok emptyDB.
Proof. split; try apply map_Forall_empty. constructor. Qed.

End instances.
