(* ===== verification/System.v ===== *)
(** * The whole system: requests to the API and the mail worker

    Every handler of every route respects each relation between databases that the statements
    respect ([handler_guar]), so the invariants of the parts are invariants of the program:
    [system_evolves] is their conjunction, and [system_run] says that any sequence of requests
    and worker runs keeps it. *)
From S2P Require Import Prelude.
From S2P Require Import Text.
From S2P Require Import GoErrors.
From S2P Require Import Runtime.
From S2P Require Import Identity.
From S2P Require Import Pagination.
From S2P Require Import Schema.
From S2P Require Import Storage.
From S2P Require Import Logic.
From S2P Require Import HttpApi.
From S2P Require Import Queries.
From S2P Require Import AuthQueries.
From S2P Require Import Owned.
From S2P Require Import MailQueries.
From S2P Require Import Tables.
From S2P Require Projects.
From S2P Require Tasks.
From S2P Require Import ModuleRoutes.
From S2P Require Import MailOutbox.
From S2P Require Import AccountModel.
From S2P Require Import AccountSessions.
From S2P Require Import AccountFlows.
From S2P Require AccountHttp.
From S2P Require Import AccountHistory.
From S2P Require Import AccountGuar.
From S2P Require Import AccountFacts.
From S2P Require Import Api.
From S2P Require Import Identifiers.

(** ** Routes that respect a relation *)

Section routes.
  Context `{Sch : Schedule, Dl : Deadlines}.
  Context (R : relation DB) `{Pre : !PreOrder R}.

Definition route_guar {S} (service : S) (e : Route S) : Prop :=
  ∀ ctx input, guar R (Route_handle e service ctx input).

Definition endpoint_guar {S} (service : S) (e : res error (Route S)) : Prop :=
  match e with Ok e => route_guar service e | Err _ => True end.

Lemma endpoint_guar_ {S I D} (service : S) b op (handle : S → Ctx → I → M (option (Output D))) :
  (∀ ctx input, guar R (handle service ctx input)) → endpoint_guar service (endpoint_ b op handle).
Proof.
  intros H. unfold endpoint_. destruct op as [o|]; [|done]. simpl. by destruct (contract o).
Qed.

Lemma Endpoint_guar {S I D} (service : S) op (handle : S → Ctx → I → M (Output D)) :
  (∀ ctx input, guar R (handle service ctx input)) → endpoint_guar service (Endpoint op handle).
Proof. intros H. apply endpoint_guar_. intros. specialize (H ctx input). guar_auto. Qed.

Lemma MapEndpoint_guar {S I T D} (service : S) op (execute : S → Ctx → I → M T) (present : T → Output D) :
  (∀ ctx input, guar R (execute service ctx input)) → endpoint_guar service (MapEndpoint op execute present).
Proof. intros H. apply Endpoint_guar. intros. specialize (H ctx input). guar_auto. Qed.

Lemma NoContentEndpoint_guar {S I} (service : S) op (execute : S → Ctx → I → M unit) :
  (∀ ctx input, guar R (execute service ctx input)) → endpoint_guar service (NoContentEndpoint op execute).
Proof. intros H. apply endpoint_guar_. intros. specialize (H ctx input). guar_auto. Qed.

(** ** Serving a request *)

Definition handler_guar {D} (h : handler D) : Prop := ∀ c, guar R (h c).

Definition middleware_guar (m : middleware) : Prop := ∀ D (h : handler D), handler_guar h → handler_guar (m D h).

Lemma FromError_guar err : guar R (FromError err).
Proof.
  intros w. destruct (FromError_answer err w) as (e & w' & _ & _ & H & Hd & _). rewrite H. simpl.
  rewrite Hd. reflexivity.
Qed.

Hint Resolve FromError_guar : guar.

Lemma huma_handler_guar {S} (e : Route S) service parse :
  route_guar service e → handler_guar (huma_handler e service parse).
Proof. intros H c. unfold huma_handler, bound_call. guar_auto; apply H. Qed.

Lemma run_middlewares_guar {D} ms (h : handler D) :
  Forall middleware_guar ms → handler_guar h → handler_guar (run_middlewares ms h).
Proof. intros Hms Hh. induction Hms as [|m ms Hm _ IH]; [done|]. by apply Hm. Qed.

Lemma no_store_guar : middleware_guar AccountHttp.no_store_middleware.
Proof. intros D h Hh c. apply Hh. Qed.

Lemma Middleware_guar `{Auth : Authenticator} :
  (∀ token, guar R (Authenticate token)) → middleware_guar Middleware.
Proof.
  intros Ha D h Hh c. unfold Middleware, after_authentication, HttpApi.ctx_Err, logFailure.
  guar_auto; first [apply Ha|apply Hh].
Qed.

Lemma Requests_guar `{Run : Runtime} {D} addr (h : handler D) : handler_guar h → handler_guar (Requests addr h).
Proof. intros Hh c. unfold Requests. guar_auto. Qed.

End routes.

(** ** The catalog *)

Section catalog.
  Context `{Run : Runtime, Sch : Schedule, Dl : Deadlines, Opt : Options, Pwd : Passwords,
            Fed : Federation}.
  Context (R : relation DB) `{Pre : !PreOrder R, Env : !EnvGuar R}.
  Context `{AG : !AccountGuar R, PG : !Projects.ProjectGuar R, TG : !Tasks.TaskGuar R}.

(** The routes of one module. *)
Ltac endpoint :=
  first [apply MapEndpoint_guar|apply NoContentEndpoint_guar|apply Endpoint_guar]; [done|intros ctx input].
Ltac endpoints := repeat (apply List.Forall_cons; [endpoint|]); try apply List.Forall_nil.

Lemma account_routes_guar : Forall (endpoint_guar R tt) AccountHttp.Routes.
Proof.
  unfold AccountHttp.Routes, concat. rewrite !List.Forall_app. split_and!; try apply List.Forall_nil; endpoints.
  - by apply Register_guar.
  - by apply Login_guar.
  - by apply StartLogin_guar.
  - refine (guar_bind _ _ _ _ _); [by apply Callback_guar|intros ?; by apply guar_lift].
  - by apply ForgotPassword_guar.
  - by apply VerifyChallenge_guar.
  - by apply Me_guar.
  - by apply UpdateProfile_guar.
  - refine (guar_bind _ _ _ _ _); [by apply Reauthenticate_guar|intros ?; by apply guar_lift].
  - by apply SetPassword_guar.
  - by apply ChangeEmail_guar.
  - by apply StartLink_guar.
  - by apply ConfirmLink_guar.
  - by apply Unlink_guar.
  - by apply Sessions_guar.
  - by apply service_RevokeSession_guar.
  - by apply service_RevokeSession_guar.
Qed.

Lemma admin_routes_guar : Forall (endpoint_guar R tt) AccountHttp.AdminRoutes.
Proof.
  assert (Ha : ∀ s, guar R (RequireAdmin s)) by (intros; by apply (RequireAdmin_guar R)).
  unfold AccountHttp.AdminRoutes. endpoints.
  - by apply Users_guar.
  - by apply SetStatus_guar.
  - by apply admin_RevokeUserSessions_guar.
Qed.

Lemma project_routes_guar : Forall (endpoint_guar R tt) project.projectRoutes.
Proof.
  unfold project.projectRoutes. endpoints.
  - by apply Projects.createProject_guar.
  - by apply Projects.getProject_guar.
  - by apply Projects.listProjects_guar.
  - by apply Projects.updateProject_guar.
  - by apply Projects.deleteProject_guar.
Qed.

Lemma task_routes_guar : Forall (endpoint_guar R tt) task.taskRoutes.
Proof.
  unfold task.taskRoutes. endpoints.
  - by apply Tasks.createTask_guar.
  - by apply Tasks.getTask_guar.
  - by apply Tasks.listTasks_guar.
  - by apply Tasks.updateTask_guar.
  - by apply Tasks.deleteTask_guar.
Qed.

Lemma health_routes_guar ready : guar R ready → Forall (endpoint_guar R ready) HealthRoutes.
Proof.
  intros Hr. unfold HealthRoutes. repeat apply List.Forall_cons; try apply List.Forall_nil;
    (apply Endpoint_guar; [done|intros ctx input]).
  - by apply guar_ret.
  - unfold readiness. guar_auto.
Qed.

(** A bound route serves with its own service. *)
Definition bound_guar (b : BoundRoute) : Prop := route_guar R (bound_service b) (bound_route b).

Lemma bind_all_guar {S} deps (select : Dependencies → S) routes bs :
  Forall (endpoint_guar R (select deps)) routes → bind_all deps select routes = Ok bs →
  Forall bound_guar bs.
Proof.
  intros Hr. revert bs. induction Hr as [|route routes Hroute _ IH]; intros bs; simpl;
    [intros [= <-]; apply List.Forall_nil|].
  unfold bind_route. destruct route as [route|]; [|done]. cbn [res_bind].
  destruct (Policy route ==? Session); [|destruct (Policy route ==? Public); [|done]];
    cbn [res_bind]; (destruct (bind_all deps select routes) as [rest|]; [|done]); intros [= <-];
    apply List.Forall_cons; auto.
Qed.

Lemma NewHandler_guar deps : guar R (Ready deps) →
  Forall bound_guar (routes_or_nil (NewHandler deps)).
Proof.
  intros Hr.
  assert (Hm : ∀ m, List.In m routeCatalog →
    Forall (endpoint_guar R (selectService m deps)) (module_routes m)).
  { intros m [<-|[<-|[<-|[<-|[<-|[]]]]]]; simpl.
    - by apply health_routes_guar.
    - apply account_routes_guar.
    - apply admin_routes_guar.
    - apply project_routes_guar.
    - apply task_routes_guar. }
  pose proof (NewHandler_starts deps) as Hs. revert Hs.
  generalize (routes_or_nil (NewHandler deps)). unfold NewHandler. revert Hm. generalize routeCatalog.
  intros ms. induction ms as [|m ms IH]; intros Hm bs; simpl; [intros [= <-]; apply List.Forall_nil|].
  destruct (module_bind deps m) as [bs1|] eqn:E; [|done]. cbn [res_bind].
  destruct (bind_modules deps ms) as [rest|]; [|done]. intros [= <-].
  apply List.Forall_app. split.
  - eapply bind_all_guar; [|exact E]. apply Hm. by left.
  - apply IH; [|done]. intros m' Hin. apply Hm. by right.
Qed.

(** Serving a request of any route respects the relation. *)
Lemma serve_guar ready b parse h :
  let deps := mkDependencies sessionAuthenticator ready in
  guar R ready → List.In b (routes_or_nil (NewHandler deps)) → serve b parse = Ok h →
  handler_guar R h.
Proof.
  intros deps Hr Hin Hs.
  pose proof (in_forall _ _ b (NewHandler_guar deps Hr) Hin) as Hb. unfold bound_guar in Hb.
  pose proof (in_forall _ _ b (NewHandler_policy _ _ (NewHandler_starts deps)) Hin) as Hp.
  pose proof (catalog_own_middlewares deps b Hin) as Hm. unfold bound_by_policy in Hp. clear Hin.
  unfold serve, Bind in Hs. destruct (contract (Route_operation (bound_route b))) as [op|] eqn:Eo; [|done].
  assert (Middlewares op = Middlewares (bound_spec b)) as Hop.
  { unfold contract in Eo. fold (bound_spec b) in Eo. destruct (_ && _)%bool; [done|].
    destruct (op_Security _); [done|]. injection Eo as <-. by destruct (bool_decide _). }
  simpl in Hs. injection Hs as <-.
  apply run_middlewares_guar; [|by apply huma_handler_guar].
  rewrite Hop. apply List.Forall_app. split.
  - destruct Hm as [-> | ->]; [apply List.Forall_nil|].
    apply List.Forall_cons; [apply no_store_guar|apply List.Forall_nil].
  - rewrite Hp. destruct (_ ==? _); [|apply List.Forall_nil].
    apply List.Forall_cons; [|apply List.Forall_nil]. apply Middleware_guar; [done|].
    intros token. simpl. refine (guar_bind _ _ _ _ _); [by apply AuthenticateSession_guar|].
    intros [uid sid]. by apply guar_ret.
Qed.

End catalog.

(** ** All invariants at once *)

Create HintDb system discriminated.

Section system.
  Context `{Run : Runtime}.

Record system_ok (d : DB) : Prop := {
  ok_auth : auth_ok d;
  ok_projects : Projects.projects_wf d;
  ok_tasks : Tasks.tasks_wf d;
  ok_mails : outbox_ok d;
  ok_ids : ids_ok d
}.

Definition system_evolves (d d' : DB) : Prop :=
  evolves d d' ∧ keeps Projects.projects_wf d d' ∧ keeps Tasks.tasks_wf d d' ∧ mails_live d d'
  ∧ keeps ids_ok d d'.

Global Instance system_evolves_preorder : PreOrder system_evolves.
Proof.
  split.
  - intros d. split_and!; reflexivity.
  - intros d1 d2 d3 (?&?&?&?&?) (?&?&?&?&?). split_and!; by etransitivity.
Qed.

Lemma system_stmt {A} (s : stmt A) :
  stmt_guar evolves s → stmt_guar (keeps Projects.projects_wf) s →
  stmt_guar (keeps Tasks.tasks_wf) s → stmt_guar mails_live s → stmt_guar (keeps ids_ok) s →
  stmt_guar system_evolves s.
Proof. intros H1 H2 H3 H4 H5 now d. split_and!; [apply H1|apply H2|apply H3|apply H4|apply H5]. Qed.

(** Each part is about tables of its own. *)
Definition auth_tables (d : DB) :=
  (users d, accounts d, user_sessions d, auth_flows d, auth_verifications d, audit_events d).

Lemma same_auth {A} (s : stmt A) : stmt_guar (same auth_tables) s → stmt_guar evolves s.
Proof.
  intros H now d. injection (H now d) as E1 E2 E3 E4 E5 E6.
  apply evolves_other; try done. by rewrite E6.
Qed.

Lemma same_projects {A} (s : stmt A) : stmt_guar (same projects) s → stmt_guar (keeps Projects.projects_wf) s.
Proof. intros H now d Hd. unfold Projects.projects_wf in *. by rewrite (H now d). Qed.

Lemma same_tasks {A} (s : stmt A) : stmt_guar (same tasks) s → stmt_guar (keeps Tasks.tasks_wf) s.
Proof. intros H now d Hd. unfold Tasks.tasks_wf in *. by rewrite (H now d). Qed.

Lemma same_mails {A} (s : stmt A) : stmt_guar (same mail_outbox) s → stmt_guar mails_live s.
Proof.
  intros H now d Hd. unfold outbox_ok in *. rewrite (H now d). split; [done|]. intros k m Hm.
  exists m. split; [done|apply rtc_refl].
Qed.

(** Each part by its own lemma, or because its tables stay the same. *)
Ltac part same_table := solve [eauto 2 with guar nocore|eauto with system|apply same_table; same_stmt].
Ltac parts :=
  apply system_stmt; [part @same_auth|part @same_projects|part @same_tasks|part @same_mails|ids_stmt].

Hint Resolve CreatePendingUser_evolves CreateFederatedUser_evolves CreateAccount_evolves CreateSession_evolves EnqueueMail_evolves AppendAudit_evolves
  VerifyFlow_evolves
  CreateVerification_evolves EnqueueMail_live : system.

Global Instance system_account_guar `{L : !RuntimeLaws Run} : AccountGuar system_evolves.
Proof. split; intros; parts. Qed.

Hint Resolve Projects.CreateProject_wf Projects.UpdateProject_wf Projects.DeleteProject_wf
  Tasks.CreateTask_wf Tasks.UpdateTask_wf Tasks.DeleteTask_wf : system.

Global Instance system_project_guar `{L : !RuntimeLaws Run} : Projects.ProjectGuar system_evolves.
Proof. split; intros; parts. Qed.

Global Instance system_task_guar `{L : !RuntimeLaws Run} : Tasks.TaskGuar system_evolves.
Proof. split; intros; parts. Qed.

Hint Resolve ClaimMail_live CompleteMail_live RetryMail_delay_live ExpireMail_live : system.

Global Instance system_mail_guar `{L : !RuntimeLaws Run} : MailGuar system_evolves.
Proof. split; intros; parts. Qed.

Lemma system_valid d d' : system_evolves d d' → system_ok d →
  system_ok d' ∧ history d d'
  ∧ ∀ k m, mail_outbox d !! k = Some m → ∃ m', mail_outbox d' !! k = Some m' ∧ rtc mail_step m m'.
Proof.
  intros (H1 & H2 & H3 & H4 & H5) [O1 O2 O3 O4 O5]. destruct (H1 O1), (H4 O4). split_and!; [split|..]; auto.
Qed.

End system.

(** ** Runs of the system *)

Section runs.
  Context `{Run : Runtime, Sch : Schedule, Dl : Deadlines, Opt : Options, Pwd : Passwords,
            Fed : Federation, Wk : Worker}.
  Context (ready : M unit).

Definition system_deps : Dependencies := mkDependencies sessionAuthenticator ready.

(** A request to any route of the catalog, from any address and with any content, or some
    iterations of a mail worker. *)
Definition system_step (w w' : World) : Prop :=
  (∃ b parse h addr c, List.In b (routes_or_nil (NewHandler system_deps)) ∧ serve b parse = Ok h
     ∧ w' = (Requests addr h c w).2)
  ∨ ∃ fuel poll, w' = (Run_ fuel poll w).2.

Lemma system_step_evolves `{L : !RuntimeLaws Run, Env : !EnvGuar system_evolves} w w' :
  guar system_evolves ready → system_step w w' → system_evolves (w_db w) (w_db w').
Proof.
  intros Hr [(b & parse & h & addr & c & Hin & Hs & ->)|(fuel & poll & ->)].
  - apply (Requests_guar system_evolves addr h). exact (serve_guar system_evolves ready b parse h Hr Hin Hs).
  - by apply (Run_guar system_evolves).
Qed.

(** C1: Whatever requests the API serves and whatever the mail workers do, in any order, with any
    failures and alongside other instances of the program: the database stays valid in all its
    parts, every row named by a well-formed identifier, the authentication tables follow their history and every mail its state machine. *)
Theorem system_run `{L : !RuntimeLaws Run, Env : !EnvGuar system_evolves} w w' :
  guar system_evolves ready → system_ok (w_db w) → rtc system_step w w' →
  system_ok (w_db w') ∧ history (w_db w) (w_db w')
  ∧ ∀ k m, mail_outbox (w_db w) !! k = Some m →
      ∃ m', mail_outbox (w_db w') !! k = Some m' ∧ rtc mail_step m m'.
Proof.
  intros Hr Hok H. apply system_valid; [|done]. clear Hok.
  induction H as [w|w w1 w2 H _ IH]; [reflexivity|]. etransitivity; [|exact IH].
  by apply system_step_evolves.
Qed.

(** Every request is answered: no handler's panic gets out. *)
Lemma Requests_answers {D} addr (h : handler D) c w : ∃ r, (Requests addr h c w).1 = Ok r.
Proof.
  unfold Requests, try, log_attrs, next_step, mbind, M_bind, mret, M_ret. simpl.
  destruct (h _ _) as [[a|e] w1]; simpl; by eexists.
Qed.

End runs.
