(* ===== verification/Replies.v ===== *)
(** * Every reply conforms to the contract

    [yields m Q]: from a valid database every success of [m] has a value with [Q], whatever the
    other clients do. The rows that a statement returns are rows of the database, so they are
    valid and well named ([row_of]); the operations make their replies of them, and the replies
    conform to the types that the contract declares ([replies_conform]). A [call] is an
    operation of the API with its body; [call_routed] ties it to its route in the catalog. *)
From S2P Require Import Prelude.
From S2P Require Import Text.
From S2P Require Import GoErrors.
From S2P Require Import Runtime.
From S2P Require Import Identity.
From S2P Require Import Pagination.
From S2P Require Import Schema.
From S2P Require Import Storage.
From S2P Require Import Logic.
From S2P Require Import HttpApi.
From S2P Require Import Queries.
From S2P Require Import AuthQueries.
From S2P Require Import Owned.
From S2P Require Import Tables.
From S2P Require Projects.
From S2P Require Tasks.
From S2P Require Import MailOutbox.
From S2P Require Import AccountModel.
From S2P Require Import AccountStore.
From S2P Require Import AccountCore.
From S2P Require Import AccountSessions.
From S2P Require Import AccountFlows.
From S2P Require AccountHttp.
From S2P Require Import Dto.
From S2P Require Import DtoFacts.
From S2P Require Import AccountHistory.
From S2P Require Import AccountGuar.
From S2P Require Import AccountFacts.
From S2P Require Import AccountSecurity.
From S2P Require Import Api.
From S2P Require Import Identifiers.
From S2P Require Import System.

(** ** Values of successful runs *)

Section yields.
  Context `{Run : Runtime, Sch : Schedule, L : !RuntimeLaws Run, Env : !EnvGuar system_evolves}.

Definition yields {A} (m : M A) (Q : A → Prop) : Prop :=
  ∀ w a w', system_ok (w_db w) → m w = (Ok a, w') → Q a.

Definition stmt_yields {A} (s : stmt A) (Q : A → Prop) : Prop :=
  ∀ now d a d', system_ok d → s now d = (Ok a, d') → Q a.

Lemma system_keeps d d' : system_evolves d d' → system_ok d → system_ok d'.
Proof. intros H Hd. by apply (system_valid d d'). Qed.

Lemma yields_bind {A B} (m : M A) (f : A → M B) (P : A → Prop) Q :
  guar system_evolves m → yields m P → (∀ a, P a → yields (f a) Q) → yields (m ≫= f) Q.
Proof.
  intros Hg Hm Hf w b w' Hok (a & w1 & R & H)%run_bind_ok.
  eapply Hf; [by eapply Hm| |exact H]. specialize (Hg w). rewrite R in Hg. by eapply system_keeps.
Qed.

Lemma yields_any {A} (m : M A) : yields m (λ _, True).
Proof. done. Qed.

Lemma yields_mono {A} (m : M A) (P Q : A → Prop) : yields m P → (∀ a, P a → Q a) → yields m Q.
Proof. intros Hm HQ w a w' Hok H. eapply HQ, Hm; eauto. Qed.

Lemma yields_ret {A} (a : A) (Q : A → Prop) : Q a → yields (mret a) Q.
Proof. intros HQ w b w1 _ [= <- _]. done. Qed.

Lemma yields_fail {A} e (Q : A → Prop) : yields (fail e) Q.
Proof. by intros w a w' _ H. Qed.

Lemma yields_lift {A} (r : res error A) (Q : A → Prop) : (∀ a, r = Ok a → Q a) → yields (lift r) Q.
Proof. intros HQ w a w' _ H. apply run_lift in H as [<- _]. by apply HQ. Qed.

Lemma yields_map_err {A} f (m : M A) Q : yields m Q → yields (map_err f m) Q.
Proof. intros Hm w a w' Hok H%run_map_err_ok. by eapply Hm. Qed.

Lemma yields_defer {A} (m : M A) k Q : yields m Q → yields (with_defer m k) Q.
Proof. intros Hm w a w' Hok H%run_defer_ok. by eapply Hm. Qed.

Lemma yields_next_step : yields next_step (λ n, Identifier (NewID n) = true).
Proof. intros w n w' _ _. apply uuid_Identifier. Qed.

Lemma system_env n d : system_ok d → system_ok (sched_env n d).
Proof. apply system_keeps, env_guar. Qed.

Lemma yields_exec {A} q (s : stmt A) Q : stmt_yields s Q → yields (exec q s) Q.
Proof.
  intros Hs w a w' Hok H. destruct q.
  - apply run_exec_pool in H. eapply Hs; [|exact H]. by apply system_env.
  - apply run_exec_tx in H. by eapply Hs.
Qed.

Lemma yields_tx {A} policy (fn : dbtx → M A) Q :
  (∀ t, yields (fn (Tx t)) Q) → yields (WithTransaction policy fn) Q.
Proof.
  intros Hfn w a w' Hok (w1 & H & -> & _)%run_tx_ok. eapply Hfn; [|exact H].
  rewrite w_db_advance. by apply system_env.
Qed.

End yields.

(** ** Rows *)

Section rows.
  Context `{Run : Runtime, L : !RuntimeLaws Run}.

Definition user_fine (u : User) : Prop :=
  Identifier (User_ID u) = true ∧ UserStatus_Valid (User_Status u) = true
  ∧ UserRole_Valid (User_Role u) = true.
Definition session_fine (s : UserSession) : Prop :=
  Identifier (UserSession_ID s) = true ∧ AuthMethod_Valid (UserSession_AuthMethod s) = true.
Definition account_fine (a : Account) : Prop := Identifier (Account_ID a) = true.
Definition flow_fine (f : AuthFlow) : Prop := Identifier (AuthFlow_ID f) = true.
Definition project_fine (p : Project) : Prop := Identifier (Project_ID p) = true.
Definition task_fine (t : Task) : Prop :=
  Identifier (Task_ID t) = true ∧ Tasks.Status_Valid (Task_Status t) = true.

(** The statement returns a row of the table as it leaves it. *)
Definition row_of {R} (table : DB → gmap string R) (s : stmt R) : Prop :=
  ∀ now d r d', s now d = (Ok r, d') → ∃ k, table d' !! k = Some r.

(** The statement returns rows of the table. *)
Definition rows_of {R} (table : DB → gmap string R) (s : stmt (list R)) : Prop :=
  ∀ now d rs d', s now d = (Ok rs, d') → Forall (λ r, ∃ k, table d !! k = Some r) rs.

Lemma row_fine {R} (table : DB → gmap string R) (s : stmt R) (P : R → Prop) :
  (∀ d k r, system_ok d → table d !! k = Some r → P r) →
  stmt_guar system_evolves s → row_of table s → stmt_yields s P.
Proof.
  intros HP Hg Hs now d r d' Hok H. destruct (Hs _ _ _ _ H) as [k Hk]. eapply HP, Hk.
  specialize (Hg now d). rewrite H in Hg. by eapply system_keeps.
Qed.

Lemma rows_fine {R} (table : DB → gmap string R) (s : stmt (list R)) (P : R → Prop) :
  (∀ d k r, system_ok d → table d !! k = Some r → P r) →
  rows_of table s → stmt_yields s (Forall P).
Proof.
  intros HP Hs now d rs d' Hok H. eapply Forall_impl; [by eapply Hs|]. intros r [k Hk]. by eapply HP.
Qed.

Lemma user_row_fine d k u : system_ok d → users d !! k = Some u → user_fine u.
Proof.
  intros Hok Hk. pose proof (users_ok _ (ok_auth _ Hok)) as Ht.
  destruct (table_row _ _ _ _ _ _ Ht Hk) as (Hs & Hr & _). split_and!; try done.
  rewrite (table_key _ _ _ _ _ _ Ht Hk). exact (named_row _ _ _ (users_named _ (ok_ids _ Hok)) Hk).
Qed.

Lemma session_row_fine d k s : system_ok d → user_sessions d !! k = Some s → session_fine s.
Proof.
  intros Hok Hk. pose proof (sessions_ok _ (ok_auth _ Hok)) as Ht.
  destruct (table_row _ _ _ _ _ _ Ht Hk) as (_ & Hm & _). split; [|done].
  rewrite (table_key _ _ _ _ _ _ Ht Hk). exact (named_row _ _ _ (sessions_named _ (ok_ids _ Hok)) Hk).
Qed.

Lemma account_row_fine d k a : system_ok d → accounts d !! k = Some a → account_fine a.
Proof.
  intros Hok Hk. unfold account_fine. rewrite (table_key _ _ _ _ _ _ (accounts_ok _ (ok_auth _ Hok)) Hk).
  exact (named_row _ _ _ (accounts_named _ (ok_ids _ Hok)) Hk).
Qed.

Lemma flow_row_fine d k f : system_ok d → auth_flows d !! k = Some f → flow_fine f.
Proof.
  intros Hok Hk. unfold flow_fine. rewrite (table_key _ _ _ _ _ _ (flows_ok _ (ok_auth _ Hok)) Hk).
  exact (named_row _ _ _ (flows_named _ (ok_ids _ Hok)) Hk).
Qed.

Lemma project_row_fine d k p : system_ok d → projects d !! k = Some p → project_fine p.
Proof.
  intros Hok Hk. unfold project_fine. rewrite (proj1 (ok_projects _ Hok) _ _ Hk).
  exact (named_row _ _ _ (projects_named _ (ok_ids _ Hok)) Hk).
Qed.

Lemma task_row_fine d k t : system_ok d → tasks d !! k = Some t → task_fine t.
Proof.
  intros Hok Hk. destruct (ok_tasks _ Hok) as [Hkey Hd]. split.
  - rewrite (Hkey _ _ Hk). exact (named_row _ _ _ (tasks_named _ (ok_ids _ Hok)) Hk).
  - specialize (Hd _ _ Hk). unfold Tasks.details_ok, Tasks.validate in Hd.
    destruct (RequiredText _ _) as [title v]. destruct (_ || _)%bool eqn:E in Hd; [done|].
    bool_to_prop. done.
Qed.

End rows.

(** ** Statements *)

Lemma one_row {R} (P : R → bool) t r : one (select_rows P t) = Ok r → ∃ k, t !! k = Some r.
Proof.
  intros H. assert (r ∈ select_rows P t) as Hin.
  { destruct (select_rows P t); [done|]. injection H as ->. left. }
  by apply elem_of_select_rows in Hin as [? _].
Qed.

Lemma sorted_rows {R} (le : R → R → Prop) `{!RelDecision le} (t : gmap string R) rows :
  rows ⊆ table_rows t → Forall (λ r, ∃ k, t !! k = Some r) (merge_sort le rows).
Proof.
  intros Hr. rewrite merge_sort_Permutation. apply Forall_forall. intros r Hin.
  by apply elem_of_table_rows, Hr.
Qed.

Lemma select_rows_subset {R} (P : R → bool) (t : gmap string R) : select_rows P t ⊆ table_rows t.
Proof. intros r [Hr _]%elem_of_select_rows. by apply elem_of_table_rows. Qed.

Lemma page_rows {R} (P : R → Prop) limit offset rows : Forall P rows → Forall P (limit_offset limit offset rows).
Proof. intros H. by apply Forall_take, Forall_drop. Qed.

Create HintDb yields discriminated.

(** The row that the statement returns is the one it found, or the one it stored. *)
Ltac row_stmt :=
  lazymatch goal with
  | |- row_of _ ?s =>
    let rec head t := lazymatch t with ?f _ => head f | _ => t end in
    let h := head s in
    unfold row_of, h, read, returning_one, update_row; intros now d r d' Hrow; repeat case_match; simplify_eq/=;
    first [by eexists | by eapply one_row | by (eexists; apply lookup_insert_eq)]
  | |- rows_of _ ?s =>
    let rec head t := lazymatch t with ?f _ => head f | _ => t end in
    let h := head s in
    unfold rows_of, h, read; intros now d rs d' Hrow; simplify_eq/=;
    first [apply page_rows|idtac]; apply sorted_rows; first [apply select_rows_subset|done]
  end.

Section statements.
  Context `{Run : Runtime, L : !RuntimeLaws Run}.

Ltac yields_stmt fine :=
  first [apply (row_fine _ _ _ fine);
         [first [by apply read_guar; typeclasses eauto | by eauto with guar] | row_stmt] | apply (rows_fine _ _ _ fine); row_stmt].

Lemma GetUser_yields id : stmt_yields (GetUser id) user_fine.
Proof. yields_stmt user_row_fine. Qed.

Lemma LockUser_yields id : stmt_yields (LockUser id) user_fine.
Proof. yields_stmt user_row_fine. Qed.

Lemma UpdateUserProfile_yields id name sid : stmt_yields (UpdateUserProfile id name sid) user_fine.
Proof. yields_stmt user_row_fine. Qed.

Lemma SetUserStatus_yields id status :
  Settable_ status = true → stmt_yields (SetUserStatus id status) user_fine.
Proof. intros H. apply (row_fine _ _ _ user_row_fine); [by apply guar_SetUserStatus|row_stmt]. Qed.

Lemma ListUsers_yields limit offset : stmt_yields (ListUsers limit offset) (Forall user_fine).
Proof. yields_stmt user_row_fine. Qed.

Lemma GetValidSession_yields id user : stmt_yields (GetValidSession id user) session_fine.
Proof. yields_stmt session_row_fine. Qed.

Lemma ListSessions_yields user limit offset :
  stmt_yields (ListSessions user limit offset) (Forall session_fine).
Proof. yields_stmt session_row_fine. Qed.

Lemma CreateSession_yields arg : drawn (CreateSession_ID arg) → session_params_ok arg = true →
  stmt_yields (CreateSession arg) session_fine.
Proof.
  intros Hd Hp. apply (row_fine _ _ _ session_row_fine); [by apply guar_CreateSession|row_stmt].
Qed.

Lemma ListAccounts_yields user : stmt_yields (ListAccounts user) (Forall account_fine).
Proof. yields_stmt account_row_fine. Qed.

Lemma FindFlow_yields hash : stmt_yields (FindFlow hash) flow_fine.
Proof. yields_stmt flow_row_fine. Qed.

Lemma CreateFlow_yields arg : flow_params_ok arg = true → stmt_yields (CreateFlow arg) flow_fine.
Proof. intros H. apply (row_fine _ _ _ flow_row_fine); [by apply guar_CreateFlow|row_stmt]. Qed.

Lemma CreateProject_yields n owner name description :
  stmt_yields (CreateProject (NewID n) owner name description) project_fine.
Proof. apply (row_fine _ _ _ project_row_fine); [apply Projects.guar_CreateProject|row_stmt]. Qed.

Lemma GetProject_yields id owner : stmt_yields (GetProject id owner) project_fine.
Proof. yields_stmt project_row_fine. Qed.

Lemma UpdateProject_yields id owner name description :
  stmt_yields (UpdateProject id owner name description) project_fine.
Proof. apply (row_fine _ _ _ project_row_fine); [apply Projects.guar_UpdateProject|row_stmt]. Qed.

Lemma ListProjects_yields owner limit offset :
  stmt_yields (ListProjects owner limit offset) (Forall project_fine).
Proof. yields_stmt project_row_fine. Qed.

Lemma CreateTask_yields n owner i : Tasks.details_ok i →
  stmt_yields (CreateTask (NewID n) owner (Tasks.Title i) (Tasks.Description i) (Tasks.Details_Status i)) task_fine.
Proof. intros Hi. apply (row_fine _ _ _ task_row_fine); [by apply Tasks.guar_CreateTask|row_stmt]. Qed.

Lemma GetTask_yields id owner : stmt_yields (GetTask id owner) task_fine.
Proof. yields_stmt task_row_fine. Qed.

Lemma UpdateTask_yields id owner i : Tasks.details_ok i →
  stmt_yields (UpdateTask id owner (Tasks.Title i) (Tasks.Description i) (Tasks.Details_Status i)) task_fine.
Proof. intros Hi. apply (row_fine _ _ _ task_row_fine); [by apply Tasks.guar_UpdateTask|row_stmt]. Qed.

Lemma ListTasks_yields owner status limit offset :
  stmt_yields (ListTasks owner status limit offset) (Forall task_fine).
Proof. yields_stmt task_row_fine. Qed.

End statements.

#[export] Hint Resolve GetUser_yields LockUser_yields UpdateUserProfile_yields SetUserStatus_yields
  ListUsers_yields GetValidSession_yields ListSessions_yields ListAccounts_yields FindFlow_yields
  GetProject_yields ListProjects_yields GetTask_yields ListTasks_yields CreateProject_yields
  UpdateProject_yields CreateTask_yields UpdateTask_yields : yields.

(** ** Operations *)

Lemma Build_items {S T} (rows : list S) params (convert : S → T) (P : S → Prop) (Q : T → Prop) r :
  Build rows params convert = Ok r → Forall P rows → (∀ a, P a → Q (convert a)) → Forall Q (Items r).
Proof.
  unfold Build. destruct (Params_Validate params); [done|]. intros [= <-] Hr HQ. simpl.
  apply Forall_fmap. eapply Forall_impl; [|exact HQ]. case_match; [by apply Forall_take|done].
Qed.

Section operations.
  Context `{Run : Runtime, Sch : Schedule, Opt : Options, Pwd : Passwords, Fed : Federation}.
  Context `{L : !RuntimeLaws Run, Env : !EnvGuar system_evolves}.

Lemma yields_require {B} ok (f : unit → M B) (Q : B → Prop) :
  (ok = true → yields (f tt) Q) → yields (require_valid ok ≫= f) Q.
Proof.
  intros Hf w b w' Hok. unfold require_valid. destruct ok; [|done]. by apply (Hf eq_refl w).
Qed.

(** Step by step: what a call yields, or nothing about it when no hint says more. *)
Ltac yields_step :=
  lazymatch goal with
  | |- yields (mret _) _ => apply yields_ret
  | |- yields (fail _) _ => apply yields_fail
  | |- yields (business _) _ => apply yields_fail
  | |- yields (mbind _ (require_valid _)) _ => apply yields_require; intros ?
  | |- yields (mbind _ _) _ =>
    eapply yields_bind;
    [solve [operation]|first [solve [repeat yields_part]|apply yields_any]|intros ? ?; cbv beta in *]
  | |- yields (transaction _) _ => apply yields_tx; intros ?
  | |- yields (WithTransaction _ _) _ => apply yields_tx; intros ?
  | |- yields (with_defer _ _) _ => apply yields_defer
  | |- yields (recordFailureOnReturn _ _ _) _ => apply yields_defer
  | |- yields (fail_flow_on_error _ _) _ => apply yields_defer
  | |- yields (match ?x with _ => _ end) _ => let E := fresh "E" in destruct x eqn:E
  | |- yields (match ?x with _ => _ end _) _ => let E := fresh "E" in destruct x eqn:E
  | |- yields (let _ := _ in _) _ => cbv zeta
  end
with yields_part :=
  lazymatch goal with
  | |- yields (map_err _ _) _ => apply yields_map_err
  | |- yields (exec _ _) _ => apply yields_exec
  | |- yields next_step _ => apply yields_next_step
  | |- yields _ _ => solve [eauto with yields nocore]
  | |- stmt_yields _ _ => solve [eauto with yields nocore]
  end.
Ltac yields_auto := repeat first [yields_step | solve [repeat yields_part]].

Lemma readSelf_yields q r : yields (readSelf q r) (λ p, user_fine p.1 ∧ session_fine p.2).
Proof. unfold readSelf. yields_auto. done. Qed.

Hint Resolve readSelf_yields : yields.

Lemma userRecord_ok u : user_fine u → user_record_ok (userRecord u).
Proof. done. Qed.

Lemma accountRecords_ok l : Forall account_fine l → Forall account_record_ok (accountRecords l).
Proof. intros Hl. apply Forall_fmap. by eapply Forall_impl. Qed.

Lemma Me_yields r : yields (Me r) profile_ok.
Proof.
  unfold Me. yields_auto. destruct_and?. split_and!; [done|by apply accountRecords_ok|].
  by match goal with H : session_fine _ |- _ => destruct H end.
Qed.

Lemma store_UpdateUserProfile_yields q id name sid : yields (store_UpdateUserProfile q id name sid) user_fine.
Proof. unfold store_UpdateUserProfile. yields_auto. Qed.

Lemma store_SetUserStatus_yields q id status : yields (store_SetUserStatus q id status) user_fine.
Proof. unfold store_SetUserStatus. yields_auto. Qed.

Hint Resolve store_UpdateUserProfile_yields store_SetUserStatus_yields : yields.

Lemma UpdateProfile_yields r name : yields (UpdateProfile r name) user_record_ok.
Proof. unfold UpdateProfile. yields_auto; done. Qed.

Lemma SetStatus_yields `{Aut : Authorizer} r id status :
  (∀ s, guar system_evolves (RequireAdmin s)) → yields (SetStatus r id status) user_record_ok.
Proof. intros Ha. unfold SetStatus. yields_auto; done. Qed.

Lemma Users_yields `{Aut : Authorizer} r p :
  (∀ s, guar system_evolves (RequireAdmin s)) → yields (Users r p) (λ page, Forall user_record_ok (Items page)).
Proof.
  intros Ha. unfold Users. yields_auto. apply yields_lift. intros page Hp.
  by eapply Build_items; [exact Hp|eassumption|].
Qed.

Lemma Sessions_yields r p : yields (Sessions r p) (λ page, Forall session_record_ok (Items page)).
Proof.
  unfold Sessions. yields_auto. apply yields_lift. intros page Hp.
  by eapply Build_items; [exact Hp|eassumption|].
Qed.

Lemma store_CreateSession_yields q p : yields (store_CreateSession q p) session_fine.
Proof.
  unfold store_CreateSession. yields_auto. apply yields_exec, CreateSession_yields; [by eexists|by destruct p].
Qed.

Lemma store_CreateFlow_yields q p : yields (store_CreateFlow q p) flow_fine.
Proof. unfold store_CreateFlow. yields_auto. by apply yields_exec, CreateFlow_yields. Qed.

Hint Resolve store_CreateSession_yields store_CreateFlow_yields : yields.

Lemma newSession_yields q r u a method : yields (newSession q r u a method) credentials_ok.
Proof.
  unfold newSession, store_TouchAccount. yields_auto.
  by match goal with H : session_fine _ |- _ => destruct H end.
Qed.

Hint Resolve newSession_yields : yields.

Lemma Login_yields r email password : yields (Login r email password) credentials_ok.
Proof. unfold Login, login_transaction. yields_auto. Qed.

Lemma persist_yields start q p : yields (persist start q p) flow_result_ok.
Proof. unfold persist. yields_auto. done. Qed.

Hint Resolve persist_yields : yields.

Lemma StartLogin_yields r provider purpose : yields (StartLogin r provider purpose) flow_result_ok.
Proof. unfold StartLogin, startLoginFlow. yields_auto. Qed.

Lemma StartLink_yields r provider reauth : yields (StartLink r provider reauth) flow_result_ok.
Proof. unfold StartLink, startLinkFlow. yields_auto; done. Qed.

Lemma startReauthenticationFlow_yields r a operation target :
  yields (startReauthenticationFlow r a operation target) flow_result_ok.
Proof. unfold startReauthenticationFlow. yields_auto. Qed.

Hint Resolve startReauthenticationFlow_yields : yields.

Lemma Reauthenticate_yields r input : yields (Reauthenticate r input) reauthentication_ok.
Proof. unfold Reauthenticate. yields_auto; split; simpl; intros; by simplify_eq. Qed.

Lemma completeReauthentication_yields q u f v : flow_fine f → yields (completeReauthentication q u f v) callback_ok.
Proof. intros Hf. unfold completeReauthentication. yields_auto. split_and!; simpl; intros; by simplify_eq. Qed.

Lemma completeLinkProof_yields q bound f v : flow_fine f → yields (completeLinkProof q bound f v) callback_ok.
Proof. intros Hf. unfold completeLinkProof. yields_auto. split_and!; simpl; intros; by simplify_eq. Qed.

Lemma login_flow_transaction_yields r f v found : yields (login_flow_transaction r f v found) callback_ok.
Proof. unfold login_flow_transaction. yields_auto. split_and!; simpl; intros; by simplify_eq. Qed.

Hint Resolve completeReauthentication_yields completeLinkProof_yields login_flow_transaction_yields : yields.

Lemma completeBoundFlow_yields r f v : flow_fine f → yields (completeBoundFlow r f v) callback_ok.
Proof. intros Hf. unfold completeBoundFlow. yields_auto. Qed.

Lemma completeLogin_yields r f v : yields (completeLogin r f v) callback_ok.
Proof. unfold completeLogin. yields_auto. Qed.

Hint Resolve completeBoundFlow_yields completeLogin_yields : yields.

Lemma callback_claimed_yields r f code : flow_fine f → yields (callback_claimed r f code) callback_ok.
Proof. intros Hf. unfold callback_claimed. yields_auto. Qed.

Hint Resolve callback_claimed_yields : yields.

Lemma Callback_yields r token code state : yields (Callback r token code state) callback_ok.
Proof. unfold Callback. yields_auto. Qed.

(** ** Projects and tasks *)

Hint Extern 1 (stmt_guar _ (CreateProject _ _ _ _)) => apply Projects.guar_CreateProject : guar.
Hint Extern 1 (stmt_guar _ (UpdateProject _ _ _ _)) => apply Projects.guar_UpdateProject : guar.
Hint Extern 1 (stmt_guar _ (CreateTask _ _ _ _ _)) => apply Tasks.guar_CreateTask : guar.
Hint Extern 1 (stmt_guar _ (UpdateTask _ _ _ _ _)) => apply Tasks.guar_UpdateTask : guar.

Definition project_record_ok (p : Projects.Record_) : Prop := Identifier (Projects.Record_ID p) = true.

Lemma createProject_yields ctx name description :
  yields (Projects.createProject ctx name description) project_record_ok.
Proof. unfold Projects.createProject, Projects.Create, Projects.query. yields_auto. done. Qed.

Lemma getProject_yields ctx id :
  yields (Projects.getProject ctx id) project_record_ok.
Proof. unfold Projects.getProject, Projects.Get, Projects.query. yields_auto. done. Qed.

Lemma updateProject_yields ctx id name description :
  yields (Projects.updateProject ctx id name description) project_record_ok.
Proof. unfold Projects.updateProject, Projects.Update, Projects.query. yields_auto. done. Qed.

Lemma listProjects_yields ctx params :
  yields (Projects.listProjects ctx params)
    (λ page, Forall project_record_ok (Items page)).
Proof.
  unfold Projects.listProjects, Projects.List_, Projects.query. yields_auto. apply yields_lift. intros page Hp.
  by eapply Build_items; [exact Hp|eassumption|].
Qed.

Definition task_record_ok (t : Tasks.Record_) : Prop :=
  Identifier (Tasks.Record_ID t) = true ∧ Tasks.Status_Valid (Tasks.Record_Status t) = true.

Lemma validate_yields i : yields (lift (Tasks.validate i)) Tasks.details_ok.
Proof. apply yields_lift. eauto using Tasks.task_validate_ok. Qed.

Hint Resolve validate_yields : yields.

Lemma createTask_yields ctx i : yields (Tasks.createTask ctx i) task_record_ok.
Proof. unfold Tasks.createTask, Tasks.Create, Tasks.query. yields_auto. done. Qed.

Lemma getTask_yields ctx id : yields (Tasks.getTask ctx id) task_record_ok.
Proof. unfold Tasks.getTask, Tasks.Get, Tasks.query. yields_auto. done. Qed.

Lemma updateTask_yields ctx id i : yields (Tasks.updateTask ctx id i) task_record_ok.
Proof. unfold Tasks.updateTask, Tasks.Update, Tasks.query. yields_auto. done. Qed.

Lemma listTasks_yields ctx status params :
  yields (Tasks.listTasks ctx status params) (λ page, Forall task_record_ok (Items page)).
Proof.
  unfold Tasks.listTasks, Tasks.List_, Tasks.query. yields_auto. apply yields_lift. intros page Hp.
  by eapply Build_items; [exact Hp|eassumption|].
Qed.

End operations.

(** ** Calls of the API *)

(** The calls that are answered with a body: the request's body and what comes from its path
    and query. *)
Inductive call : Type :=
| LoginUser (body : value)
| StartOAuth (provider : string) (body : value)
| OAuthCallback (body : value)
| GetMe
| UpdateMe (body : value)
| ReauthenticateUser (body : value)
| LinkAccount (body : value)
| ListMySessions (query : HttpApi.PageQuery)
| ListAllUsers (query : HttpApi.PageQuery)
| ChangeStatus (id : string) (body : value)
| CreateProject_ (body : value)
| GetProject_ (id : string)
| ListProjects_ (query : HttpApi.PageQuery)
| UpdateProject_ (id : string) (body : value)
| CreateTask_ (body : value)
| GetTask_ (id : string)
| ListTasks_ (status : string) (query : HttpApi.PageQuery)
| UpdateTask_ (id : string) (body : value).

(** What the contract declares of the answer. *)
Definition call_type (c : call) : typ :=
  match c with
  | LoginUser _ => struct_type Dto.account.SessionCreateResponse
  | StartOAuth _ _ | LinkAccount _ => struct_type Dto.account.AuthFlowResponse
  | OAuthCallback _ => Dto.account.AuthCallbackResponse_Schema
  | GetMe => struct_type Dto.account.UserProfile
  | UpdateMe _ | ChangeStatus _ _ => struct_type Dto.account.User
  | ReauthenticateUser _ => Dto.account.UserReauthenticateResponse_Schema
  | ListMySessions _ => struct_type (pageFields Dto.account.Session)
  | ListAllUsers _ => struct_type (pageFields Dto.account.User)
  | CreateProject_ _ | GetProject_ _ | UpdateProject_ _ _ => struct_type Dto.project.Project
  | ListProjects_ _ => struct_type (pageFields Dto.project.Project)
  | CreateTask_ _ | GetTask_ _ | UpdateTask_ _ _ => struct_type Dto.task.Task
  | ListTasks_ _ _ => struct_type (pageFields Dto.task.Task)
  end.

Section calls.
  Context `{Run : Runtime, Sch : Schedule, Opt : Options, Pwd : Passwords, Fed : Federation}.

(** The handler's answer, presented and encoded. *)
Definition answered {A D} (s : struct D) (present : A → D) (handle : M A) : M value :=
  a ← handle; mret (struct_encode s (present a)).

Definition call_reply (ctx : HttpApi.Ctx) (c : call) : M value :=
  let principal := HttpApi.ctx_principal ctx in
  match c with
  | LoginUser body =>
    answered Dto.account.SessionCreateResponse (λ a, HttpApi.Output_Body (AccountHttp.sessionOutput a))
      (AccountHttp.loginUser tt ctx (LoginInput body))
  | StartOAuth provider body =>
    answered Dto.account.AuthFlowResponse (λ a, HttpApi.Output_Body (AccountHttp.flowOutput a))
      (AccountHttp.startOAuth tt ctx (OAuthStartInput provider body))
  | OAuthCallback body =>
    answered Dto.account.AuthCallbackResponse HttpApi.Output_Body
      (AccountHttp.oauthCallback tt ctx (CallbackInput body))
  | GetMe => answered Dto.account.UserProfile AccountHttp.profileDTO (AccountHttp.getProfile tt ctx tt)
  | UpdateMe body =>
    answered Dto.account.User AccountHttp.userDTO (AccountHttp.updateProfile tt ctx (UpdateInput body))
  | ReauthenticateUser body =>
    answered Dto.account.UserReauthenticateResponse HttpApi.Output_Body
      (AccountHttp.reauthenticateUser tt ctx (ReauthenticateInput body))
  | LinkAccount body =>
    answered Dto.account.AuthFlowResponse (λ a, HttpApi.Output_Body (AccountHttp.flowOutput a))
      (AccountHttp.startAccountLink tt ctx (LinkInput body))
  | ListMySessions query =>
    answered (pageFields Dto.account.Session) (λ p, HttpApi.PageFrom p AccountHttp.sessionRecordDTO)
      (AccountHttp.listSessions tt ctx (AccountHttp.mkListInput query))
  | ListAllUsers query =>
    answered (pageFields Dto.account.User) (λ p, HttpApi.PageFrom p AccountHttp.userDTO)
      (AccountHttp.listUsers tt ctx (AccountHttp.mkListInput query))
  | ChangeStatus id body =>
    answered Dto.account.User AccountHttp.userDTO (AccountHttp.setUserStatus tt ctx (StatusInput id body))
  | CreateProject_ body =>
    let input := CreateInput body in
    answered Dto.project.Project ModuleRoutes.project.projectDTO
      (Projects.createProject principal (ModuleRoutes.project.create_Name input)
         (ModuleRoutes.project.create_Description input))
  | GetProject_ id =>
    answered Dto.project.Project ModuleRoutes.project.projectDTO (Projects.getProject principal id)
  | ListProjects_ query =>
    answered (pageFields Dto.project.Project) (λ p, HttpApi.PageFrom p ModuleRoutes.project.projectDTO)
      (Projects.listProjects principal (HttpApi.PageQuery_Params query))
  | UpdateProject_ id body =>
    let input := ProjectUpdateInput id body in
    answered Dto.project.Project ModuleRoutes.project.projectDTO
      (Projects.updateProject principal (ModuleRoutes.project.update_ID input)
         (ModuleRoutes.project.update_Name input) (ModuleRoutes.project.update_Description input))
  | CreateTask_ body =>
    answered Dto.task.Task ModuleRoutes.task.taskDTO (Tasks.createTask principal (TaskCreateInput body))
  | GetTask_ id => answered Dto.task.Task ModuleRoutes.task.taskDTO (Tasks.getTask principal id)
  | ListTasks_ status query =>
    answered (pageFields Dto.task.Task) (λ p, HttpApi.PageFrom p ModuleRoutes.task.taskDTO)
      (Tasks.listTasks principal status (HttpApi.PageQuery_Params query))
  | UpdateTask_ id body =>
    let input := TaskUpdateInput id body in
    answered Dto.task.Task ModuleRoutes.task.taskDTO
      (Tasks.updateTask principal (ModuleRoutes.task.update_ID input)
         (ModuleRoutes.task.update_Body input))
  end.

(** ** The routes behind the calls *)

Definition call_operation (c : call) : string :=
  match c with
  | LoginUser _ => "login-user"
  | StartOAuth _ _ => "start-oauth"
  | OAuthCallback _ => "oauth-callback"
  | GetMe => "get-me"
  | UpdateMe _ => "update-me"
  | ReauthenticateUser _ => "reauthenticate-user"
  | LinkAccount _ => "link-account"
  | ListMySessions _ => "list-sessions"
  | ListAllUsers _ => "list-users"
  | ChangeStatus _ _ => "set-user-status"
  | CreateProject_ _ => "create-project"
  | GetProject_ _ => "get-project"
  | ListProjects_ _ => "list-projects"
  | UpdateProject_ _ _ => "update-project"
  | CreateTask_ _ => "create-task"
  | GetTask_ _ => "get-task"
  | ListTasks_ _ _ => "list-tasks"
  | UpdateTask_ _ _ => "update-task"
  end.

(** The routes of the modules; the health checks have another service. *)
Definition served_routes : list (res error (HttpApi.Route unit)) :=
  AccountHttp.Routes ++ AccountHttp.AdminRoutes ++ ModuleRoutes.project.projectRoutes
  ++ ModuleRoutes.task.taskRoutes.

Definition operation_id (op : res error HttpApi.Operation) : string :=
  match op with Ok op => HttpApi.OperationID (HttpApi.Operation_spec op) | Err _ => "" end.

(** The call is answered by the handler of its route, whose output is encoded. *)
Definition routed (ctx : HttpApi.Ctx) (c : call) : Prop :=
  ∃ (I D : Type) op (handle : unit → HttpApi.Ctx → I → M (HttpApi.Output D)) (s : struct D) (input : I),
    HttpApi.Endpoint op handle ∈ served_routes ∧ operation_id op = call_operation c
    ∧ ∀ w, call_reply ctx c w
           = answered s HttpApi.Output_Body (handle tt ctx input) w.

Lemma answered_presented {A D} (s : struct D) (present : A → HttpApi.Output D) (m : M A) w :
  answered s (λ a, HttpApi.Output_Body (present a)) m w
  = answered s HttpApi.Output_Body (value ← m; mret (present value)) w.
Proof. unfold answered, mbind, M_bind. by destruct (m w) as [[a|e] w']. Qed.

(** The route is the [k]-th; its output is what the handler returns, or is made of that. *)
Ltac by_route k s input :=
  do 4 eexists; exists s, input;
  split_and!; [apply (list_elem_of_lookup_2 _ k); reflexivity|reflexivity|];
  intros w; first [reflexivity | refine (eq_trans _ (answered_presented s _ _ _)); reflexivity].

Lemma call_routed ctx c : routed ctx c.
Proof.
  destruct c.
  - by_route 1%nat Dto.account.SessionCreateResponse (LoginInput body).
  - by_route 2%nat Dto.account.AuthFlowResponse (OAuthStartInput provider body).
  - by_route 3%nat Dto.account.AuthCallbackResponse (CallbackInput body).
  - by_route 6%nat Dto.account.UserProfile tt.
  - by_route 7%nat Dto.account.User (UpdateInput body).
  - by_route 8%nat Dto.account.UserReauthenticateResponse (ReauthenticateInput body).
  - by_route 11%nat Dto.account.AuthFlowResponse (LinkInput body).
  - by_route 14%nat (pageFields Dto.account.Session) (AccountHttp.mkListInput query).
  - by_route 17%nat (pageFields Dto.account.User) (AccountHttp.mkListInput query).
  - by_route 18%nat Dto.account.User (StatusInput id body).
  - by_route 20%nat Dto.project.Project (CreateInput body).
  - by_route 21%nat Dto.project.Project (ModuleRoutes.project.mkIDInput id).
  - by_route 22%nat (pageFields Dto.project.Project) (ModuleRoutes.project.mkListInput query).
  - by_route 23%nat Dto.project.Project (ProjectUpdateInput id body).
  - by_route 25%nat Dto.task.Task (TaskCreateInput body).
  - by_route 26%nat Dto.task.Task (ModuleRoutes.task.mkTaskIDInput id).
  - by_route 27%nat (pageFields Dto.task.Task) (ModuleRoutes.task.mkTaskListInput status query).
  - by_route 28%nat Dto.task.Task (TaskUpdateInput id body).
Qed.

(** The operations that answer with a body. *)
Definition body_operations : list string :=
  omap (λ e, match e with
             | Ok e => if HttpApi.Route_has_body e
                       then Some (HttpApi.OperationID (HttpApi.Operation_spec (HttpApi.Route_operation e)))
                       else None
             | Err _ => None
             end) served_routes.

Lemma calls_complete id : id ∈ body_operations → ∃ c, call_operation c = id.
Proof.
  revert id. apply Forall_forall. vm_compute.
  repeat apply List.Forall_cons; try apply List.Forall_nil;
    first
    [ by exists (LoginUser VNull) | by exists (StartOAuth "" VNull) | by exists (OAuthCallback VNull)
    | by exists GetMe | by exists (UpdateMe VNull) | by exists (ReauthenticateUser VNull)
    | by exists (LinkAccount VNull) | by exists (ListMySessions (HttpApi.mkPageQuery 0 0))
    | by exists (ListAllUsers (HttpApi.mkPageQuery 0 0)) | by exists (ChangeStatus "" VNull)
    | by exists (CreateProject_ VNull) | by exists (GetProject_ "")
    | by exists (ListProjects_ (HttpApi.mkPageQuery 0 0)) | by exists (UpdateProject_ "" VNull)
    | by exists (CreateTask_ VNull) | by exists (GetTask_ "")
    | by exists (ListTasks_ "" (HttpApi.mkPageQuery 0 0)) | by exists (UpdateTask_ "" VNull) ].
Qed.

End calls.

Section conformance.
  Context `{Run : Runtime, Sch : Schedule, Opt : Options, Pwd : Passwords, Fed : Federation}.
  Context `{L : !RuntimeLaws Run, Env : !EnvGuar system_evolves}.
  Context (format_ok : string → string → bool).

Lemma answered_conforms {A D} (s : struct D) (present : A → D) (m : M A) (P : A → Prop) t w v w' :
  yields m P → (∀ a, P a → conforms format_ok t (struct_encode s (present a)) = true) →
  system_ok (w_db w) → answered s present m w = (Ok v, w') → conforms format_ok t v = true.
Proof.
  intros Hm Hc Hok (a & w1 & Ha & [= <- _])%run_bind_ok. eapply Hc, Hm; eauto.
Qed.

Lemma page_conforms {T} (item : struct T) (P : T → Prop) (r : Result T) :
  (∀ a, P a → conforms format_ok (struct_type item) (struct_encode item a) = true) → Forall P (Items r) →
  conforms format_ok (struct_type (pageFields item))
    (struct_encode (pageFields item) (HttpApi.PageFrom r (λ a, a))) = true.
Proof. intros Hi Hr. apply (pageFields_conforms _ _ P); [done|]. by apply Forall_fmap. Qed.

Lemma profile_conforms p : profile_ok p →
  conforms format_ok (struct_type Dto.account.UserProfile)
    (struct_encode Dto.account.UserProfile (AccountHttp.profileDTO p)) = true.
Proof.
  intros (? & ? & ?). apply UserProfile_conforms. unfold AccountHttp.profileDTO. rewrite map_id.
  by destruct p.
Qed.

Lemma project_conforms p : project_record_ok p →
  conforms format_ok (struct_type Dto.project.Project) (struct_encode Dto.project.Project p) = true.
Proof. apply Project_conforms. Qed.

Lemma task_conforms t : task_record_ok t →
  conforms format_ok (struct_type Dto.task.Task) (struct_encode Dto.task.Task t) = true.
Proof. intros [Hi Hs]. by apply Task_conforms. Qed.

Lemma oauthCallback_yields ctx input : yields (AccountHttp.oauthCallback tt ctx input)
  (λ out, conforms format_ok Dto.account.AuthCallbackResponse_Schema
            (struct_encode Dto.account.AuthCallbackResponse (HttpApi.Output_Body out)) = true).
Proof.
  eapply yields_bind; [by apply Callback_guar; apply _|apply Callback_yields|].
  intros r Hr. apply yields_lift. intros out. by apply AuthCallbackResponse_conforms.
Qed.

Lemma reauthenticateUser_yields ctx input : yields (AccountHttp.reauthenticateUser tt ctx input)
  (λ out, conforms format_ok Dto.account.UserReauthenticateResponse_Schema
            (struct_encode Dto.account.UserReauthenticateResponse (HttpApi.Output_Body out)) = true).
Proof.
  eapply yields_bind; [by apply Reauthenticate_guar; apply _|apply Reauthenticate_yields|].
  intros r Hr. apply yields_lift. intros out. by apply UserReauthenticateResponse_conforms.
Qed.

Lemma call_conforms ctx c w v w' :
  system_ok (w_db w) → call_reply ctx c w = (Ok v, w') → conforms format_ok (call_type c) v = true.
Proof.
  intros Hok H.
  assert (Ha : ∀ s, guar system_evolves (RequireAdmin s)) by (intros; by apply RequireAdmin_guar; apply _).
  destruct c; (eapply answered_conforms; [| |exact Hok|exact H]);
    lazymatch goal with
    | |- yields _ _ =>
      first [apply Login_yields|apply StartLogin_yields|apply oauthCallback_yields|apply Me_yields
            |apply UpdateProfile_yields|apply reauthenticateUser_yields|apply StartLink_yields
            |apply Sessions_yields|apply Users_yields, Ha|apply SetStatus_yields, Ha
            |apply createProject_yields|apply getProject_yields|apply listProjects_yields
            |apply updateProject_yields|apply createTask_yields|apply getTask_yields
            |apply listTasks_yields|apply updateTask_yields]
    | |- _ =>
      intros ? Ht; cbv beta in Ht; cbn [call_type HttpApi.Output_Body AccountHttp.sessionOutput AccountHttp.flowOutput
            AccountHttp.no_store];
      eauto 3 using SessionCreateResponse_conforms, AuthFlowResponse_conforms, profile_conforms,
        User_conforms, page_conforms, Session_conforms, project_conforms, task_conforms
    end.
Qed.

(** C6: Every answer with a body is of the type that the contract declares for its operation, from
    every valid database and whatever other clients do meanwhile. The calls are all the
    operations of the modules that answer with a body, and each is answered by the handler of its route. *)
Theorem replies_conform :
  (∀ id, id ∈ body_operations → ∃ c, call_operation c = id)
  ∧ ∀ ctx c, routed ctx c
      ∧ ∀ w v w', system_ok (w_db w) → call_reply ctx c w = (Ok v, w') →
          conforms format_ok (call_type c) v = true.
Proof. split; [apply calls_complete|]. split; [apply call_routed|apply call_conforms]. Qed.

End conformance.
