(* ===== verification/AccountSignOut.v ===== *)
(** * Signing out everywhere

    [RevokeSession] with [all], [SetPassword], [Unlink], [SetStatus] and the
    administrator's [RevokeUserSessions] end every session of their user, for good. *)
From S2P Require Import Prelude.
From S2P Require Import Text.
From S2P Require Import GoErrors.
From S2P Require Import Runtime.
From S2P Require Import Identity.
From S2P Require Import Schema.
From S2P Require Import Storage.
From S2P Require Import Logic.
From S2P Require Import Queries.
From S2P Require Import AuthQueries.
From S2P Require Import MailQueries.
From S2P Require Import Tables.
From S2P Require Import AccountModel.
From S2P Require Import AccountStore.
From S2P Require Import AccountCore.
From S2P Require Import AccountSessions.
From S2P Require Import AccountFlows.
From S2P Require Import AccountHistory.
From S2P Require Import AccountGuar.
From S2P Require Import AccountFacts.
From S2P Require Import AccountSecurity.

(** Every session of the user is revoked. *)
Definition signed_out (uid : string) (d : DB) : Prop :=
  ∀ k s, user_sessions d !! k = Some s → UserSession_UserID s = uid → is_Some (UserSession_RevokedAt s).

Lemma signed_out_same uid d d' :
  user_sessions d' = user_sessions d → signed_out uid d → signed_out uid d'.
Proof. unfold signed_out. by intros ->. Qed.

Lemma RevokeUserSessions_signs_out uid now d : signed_out uid (AuthQueries.RevokeUserSessions uid now d).2.
Proof.
  intros k s. simpl. unfold update_where. rewrite lookup_fmap_Some. intros (s0 & <- & _).
  destruct (UserSession_UserID s0 ==? uid) eqn:E1; simpl; bool_to_prop; [|done].
  destruct (UserSession_RevokedAt s0) eqn:E2; simpl; intros; [|eauto]. rewrite E2. eauto.
Qed.

#[export] Hint Extern 2 (guar evolves (RequireAdmin _)) => apply RequireAdmin_guar : guar.

Section sign_out.
  Context `{Run : Runtime, Sch : Schedule, Opt : Options, Pwd : Passwords, Fed : Federation}.

(** The audit and the notifications write to their own tables. *)
Lemma audit_same {T} (f : DB → T) t r event :
  (∀ p, stmt_guar (same f) (AppendAudit p)) → guar (same f) (audit (Tx t) r event).
Proof. intros Hf. unfold audit, store_AppendAudit, require_valid. same_auto. Qed.

Lemma notification_same {T} (f : DB → T) t u body :
  (∀ p, stmt_guar (same f) (EnqueueMail p)) →
  guar (same f) (enqueueSecurityNotification (Tx t) u body).
Proof.
  intros Hf. unfold enqueueSecurityNotification, store_EnqueueMail, require_valid. same_auto.
Qed.

Lemma audit_keeps_out uid t r event w a w' :
  audit (Tx t) r event w = (a, w') → signed_out uid (w_db w) → signed_out uid (w_db w').
Proof.
  intros H. apply signed_out_same. apply (same_run user_sessions _ _ _ _ H).
  apply audit_same. eauto with guar nocore.
Qed.

Lemma notification_keeps_out uid t u body w a w' :
  enqueueSecurityNotification (Tx t) u body w = (a, w') →
  signed_out uid (w_db w) → signed_out uid (w_db w').
Proof.
  intros H. apply signed_out_same. apply (same_run user_sessions _ _ _ _ H).
  apply notification_same. eauto with guar nocore.
Qed.

Lemma revoke_statement_signs_out t uid w a w' :
  store_RevokeUserSessions (Tx t) uid w = (Ok a, w') → signed_out uid (w_db w').
Proof.
  unfold store_RevokeUserSessions. intros H%run_exec_tx.
  pose proof (RevokeUserSessions_signs_out uid t (w_db w)) as G. by rewrite H in G.
Qed.

Lemma invalidate_signs_out t uid w a w' :
  invalidate (Tx t) uid w = (Ok a, w') → signed_out uid (w_db w').
Proof.
  unfold invalidate. intros H. run_ok H. by eapply revoke_statement_signs_out.
Qed.

(** What reading one's own user and session establishes in a transaction. *)
Lemma lockSelf_ok t r w u s w' :
  auth_ok (w_db w) → lockSelf (Tx t) r w = (Ok (u, s), w') →
  w_db w' = w_db w ∧ users (w_db w) !! r_UserID r = Some u ∧ User_ID u = r_UserID r
  ∧ user_sessions (w_db w) !! r_SessionID r = Some s ∧ UserSession_ID s = r_SessionID r
  ∧ UserSession_UserID s = r_UserID r ∧ session_current t (w_db w) s = true.
Proof.
  intros Hok. unfold lockSelf. intros H. run_ok H.
  repeat match goal with
  | R : LockUser _ _ _ = _ |- _ => apply LockUser_sound in R as (? & ?)
  | R : GetValidSession _ _ _ _ = _ |- _ => apply GetValidSession_sound in R as (? & ? & ? & ?)
  end.
  assert (w_db w1 = w_db w) as -> by congruence. assert (w_db w0 = w_db w) as E by congruence.
  rewrite E in *. split_and!; try done.
  - by eapply (table_key _ _ _ _ _ _ (users_ok _ Hok)).
  - by eapply (table_key _ _ _ _ _ _ (sessions_ok _ Hok)).
Qed.

(** The operations that end all sessions of a user, and whose. *)
Definition signs_out (o : account_op) : option string :=
  match o with
  | OpRevokeSession r _ true => Some (r_UserID r)
  | OpSetPassword r _ _ _ => Some (r_UserID r)
  | OpUnlink r _ _ => Some (r_UserID r)
  | OpSetStatus _ id _ => Some id
  | OpRevokeUserSessions _ id => Some id
  | _ => None
  end.

Ltac settled :=
  repeat match goal with
  | R : audit (Tx _) _ _ ?w = (_, ?w') |- signed_out ?uid (w_db ?w') =>
    apply (audit_keeps_out uid _ _ _ _ _ _ R)
  | R : enqueueSecurityNotification (Tx _) _ _ ?w = (_, ?w') |- signed_out ?uid (w_db ?w') =>
    apply (notification_keeps_out uid _ _ _ _ _ _ R)
  | R : invalidate (Tx _) _ _ = (Ok _, ?w') |- signed_out _ (w_db ?w') =>
    apply (invalidate_signs_out _ _ _ _ _ R)
  | R : store_RevokeUserSessions (Tx _) _ _ = (Ok _, ?w') |- signed_out _ (w_db ?w') =>
    apply (revoke_statement_signs_out _ _ _ _ _ R)
  end.

Ltac own_user :=
  match goal with
  | R : lockSelf _ _ _ = _ |- _ => apply lockSelf_ok in R as (_ & _ & <- & _); [|done]
  end.

(** Each of them ends with the revocation, a notification and the audit event. *)
Lemma RevokeSession_all_signs_out `{!EnvGuar evolves} r id :
  returns (AccountSessions.RevokeSession r id true) (λ _, signed_out (r_UserID r)).
Proof. unfold AccountSessions.RevokeSession. to_transaction. run_ok H. own_user. by settled. Qed.

Lemma SetPassword_signs_out `{!EnvGuar evolves} r current new reauth :
  returns (SetPassword r current new reauth) (λ _, signed_out (r_UserID r)).
Proof.
  unfold SetPassword, set_password_transaction. to_transaction. run_ok H; own_user; by settled.
Qed.

Lemma Unlink_signs_out `{!EnvGuar evolves} r id reauth :
  returns (Unlink r id reauth) (λ _, signed_out (r_UserID r)).
Proof. unfold Unlink. to_transaction. run_ok H. own_user. by settled. Qed.

Lemma SetStatus_signs_out `{!EnvGuar evolves} r id status :
  returns (SetStatus r id status) (λ _, signed_out id).
Proof. unfold SetStatus. to_transaction. run_ok H. by settled. Qed.

Lemma admin_RevokeUserSessions_signs_out `{!EnvGuar evolves} r id :
  returns (AccountSessions.RevokeUserSessions r id) (λ _, signed_out id).
Proof. unfold AccountSessions.RevokeUserSessions. to_transaction. run_ok H. by settled. Qed.

Lemma returns_forget {A} (m : M A) (Q : DB → Prop) :
  returns m (λ _, Q) → returns (forget m) (λ _, Q).
Proof. intros Hm w a w' Hok H. unfold forget in H. run_ok H. by eapply Hm. Qed.

Lemma signs_out_revokes `{!EnvGuar evolves} o uid :
  signs_out o = Some uid → returns (run_op o) (λ _, signed_out uid).
Proof.
  intros Ho. destruct o; try discriminate Ho; simpl in *.
  - destruct all; simplify_eq. apply RevokeSession_all_signs_out.
  - simplify_eq. apply SetPassword_signs_out.
  - simplify_eq. apply Unlink_signs_out.
  - simplify_eq. apply returns_forget, SetStatus_signs_out.
  - simplify_eq. apply admin_RevokeUserSessions_signs_out.
Qed.

(** C2: After a successful password change, unlinking, sign-out everywhere, status change or
    revocation by an administrator, no token the user held is ever accepted again. *)
Theorem sign_out_final `{!EnvGuar evolves} o uid w w1 w2 k s token r :
  auth_ok (w_db w) → signs_out o = Some uid → run_op o w = (Ok tt, w1) →
  user_sessions (w_db w1) !! k = Some s → UserSession_UserID s = uid →
  TokenDigest token SessionPrefix = Ok (UserSession_TokenHash s) →
  rtc served w1 w2 → (AuthenticateSession token w2).1 ≠ Ok r.
Proof.
  intros Hok Ho H Hk Hu Ht Hs. pose proof (run_op_evolves o w Hok) as [Hok1 _]. rewrite H in Hok1.
  pose proof (signs_out_revokes o uid Ho w tt w1 Hok H k s Hk Hu) as Hr.
  destruct (served_history w1 w2 Hs Hok1) as [Hok2 Hh].
  eapply dead_rejected; [done|exact Ht|]. eapply dead_forever; [exact Hh|].
  exists k, s. split_and!; [done..|by left].
Qed.

End sign_out.
