(* ===== verification/AccountProofs.v ===== *)
(** * Proofs of identity are used once

    Mailed challenges and federated flows are accepted once: afterwards, whatever the
    other operations do, the same token is refused. *)
From S2P Require Import Prelude.
From S2P Require Import Text.
From S2P Require Import GoErrors.
From S2P Require Import Runtime.
From S2P Require Import Identity.
From S2P Require Import Schema.
From S2P Require Import Json.
From S2P Require Import Storage.
From S2P Require Import Logic.
From S2P Require Import Queries.
From S2P Require Import AuthQueries.
From S2P Require Import Owned.
From S2P Require Import Tables.
From S2P Require Import AccountModel.
From S2P Require Import AccountStore.
From S2P Require Import AccountCore.
From S2P Require Import AccountSessions.
From S2P Require Import AccountFlows.
From S2P Require Import AccountHistory.
From S2P Require Import AccountGuar.
From S2P Require Import AccountFacts.
From S2P Require Import AccountSecurity.
From S2P Require Import AccountSignOut.
From Stdlib Require Import Ascii.

Section proofs.
  Context `{Run : Runtime, Sch : Schedule, Opt : Options, Pwd : Passwords, Fed : Federation}.

(** ** Challenges *)

Definition consumed (id : string) (d : DB) : Prop :=
  ∃ v, auth_verifications d !! id = Some v ∧ is_Some (AuthVerification_ConsumedAt v).

Lemma consumed_forever id d d' : history d d' → consumed id d → consumed id d'.
Proof.
  intros Hh (v & Hv & Hc). destruct (verifications_history _ _ Hh id v Hv) as (v' & Hv' & _ & Hf).
  exists v'. split; [done|]. by rewrite Hf.
Qed.

Lemma rows_affected_one {R} (u : option (R * gmap string R)) set d d' :
  rows_affected u set d = (Ok 1, d') → ∃ r t, u = Some (r, t) ∧ d' = set t.
Proof. destruct u as [[r t]|]; simpl; intros; simplify_eq; eauto. Qed.

Lemma transitionResult_ok t (s : stmt Z) w a w' :
  transitionResult (exec (Tx t) s) w = (Ok a, w') → s t (w_db w) = (Ok 1, w_db w').
Proof. unfold transitionResult. intros H. run_ok H. bool_to_prop. by subst. Qed.

Lemma consumeVerification_consumes t id uid w a w' :
  consumeVerification (Tx t) id uid w = (Ok a, w') → consumed id (w_db w').
Proof.
  unfold consumeVerification. intros H%transitionResult_ok.
  apply rows_affected_one in H as (v & tb & Hu & ->).
  apply update_row_Some in Hu as (v0 & Hv & _ & -> & ->).
  eexists. simpl. rewrite lookup_insert_eq. split; [done|]. simpl. eauto.
Qed.

Lemma verify_transaction_consumes `{!EnvGuar evolves} r v input h :
  returns (verify_transaction r v input h) (λ _, consumed (AuthVerification_ID v)).
Proof.
  unfold verify_transaction. to_transaction. run_ok H.
  all: histories.
  all: repeat match goal with
  | R : consumeVerification _ _ _ _ = _ |- _ => apply consumeVerification_consumes in R
  | C : consumed _ (w_db ?w), Hh : history (w_db ?w) (w_db ?w') |- _ =>
    lazymatch goal with
    | _ : consumed _ (w_db w') |- _ => fail
    | |- _ => pose proof (consumed_forever _ _ _ Hh C)
    end
  end.
  all: done.
Qed.

(** The challenge a successful [VerifyChallenge] has used is consumed. *)
Lemma VerifyChallenge_consumes `{!EnvGuar evolves} r token input w w' :
  auth_ok (w_db w) → VerifyChallenge r token input w = (Ok tt, w') →
  ∃ v, TokenDigest token ChallengePrefix = Ok (AuthVerification_TokenHash v)
    ∧ AuthVerification_Purpose v = Purpose input
    ∧ ∃ v', auth_verifications (w_db w') !! AuthVerification_ID v = Some v'
        ∧ AuthVerification_TokenHash v' = AuthVerification_TokenHash v
        ∧ is_Some (AuthVerification_ConsumedAt v').
Proof.
  intros Hok. unfold VerifyChallenge. intros H. run_ok H.
  histories. apply FindVerification_sound in R1 as (E2 & [k Hk] & <- & _ & _).
  assert (k = AuthVerification_ID a2) as ->.
  { symmetry. eapply table_key; [|exact Hk]. by apply verifications_ok. }
  assert (C : consumed (AuthVerification_ID a2) (w_db w')).
  { eapply (verify_transaction_consumes _ _ _ _ w3); eassumption. }
  destruct C as (v' & Hv' & Hc).
  assert (Hh' : history (sched_env (w_step w1) (w_db w1)) (w_db w')) by run_history.
  exists a2. bool_to_prop. split_and!; [done..|]. exists v'. split_and!; [done| |done].
  destruct (verifications_history _ _ Hh' _ _ Hk) as (v2 & Hv2 & Ev & _).
  assert (v2 = v') as -> by congruence. by rewrite Ev.
Qed.

Lemma verification_unique d i j a b :
  auth_ok d → auth_verifications d !! i = Some a → auth_verifications d !! j = Some b →
  AuthVerification_TokenHash b = AuthVerification_TokenHash a → i = j.
Proof.
  intros Hok Ha Hb Hh. by apply (table_unique _ _ _ _ _ _ _ _ (verifications_ok _ Hok) Ha Hb).
Qed.

Lemma consumed_refused `{!EnvGuar evolves} r token input w x v :
  auth_ok (w_db w) → TokenDigest token ChallengePrefix = Ok (AuthVerification_TokenHash v) →
  (∃ k, auth_verifications (w_db w) !! k = Some v) → is_Some (AuthVerification_ConsumedAt v) →
  (VerifyChallenge r token input w).1 ≠ Ok x.
Proof.
  intros Hok Ht [k Hk] Hc H. destruct (VerifyChallenge r token input w) as [y w'] eqn:E.
  simpl in H. subst y. unfold VerifyChallenge in E. run_ok E.
  match goal with E1 : TokenDigest _ _ = Ok _ |- _ => rewrite Ht in E1; simplify_eq end.
  histories. apply FindVerification_sound in R1 as (_ & [k' Hk'] & Hh' & Ho & _).
  assert (Hall : history (w_db w) (sched_env (w_step w1) (w_db w1))) by run_history.
  destruct (verifications_history _ _ Hall _ _ Hk) as (v2 & Hv2 & Ev & Hf).
  rewrite Hf in Hv2 by done.
  assert (k = k') as <-.
  { by eapply (verification_unique _ k k' v a2); [|exact Hv2|exact Hk'|]. }
  simplify_eq. rewrite Ho in Hc. by destruct Hc.
Qed.

(** C3: A challenge token works once: whatever happens after its successful use, it is refused. *)
Theorem challenge_single_use `{!EnvGuar evolves} r token input w w1 w2 r' input' x :
  auth_ok (w_db w) → VerifyChallenge r token input w = (Ok tt, w1) → rtc served w1 w2 →
  (VerifyChallenge r' token input' w2).1 ≠ Ok x.
Proof.
  intros Hok H Hs. destruct (VerifyChallenge_consumes r token input w w1 Hok H)
    as (v & Ht & _ & v' & Hv' & Et & Hc).
  destruct (guar_run _ _ _ _ H Hok (VerifyChallenge_guar _ _ _ _)) as [Hok1 _].
  destruct (served_history w1 w2 Hs Hok1) as [Hok2 Hh].
  destruct (verifications_history _ _ Hh _ _ Hv') as (v2 & Hv2 & _ & Hf).
  rewrite Hf in Hv2 by done. eapply (consumed_refused _ _ _ _ _ v'); eauto. by rewrite Et.
Qed.

(** A reset password or a changed address signs the user out: *)

Lemma consumeVerification_keeps_out uid t id u w a w' :
  consumeVerification (Tx t) id u w = (Ok a, w') →
  signed_out uid (w_db w) → signed_out uid (w_db w').
Proof.
  intros H%transitionResult_ok. apply signed_out_same.
  assert (stmt_guar (same user_sessions) (ConsumeVerification id u)) as G by eauto with guar nocore.
  specialize (G t (w_db w)). by rewrite H in G.
Qed.

Lemma assign_user_keeps_out uid u w a w' :
  assign_user u w = (Ok a, w') → signed_out uid (w_db w) → signed_out uid (w_db w').
Proof. by intros [= <- <-]. Qed.

Lemma completePasswordReset_signs_out t u v h w a w' :
  completePasswordReset (Tx t) u v h w = (Ok a, w') → signed_out (User_ID u) (w_db w').
Proof. unfold completePasswordReset. intros H. run_ok H. by eapply invalidate_signs_out. Qed.

Lemma completeEmailChange_signs_out t u v w a w' :
  completeEmailChange (Tx t) u v w = (Ok a, w') → signed_out (User_ID u) (w_db w').
Proof.
  unfold completeEmailChange. intros H. run_ok H. eapply notification_keeps_out; [exact H|].
  by eapply revoke_statement_signs_out.
Qed.

Lemma verify_transaction_signs_out `{!EnvGuar evolves} r v input h :
  Purpose input ≠ VerifyRegister →
  returns (verify_transaction r v input h) (λ _, signed_out (AuthVerification_UserID v)).
Proof.
  intros Hp. unfold verify_transaction. to_transaction. run_ok H.
  all: bool_to_prop; try done.
  all: match goal with R : LockUser _ _ _ = _ |- _ => apply LockUser_sound in R as [_ R];
         apply (table_key _ _ _ _ _ _ (users_ok _ Hok)) in R; rewrite <-R end.
  all: eapply audit_keeps_out; [exact H|].
  all: match goal with R : assign_user _ _ = _ |- _ => apply (assign_user_keeps_out _ _ _ _ _ R) end.
  all: try match goal with R : enqueueSecurityNotification _ _ _ _ = _ |- _ =>
         apply (notification_keeps_out _ _ _ _ _ _ _ R) end.
  all: match goal with R : consumeVerification _ _ _ _ = _ |- _ =>
         apply (consumeVerification_keeps_out _ _ _ _ _ _ _ R) end.
  all: eauto using completePasswordReset_signs_out, completeEmailChange_signs_out.
Qed.

(** C16: Resetting a password or confirming a new address ends every session of the user. *)
Theorem reset_signs_out `{!EnvGuar evolves} r token input w w' :
  auth_ok (w_db w) → Purpose input ≠ VerifyRegister →
  VerifyChallenge r token input w = (Ok tt, w') →
  ∃ id v, auth_verifications (w_db w') !! id = Some v
    ∧ TokenDigest token ChallengePrefix = Ok (AuthVerification_TokenHash v)
    ∧ signed_out (AuthVerification_UserID v) (w_db w').
Proof.
  intros Hok Hp. unfold VerifyChallenge. intros H. run_ok H. histories.
  apply FindVerification_sound in R1 as (_ & [k Hk] & <- & _ & _).
  assert (Hh' : history (sched_env (w_step w1) (w_db w1)) (w_db w')) by run_history.
  destruct (verifications_history _ _ Hh' _ _ Hk) as (v' & Hv' & Ev & _).
  exists k, v'. rewrite Ev. split_and!; [congruence|done|].
  eapply (verify_transaction_signs_out _ a2 _ _ Hp w3); eassumption.
Qed.

(** ** Flows *)

Lemma flow_step_keeps f g : flow_step f g →
  AuthFlow_ID g = AuthFlow_ID f ∧ AuthFlow_TokenHash g = AuthFlow_TokenHash f
  ∧ AuthFlow_Status g ≠ FlowPending.
Proof.
  destruct 1 as [f|f status ns subject name at_ Hf Hv| | |]; simpl; split_and!; try done.
  intros ->. discriminate Hv.
Qed.

Lemma flow_steps_keep f g : rtc flow_step f g →
  AuthFlow_ID g = AuthFlow_ID f ∧ AuthFlow_TokenHash g = AuthFlow_TokenHash f
  ∧ (AuthFlow_Status f ≠ FlowPending → AuthFlow_Status g ≠ FlowPending).
Proof.
  induction 1 as [f|f g h Hs _ (IH1 & IH2 & IH3)]; [done|].
  destruct (flow_step_keeps _ _ Hs) as (? & ? & ?). split_and!; [congruence..|auto].
Qed.

(** The flow with this token digest has left its initial state. *)
Definition flow_used (hash : string) (d : DB) : Prop :=
  ∃ k f, auth_flows d !! k = Some f ∧ AuthFlow_TokenHash f = Some hash
    ∧ AuthFlow_Status f ≠ FlowPending.

Lemma flow_used_forever hash d d' : history d d' → flow_used hash d → flow_used hash d'.
Proof.
  intros Hh (k & f & Hk & Ht & Hs). destruct (flows_history _ _ Hh k f Hk) as (f' & Hk' & Hr).
  destruct (flow_steps_keep _ _ Hr) as (_ & Ht' & Hs'). exists k, f'. split_and!; [done|congruence|auto].
Qed.

Lemma flow_unique d i j a b hash :
  auth_ok d → auth_flows d !! i = Some a → auth_flows d !! j = Some b →
  AuthFlow_TokenHash a = Some hash → AuthFlow_TokenHash b = Some hash → i = j.
Proof.
  intros Hok Ha Hb Hh Hh'. apply (table_unique _ _ _ _ _ _ _ _ (flows_ok _ Hok) Ha Hb).
  split; [by rewrite Hh|congruence].
Qed.

Lemma claimPendingFlow_claims id w a w' :
  claimPendingFlow Pool id w = (Ok a, w') →
  ∃ f, auth_flows (w_db w') !! id = Some f ∧ AuthFlow_Status f = FlowProcessing.
Proof.
  unfold claimPendingFlow, transitionResult. intros H. run_ok H. bool_to_prop. subst.
  apply rows_affected_one in R as (f & t & Hu & E).
  apply update_row_Some in Hu as (f0 & Hf & _ & -> & ->).
  eexists. rewrite E. simpl. rewrite lookup_insert_eq. done.
Qed.

(** A successful callback has found the flow of its token pending, and used it. *)
Lemma Callback_uses `{!EnvGuar evolves} r token code state w x w' :
  auth_ok (w_db w) → Callback r token code state w = (Ok x, w') →
  ∃ hash, TokenDigest token FlowPrefix = Ok hash ∧ flow_used hash (w_db w').
Proof.
  intros Hok. unfold Callback, fail_flow_on_error. intros H. run_ok H. histories.
  match goal with R : FindFlow _ _ _ = _ |- _ => apply FindFlow_sound in R as (E4 & [k Hk] & Ht & _) end.
  match goal with R : claimPendingFlow _ _ _ = _ |- _ =>
    apply claimPendingFlow_claims in R as (f' & Hf' & Hs) end.
  assert (k = AuthFlow_ID a1) as ->.
  { symmetry. eapply (table_key _ _ _ _ k); [|exact Hk]. by apply flows_ok. }
  eexists. split; [done|]. apply (flow_used_forever _ (w_db w2)); [run_history|].
  assert (Hh4 : history (sched_env (w_step w0) (w_db w0)) (w_db w2)) by run_history.
  destruct (flows_history _ _ Hh4 _ _ Hk) as (f2 & Hf2 & Hr). simplify_eq.
  destruct (flow_steps_keep _ _ Hr) as (_ & Ht' & _). exists (AuthFlow_ID a1), f'.
  split_and!; [done|congruence|]. by rewrite Hs.
Qed.

Lemma used_flow_refused `{!EnvGuar evolves} r token hash code state w x :
  auth_ok (w_db w) → TokenDigest token FlowPrefix = Ok hash → flow_used hash (w_db w) →
  (Callback r token code state w).1 ≠ Ok x.
Proof.
  intros Hok Ht Hu H. destruct (Callback r token code state w) as [y w'] eqn:E. simpl in H. subst y.
  unfold Callback, fail_flow_on_error in E. run_ok E. rewrite Ht in E0. simplify_eq. histories.
  match goal with R : FindFlow _ _ _ = _ |- _ => apply FindFlow_sound in R as (_ & [k Hk] & Ht' & _) end.
  assert (Hall : history (w_db w) (sched_env (w_step w0) (w_db w0))) by run_history.
  destruct (flow_used_forever _ _ _ Hall Hu) as (k' & f & Hf & Htf & Hs).
  assert (k = k') as <- by (by eapply flow_unique; [|exact Hk|exact Hf|..]).
  simplify_eq. by bool_to_prop.
Qed.

(** C4: A flow completes once: whatever happens after a successful callback, its token is
    refused, with any code and state. *)
Theorem callback_single_use `{!EnvGuar evolves} r token code state w x w1 w2 r' code' state' y :
  auth_ok (w_db w) → Callback r token code state w = (Ok x, w1) → rtc served w1 w2 →
  (Callback r' token code' state' w2).1 ≠ Ok y.
Proof.
  intros Hok H Hs. destruct (Callback_uses _ _ _ _ _ _ _ Hok H) as (hash & Ht & Hu).
  destruct (guar_run _ _ _ _ H Hok (Callback_guar _ _ _ _ _)) as [Hok1 _].
  destruct (served_history w1 w2 Hs Hok1) as [Hok2 Hh].
  eapply used_flow_refused; eauto using flow_used_forever.
Qed.

(** ** Mails *)

(** Whatever the link contains, it stays inside the [href] attribute of the mail: it brings
    no quote, bracket or apostrophe of its own. *)
Theorem verificationMailBody_inert link :
  ∃ shown, verificationMailBody link
    = "<p>请在有效期内完成账户验证。请勿转发此邮件。</p><p><a href=" +:+ quote +:+ shown +:+ quote
        +:+ ">验证账户</a></p>"
    ∧ ∀ c, c ∈ ["060"; "062"; "034"; "039"]%char → ContainsByte c shown = false.
Proof.
  exists (EscapeString link). split; [done|]. intros c Hc. by apply EscapeString_inert.
Qed.

End proofs.
