(* ===== verification/AccountAuthority.v ===== *)
(** * What operations have checked when they succeed

    Operation proofs ([authorization]), unlinking, logging in and opening sessions. *)
From S2P Require Import Prelude.
From S2P Require Import Text.
From S2P Require Import GoErrors.
From S2P Require Import Runtime.
From S2P Require Import Identity.
From S2P Require Import Schema.
From S2P Require Import Storage.
From S2P Require Import Logic.
From S2P Require Import Queries.
From S2P Require Import AuthQueries.
From S2P Require Import MailQueries.
From S2P Require Import Owned.
From S2P Require Import Tables.
From S2P Require Import AccountModel.
From S2P Require Import AccountStore.
From S2P Require Import AccountCore.
From S2P Require Import AccountSessions.
From S2P Require Import AccountFlows.
From S2P Require Import AccountHistory.
From S2P Require Import AccountGuar.
From S2P Require Import AccountFacts.
From S2P Require Import AccountSecurity.
From S2P Require Import AccountSignOut.
From S2P Require Import AccountProofs.

Section authority.
  Context `{Run : Runtime, Sch : Schedule, Opt : Options, Pwd : Passwords, Fed : Federation}.

(** ** Operation proofs *)

(** [proof] entitles request [r], at time [now] in database [d], to [operation] on [target]. *)
Record entitles (now : time) (d : DB) (r : Request) (operation target : string)
    (claim : option string) (proof : AuthFlow) : Prop := {
  proof_row : auth_flows d !! AuthFlow_ID proof = Some proof;
  proof_fresh : now < AuthFlow_ExpiresAt proof;
  proof_purpose : AuthFlow_Purpose proof = FlowReauthenticate;
  proof_user : AuthFlow_UserID proof = Some (r_UserID r);
  proof_session : AuthFlow_SessionID proof = Some (r_SessionID r);
  proof_operation : AuthFlow_Operation proof = operation;
  proof_target : AuthFlow_Target proof = target;
  proof_claim : claim_matches claim proof = true;
  proof_owner : ∃ u, users d !! r_UserID r = Some u ∧ User_Status u = UserActive
                  ∧ User_AuthVersion u = AuthFlow_AuthVersion proof;
  proof_account : ∃ id a, AuthFlow_AccountID proof = Some id ∧ accounts d !! id = Some a
                    ∧ Account_UserID a = r_UserID r ∧ Account_RevokedAt a = None
                    ∧ Account_Version a = AuthFlow_AccountVersion proof ∧ accountEnabled a = true;
  proof_session_current : ∃ s, user_sessions d !! r_SessionID r = Some s
                    ∧ UserSession_UserID s = r_UserID r ∧ session_current now d s = true
}.

Lemma authorization_ok t r id operation target claim w proof w' :
  auth_ok (w_db w) →
  authorization (Tx t) r id operation target claim w = (Ok proof, w') →
  w_db w' = w_db w ∧ AuthFlow_ID proof = id
  ∧ entitles t (w_db w) r operation target claim proof.
Proof.
  intros Hok. unfold authorization. intros H. run_ok H.
  repeat match goal with
  | R : GetFlow _ _ _ = _ |- _ => apply GetFlow_sound in R as (? & ? & ?)
  | R : GetUser _ _ _ = _ |- _ => apply GetUser_sound in R as (? & ?)
  | R : GetAccount _ _ _ _ = _ |- _ => apply GetAccount_sound in R as (? & ? & ? & ?)
  | R : GetValidSession _ _ _ _ = _ |- _ => apply GetValidSession_sound in R as (? & ? & ? & ?)
  end.
  repeat match goal with E : w_db _ = w_db _ |- _ => rewrite E in *; clear E end.
  bool_to_prop. subst.
  match goal with Hf : auth_flows _ !! ?i = Some ?p |- _ =>
    pose proof (table_key _ _ _ _ _ _ (flows_ok _ Hok) Hf) as Hid end.
  match goal with Hu : users _ !! ?i = Some ?u |- _ =>
    pose proof (table_key _ _ _ _ _ _ (users_ok _ Hok) Hu) as Huid end.
  rewrite Huid in *. split_and!; [done..|]. split; try done; eauto 10. by rewrite Hid.
Qed.

(** ** Unlinking *)

Lemma ListAccounts_sound uid now d rows d' a :
  ListAccounts uid now d = (Ok rows, d') → a ∈ rows →
  (∃ k, accounts d !! k = Some a) ∧ Account_UserID a = uid ∧ Account_RevokedAt a = None.
Proof.
  unfold ListAccounts, read. intros [= <- _]. rewrite merge_sort_Permutation.
  rewrite elem_of_select_rows. unfold account_active. intros [? H]. by bool_to_prop.
Qed.

Lemma usable_accounts_nonempty id rows :
  (length (usable_accounts id rows) =? 0)%nat = false →
  ∃ b, b ∈ rows ∧ Account_ID b ≠ id ∧ accountEnabled b = true.
Proof.
  unfold usable_accounts. intros H. destruct (List.filter _ rows) as [|b l] eqn:E; [done|].
  assert (b ∈ List.filter (λ row, (Account_ID row !=? id) && accountEnabled row)%bool rows) as Hb.
  { rewrite E. left. }
  rewrite list_elem_of_In, filter_In, <-list_elem_of_In in Hb. destruct Hb as [? Hb].
  bool_to_prop. eauto.
Qed.

Lemma RevokeAccount_effect id uid now d n d' a :
  RevokeAccount id uid now d = (Ok n, d') → accounts d !! id = Some a →
  Account_UserID a = uid → Account_RevokedAt a = None →
  (∃ a', accounts d' !! id = Some a' ∧ Account_RevokedAt a' = Some now)
  ∧ ∀ k, k ≠ id → accounts d' !! k = accounts d !! k.
Proof.
  intros H Ha <- Hr. unfold RevokeAccount, update_row, rows_affected in H. rewrite Ha in H.
  unfold account_active in H. rewrite Hr, !bool_decide_eq_true_2 in H by done. simpl in H.
  simplify_eq. simpl. split.
  - eexists. by rewrite lookup_insert_eq.
  - intros k Hk. by rewrite lookup_insert_ne.
Qed.

Lemma finishAuthorization_consumes t proof w a w' :
  finishAuthorization (Tx t) proof w = (Ok a, w') →
  ∃ f, auth_flows (w_db w') !! AuthFlow_ID proof = Some f ∧ AuthFlow_Status f = FlowConsumed.
Proof.
  unfold finishAuthorization, consumeFlow. intros H. run_ok H. apply transitionResult_ok in H.
  apply rows_affected_one in H as (f & tb & Hu & ->).
  apply update_row_Some in Hu as (f0 & Hf & _ & -> & ->). eexists. simpl. by rewrite lookup_insert_eq.
Qed.

Lemma finishAuthorization_same {T} (f : DB → T) t proof :
  (∀ i s, stmt_guar (same f) (FinishFlow i s)) → guar (same f) (finishAuthorization (Tx t) proof).
Proof. intros Hf. unfold finishAuthorization, consumeFlow, transitionResult. same_auto. Qed.

Lemma invalidate_same {T} (f : DB → T) t uid :
  (∀ i, stmt_guar (same f) (BumpUserVersion i)) →
  (∀ i, stmt_guar (same f) (AuthQueries.RevokeUserSessions i)) → guar (same f) (invalidate (Tx t) uid).
Proof.
  intros Hf Hg. unfold invalidate, store_BumpUserVersion, store_RevokeUserSessions. same_auto.
Qed.

(** C8: Unlinking takes a proof for just this account that has not expired when the request
    arrives, made with another account of the user in the session of the request, which is still
    current, and spent by it; it leaves the user another account that can log in. *)
Theorem Unlink_safe `{!EnvGuar evolves} r id reauth w w' :
  auth_ok (w_db w) → Unlink r id reauth w = (Ok tt, w') →
  ∃ proof, entitles (w_clock w) (sched_env (w_step w) (w_db w)) r OperationUnlinkAccount id None proof
    ∧ AuthFlow_ID proof = reauth
    ∧ AuthFlow_AccountID proof ≠ Some id
    ∧ (∃ f, auth_flows (w_db w') !! reauth = Some f ∧ AuthFlow_Status f = FlowConsumed)
    ∧ (∃ a, accounts (w_db w') !! id = Some a ∧ is_Some (Account_RevokedAt a))
    ∧ ∃ k b, k ≠ id ∧ accounts (w_db w') !! k = Some b ∧ Account_UserID b = r_UserID r
        ∧ Account_RevokedAt b = None ∧ accountEnabled b = true.
Proof.
  intros Hok. unfold Unlink, recordFailureOnReturn, transaction. intros H. run_ok H.
  pose proof (env_valid (w_step w) _ Hok) as [Hd _].
  apply lockSelf_ok in R as (Ed1 & _ & Hu & _); [|done]. rewrite Hu in *.
  simpl in Ed1.
  apply GetAccount_sound in R0 as (Ed2 & Ha & Hau & Har).
  assert (Ed : w_db w2 = sched_env (w_step w) (w_db w)) by congruence.
  apply authorization_ok in R1 as (Ed3 & Hid & Hent); [|by rewrite Ed].
  assert (w_db w4 = w_db w3) as Ed4 by by inversion R2.
  apply usable_accounts_nonempty in E1 as (b & Hb & Hne & Hen).
  destruct (ListAccounts_sound _ _ _ _ _ _ R2 Hb) as ([k Hk] & Hbu & Hbr).
  unfold store_RevokeAccount in R3. apply run_exec_tx in R3.
  rewrite Ed4, Ed3, Ed in *. rewrite Ed1 in Ha.
  destruct (RevokeAccount_effect _ _ _ _ _ _ a R3 Ha Hau Har) as [(a' & Ha' & Har') Hother].
  assert (k = Account_ID b) as ->.
  { symmetry. eapply table_key; [|exact Hk]. by apply accounts_ok. }
  assert (Hacc : accounts (w_db w') = accounts (w_db w5)).
  { subst w'. rewrite w_db_advance. rewrite (same_run accounts _ _ _ _ H), (same_run accounts _ _ _ _ R6),
      (same_run accounts _ _ _ _ R5), (same_run accounts _ _ _ _ R4); [done|..]. 
    all: first [apply audit_same|apply notification_same|apply invalidate_same|apply finishAuthorization_same].
    all: eauto with guar nocore. }
  assert (Hfl : auth_flows (w_db w') = auth_flows (w_db w6)).
  { subst w'. rewrite w_db_advance. rewrite (same_run auth_flows _ _ _ _ H),
      (same_run auth_flows _ _ _ _ R6), (same_run auth_flows _ _ _ _ R5); [done|..].
    all: first [apply audit_same|apply notification_same|apply invalidate_same].
    all: eauto with guar nocore. }
  apply finishAuthorization_consumes in R4. rewrite Hid in R4.
  exists a0. bool_to_prop.
  split_and!; try done.
  - by rewrite Hfl.
  - rewrite Hacc. eauto.
  - exists (Account_ID b), b. rewrite Hacc, Hother by done. done.
Qed.

(** ** New sessions *)

(** [row] is the session handed out as [c] for user [u], opened at [now]. *)
Record opened (now : time) (c : SessionCredentials) (u : User) (method : string) (source : Account)
    (row : UserSession) (d : DB) : Prop := {
  opened_row : user_sessions d !! Credentials_ID c = Some row;
  opened_id : UserSession_ID row = Credentials_ID c;
  opened_hash : UserSession_TokenHash row = Digest (Token c);
  opened_token : ∃ n, Token c = (NewToken n SessionPrefix).1;
  opened_user : UserSession_UserID row = User_ID u;
  opened_version : UserSession_AuthVersion row = User_AuthVersion u;
  opened_method : UserSession_AuthMethod row = method ∧ UserSession_AuthSourceID row = Account_ID source;
  opened_idle : UserSession_IdleExpiresAt row = Credentials_IdleExpiresAt c
                ∧ Credentials_IdleExpiresAt c = now + seconds (Seconds IdleTTL);
  opened_absolute : UserSession_AbsoluteExpiresAt row = Credentials_AbsoluteExpiresAt c
                ∧ Credentials_AbsoluteExpiresAt c = now + seconds (Seconds MaxTTL);
  opened_live : UserSession_RevokedAt row = None
}.

Lemma CreateSession_effect p now d row d' :
  CreateSession p now d = (Ok row, d') →
  row = session_row p now ∧ users d' = users d
  ∧ user_sessions d' !! CreateSession_ID p = Some row.
Proof.
  unfold CreateSession. intros H. repeat (case_match; simplify_eq). simpl.
  by rewrite lookup_insert_eq.
Qed.

Lemma newSession_opens t r u a method w c w' :
  newSession (Tx t) r u a method w = (Ok c, w') →
  User_Status u = UserActive ∧ Account_UserID a = User_ID u ∧ Account_RevokedAt a = None
  ∧ users (w_db w') = users (w_db w) ∧ ∃ row, opened t c u method a row (w_db w').
Proof.
  unfold newSession, store_CreateSession, store_TouchAccount, require_valid. intros H. run_ok H.
  apply CreateSession_effect in R as (-> & Eu & Hrow).
  assert (Et : ∀ T (f : DB → T), (∀ i j, stmt_guar (same f) (TouchAccount i j)) →
            (∀ p, stmt_guar (same f) (AppendAudit p)) → f (w_db w2) = f (w_db w0)).
  { intros T f Hf Hg. rewrite (same_run f _ _ _ _ R1 (audit_same f _ _ _ Hg)).
    pose proof (Hf (Account_ID a) (User_ID u) t (w_db w0)) as G. by rewrite R0 in G. }
  bool_to_prop. split_and!; [done..| |].
  - rewrite (Et _ users), Eu; [done|eauto with guar nocore..].
  - match goal with E : NewToken ?n _ = (?x, ?y) |- _ =>
      assert (x = (NewToken n SessionPrefix).1) as Ex by (inversion E; done);
      assert (y = Digest x) as Ey by (inversion E; done) end.
    assert (Hfinal : user_sessions (w_db w2) = user_sessions (w_db w0)).
    { apply (Et _ user_sessions); eauto with guar nocore. }
    eexists. split; [by rewrite Hfinal; exact Hrow|done|exact Ey|by eexists|..]; simpl; eauto.
Qed.

(** ** Logging in *)

Lemma UpgradePasswordHash_same_users t id uid new old :
  guar (same users) (store_UpgradePasswordHash (Tx t) id uid new old).
Proof. unfold store_UpgradePasswordHash, require_valid. same_auto. Qed.

(** The transaction sees the account and the user unchanged in their versions, and opens the
    session at its own time. *)
Lemma login_transaction_opens `{!EnvGuar evolves} r u a h w c w' :
  auth_ok (w_db w) → login_transaction r u a h w = (Ok c, w') →
  ∃ u' a' row,
    (users (w_db (arrive w)) !! User_ID u = Some u' ∧ User_Status u' = UserActive
     ∧ User_AuthVersion u' = User_AuthVersion u)
    ∧ (accounts (w_db (arrive w)) !! Account_ID a = Some a' ∧ Account_UserID a' = User_ID u
       ∧ Account_RevokedAt a' = None ∧ Account_Version a' = Account_Version a)
    ∧ users (w_db w') !! User_ID u = Some u' ∧ opened (w_clock w) c u' MethodPassword a' row (w_db w').
Proof.
  intros Hw. unfold login_transaction, transaction. intros H. run_ok H.
  all: apply LockUser_sound in R as (Ed1 & Hu); apply GetAccount_sound in R0 as (Ed2 & Ha & Hau & Har).
  all: rewrite w_db_advance in Ed1, Hu; rewrite Ed1 in *; clear Ed1; bool_to_prop.
  all: apply newSession_opens in H as (Hs & _ & _ & Eu & row & Ho).
  all: eexists _, a1, row; try subst w'; rewrite w_db_advance, Eu; split_and!; try done.
  - by rewrite (same_run users _ _ _ _ R1 (UpgradePasswordHash_same_users _ _ _ _ _)), Ed2.
  - by rewrite Ed2.
Qed.

(** C10: Logging in reads the active, verified user with this e-mail address, then that user's
    unrevoked credential, and checks the password against it; the transaction that follows finds
    the user still active and neither version changed, and opens one session for that user, at
    its own time. Each is read from the database as the other clients have left it at that step,
    after the rate limits of the request have let it pass. *)
Theorem Login_sound `{!EnvGuar evolves} r email password w c w' :
  auth_ok (w_db w) → Login r email password w = (Ok c, w') →
  ∃ address w0 u a upgrade,
    normalizeEmail email = Ok address ∧ entryLimit r "login" address w = (Ok tt, w0)
    ∧ let w1 := advance (arrive w0) in
      let w2 := advance (arrive w1) in
      let w3 := if (upgrade : bool) then advance (advance w2) else advance w2 in
      (users (w_db w1) !! User_ID u = Some u ∧ User_EmailNormalized u = Some address
       ∧ User_Status u = UserActive ∧ is_Some (User_EmailVerifiedAt u))
      ∧ (accounts (w_db w2) !! Account_ID a = Some a ∧ Account_UserID a = User_ID u
         ∧ Account_ProviderID a = CredentialProvider ∧ Account_RevokedAt a = None)
      ∧ Passwords_Verify (w_step w2) (text (Account_PasswordHash a)) password = Ok (true, upgrade)
      ∧ ∃ u' a' row,
          (users (w_db (arrive w3)) !! User_ID u = Some u' ∧ User_Status u' = UserActive
           ∧ User_AuthVersion u' = User_AuthVersion u)
          ∧ (accounts (w_db (arrive w3)) !! Account_ID a = Some a' ∧ Account_UserID a' = User_ID u
             ∧ Account_RevokedAt a' = None ∧ Account_Version a' = Account_Version a)
          ∧ users (w_db w') !! User_ID u = Some u'
          ∧ opened (w_clock w3) c u' MethodPassword a' row (w_db w').
Proof.
  intros Hok H. unfold Login, recordFailureOnReturn in H. apply run_defer_ok in H.
  destruct (normalizeEmail email) as [address|] eqn:En; [|discriminate H].
  apply run_bind_ok in H as ([] & w0 & R0 & H). exists address, w0.
  apply run_bind_ok in H as (r1 & w1 & R1 & H). apply run_try in R1 as (found & [= ->] & R1).
  apply run_bind_ok in H as ([] & ? & Re & H).
  destruct found as [u|e1]; [|run_ok Re; run_ok H]. injection Re as <-.
  apply run_bind_ok in H as (r2 & w2 & R2 & H). apply run_try in R2 as (credential & [= ->] & R2).
  apply run_bind_ok in H as ([] & ? & Re & H).
  destruct credential as [a|e2]; [|run_ok Re; run_ok H]. injection Re as <-.
  apply run_bind_ok in H as ([valid upgrade] & w3 & R3 & H). exists u, a, upgrade.
  apply run_exec_pool_read in R1 as [Hu ->], R2 as [Ha ->].
  unfold verify_password in R3. apply run_bind_ok in R3 as (n & w3' & Rn & R3).
  apply run_next_step in Rn as [-> ->]. apply run_lift in R3 as [R3 ->].
  destruct (_ || _ || _)%bool eqn:Ec; [run_ok H|]. bool_to_prop. subst valid.
  apply run_bind_ok in H as (new & w4 & Rh & HL).
  assert (w4 = if upgrade then advance (advance (advance (arrive (advance (arrive w0)))))
               else advance (advance (arrive (advance (arrive w0))))) as ->.
  { destruct upgrade; [|by injection Rh as <-]. unfold hash_password in Rh. run_ok Rh. done. }
  destruct (guar_run _ _ _ _ R0 Hok) as [Hok0 _]; [operation|].
  destruct (env_valid (w_step w0) _ Hok0) as [Hok1 _].
  destruct (env_valid (w_step (advance (arrive w0))) _ Hok1) as [Hok2 _].
  apply one_sound in Hu as [[k Hk] Hu], Ha as [[k' Hk'] Ha].
  pose proof (table_key _ _ _ _ _ _ (users_ok _ Hok1) Hk) as Ek.
  pose proof (table_key _ _ _ _ _ _ (accounts_ok _ Hok2) Hk') as Ek'. rewrite <-Ek in Hk. rewrite <-Ek' in Hk'.
  apply login_transaction_opens in HL; [|by destruct upgrade].
  unfold account_active in Ha. bool_to_prop.
  do 2 (split; [done|]). intros w1 w2 w3. split_and!; try done. by apply not_eq_None_Some.
Qed.

(** ** The new session is accepted *)

Lemma one_complete {R} (P : R → bool) t k (r : R) :
  t !! k = Some r → P r = true → ∃ r', one (select_rows P t) = Ok r'.
Proof.
  intros Hk HP. destruct (select_rows P t) as [|x l] eqn:E; [|by eexists].
  rewrite select_rows_nil in E. by rewrite (E k r Hk) in HP.
Qed.

Lemma FindSession_complete now d k s :
  auth_ok d → user_sessions d !! k = Some s → session_current now d s = true →
  FindSession (UserSession_TokenHash s) now d = (Ok s, d).
Proof.
  intros Hok Hk Hc. unfold FindSession, read. f_equal.
  destruct (one_complete (λ s', (UserSession_TokenHash s' ==? UserSession_TokenHash s)
              && session_current now d s')%bool _ k s Hk) as [s' Hs'].
  { by rewrite bool_decide_eq_true_2, Hc. }
  rewrite Hs'. apply one_sound in Hs' as [[k' Hk'] HP]. bool_to_prop.
  assert (k = k') as <-; [|congruence].
  by eapply (table_unique _ _ _ _ _ _ _ _ (sessions_ok _ Hok) Hk Hk').
Qed.

(** [c] is the session of an active user, opened at the user's current version. *)
Definition usable (c : SessionCredentials) (d : DB) : Prop :=
  ∃ now u m a row, users d !! User_ID u = Some u ∧ User_Status u = UserActive
    ∧ opened now c u m a row d.

Lemma newSession_usable t r u a m w c w' :
  newSession (Tx t) r u a m w = (Ok c, w') → users (w_db w) !! User_ID u = Some u →
  usable c (w_db w').
Proof.
  intros H Hu. apply newSession_opens in H as (Hs & _ & _ & Eu & row & Ho).
  exists t, u, m, a, row. by rewrite Eu.
Qed.

Lemma LockUser_row t id w u w' :
  auth_ok (w_db w) → LockUser id t (w_db w) = (Ok u, w_db w') →
  users (w_db w') !! User_ID u = Some u.
Proof.
  intros Hok [E Hu]%LockUser_sound. rewrite E.
  by rewrite (table_key _ _ _ _ _ _ (users_ok _ Hok) Hu).
Qed.

Lemma CreateFederatedUser_row id name now d u d' :
  CreateFederatedUser id name now d = (Ok u, d') → users d' !! User_ID u = Some u.
Proof.
  unfold CreateFederatedUser. intros H. repeat (case_match; simplify_eq). simpl.
  by rewrite lookup_insert_eq.
Qed.

Lemma consumeFlow_same {T} (f : DB → T) t id s :
  (∀ i s, stmt_guar (same f) (FinishFlow i s)) → guar (same f) (consumeFlow (Tx t) id s).
Proof. intros Hf. unfold consumeFlow, transitionResult. same_auto. Qed.

Lemma CreateAccount_same {T} (f : DB → T) t p :
  (∀ p, stmt_guar (same f) (CreateAccount p)) → guar (same f) (store_CreateAccount (Tx t) p).
Proof. intros Hf. unfold store_CreateAccount, require_valid. same_auto. Qed.

Lemma Login_usable `{!EnvGuar evolves} r email password :
  returns (Login r email password) usable.
Proof.
  unfold Login, login_transaction. to_transaction.
  all: run_ok H; apply (newSession_usable _ _ _ _ _ _ _ _ H).
  all: apply (LockUser_row _ _ _ _ _ Hok) in R.
  all: apply GetAccount_sound in R0 as (E' & _); rewrite <-E' in R.
  all: try (rewrite (same_run users _ _ _ _ R1 (UpgradePasswordHash_same_users _ _ _ _ _))); exact R.
Qed.

Lemma login_flow_usable `{!EnvGuar evolves} r flow verified found :
  returns (login_flow_transaction r flow verified found)
    (λ x d, ∀ c, callback_session x = Some c → usable c d).
Proof.
  unfold login_flow_transaction. to_transaction. run_ok H; intros c [= ->].
  - apply (newSession_usable _ _ _ _ _ _ _ _ R2).
    apply (LockUser_row _ _ _ _ _ Hok) in R0. apply GetAccount_sound in R1 as (E' & _).
    rewrite (same_run users _ _ _ _ R), E'; [exact R0|]. apply consumeFlow_same. eauto with guar nocore.
  - apply (newSession_usable _ _ _ _ _ _ _ _ R3).
    unfold store_CreateFederatedUser, require_valid in R0. run_ok R0.
    match goal with U : CreateFederatedUser _ _ _ _ = _ |- _ => apply CreateFederatedUser_row in U end.
    rewrite (same_run users _ _ _ _ R), (same_run users _ _ _ _ R2), (same_run users _ _ _ _ R1);
      [done|apply CreateAccount_same|apply audit_same|apply consumeFlow_same]; eauto with guar nocore.
Qed.

Lemma Callback_usable `{!EnvGuar evolves} r token code state :
  returns (Callback r token code state) (λ x d, ∀ c, callback_session x = Some c → usable c d).
Proof.
  unfold Callback, fail_flow_on_error, callback_claimed, completeLogin. repeat returns_step.
  all: try apply login_flow_usable.
  unfold completeBoundFlow, transaction, completeReauthentication, completeLinkProof.
  all: to_transaction; run_ok H; done.
Qed.

Lemma TouchSession_total idle id uid ms now d : (TouchSession idle id uid ms now d).1 = Ok tt.
Proof. unfold TouchSession, no_result. by case_match; [case_match|]. Qed.

Lemma usable_authenticates `{!RuntimeLaws Run} c w :
  auth_ok (w_db w) → usable c (w_db w) → quiet w → w_clock w < Credentials_IdleExpiresAt c →
  ∃ uid w', AuthenticateSession (Token c) w = (Ok (uid, Credentials_ID c), w').
Proof.
  intros Hok (now & u & m & a & row & Hu & Hact & []) Hq Hlt.
  destruct opened_token0 as [n Hn]. destruct opened_idle0 as [Hidle Hic].
  assert (Hcur : session_current (w_clock w) (w_db w) row = true).
  { unfold session_current, session_valid, session_live. rewrite opened_user0, Hu.
    rewrite opened_live0, Hact, opened_version0, Z.eqb_refl, !bool_decide_eq_true_2 by done.
    destruct (table_row _ _ _ _ _ _ (sessions_ok _ Hok) opened_row0) as (_ & _ & _ & Hle).
    rewrite !(proj2 (Z.ltb_lt _ _)); [done|lia..]. }
  unfold AuthenticateSession. rewrite Hn, TokenDigest_NewToken.
  replace ((NewToken n SessionPrefix).2) with (UserSession_TokenHash row) by (rewrite opened_hash0, Hn; done).
  unfold mbind, M_bind, map_err. rewrite quiet_pool by done.
  rewrite (FindSession_complete _ _ _ _ Hok opened_row0 Hcur). cbv beta iota. simpl fst. simpl snd.
  unfold time_Now. cbv beta iota zeta. rewrite opened_id0.
  destruct (_ <=? _) eqn:E.
  - unfold store_TouchSession. rewrite quiet_pool by (eapply quiet_later; [exact Hq|simpl; lia]).
    rewrite TouchSession_total. eauto.
  - eauto.
Qed.

(** C11: Whoever has just logged in, with a password or through a provider, is authenticated
    with the new token until it expires. *)
Theorem login_authenticates `{!RuntimeLaws Run, !EnvGuar evolves} o c w w' :
  auth_ok (w_db w) →
  match o with
  | OpLogin r email password => Login r email password w = (Ok c, w')
  | OpCallback r token code state =>
    ∃ x, Callback r token code state w = (Ok x, w') ∧ callback_session x = Some c
  | _ => False
  end →
  quiet w' → w_clock w' < Credentials_IdleExpiresAt c →
  ∃ uid w'', AuthenticateSession (Token c) w' = (Ok (uid, Credentials_ID c), w'').
Proof.
  intros Hok Ho Hq Hlt. destruct o; try done.
  - apply usable_authenticates; [|by eapply Login_usable|done..].
    by apply (guar_run _ _ _ _ Ho Hok (Login_guar _ _ _ _)).
  - destruct Ho as (x & H & Hc). apply usable_authenticates; [|by eapply Callback_usable|done..].
    by apply (guar_run _ _ _ _ H Hok (Callback_guar _ _ _ _ _)).
Qed.

(** ** Administration *)

Definition admin_request (o : account_op) : option Request :=
  match o with
  | OpUsers r _ | OpSetStatus r _ _ | OpRevokeUserSessions r _ => Some r
  | _ => None
  end.

Lemma GetSessionUser_sound uid sid now d u d' :
  GetSessionUser uid sid now d = (Ok u, d') →
  ∃ s, users d !! uid = Some u ∧ user_sessions d !! sid = Some s
    ∧ UserSession_UserID s = User_ID u ∧ session_valid now u s = true.
Proof.
  unfold GetSessionUser, read. intros [= H <-]. repeat (case_match; simplify_eq).
  bool_to_prop. eauto.
Qed.

Lemma RequireAdmin_sound subject w a w' :
  RequireAdmin subject w = (Ok a, w') →
  ∃ u s, let d := sched_env (w_step w) (w_db w) in
    users d !! UserID subject = Some u ∧ User_Role u = RoleAdmin
    ∧ user_sessions d !! SessionID subject = Some s ∧ UserSession_UserID s = User_ID u
    ∧ session_valid (w_clock w) u s = true.
Proof.
  change (RequireAdmin subject) with (AdminChecker_RequireAdmin subject).
  unfold AdminChecker_RequireAdmin. intros H. run_ok H.
  apply GetSessionUser_sound in R as (s & ? & ? & ? & ?). bool_to_prop. eauto 10.
Qed.

(** C35: Administration is for administrators: an operation that succeeds was requested from a
    valid session of an active user who is one. *)
Theorem admin_only o r w w' :
  admin_request o = Some r → run_op o w = (Ok tt, w') →
  ∃ u s, let d := sched_env (w_step w) (w_db w) in
    users d !! r_UserID r = Some u ∧ User_Role u = RoleAdmin
    ∧ user_sessions d !! r_SessionID r = Some s ∧ UserSession_UserID s = User_ID u
    ∧ session_valid (w_clock w) u s = true.
Proof.
  intros Ho H. destruct o; try discriminate Ho; injection Ho as <-; simpl in H;
    unfold forget, Users, SetStatus, AccountSessions.RevokeUserSessions, recordFailureOnReturn in H;
    run_ok H;
    match goal with R : RequireAdmin _ _ = _ |- _ => exact (RequireAdmin_sound _ _ _ _ R) end.
Qed.

End authority.
