(* ===== verification/AccountLimits.v ===== *)
(** * Rate limits and the audit of failures

    A rate-limit bucket counts every attempt of its window, so that no more than the limit pass;
    mapping a storage error keeps its cause; recording a failure never changes the answer. *)
From S2P Require Import Prelude.
From S2P Require Import Text.
From S2P Require Import GoErrors.
From S2P Require Import Runtime.
From S2P Require Import Schema.
From S2P Require Import Storage.
From S2P Require Import Logic.
From S2P Require Import Queries.
From S2P Require Import AuthQueries.
From S2P Require Import AccountModel.
From S2P Require Import AccountStore.
From S2P Require Import AccountCore.

(** ** Storage errors *)

Lemma Is_cause_kept text es e t : e ∈ es → Is e t = true → Is (EMulti text es) t = true.
Proof.
  intros He Ht. rewrite Is_multi. apply existsb_exists. exists e. by rewrite <-list_elem_of_In.
Qed.

(** Mapping a storage error adds to what [errors.Is] finds and never hides anything;
    cancellation is passed on as it is. *)
Theorem MapError_keeps_cause err policy t :
  Is err t = true → Is (MapError err policy) t = true.
Proof.
  intros H. unfold MapError. destruct (_ || _)%bool; [done|].
  repeat case_match; try done; eapply Is_cause_kept; try exact H; set_solver.
Qed.

(** ** Rate limits *)

(** The counts of attempts made at the times [ts]. *)
Fixpoint attempts (key : string) (window : Z) (ts : list time) (d : DB) : list Z :=
  match ts with
  | [] => []
  | t :: ts =>
    match RateLimit key window t d with
    | (Ok row, d) => RateLimit_Count row :: attempts key window ts d
    | (Err _, d) => attempts key window ts d
    end
  end.

Lemma attempts_open key window ts d n until :
  auth_rate_limits d !! key = Some (mkAuthRateLimit n until) →
  Forall (λ t, t < until) ts → n + Z.of_nat (length ts) ≤ 1000000 →
  attempts key window ts d = seqZ (n + 1) (Z.of_nat (length ts)).
Proof.
  revert d n. induction ts as [|t ts IH]; intros d n Hd Hts Hn; [done|].
  apply Forall_cons in Hts as [Ht Hts]. simpl length in *. rewrite Nat2Z.inj_succ in *.
  simpl. unfold RateLimit. rewrite Hd. simpl. rewrite (proj2 (Z.leb_gt _ _)) by done. simpl.
  rewrite Z.min_l by lia. rewrite seqZ_cons by lia. f_equal.
  rewrite (IH _ (n + 1)); [f_equal; lia| |done|lia]. simpl. by rewrite lookup_insert_eq.
Qed.

(** In a window that starts with its first attempt, the attempts are counted one by one:
    the first [max] of them, and no more, have a count that [limit] lets through. *)
Theorem RateLimit_window key window ts t d :
  (∀ r, auth_rate_limits d !! key = Some r → AuthRateLimit_ExpiresAt r ≤ t) →
  Forall (λ u, u < t + seconds window) ts → Z.of_nat (length ts) < 1000000 →
  attempts key window (t :: ts) d = seqZ 1 (Z.of_nat (S (length ts))).
Proof.
  intros Hd Hts Hlen. rewrite Nat2Z.inj_succ, seqZ_cons by lia. simpl. unfold RateLimit.
  set (row := match auth_rate_limits d !! key with Some _ => _ | None => _ end).
  assert (row = mkAuthRateLimit 1 (t + seconds window)) as ->.
  { subst row. destruct (auth_rate_limits d !! key) as [r|] eqn:E; [|done].
    by rewrite (proj2 (Z.leb_le _ _)) by eauto. }
  f_equal. rewrite Z.pred_succ. apply (attempts_open _ _ _ _ 1 (t + seconds window)); [|done|lia].
  simpl. by rewrite lookup_insert_eq.
Qed.

Section limits.
  Context `{Run : Runtime, Sch : Schedule, Opt : Options}.

Lemma RateLimit_row key window now d row d' :
  RateLimit key window now d = (Ok row, d') →
  ∃ bucket, auth_rate_limits d' !! key = Some bucket
    ∧ RateLimit_Count row = AuthRateLimit_Count bucket.
Proof.
  unfold RateLimit. intros [= <- <-]. eexists. simpl. by rewrite lookup_insert_eq.
Qed.

(** [limit] lets through by the count of its bucket; a refusal says when to come back, in
    one second or later. Any other error is reported as an unavailable dependency. *)
Theorem limit_outcome category key max window w r w' :
  limit category key max window w = (r, w') →
  (∃ bucket, auth_rate_limits (w_db w') !! sha256_Sum256 (category +:+ String NUL "" +:+ key)
               = Some bucket
     ∧ match r with
       | Ok _ => AuthRateLimit_Count bucket ≤ max
       | Err e => max < AuthRateLimit_Count bucket ∧ As asBusiness e = Some ErrRateLimited
                  ∧ ∃ delay, RetryAfter e = (delay, true) ∧ Second ≤ delay
       end)
  ∨ ∃ e, r = Err e ∧ As asBusiness e = Some ErrUnavailable.
Proof.
  unfold limit. set (digest := sha256_Sum256 _). unfold mbind, M_bind.
  destruct (map_err _ _ w) as [[row|e] w1] eqn:E.
  - apply run_map_err_ok in E. unfold store_RateLimit, require_valid in E. run_ok E.
    apply RateLimit_row in E as (bucket & Hb & Hc). rewrite Hc. intros H. left. exists bucket.
    destruct (Z.ltb_spec max (AuthRateLimit_Count bucket)) as [Hlt|Hle].
    + destruct (WithRetryAfter_delay (EBusiness ErrRateLimited)
        (RateLimit_RetryAfterSeconds row * Second)) as (e' & He & Hd & _ & Hb').
      rewrite He in H. injection H as <- <-. rewrite Hb', Hd. split_and!; try done.
      eexists. split; [done|]. lia.
    + by injection H as <- <-.
  - intros [= <- <-]. right. apply run_map_err_err in E as (e0 & _ & ->). by eexists.
Qed.

(** *** How many requests pass in a window *)

(** The bucket of a category and a key. *)
Definition bucket_of (category key : string) : string :=
  sha256_Sum256 (category +:+ String NUL "" +:+ key).

(** The window of the bucket that ends at [until] is open, with [n] attempts or more. *)
Definition counted (digest : string) (until : time) (n : Z) (d : DB) : Prop :=
  ∃ b, auth_rate_limits d !! digest = Some b ∧ AuthRateLimit_ExpiresAt b = until
    ∧ n `min` 1000000 ≤ AuthRateLimit_Count b.

(** Up to the step [m] the other clients do not close the window; they may count attempts in it
    too. *)
Definition window_kept (digest : string) (until : time) (m : nat) : Prop :=
  ∀ k n d, (k < m)%nat → counted digest until n d → counted digest until n (sched_env k d).

Lemma RateLimit_counted digest until n key window now d r d' :
  RateLimit key window now d = (r, d') → counted digest until n d → now < until →
  counted digest until n d'
  ∧ ∀ row max, digest = key → r = Ok row → RateLimit_Count row ≤ max → max < 1000000 →
      n + 1 ≤ max ∧ counted digest until (n + 1) d'.
Proof.
  intros H (b & Hb & Hu & Hn) Hlt. unfold RateLimit in H. destruct (decide (digest = key)) as [<-|Hne].
  - rewrite Hb, (proj2 (Z.leb_gt _ _)) in H by lia. injection H as <- <-. unfold counted. simpl.
    rewrite lookup_insert_eq. split.
    + eexists. split_and!; [done|done|]. simpl. lia.
    + intros row max _ [= <-] Hle Hmax. simpl in Hle. split; [lia|].
      eexists. split_and!; [done|done|]. simpl. lia.
  - injection H as <- <-. split; [|done]. exists b. simpl. by rewrite lookup_insert_ne.
Qed.

(** One attempt in any bucket: the count of this one stays, and if the attempt was in this one
    and passed, it has gone up and is within the limit. *)
Lemma limit_counted digest until n category key max window w r w' :
  limit category key max window w = (r, w') →
  window_kept digest until (w_step w') → counted digest until n (w_db w) → w_clock w' < until →
  counted digest until n (w_db w')
  ∧ (digest = bucket_of category key → r = Ok tt → max < 1000000 →
     n + 1 ≤ max ∧ counted digest until (n + 1) (w_db w')).
Proof.
  unfold limit. fold (bucket_of category key). unfold store_RateLimit, require_valid.
  destruct (_ && _)%bool; [|by intros [= <- <-]].
  unfold mbind, M_bind, map_err. unfold mret, M_ret.
  destruct (exec Pool _ w) as [x w1] eqn:Ex. intros H Hk Hc Hlt.
  assert (w1 = w') as ->.
  { destruct x; [|by injection H]. destruct (_ <? _); [|by injection H].
    destruct (WithRetryAfter _ _); by injection H. }
  apply run_pool in Ex as (Hs & Hle & Hcases).
  apply (Hk (w_step w)) in Hc; [|lia].
  destruct (RateLimit _ _ (w_clock w) _) as [r1 d1] eqn:Er.
  destruct (RateLimit_counted _ _ _ _ _ _ _ _ _ Er Hc) as [H1 H2]; [lia|].
  destruct Hcases as [[= -> ->]|(f & -> & Hd)].
  - split; [done|]. intros -> -> Hmax. destruct x as [row|e]; [|done].
    destruct (Z.ltb_spec max (RateLimit_Count row)) as [Hm|Hm]; [|by apply (H2 row max)].
    by destruct (WithRetryAfter_delay (EBusiness ErrRateLimited)
      (RateLimit_RetryAfterSeconds row * Second)) as (e' & He & _); rewrite He in H.
  - split; [by destruct Hd as [-> | ->]|]. intros _ ->. by injection H.
Qed.

Lemma limit_forward category key max window : forward (limit category key max window).
Proof. unfold limit, store_RateLimit, require_valid. forward_auto. Qed.

Lemma window_kept_le digest until m m' :
  (m' ≤ m)%nat → window_kept digest until m → window_kept digest until m'.
Proof. intros Hle H k n d Hk. apply H. lia. Qed.

(** The bucket of an attempt by address, or by subject, with its limit. *)
Definition bucket_limit (category : string) (r : Request) (key digest : string) (max : Z) : Prop :=
  digest = bucket_of (category +:+ ".ip") (ClientIP r) ∧ max = ipRequestLimit
  ∨ digest = bucket_of (category +:+ ".subject") key ∧ max = subjectRequestLimit.

Lemma entryLimit_counted digest until n max r category key w x w' :
  entryLimit r category key w = (x, w') →
  window_kept digest until (w_step w') → counted digest until n (w_db w) → w_clock w' < until →
  counted digest until n (w_db w')
  ∧ (bucket_limit category r key digest max → x = Ok tt →
     n + 1 ≤ max ∧ counted digest until (n + 1) (w_db w')).
Proof.
  unfold entryLimit, mbind, M_bind. destruct (limit _ _ _ _ w) as [[[]|e] w1] eqn:E1.
  - intros E2 Hk Hc Hlt. pose proof (limit_forward (category +:+ ".subject") key subjectRequestLimit
      subjectRateWindow w1) as [Hs Ht]. rewrite E2 in Hs, Ht. simpl in Hs, Ht.
    destruct (limit_counted _ _ _ _ _ _ _ _ _ _ E1 (window_kept_le _ _ _ _ Hs Hk) Hc) as [H1 H1']; [lia|].
    destruct (limit_counted _ _ _ _ _ _ _ _ _ _ E2 Hk H1 Hlt) as [H2 H2'].
    split; [done|]. intros [[-> ->]|[-> ->]] ->; [|by apply H2'].
    destruct (H1' eq_refl eq_refl) as [Hn Hc1]; [done|]. split; [done|].
    by apply (limit_counted _ _ _ _ _ _ _ _ _ _ E2 Hk Hc1 Hlt).
  - intros [= <- <-] Hk Hc Hlt. split; [|done].
    by apply (limit_counted _ _ _ _ _ _ _ _ _ _ E1 Hk Hc Hlt).
Qed.

(** Requests one after another, each with its subject, and what each was answered. *)
Fixpoint entry_attempts (category : string) (requests : list (Request * string))
    : M (list (res error unit)) :=
  match requests with
  | [] => mret []
  | (r, key) :: requests =>
    answer ← try (entryLimit r category key);
    answers ← entry_attempts category requests;
    mret (answer :: answers)
  end.

Lemma entry_attempts_forward category requests : forward (entry_attempts category requests).
Proof.
  induction requests as [|[] ? IH]; simpl; unfold entryLimit; forward_auto; try apply limit_forward.
  exact IH.
Qed.

(** How many of the requests that [mine] selects were let through. *)
Fixpoint passed (mine : Request * string → bool) (requests : list (Request * string))
    (answers : list (res error unit)) : Z :=
  match requests, answers with
  | q :: requests, answer :: answers =>
    (if mine q && is_ok answer then 1 else 0) + passed mine requests answers
  | _, _ => 0
  end.

Lemma entry_attempts_counted digest until max category mine requests :
  (∀ r key, mine (r, key) = true → bucket_limit category r key digest max) →
  ∀ n w answers w', entry_attempts category requests w = (Ok answers, w') →
  window_kept digest until (w_step w') → counted digest until n (w_db w) → w_clock w' < until →
  passed mine requests answers ≤ 0 `max` (max - n).
Proof.
  intros Hmine. induction requests as [|[r key] requests IH]; intros n w answers w' H Hk Hc Hlt.
  { injection H as <- <-. simpl. lia. }
  simpl in H. apply run_bind_ok in H as (x & w1 & R & H). apply run_try in R as (answer & [= ->] & R).
  apply run_bind_ok in H as (rest & w2 & Rs & H). injection H as <- <-.
  destruct (entry_attempts_forward category requests w1) as [Hs Ht]. rewrite Rs in Hs, Ht. simpl in Hs, Ht.
  destruct (entryLimit_counted _ _ _ max _ _ _ _ _ _ R (window_kept_le _ _ _ _ Hs Hk) Hc)
    as [H1 H2]; [lia|]. simpl.
  destruct (mine (r, key)) eqn:Em; [destruct answer as [[]|]|]; simpl.
  - destruct (H2 (Hmine _ _ Em) eq_refl) as [Hn Hc1].
    specialize (IH _ _ _ _ Rs Hk Hc1 Hlt). lia.
  - by apply (IH _ _ _ _ Rs Hk H1 Hlt).
  - by apply (IH _ _ _ _ Rs Hk H1 Hlt).
Qed.

(** There is room in the bucket: its window is over, or it has counted fewer attempts. *)
Definition room (digest : string) (max : Z) (now : time) (d : DB) : Prop :=
  ∀ b, auth_rate_limits d !! digest = Some b → now < AuthRateLimit_ExpiresAt b →
    AuthRateLimit_Count b < max.

(** Undisturbed, an attempt passes exactly if there is room. *)
Lemma limit_decides `{!RuntimeLaws Run} category key max window w :
  quiet w → 1 ≤ max < 1000000 → 0 < Seconds window →
  (room (bucket_of category key) max (w_clock w) (w_db w) → (limit category key max window w).1 = Ok tt)
  ∧ (¬ room (bucket_of category key) max (w_clock w) (w_db w) →
     ∃ e delay, (limit category key max window w).1 = Err e ∧ As asBusiness e = Some ErrRateLimited
       ∧ RetryAfter e = (delay, true) ∧ Second ≤ delay).
Proof.
  intros Hq Hmax Hw. unfold limit. fold (bucket_of category key). unfold store_RateLimit, require_valid.
  rewrite (proj2 (Z.ltb_lt _ _) Hw), andb_true_r.
  replace (len (bucket_of category key) =? sha256_size) with true
    by (unfold bucket_of, len; by rewrite sha256_Size).
  unfold mbind, M_bind, map_err, mret, M_ret. rewrite quiet_pool by done.
  unfold RateLimit. cbv zeta. cbn [fst snd RateLimit_Count RateLimit_RetryAfterSeconds].
  set (row := match _ with Some _ => _ | None => _ end).
  assert (Hrow : room (bucket_of category key) max (w_clock w) (w_db w) ↔ AuthRateLimit_Count row ≤ max).
  { unfold room. subst row. destruct (auth_rate_limits (w_db w) !! _) as [b|]; [|simpl; split; [lia|done]].
    destruct (Z.leb_spec (AuthRateLimit_ExpiresAt b) (w_clock w)); simpl; split; intros H'.
    - lia.
    - intros b' [= <-]. lia.
    - specialize (H' b eq_refl). lia.
    - intros b' [= <-]. lia. }
  destruct (WithRetryAfter_delay (EBusiness ErrRateLimited)
    (remaining_seconds (AuthRateLimit_ExpiresAt row) (w_clock w) * Second)) as (e0 & He & Hd & _ & Hb).
  rewrite Hrow. destruct (Z.ltb_spec max (AuthRateLimit_Count row)); split; intros; try lia.
  - rewrite He. eexists _, _. split_and!; [done|done|exact Hd|lia].
  - done.
Qed.

(** C18: However many requests are made while a window is open, through whatever failures and
    with whatever other clients do to the same buckets: those for one subject that pass are no
    more than the limit of subjects has left, however many addresses they come from, and those
    from one address no more than the limit of addresses, whatever their subjects. Undisturbed, an
    attempt passes exactly if its bucket has room; otherwise it is refused and told when to come
    back. *)
Theorem entry_attempts_bounded `{!RuntimeLaws Run} category requests w answers w' :
  entry_attempts category requests w = (Ok answers, w') →
  (∀ key b, let digest := sha256_Sum256 ((category +:+ ".subject") +:+ String NUL "" +:+ key) in
     auth_rate_limits (w_db w) !! digest = Some b → w_clock w' < AuthRateLimit_ExpiresAt b →
     window_kept digest (AuthRateLimit_ExpiresAt b) (w_step w') →
     passed (λ q, q.2 ==? key) requests answers ≤ 0 `max` (10 - AuthRateLimit_Count b))
  ∧ (∀ ip b, let digest := sha256_Sum256 ((category +:+ ".ip") +:+ String NUL "" +:+ ip) in
     auth_rate_limits (w_db w) !! digest = Some b → w_clock w' < AuthRateLimit_ExpiresAt b →
     window_kept digest (AuthRateLimit_ExpiresAt b) (w_step w') →
     passed (λ q, ClientIP q.1 ==? ip) requests answers ≤ 0 `max` (60 - AuthRateLimit_Count b))
  ∧ (∀ key max window, quiet w → 1 ≤ max < 1000000 → 0 < Seconds window →
     (room (bucket_of category key) max (w_clock w) (w_db w) →
        (limit category key max window w).1 = Ok tt)
     ∧ (¬ room (bucket_of category key) max (w_clock w) (w_db w) →
        ∃ e delay, (limit category key max window w).1 = Err e
          ∧ As asBusiness e = Some ErrRateLimited ∧ RetryAfter e = (delay, true) ∧ Second ≤ delay)).
Proof.
  intros H. split_and!.
  - intros key b digest Hb Hlt Hk.
    apply (entry_attempts_counted digest _ subjectRequestLimit _ (λ q, q.2 ==? key) requests
      ltac:(intros r k Hm; right; simpl in Hm; bool_to_prop; by subst) _ _ _ _ H Hk); [|done].
    exists b. split_and!; [done..|lia].
  - intros ip b digest Hb Hlt Hk.
    apply (entry_attempts_counted digest _ ipRequestLimit _ (λ q, ClientIP q.1 ==? ip) requests
      ltac:(intros r k Hm; left; simpl in Hm; bool_to_prop; by subst) _ _ _ _ H Hk); [|done].
    exists b. split_and!; [done..|lia].
  - intros key max window Hq Hmax Hw. by apply limit_decides.
Qed.

End limits.

(** ** Recording failures *)

Section audit.
  Context `{Run : Runtime, Sch : Schedule, Opt : Options, Pwd : Passwords, Fed : Federation}.

(** Recording a failure cannot fail: what goes wrong is logged. *)
Lemma recordFailure_total r action err : never_fails (recordFailure r action err).
Proof. unfold recordFailure. destruct (Is _ _); [by apply never_fails_direct|]. total_auto. Qed.

(** The answer is the one of the operation; on success nothing more happens. *)
Theorem recordFailureOnReturn_transparent {A} r action (m : M A) w :
  (recordFailureOnReturn r action m w).1 = (m w).1
  ∧ (is_ok (m w).1 = true → recordFailureOnReturn r action m w = m w).
Proof.
  unfold recordFailureOnReturn, with_defer. destruct (m w) as [[a|e] w1]; [done|].
  destruct (recordFailure_total r action e w1) as ([] & w2 & E).
  unfold mbind, M_bind. by rewrite E.
Qed.

End audit.
