(* ===== verification/AccountDisclosure.v ===== *)
(** * Registration and recovery do not tell who has an account

    [Register] and [ForgotPassword] do different things for an address that is unknown, that is
    waiting for its verification or that belongs to an account. Their answer is the same in all
    cases: in a run in which nothing fails it is determined by the request and by the rate
    limits ([entry_undisclosed]). *)
From S2P Require Import Prelude.
From S2P Require Import Text.
From S2P Require Import GoErrors.
From S2P Require Import Runtime.
From S2P Require Import Identity.
From S2P Require Import Schema.
From S2P Require Import Storage.
From S2P Require Import Logic.
From S2P Require Import Queries.
From S2P Require Import AuthQueries.
From S2P Require Import MailQueries.
From S2P Require Import Owned.
From S2P Require Import Tables.
From S2P Require Import AccountModel.
From S2P Require Import AccountStore.
From S2P Require Import AccountCore.
From S2P Require Import AccountSessions.
From S2P Require Import AccountHistory.
From S2P Require Import AccountSecurity.
From S2P Require Import Identifiers.

Section disclosure.
  Context `{Run : Runtime, Sch : Schedule, Opt : Options, Pwd : Passwords, Fed : Federation}.

(** The values drawn at step [n] are new to the database. *)
Definition unused (n : nat) (d : DB) : Prop :=
  exists_row (λ v, AuthVerification_ID v ==? NewID n) (auth_verifications d) = false
  ∧ exists_row (λ v, AuthVerification_TokenHash v ==? (NewToken n ChallengePrefix).2)
      (auth_verifications d) = false
  ∧ exists_row (λ m, MailOutbox_ID m ==? NewID n) (mail_outbox d) = false.

Definition unused_user (n : nat) (d : DB) : Prop :=
  exists_row (λ u, User_ID u ==? NewID n) (users d) = false.

(** [FrontendURL] gives a link for a token drawn at step [n], and the mail is not too long. *)
Definition mails_fit (n : nat) : Prop :=
  ∀ purpose, VerificationPurpose_Valid purpose = true →
    ∃ link, url_Link FrontendURL "/auth/verify" (link_fragment purpose (NewToken n ChallengePrefix).1) = Some link
      ∧ validBytes (verificationMailBody link) maxMailBodyBytes = true.

(** A valid database, and draws up to the step [last] that are new to it. *)
Record regular (last : nat) (w : World) : Prop := {
  regular_auth : auth_ok (w_db w);
  regular_ids : ids_ok (w_db w);
  regular_clock : 0 ≤ w_clock w;
  regular_draws n : (w_step w ≤ n < last)%nat → unused n (w_db w);
  regular_users n : (w_step w ≤ n < last)%nat → unused_user n (w_db w);
  regular_mails n : (w_step w ≤ n < last)%nat → mails_fit n
}.

(** The operations take fewer steps. *)
Definition draws : nat := 12.

(** Two worlds that may differ in who has an account. *)
Record alike (w1 w2 : World) : Prop := {
  alike_limits : auth_rate_limits (w_db w1) = auth_rate_limits (w_db w2);
  alike_clock : w_clock w1 = w_clock w2;
  alike_step : w_step w1 = w_step w2
}.

(** ** Rate limits look at their own table *)

(** The world after some steps on the rate limits. *)
Definition limited (t : gmap string AuthRateLimit) (n : nat) (c : time) (w : World) : World :=
  w <| w_db := (w_db w) <| auth_rate_limits := t |> |> <| w_step := n |> <| w_clock := c |>.

(** [m] has one answer in all worlds that are alike. *)
Definition one_answer (k : nat) {A} (m : M A) : Prop := ∀ w, quiet w → ∃ r t n c,
  (w_step w ≤ n ≤ w_step w + k)%nat ∧ w_clock w ≤ c
  ∧ ∀ w', alike w w' → m w' = (r, limited t n c w').

Lemma quiet_alike w1 w2 : quiet w1 → alike w1 w2 → quiet w2.
Proof. intros Hq [_ _ Hs] n d. rewrite <-Hs. apply Hq. Qed.

Lemma alike_refl w : alike w w.
Proof. by split. Qed.

Lemma one_answer_return {A} (r : res error A) : one_answer 0 (λ w, (r, w)).
Proof.
  intros w Hq. exists r, (auth_rate_limits (w_db w)), (w_step w), (w_clock w). split_and!; [lia..|].
  intros w' [-> -> ->]. unfold limited. by destruct w' as [[] ? ? ? ? ?].
Qed.

Lemma one_answer_bind {A B} j k (m : M A) (f : A → M B) :
  one_answer j m → (∀ a, one_answer k (f a)) → one_answer (j + k) (m ≫= f).
Proof.
  intros Hm Hf w Hq. destruct (Hm w Hq) as (r & t & n & c & Hn & Hc & H1).
  destruct r as [a|e].
  - destruct (Hf a (limited t n c w)) as (r & t' & n' & c' & Hn' & Hc' & H2).
    { eapply quiet_later; [exact Hq|simpl; lia]. }
    exists r, t', n', c'. simpl in *. split_and!; [lia..|]. intros w' Hw.
    unfold mbind, M_bind. rewrite (H1 w' Hw), (H2 (limited t n c w')) by done. by destruct w' as [[] ? ? ? ? ?].
  - exists (Err e), t, n, c. split_and!; [lia..|]. intros w' Hw. unfold mbind, M_bind. by rewrite (H1 w' Hw).
Qed.

Lemma one_answer_map_err {A} k f (m : M A) : one_answer k m → one_answer k (map_err f m).
Proof.
  intros Hm w Hq. destruct (Hm w Hq) as (r & t & n & c & Hn & Hc & H1).
  exists (match r with Ok a => Ok a | Err e => Err (f e) end), t, n, c. split_and!; [lia..|].
  intros w' Hw. unfold map_err. rewrite (H1 w' Hw). by destruct r.
Qed.

Lemma RateLimit_answers key window : one_answer 1 (exec Pool (RateLimit key window)).
Proof.
  intros w Hq.
  exists (RateLimit key window (w_clock w) (w_db w)).1,
    (auth_rate_limits (RateLimit key window (w_clock w) (w_db w)).2),
    (S (w_step w)), (w_clock w + Z.of_nat (sched_tick (w_step w))).
  split_and!; [lia..|]. intros w' Hw. rewrite quiet_pool by (by eapply quiet_alike).
  destruct Hw as [Hl Hc Hs]. unfold RateLimit. rewrite Hl, Hc, Hs. by destruct w' as [[] ? ? ? ? ?].
Qed.

Lemma limit_answers category key max window : one_answer 1 (limit category key max window).
Proof.
  unfold limit. cbv zeta. apply (one_answer_bind 1 0).
  - apply one_answer_map_err. unfold store_RateLimit, require_valid. apply (one_answer_bind 0 1).
    + case_match; apply one_answer_return.
    + intros _. apply RateLimit_answers.
  - intros row. repeat case_match; apply one_answer_return.
Qed.

Lemma entryLimit_answers r category key : one_answer 2 (entryLimit r category key).
Proof. unfold entryLimit. apply (one_answer_bind 1 1); [|intros _]; apply limit_answers. Qed.

Lemma regular_limited last t n c w :
  regular last w → (w_step w ≤ n)%nat → w_clock w ≤ c → regular last (limited t n c w).
Proof.
  intros [Ha Hi Hc Hd Hu Hm] Hn Hle. split; simpl; [by destruct Ha|by destruct Hi|lia|..].
  - intros m Hlt. by apply Hd; lia.
  - intros m Hlt. by apply Hu; lia.
  - intros m Hlt. by apply Hm; lia.
Qed.

(** ** A challenge is always made *)

Lemma createChallenge_works `{L : !RuntimeLaws Run} t u purpose email ttl w :
  quiet w → mails_fit (w_step w) → 0 ≤ t → 0 < Seconds ttl →
  (∀ n, (w_step w ≤ n < w_step w + 4)%nat → unused n (w_db w)) →
  Identifier (User_ID u) = true → 1 ≤ User_AuthVersion u → is_Some (users (w_db w) !! User_ID u) →
  VerificationPurpose_Valid purpose = true → validBytes purpose maxMailKindBytes = true →
  is_ok (normalizeEmail email) = true →
  works (createChallenge (Tx t) u purpose email ttl None None) w (λ _ _, True).
Proof.
  intros Hq Hm Ht Httl Hd Hid Hv Hu Hp Hk He.
  unfold createChallenge. apply works_bind, works_next_step.
  destruct (Hm purpose Hp) as (link & Hlink & Hbody).
  destruct (Hd (S (w_step w))) as (Hn1 & _); [lia|]. destruct (Hd (w_step w)) as (_ & Hn2 & _); [lia|].
  assert (len (NewToken (w_step w) ChallengePrefix).2 = 32) as Hlen by (unfold len; simpl; by rewrite sha256_Size).
  destruct (NewToken (w_step w) ChallengePrefix) as [token hash]. simpl in Hlink, Hn2, Hlen.
  apply works_bind. unfold store_CreateVerification, require_valid.
  assert (verification_params_ok (mkCreateVerificationParams "" (User_ID u) purpose
    hash email (User_AuthVersion u) None None (Seconds ttl)) = true) as ->.
  { unfold verification_params_ok. simpl. rewrite Hid, Hp, He, Hlen.
    rewrite !(proj2 (Z.ltb_lt _ _)) by lia. done. }
  apply works_bind, works_ret. apply works_bind, works_next_step.
  eapply works_tx.
  { eapply quiet_later; [exact Hq|simpl; lia]. }
  { unfold CreateVerification. simpl. rewrite Hn1, Hn2. unfold references.
    rewrite bool_decide_eq_true_2 by done. reflexivity. }
  apply works_bind. unfold enqueueVerificationMail. simpl AuthVerification_Purpose. rewrite Hlink.
  apply works_bind, works_next_step. destruct (Hd (S (S (S (w_step w))))) as (_ & _ & Hn3); [lia|].
  unfold store_EnqueueMail, require_valid. cbn -[NewID validBytes Identifier Z.mul].
  rewrite (uuid_Identifier _ : Identifier (NewID (S (S (S (w_step w))))) = true), Hk, Hbody.
  replace (validBytes verificationMailSubject maxMailSubjectBytes) with true by reflexivity.
  replace (t + seconds (Seconds ttl) !=? zero_time) with true
    by (unfold seconds, zero_time, Second; case_bool_decide; [lia|done]).
  apply works_bind, works_ret. apply works_bind.
  destruct (normalizeEmail email) as [e|] eqn:Ee; [|done]. eapply works_lift; [reflexivity|].
  eapply works_tx; [eapply quiet_later; [exact Hq|simpl; lia]| |by apply works_ret].
  unfold EnqueueMail. simpl. rewrite Hn3. reflexivity.
Qed.

(** ** The transactions succeed *)

Lemma user_Identifier w last k u : regular last w → users (w_db w) !! k = Some u →
  User_ID u = k ∧ Identifier (User_ID u) = true ∧ user_ok u.
Proof.
  intros Hr Hk. assert (User_ID u = k) as <-.
  { exact (table_key _ _ _ _ _ _ (users_ok _ (regular_auth _ _ Hr)) Hk). }
  split_and!; [done| |exact (table_row _ _ _ _ _ _ (users_ok _ (regular_auth _ _ Hr)) Hk)].
  exact (named_row _ _ _ (users_named _ (regular_ids _ _ Hr)) Hk).
Qed.

(** The user that [CreatePendingUser] answers with. *)
Lemma CreatePendingUser_works `{L : !RuntimeLaws Run} last t e w :
  regular last w → quiet w → (w_step w + 2 ≤ last)%nat → validEmailPair (Some e) (Some e) = true →
  works (store_CreatePendingUser (Tx t) (Some e) (Some e)) w (λ u w',
    Identifier (User_ID u) = true ∧ 1 ≤ User_AuthVersion u ∧ is_Some (users (w_db w') !! User_ID u)
    ∧ w_step w' = S (S (w_step w)) ∧ ∀ n, unused n (w_db w) → unused n (w_db w')).
Proof.
  intros Hr Hq Hl He. unfold store_CreatePendingUser, require_valid. rewrite He.
  apply works_bind, works_ret. apply works_bind, works_next_step.
  assert (Hq1 : quiet (advance w)) by (eapply quiet_later; [exact Hq|simpl; lia]).
  destruct (select_rows (λ u, User_EmailNormalized u ==? Some e) (users (w_db w))) as [|u l] eqn:E.
  - eapply works_tx; [exact Hq1| |].
    { unfold CreatePendingUser. simpl. rewrite E.
      unfold unused_user in *. rewrite (regular_users _ _ Hr (w_step w)) by lia. reflexivity. }
    split_and!; [apply uuid_Identifier|done| |done|done]. simpl. rewrite lookup_insert_eq. by eexists.
  - eapply works_tx; [exact Hq1| |].
    { unfold CreatePendingUser. simpl. rewrite E. reflexivity. }
    assert (one (select_rows (λ u, User_EmailNormalized u ==? Some e) (users (w_db w))) = Ok u) as Ho by (by rewrite E).
    apply one_sound in Ho as [[k Hk] _]. destruct (user_Identifier _ _ _ _ Hr Hk) as (Ek & Hid & Hok).
    split_and!; [done|apply Hok| |done|done]. simpl. rewrite Ek, Hk. by eexists.
Qed.

Lemma createChallenge_forward q u purpose email ttl s r : forward (createChallenge q u purpose email ttl s r).
Proof.
  unfold createChallenge, store_CreateVerification, enqueueVerificationMail, store_EnqueueMail, require_valid.
  forward_auto.
Qed.

(** What [Register] does in its transaction. *)
Definition register_transaction (email : string) (q : dbtx) : M unit :=
  user ← store_CreatePendingUser q (Some email) (Some email);
  if User_Status user !=? UserPending then mret tt
  else
    _ ← createChallenge q user VerifyRegister email registrationChallengeTTL None None;
    mret tt.

Lemma register_transaction_answer `{L : !RuntimeLaws Run} last t email w :
  regular last w → quiet w → 0 ≤ t → (w_step w + 6 ≤ last)%nat →
  validEmailPair (Some email) (Some email) = true →
  works (register_transaction email (Tx t)) w (λ _ _, True).
Proof.
  intros Hr Hq Ht Hl He. unfold register_transaction. apply works_bind.
  destruct (CreatePendingUser_works last t email w Hr Hq) as (u & w1 & E & Hid & Hv & Hu & Hs & Hn); [lia|done|].
  exists u, w1. split; [done|]. case_bool_decide; simpl; [|by apply works_ret].
  apply works_bind.
  destruct (createChallenge_works t u VerifyRegister email registrationChallengeTTL w1)
    as (v & w2 & E2 & _); try done.
  - eapply quiet_later; [exact Hq|lia].
  - apply (regular_mails _ _ Hr). lia.
  - intros n Hlt. apply Hn, Hr. lia.
  - unfold validEmailPair in He. by destruct (normalizeEmail email).
  - exists v, w2. split; [done|]. by apply works_ret.
Qed.

Lemma register_answers `{L : !RuntimeLaws Run} last t email w :
  regular last w → quiet w → 0 ≤ t → (w_step w + 6 ≤ last)%nat →
  (register_transaction email (Tx t) w).1 =
    if validEmailPair (Some email) (Some email) then Ok tt else Err (EBusiness ErrInvalid).
Proof.
  intros Hr Hq Ht Hl. destruct (validEmailPair _ _) eqn:He.
  - destruct (register_transaction_answer last t email w) as ([] & w' & -> & _); done.
  - unfold register_transaction, store_CreatePendingUser, require_valid. by rewrite He.
Qed.

(** What [ForgotPassword] does in its transaction. *)
Definition forgot_transaction (email : string) (q : dbtx) : M unit :=
  found ← try (exec q (FindUserByEmail (Some email)));
  match found with
  | Err e => if no_rows e then mret tt else fail e
  | Ok user =>
    if ((User_Status user !=? UserActive) || negb (User_RecoveryEnabled user)
        || (User_EmailVerifiedAt user ==? None))%bool
    then mret tt
    else
      credential ← try (exec q (GetPasswordAccount (User_ID user)));
      match credential with
      | Err e => if no_rows e then mret tt else fail e
      | Ok _ =>
        _ ← createChallenge q user VerifyResetPassword (text (User_EmailNormalized user))
              passwordResetChallengeTTL None None;
        mret tt
      end
  end.

(** A query of one row in a transaction finds a row or says that there is none. *)
Lemma quiet_one {R} t (f : time → DB → list R) w : quiet w →
  try (exec (Tx t) (read (λ now d, one (f now d)))) w
  = (Ok (one (f t (w_db w))), advance w) ∧
  match one (f t (w_db w)) with Err e => no_rows e = true | Ok _ => True end.
Proof.
  intros Hq. unfold try, exec, read. destruct (Hq (w_step w) (w_db w)) as [-> _]; [done|].
  split; [by destruct w|]. by destruct (f t (w_db w)).
Qed.

Lemma forgot_answers `{L : !RuntimeLaws Run} last t email w :
  regular last w → quiet w → 0 ≤ t → (w_step w + 6 ≤ last)%nat →
  is_ok (normalizeEmail email) = true → (forgot_transaction email (Tx t) w).1 = Ok tt.
Proof.
  intros Hr Hq Ht Hl He. unfold forgot_transaction, mbind, M_bind.
  destruct (quiet_one t (λ _ d, select_rows (λ u, User_EmailNormalized u ==? Some email) (users d)) w Hq)
    as [Ef Hf]. unfold FindUserByEmail. rewrite Ef. clear Ef.
  destruct (one _) as [u|e] eqn:Eu; [|by rewrite Hf].
  apply one_sound in Eu as [[k Hk] Hemail]. bool_to_prop.
  destruct (_ || _)%bool; [done|].
  destruct (user_Identifier _ _ _ _ Hr Hk) as (Ek & Hid & Hok).
  assert (Hq1 : quiet (advance w)) by (eapply quiet_later; [exact Hq|simpl; lia]).
  destruct (quiet_one t (λ _ d, select_rows (λ a, (Account_UserID a ==? User_ID u)
    && (Account_ProviderID a ==? credential_provider) && account_active a)%bool (accounts d)) _ Hq1) as [Ea Ha].
  unfold GetPasswordAccount. rewrite Ea. clear Ea.
  destruct (one _) as [a|e]; [|by rewrite Ha].
  rewrite Hemail. simpl text.
  destruct (createChallenge_works t u VerifyResetPassword email passwordResetChallengeTTL (advance (advance w)))
    as (v & w2 & E2 & _); try done.
  - eapply quiet_later; [exact Hq|simpl; lia].
  - apply (regular_mails _ _ Hr). simpl. lia.
  - intros n Hlt. simpl in *. apply (regular_draws _ _ Hr). lia.
  - apply Hok.
  - simpl. rewrite Ek, Hk. by eexists.
  - by rewrite E2.
Qed.

(** ** The answers *)

(** An operation that answers the entry checks and then, in a transaction, always the same. *)
Lemma entry_alike r category email (body : string → dbtx → M unit) (answer : string → res error unit) w1 w2 :
  (∀ e q, forward (body e q)) →
  (∀ e last t w, normalizeEmail email = Ok e → regular last w → quiet w → 0 ≤ t → (w_step w + 6 ≤ last)%nat →
     (body e (Tx t) w).1 = answer e) →
  quiet w1 → alike w1 w2 → regular (w_step w1 + draws) w1 → regular (w_step w2 + draws) w2 →
  let op := (email ← lift (normalizeEmail email);
             if FrontendURL ==? "" then business ErrUnavailable
             else _ ← entryLimit r category email; transaction (body email)) in
  (op w1).1 = (op w2).1.
Proof.
  intros Hf Hb Hq Hw Hr1 Hr2. simpl. unfold mbind at 1 3, M_bind, lift.
  destruct (normalizeEmail email) as [e|]; [|done]. destruct (FrontendURL ==? ""); [done|].
  destruct (entryLimit_answers r category e w1 Hq) as (x & t & n & c & Hn & Hc & Hx).
  unfold mbind, M_bind. rewrite (Hx w1 (alike_refl w1)), (Hx w2 Hw). destruct x as [[]|]; [|done].
  assert (Hans : ∀ w, quiet w → regular (w_step w1 + draws) w → w_step w = w_step w1 → w_clock w = w_clock w1 →
    (transaction (body e) (limited t n c w)).1 =
      match answer e with Ok a => Ok a | Err err => Err (MapError err storageErrors) end).
  { intros w Hqw Hrw Hsw Hcw.
    assert (Hql : quiet (limited t n c w)) by (eapply quiet_later; [exact Hqw|simpl; lia]).
    unfold transaction. rewrite quiet_transaction by auto.
    rewrite (Hb e (w_step w1 + draws)%nat); [done..| | | |].
    - eapply (regular_limited _ t (S n) (c + Z.of_nat (sched_tick n))) in Hrw; [|lia..]. exact Hrw.
    - eapply quiet_later; [exact Hql|simpl; lia].
    - simpl. pose proof (regular_clock _ _ Hrw). lia.
    - simpl. unfold draws. lia. }
  pose proof (alike_step _ _ Hw) as Es. pose proof (alike_clock _ _ Hw) as Ec. rewrite <-Es in Hr2.
  rewrite (Hans w1), (Hans w2); [done|by eapply quiet_alike|done..].
Qed.

(** C5: The answer to a registration or to a forgotten password does not depend on who has an
    account: for two databases that agree on the rate limits it is the same. *)
Theorem entry_undisclosed `{L : !RuntimeLaws Run} r email w1 w2 :
  quiet w1 → alike w1 w2 → regular (w_step w1 + draws) w1 → regular (w_step w2 + draws) w2 →
  (∀ e, normalizeEmail email = Ok e → is_ok (normalizeEmail e) = true) →
  (Register r email w1).1 = (Register r email w2).1
  ∧ (ForgotPassword r email w1).1 = (ForgotPassword r email w2).1.
Proof.
  intros Hq Hw Hr1 Hr2 Hs. split.
  - apply (entry_alike r "register" email register_transaction (λ e,
      if validEmailPair (Some e) (Some e) then Ok tt else Err (EBusiness ErrInvalid))); try done.
    + intros e q. unfold register_transaction, store_CreatePendingUser, require_valid.
      forward_auto; apply createChallenge_forward.
    + intros e last t w _ ????. by eapply register_answers.
  - apply (entry_alike r "forgot" email forgot_transaction (λ _, Ok tt)); try done.
    + intros e q. unfold forgot_transaction. forward_auto; apply createChallenge_forward.
    + intros e last t w He ????. eapply forgot_answers; eauto.
Qed.

End disclosure.
