(* ===== verification/Process.v ===== *)
(** * A process: contexts, goroutines, library calls

    What [internal/app], [internal/db] and [internal/platform] do to the process they run in. An
    operation is a function [Proc A] of the [process]: its clock, the contexts that were cancelled,
    the variables its life-cycle hooks share, the goroutines in the background, and the trace of
    what it acquired, released and logged. Each call of a library and each turn of a waiting
    [select] is a step; a [Machine] says for every step how long it takes, what the library
    answers and which goroutine ends. Theorems hold for all machines. *)
From S2P Require Import Prelude.
From S2P Require Import Text.
From S2P Require Import GoErrors.

(** ** Contexts *)

(** [Child] is made by [context.WithTimeout] or, without a deadline, by [context.WithCancel];
    [Signalled] is the context of the command, which a signal ends ([signal.NotifyContext]). *)
Inductive context : Type :=
| Background
| Signalled
| Child (id : nat) (parent : context) (deadline : option Z)
| WithoutCancel (parent : context).

Definition Canceled : error := ESentinel ContextCanceled.
Definition DeadlineExceeded : error := ESentinel ContextDeadlineExceeded.

(** The earlier of two ends; a context keeps the error of the first. *)
Definition earlier (a b : option (Z * error)) : option (Z * error) :=
  match a, b with
  | Some (t, e), Some (u, f) => if t <=? u then Some (t, e) else Some (u, f)
  | Some x, None => Some x
  | None, y => y
  end.

Fixpoint cancelled_at (id : nat) (cancelled : list (nat * Z)) : option Z :=
  match cancelled with
  | [] => None
  | (i, t) :: rest =>
    match cancelled_at id rest with
    | Some t' => Some t'
    | None => if (i =? id)%nat then Some t else None
    end
  end.

(** When a context ends, and with which error. [cancelled] has the latest call first. *)
Fixpoint ends_at (signal : option Z) (cancelled : list (nat * Z)) (ctx : context) : option (Z * error) :=
  match ctx with
  | Background | WithoutCancel _ => None
  | Signalled => (λ t, (t, Canceled)) <$> signal
  | Child id parent deadline =>
    earlier (ends_at signal cancelled parent)
      (earlier ((λ t, (t, Canceled)) <$> cancelled_at id cancelled)
               ((λ t, (t, DeadlineExceeded)) <$> deadline))
  end.

(** ** The process *)

(** What must be given back. *)
Inductive resource : Type :=
| TraceExporter | MetricExporter | ConnectionPool | HTTPServer | MailConsumer | MigrationDatabase.

Global Instance resource_eq_dec : EqDecision resource.
Proof. solve_decision. Defined.

Inductive event : Type :=
| Acquired (r : resource)
| Released (r : resource)
| Installed (what : string)                     (* a global of the telemetry library *)
| Cancelled (id : nat)                          (* a cancel function was called *)
| Drained (e : option error)                    (* [server.Shutdown] returned *)
| Printed (data : string)                       (* to the standard output *)
| Logged (message : string) (attrs : list (string * string)).

(** The variables of [newHTTPService]; [http_lifetime] is [cancelLifetime] and [server] in one,
    both are assigned in [OnStart]. *)
Record http_state : Type := mkHttp {
  http_lifetime : option context;
  draining : bool;
  serving : bool;                (* the goroutine is in [server.Serve] *)
  shut : bool                    (* [Shutdown] or [Close] was called *)
}.

(** The variables of [startMailConsumer]; [consumer_run] is [cancel] and [done] in one. *)
Record consumer_state : Type := mkConsumer {
  consumer_run : option context;
  consuming : bool;              (* the goroutine is in [service.Run] *)
  consumer_done : bool           (* [done] is closed *)
}.

(** [db.Open]'s settings of the pool. *)
Record PoolConfig : Type := mkPoolConfig {
  pool_url : string;
  MaxConns : Z;
  ConnectTimeout : Z;
  MaxConnLifetime : Z;
  MaxConnLifetimeJitter : Z;
  MaxConnIdleTime : Z
}.

Record process : Type := mkProcess {
  p_step : nat;
  now : Z;
  next_id : nat;                      (* identifies the contexts made *)
  cancelled : list (nat * Z);
  startup : option context;           (* [startupContext.context] *)
  failures : option error;            (* what the channel of [Failures] holds *)
  telemetry : option bool;            (* [shutdown]: nil, or whether there are providers *)
  pool : option PoolConfig;           (* [Database.pool] *)
  pool_closing : bool;                (* [pool.Close] was called *)
  pool_closed : bool;                 (* and returned *)
  http : http_state;
  consumer : consumer_state;
  events : list event                 (* latest first *)
}.

Global Instance eta_http : Settable http_state.
Proof.
  refine {| eta := λ r, mkHttp (http_lifetime r) (draining r) (serving r) (shut r); eta_id := _ |}; solve_eta.
Defined.
Global Instance eta_consumer : Settable consumer_state.
Proof.
  refine {| eta := λ r, mkConsumer (consumer_run r) (consuming r) (consumer_done r); eta_id := _ |}; solve_eta.
Defined.
Global Instance eta_process : Settable process.
Proof.
  refine {| eta := λ r, mkProcess (p_step r) (now r) (next_id r) (cancelled r) (startup r) (failures r)
                          (telemetry r) (pool r) (pool_closing r) (pool_closed r) (http r)
                          (consumer r) (events r); eta_id := _ |}; solve_eta.
Defined.

(** A process that has just started. *)
Definition fresh_process (t : Z) : process :=
  mkProcess 0 t 0 [] None None None None false false (mkHttp None false false false)
    (mkConsumer None false false) [].

(** The outside of the process, by step. *)
Class Machine := {
  took : nat → positive;                     (* nanoseconds the step takes *)
  signal : option Z;                         (* when the signal arrives *)
  answer : nat → option error;               (* the error of the library's call *)
  chance : nat → bool;                       (* the case a select picks when both are ready *)
  listener_Addr : string;                    (* the address the listener got *)
  serve_ends : nat → option error;           (* [server.Serve] fails *)
  consumer_ends : nat → option (option error); (* [mailoutbox.Service.Run] returns *)
  pool_closes : nat → bool                   (* [pool.Close] returns *)
}.

(** ** The monad *)

(** An operation returns, panics, or is still waiting when the fuel is used up. *)
Inductive outcome (A : Type) : Type :=
| Returned (a : A) (p : process)
| Panicked
| Waiting.
Arguments Returned {A} a p.
Arguments Panicked {A}.
Arguments Waiting {A}.

Definition Proc (A : Type) : Type := process → outcome A.

Global Instance Proc_ret : MRet Proc := λ A a p, Returned a p.
Global Instance Proc_bind : MBind Proc := λ A B f m p,
  match m p with
  | Returned a p' => f a p'
  | Panicked => Panicked
  | Waiting => Waiting
  end.

Definition get {A} (f : process → A) : Proc A := λ p, Returned (f p) p.
Definition modify (f : process → process) : Proc unit := λ p, Returned tt (f p).
Definition panic {A} : Proc A := λ _, Panicked.
Definition log (e : event) : Proc unit := modify (λ p, p <| events := e :: events p |>).

(** [fmt.Errorf("text: %w", err)] *)
Definition wrapf (text : string) (err : error) : error :=
  EMulti (text +:+ ": " +:+ error_text err) [err].

(** [errors.New] of [net/http] that [Serve] returns after [Shutdown] or [Close]. *)
Definition ErrServerClosed : error := ESentinel HttpErrServerClosed.

Section machine.
  Context `{Mach : Machine}.

(** [Failures.Report]: the channel holds one error; later ones are dropped. *)
Definition Report (err : option error) (p : process) : process :=
  match err with
  | None => p
  | Some e =>
    match failures p with
    | None => p <| failures := Some e |>
    | Some _ => p
    end
  end.

(** The goroutine of [newHTTPService]. *)
Definition serve_goroutine (n : nat) (p : process) : process :=
  if serving (http p) then
    match (if shut (http p) then Some ErrServerClosed else serve_ends n) with
    | None => p
    | Some err =>
      let p := p <| http := (http p) <| serving := false |> |> in
      if Is err (TSentinel HttpErrServerClosed) then p else Report (Some err) p
    end
  else p.

(** The goroutine of [startMailConsumer]. *)
Definition consumer_goroutine (n : nat) (p : process) : process :=
  if consuming (consumer p) then
    match consumer_ends n with
    | None => p
    | Some err =>
      Report err (p <| consumer := (consumer p) <| consuming := false |> <| consumer_done := true |> |>)
    end
  else p.

(** The goroutine in which the hook of the database closes the pool. *)
Definition close_goroutine (n : nat) (p : process) : process :=
  if (pool_closing p && pool_closes n)%bool then p <| pool_closed := true |> else p.

(** One step: time passes and the goroutines run. *)
Definition tick (p : process) : process :=
  let n := p_step p in
  close_goroutine n (consumer_goroutine n (serve_goroutine n
    (p <| p_step := S n |> <| now := now p + Z.pos (took n) |>))).

(** A call of a library that may fail. *)
Definition call : Proc (option error) := λ p, Returned (answer (p_step p)) (tick p).

Definition ctx_Err (ctx : context) (p : process) : option error :=
  match ends_at signal (cancelled p) ctx with
  | Some (t, e) => if t <=? now p then Some e else None
  | None => None
  end.

Definition ended (ctx : context) (p : process) : bool :=
  match ctx_Err ctx p with Some _ => true | None => false end.

Definition new_child (parent : context) (deadline : option Z) : Proc context := λ p,
  let ctx := Child (next_id p) parent deadline in
  Returned ctx (p <| next_id := S (next_id p) |>).

Definition WithTimeout (parent : context) (d : Z) : Proc context := λ p,
  new_child parent (Some (now p + d)) p.

Definition WithCancel (parent : context) : Proc context := new_child parent None.

(** The cancel function of a context. *)
Definition cancel (ctx : context) : Proc unit :=
  match ctx with
  | Child id _ _ =>
    modify (λ p, p <| cancelled := (id, now p) :: cancelled p |>
                   <| events := Cancelled id :: events p |>)
  | _ => mret tt
  end.

(** Waits until one of the cases of a select is ready. *)
Fixpoint await (fuel : nat) (ready : process → bool) : Proc unit := λ p,
  if ready p then Returned tt p
  else match fuel with
  | O => Waiting
  | S fuel => await fuel ready (tick p)
  end.

(** [select] between two cases: which one is taken. *)
Definition select (fuel : nat) (first second : process → bool) : Proc bool :=
  _ ← await fuel (λ p, first p || second p)%bool;
  get (λ p, if first p then (if second p then chance (p_step p) else true) else false).

End machine.
