(* ===== verification/Infrastructure.v ===== *)
(** * Pool, migrations, telemetry and the mail sender

    [internal/db/pool.go], [internal/db/migrate.go], [internal/platform/telemetry/telemetry.go]
    and [internal/platform/mail/log.go]: short sequences of library calls. The model has the
    order of the calls, the errors they turn into, and what is given back when a later call
    fails. *)
From S2P Require Import Prelude.
From S2P Require Import Text.
From S2P Require Import GoErrors.
From S2P Require Import Process.
From Stdlib Require Import Ascii.

Section infrastructure.
  Context `{Mach : Machine}.

(** ** db/pool.go *)

Definition pool_settings (url : string) (maxConns : Z) : PoolConfig :=
  mkPoolConfig url maxConns (5 * Second) Hour (5 * Minute) (5 * Minute).

Definition Open (ctx : context) (url : string) (maxConns : Z) : Proc (res error PoolConfig) :=
  err ← call;                                   (* pgxpool.ParseConfig *)
  match err with
  | Some _ => mret (Err (EText "invalid database configuration"))
  | None =>
    let cfg := pool_settings url maxConns in
    err ← call;                                 (* pgxpool.NewWithConfig *)
    match err with
    | Some err => mret (Err (wrapf "create database pool" err))
    | None =>
      _ ← log (Acquired ConnectionPool);
      pingCtx ← WithTimeout ctx (5 * Second);
      err ← call;                               (* pool.Ping *)
      match err with
      | Some err =>
        _ ← log (Released ConnectionPool);      (* pool.Close *)
        _ ← cancel pingCtx;
        mret (Err (wrapf "database unavailable" err))
      | None =>
        _ ← cancel pingCtx;
        mret (Ok cfg)
      end
    end
  end.

(** ** db/migrate.go *)

Definition unsupported (command : string) : error :=
  EText ("unsupported migration command " +:+ String "034"%char command +:+ String "034"%char " (use up or down)").

(** The part under the deferred [database.Close()]. *)
Definition migrate_open (command : string) : Proc (option error) :=
  err ← call;                                   (* database.PingContext *)
  match err with
  | Some err => mret (Some (wrapf "connect migration database" err))
  | None =>
    err ← call;                                 (* fs.Sub *)
    match err with
    | Some err => mret (Some err)
    | None =>
      err ← call;                               (* goose.NewProvider *)
      match err with
      | Some err => mret (Some (wrapf "create migration provider" err))
      | None =>
        if command ==? "up" then call           (* provider.Up *)
        else if command ==? "down" then call    (* provider.Down *)
        else mret (Some (unsupported command))
      end
    end
  end.

(** Quotes in [command] are not escaped as [%q] does: the commands pass only "up" and "down". *)
Definition Migrate (command : string) : Proc (option error) :=
  err ← call;                                   (* sql.Open *)
  match err with
  | Some err => mret (Some (wrapf "open migration database" err))
  | None =>
    _ ← log (Acquired MigrationDatabase);
    err ← migrate_open command;
    _ ← log (Released MigrationDatabase);
    mret err
  end.

(** ** platform/telemetry/telemetry.go *)

(** Whether the shutdown function it returns has providers to shut down. *)
Definition Setup (enabled : bool) : Proc (res error bool) :=
  _ ← log (Installed "propagator");
  if negb enabled then mret (Ok false)
  else
    err ← call;                                 (* resource.New *)
    match err with
    | Some err => mret (Err err)
    | None =>
      err ← call;                               (* otlptracehttp.New *)
      match err with
      | Some err => mret (Err err)
      | None =>
        _ ← log (Acquired TraceExporter);
        err ← call;                             (* otlpmetrichttp.New *)
        match err with
        | Some err =>
          _ ← call;                             (* traceExporter.Shutdown *)
          _ ← log (Released TraceExporter);
          mret (Err err)
        | None =>
          _ ← log (Acquired MetricExporter);
          _ ← log (Installed "tracer provider");
          _ ← log (Installed "meter provider");
          mret (Ok true)
        end
      end
    end.

(** The function it returns; a provider shuts its exporter down. *)
Definition shutdown_telemetry (providers : bool) : Proc (option error) :=
  if providers then
    traces ← call;
    _ ← log (Released TraceExporter);
    metrics ← call;
    _ ← log (Released MetricExporter);
    mret (Join [traces; metrics])
  else mret None.

(** ** platform/mail *)

Record Message : Type := mkMessage {
  ID : string; Kind : string; To : string; Subject : string; HTML : string
}.

(** [LogSender.Send] *)
Definition Send (ctx : context) (message : Message) : Proc (option error) :=
  err ← get (ctx_Err ctx);
  match err with
  | Some err => mret (Some err)
  | None =>
    _ ← log (Logged "邮件发送 mock" [("provider", "log"); ("message_id", ID message);
                                     ("kind", Kind message); ("delivered", "false")]);
    mret None
  end.

End infrastructure.
