(* ===== verification/Lifecycle.v ===== *)
(** * [internal/app]: dependency injection, start and stop of the processes

    [appfx] (what both processes share: telemetry, the pool, the run of an application),
    [api/server.go], [api/module.go], [api/command.go], [worker/module.go], [worker/command.go]
    and [cmd]. A component takes part in the life cycle by a [Hook]; the fx library runs the
    hooks ([Fx], [FxLaws]), cobra the commands ([Cobra]). *)
From S2P Require Import Prelude.
From S2P Require Import Text.
From S2P Require Import GoErrors.
From S2P Require Import FederationClient.
From S2P Require Import AppConfig.
From S2P Require Import Process.
From S2P Require Import Infrastructure.

(** ** The fx library *)

(** [fx.Hook]; nil functions are [None]. *)
Record Hook : Type := mkHook {
  OnStart : option (context → Proc (option error));
  OnStop : option (context → Proc (option error))
}.

(** An application made from the hooks in the order in which the constructors appended them. *)
Class Fx := {
  App : Type;
  fx_New : list Hook → Z → App;
  fx_StopTimeout : App → Z;
  fx_StartTimeout : Z;                   (* [fx.DefaultTimeout] *)
  fx_Start : App → context → Proc (option error * App);
  fx_Stop : App → context → Proc (option error * App)
}.

(** *** Its documented behaviour *)

(** The start functions in order, up to the first error; with the hooks that are up, latest
    first. *)
Fixpoint start_hooks (ctx : context) (hooks up : list Hook) : Proc (option error * list Hook) :=
  match hooks with
  | [] => mret (None, up)
  | h :: hooks =>
    match OnStart h with
    | None => start_hooks ctx hooks (h :: up)
    | Some f =>
      err ← f ctx;
      match err with
      | Some err => mret (Some err, up)
      | None => start_hooks ctx hooks (h :: up)
      end
    end
  end.

(** The stop functions of the hooks that are up; all of them run, whatever they return. *)
Fixpoint stop_hooks (ctx : context) (up : list Hook) : Proc (list (option error)) :=
  match up with
  | [] => mret []
  | h :: up =>
    match OnStop h with
    | None => stop_hooks ctx up
    | Some f => err ← f ctx; errs ← stop_hooks ctx up; mret (err :: errs)
    end
  end.

(** A start that fails takes down what is up, and nothing stays up. *)
Definition start_or_roll_back (ctx : context) (hooks : list Hook)
    : Proc (list (option error) * list Hook) :=
  '(err, up) ← start_hooks ctx hooks [];
  match err with
  | None => mret ([], up)
  | Some err => errs ← stop_hooks ctx up; mret (Some err :: errs, [])
  end.

(** Everything in one of [errs] is in [err], and there is an error only when one of them is. *)
Definition combines (errs : list (option error)) (err : option error) : Prop :=
  (err = None ↔ Forall (λ e, e = None) errs)
  ∧ ∀ e t, Some e ∈ errs → Is e t = true → ∃ x, err = Some x ∧ Is x t = true.

Section laws.
  Context `{Mach : Machine, F : Fx}.

(** The application has stopped waiting for its hooks because the context ended; the caller has
    not used the context's cancel function meanwhile. *)
Definition gave_up {A} (ctx : context) (p : process) (r : outcome (option error * A)) : Prop :=
  ∃ e a p' s, r = Returned (Some e, a) p' ∧ ctx_Err ctx p' = Some (ESentinel s)
    ∧ Is e (TSentinel s) = true
    ∧ ∀ id parent d, ctx = Child id parent d →
        cancelled_at id (cancelled p') = cancelled_at id (cancelled p).

(** An operation of the library does what its documentation says of the hooks. *)
Definition documented {A} (hooks : Proc (list (option error) * A)) (r : outcome (option error * App))
    (up : App → A → Prop) (p : process) : Prop :=
  match hooks p with
  | Returned (errs, a) p' => ∃ err app, r = Returned (err, app) p' ∧ combines errs err ∧ up app a
  | Panicked => r = Panicked
  | Waiting => r = Waiting
  end.

Class FxLaws := {
  (* the hooks that are due when the application stops *)
  fx_up : App → list Hook;
  New_StopTimeout hooks d : fx_StopTimeout (fx_New hooks d) = d;
  Start_StopTimeout app ctx p err app' p' :
    fx_Start app ctx p = Returned (err, app') p' → fx_StopTimeout app' = fx_StopTimeout app;
  (* both run their hooks one after the other, or give up when the context ends: the start only
     if its hooks are not through by then *)
  Start_runs hooks d ctx p :
    (gave_up ctx p (fx_Start (fx_New hooks d) ctx p)
     ∧ ∀ r p', start_or_roll_back ctx hooks p = Returned r p' → ctx_Err ctx p' ≠ None)
    ∨ documented (start_or_roll_back ctx hooks) (fx_Start (fx_New hooks d) ctx p)
        (λ app up, fx_up app = up) p;
  Stop_runs app ctx p :
    gave_up ctx p (fx_Stop app ctx p)
    ∨ documented (errs ← stop_hooks ctx (fx_up app); mret (errs, tt)) (fx_Stop app ctx p)
        (λ _ _, True) p
}.

End laws.

(** ** appfx/lifecycle.go, database.go and module.go *)

Section appfx.
  Context `{Mach : Machine}.
  (** How many steps a wait may take here. *)
  Context (fuel : nat).

(** [startupLifecycle.Append]: the start function runs in the startup context. *)
Definition in_startup (start : context → Proc (option error)) (_ : context) : Proc (option error) :=
  ctx ← get startup;
  match ctx with
  | None => panic
  | Some ctx =>
    err ← get (ctx_Err ctx);
    match err with
    | Some err => mret (Some err)
    | None => start ctx
    end
  end.

Definition Append (hook : Hook) : Hook :=
  match OnStart hook with
  | None => hook
  | Some start => mkHook (Some (in_startup start)) (OnStop hook)
  end.

Definition start_telemetry (cfg : InfraConfig) (_ : context) : Proc (option error) :=
  r ← Setup (Infra_OTelEnabled cfg);
  match r with
  | Ok shutdown => _ ← modify (λ p, p <| telemetry := Some shutdown |>); mret None
  | Err err => mret (Some err)
  end.

Definition stop_telemetry (_ : context) : Proc (option error) :=
  shutdown ← get telemetry;
  match shutdown with
  | None => panic
  | Some shutdown => shutdown_telemetry shutdown
  end.

Definition newTelemetry (cfg : InfraConfig) : Hook :=
  mkHook (Some (start_telemetry cfg)) (Some stop_telemetry).

Definition start_database (cfg : InfraConfig) (ctx : context) : Proc (option error) :=
  r ← Open ctx (Infra_DatabaseURL cfg) (Infra_DBMaxConns cfg);
  match r with
  | Ok opened => _ ← modify (λ p, p <| pool := Some opened |>); mret None
  | Err err => mret (Some err)
  end.

Definition stop_database (ctx : context) : Proc (option error) :=
  opened ← get pool;
  match opened with
  | None => panic
  | Some _ =>
    _ ← modify (λ p, p <| pool_closing := true |>);
    _ ← log (Released ConnectionPool);
    closed ← select fuel pool_closed (ended ctx);
    if (closed : bool) then mret None else get (ctx_Err ctx)
  end.

Definition newDatabase (cfg : InfraConfig) : Hook :=
  mkHook (Some (start_database cfg)) (Some stop_database).

(** [Database.Ping] *)
Definition Ping : Proc (option error) :=
  opened ← get pool;
  match opened with
  | None => panic
  | Some _ => call
  end.

(** ** appfx/run.go *)

Definition infrastructureShutdownGrace : Z := 10 * Second.

Context `{F : Fx}.

(** Waits for the signal or for the failure of a background service. *)
Definition wait_for_end (ctx : context) : Proc (option error) :=
  interrupted ← select fuel (ended ctx) (λ p, match failures p with Some _ => true | None => false end);
  if (interrupted : bool) then mret None
  else
    err ← get failures;
    _ ← modify (λ p, p <| failures := None |>);
    mret err.

(** [runApplication] from the return of [app.Start] on. *)
Definition end_of_run (ctx startupCtx : context) (err : option error) (app : App) : Proc (option error) :=
  err ← match err with
        | Some err => mret (Some err)
        | None => get (ctx_Err startupCtx)
        end;
  _ ← cancel startupCtx;
  err ← match err with
        | Some err => mret (Some err)
        | None => wait_for_end ctx
        end;
  shutdown ← WithTimeout Background (fx_StopTimeout app);
  '(stopped, app) ← fx_Stop app shutdown;
  _ ← cancel shutdown;
  mret (Join [err; stopped]).

Definition runApplication (ctx : context) (app : App) : Proc (option error) :=
  startupCtx ← WithTimeout ctx fx_StartTimeout;
  _ ← modify (λ p, p <| startup := Some startupCtx |>);
  lifecycleCtx ← WithTimeout (WithoutCancel ctx) (fx_StartTimeout + fx_StopTimeout app);
  '(err, app) ← fx_Start app lifecycleCtx;
  _ ← cancel lifecycleCtx;
  end_of_run ctx startupCtx err app.

(** [module] is what the constructors of the module's parts append, or the error of one of
    them ([app.Err()]): nothing has been started then. *)
Definition Run (ctx : context) (cfg : InfraConfig) (module : res error (list Hook))
    : Proc (option error) :=
  err ← get (ctx_Err ctx);
  match err with
  | Some err => mret (Some err)
  | None =>
    match module with
    | Err err => mret (Some err)
    | Ok hooks =>
      runApplication ctx
        (fx_New (map Append ([newTelemetry cfg; newDatabase cfg] ++ hooks))
                (Infra_ShutdownTimeout cfg + infrastructureShutdownGrace))
    end
  end.

(** ** api/server.go *)

Definition maxRequestHeaderBytes : Z := 32 * 2 ^ 10.

(** The fields of [http.Server] that are set to numbers. *)
Record server_settings : Type := mkServer {
  Addr : string; ReadHeaderTimeout : Z; ReadTimeout : Z; WriteTimeout : Z; IdleTimeout : Z;
  MaxHeaderBytes : Z
}.

Definition server_of (cfg : Config) : server_settings :=
  mkServer (HTTPAddr cfg) (5 * Second) (10 * Second) (RequestTimeout cfg + 5 * Second) (60 * Second)
    maxRequestHeaderBytes.

(** The readiness check the handler gets. *)
Definition http_Ready : Proc (option error) :=
  stopping ← get (λ p, draining (http p));
  if (stopping : bool) then mret (Some (EText "服务正在停止")) else Ping.

(** [handler_error]: what [NewHandler] answers. *)
Definition start_http (cfg : Config) (handler_error : option error) : Proc (option error) :=
  match handler_error with
  | Some err => mret (Some err)
  | None =>
    err ← call;                                  (* net.ListenConfig.Listen *)
    match err with
    | Some err => mret (Some (wrapf "监听 HTTP" err))
    | None =>
      _ ← log (Acquired HTTPServer);
      lifetime ← WithCancel Background;
      _ ← modify (λ p, p <| http := (http p) <| http_lifetime := Some lifetime |> <| serving := true |> |>);
      _ ← log (Logged "api listening" [("address", listener_Addr); ("environment", Environment cfg)]);
      mret None
    end
  end.

Definition stop_http (cfg : Config) (ctx : context) : Proc (option error) :=
  drain ← WithTimeout ctx (ShutdownTimeout cfg);
  _ ← modify (λ p, p <| http := (http p) <| draining := true |> |>);
  _ ← log (Logged "draining requests" []);
  lifetime ← get (λ p, http_lifetime (http p));
  match lifetime with
  | None => panic
  | Some lifetime =>
    _ ← modify (λ p, p <| http := (http p) <| shut := true |> |>);
    err ← call;                                  (* server.Shutdown(drain) *)
    _ ← log (Drained err);
    match err with
    | Some err =>
      _ ← cancel lifetime;
      _ ← call;                                  (* server.Close *)
      _ ← log (Released HTTPServer);
      _ ← cancel lifetime;
      _ ← cancel drain;
      mret (Some (wrapf "排空 HTTP 请求" err))
    | None =>
      _ ← log (Released HTTPServer);
      _ ← cancel lifetime;
      _ ← cancel drain;
      mret None
    end
  end.

Definition newHTTPService (cfg : Config) (handler_error : option error) : Hook :=
  mkHook (Some (λ _, start_http cfg handler_error)) (Some (stop_http cfg)).

(** ** api/module.go and api/run.go *)

(** [services]: what [NewServices] answers, an error or the answer of [NewHandler] for its
    dependencies. *)
Definition api_Module (cfg : Config) (services : res error (option error)) : res error (list Hook) :=
  res_bind services (λ handler_error, Ok [newHTTPService cfg handler_error]).

Definition api_Run `{Url : UrlParser} (services : Config → res error (option error)) (ctx : context)
    (cfg : Config) : Proc (option error) :=
  match Config_Validate cfg with
  | Some err => mret (Some err)
  | None => Run ctx (infrastructure cfg) (api_Module cfg (services cfg))
  end.

(** ** worker/module.go and worker/run.go *)

Definition start_consumer (ctx : context) : Proc (option error) :=
  run ← WithCancel Background;
  _ ← modify (λ p, p <| consumer := mkConsumer (Some run) true false |>);
  _ ← log (Acquired MailConsumer);
  _ ← log (Logged "Worker 已启动" []);
  mret None.

Definition stop_consumer (cfg : WorkerConfig) (ctx : context) : Proc (option error) :=
  ctx ← WithTimeout ctx (Worker_ShutdownTimeout cfg);
  run ← get (λ p, consumer_run (consumer p));
  match run with
  | None => panic
  | Some run =>
    _ ← cancel run;
    _ ← log (Released MailConsumer);
    finished ← select fuel (λ p, consumer_done (consumer p)) (ended ctx);
    if (finished : bool) then
      _ ← log (Logged "Worker 已停止" []);
      _ ← cancel ctx;
      mret None
    else
      err ← get (ctx_Err ctx);
      _ ← cancel ctx;
      mret err
  end.

Definition startMailConsumer (cfg : WorkerConfig) : Hook :=
  mkHook (Some start_consumer) (Some (stop_consumer cfg)).

(** [mailoutbox.NewService] cannot fail here: fx supplies all it needs. *)
Definition worker_Module (cfg : WorkerConfig) : res error (list Hook) := Ok [startMailConsumer cfg].

Definition worker_Run `{Url : UrlParser} (ctx : context) (cfg : WorkerConfig) : Proc (option error) :=
  match WorkerConfig_Validate cfg with
  | Some err => mret (Some err)
  | None => Run ctx (worker_infrastructure cfg) (worker_Module cfg)
  end.

End appfx.
