(* ===== verification/LifecycleFacts.v ===== *)
(** * The life cycle gives back what it takes

    [runs m Q p]: an operation does not panic, does not wait longer than is allowed, and ends
    with [Q]. The parts of the processes (telemetry, the pool, the HTTP server, the consumer)
    are shown one by one to start completely or not at all and to stop completely; the laws of
    [Fx] lift this to a whole run. *)
From S2P Require Import Prelude.
From S2P Require Import Text.
From S2P Require Import GoErrors.
From S2P Require Import FederationClient.
From S2P Require Import AppConfig.
From S2P Require Import Process.
From S2P Require Import Infrastructure.
From S2P Require Import Lifecycle.

(** ** What is held *)

(** What is built on what: a resource is given back before those it was built on. *)
Definition rank (r : resource) : nat :=
  match r with
  | TraceExporter | MetricExporter => 0
  | ConnectionPool => 1
  | HTTPServer | MailConsumer | MigrationDatabase => 2
  end.

Fixpoint remove_first (r : resource) (l : list resource) : option (list resource) :=
  match l with
  | [] => None
  | x :: l => if x ==? r then Some l else (x ::.) <$> remove_first r l
  end.

(** What the trace holds, latest first; [None] when something was given back that was not held,
    or that something else still rested on. *)
Fixpoint held (evs : list event) : option (list resource) :=
  match evs with
  | [] => Some []
  | Acquired r :: evs => (r ::.) <$> held evs
  | Released r :: evs =>
    h ← held evs;
    if forallb (λ x, (rank x <=? rank r)%nat) h then remove_first r h else None
  | _ :: evs => held evs
  end.

Section facts.
  Context `{Mach : Machine}.
  (** Whether waiting forever counts as a failure. *)
  Context (patient : bool) (fuel : nat).

Definition runs {A} (m : Proc A) (Q : A → process → Prop) (p : process) : Prop :=
  match m p with
  | Returned a p' => Q a p'
  | Panicked => False
  | Waiting => patient = true
  end.

Lemma runs_bind {A B} (m : Proc A) (f : A → Proc B) Q p :
  runs m (λ a, runs (f a) Q) p → runs (m ≫= f) Q p.
Proof. unfold runs, mbind, Proc_bind. by destruct (m p). Qed.

Lemma runs_mono {A} (m : Proc A) (Q Q' : A → process → Prop) p :
  runs m Q p → (∀ a p', Q a p' → Q' a p') → runs m Q' p.
Proof. unfold runs. destruct (m p); auto. Qed.

Lemma runs_ret {A} (a : A) (Q : A → process → Prop) p : Q a p → runs (mret a) Q p.
Proof. done. Qed.

(** ** The course of time *)

Record later (p p' : process) : Prop := {
  later_now : now p ≤ now p';
  later_ids : (next_id p ≤ next_id p')%nat;
  later_cancelled : suffix (cancelled p) (cancelled p');
  later_events : suffix (events p) (events p')
}.

Global Instance later_preorder : PreOrder later.
Proof.
  split.
  - intros p. split; done.
  - intros p q r [] []. split; [lia|lia|by etrans|by etrans].
Qed.

(** Identifiers are used once. *)
Definition sane (p : process) : Prop := Forall (λ c, (c.1 < next_id p)%nat) (cancelled p).

Lemma cancelled_at_app id l1 l2 : cancelled_at id (l1 ++ l2) =
  match cancelled_at id l2 with Some t => Some t | None => cancelled_at id l1 end.
Proof.
  induction l1 as [|[i t] l1 IH]; simpl; [by destruct (cancelled_at id l2)|].
  rewrite IH. by destruct (cancelled_at id l2).
Qed.

Lemma cancelled_at_None id l : Forall (λ c : nat * Z, c.1 ≠ id) l → cancelled_at id l = None.
Proof.
  induction 1 as [|[i t] l Hi _ IH]; simpl; [done|]. rewrite IH.
  destruct (Nat.eqb_spec i id); [done|done].
Qed.

(** [x] ends no later than [y]. *)
Definition sooner (x y : option (Z * error)) : Prop :=
  ∀ t e, y = Some (t, e) → ∃ t' e', x = Some (t', e') ∧ t' ≤ t.

Lemma sooner_refl x : sooner x x.
Proof. intros t e ->. by exists t, e. Qed.

Lemma earlier_l a b : sooner (earlier a b) a.
Proof.
  intros t e ->. destruct b as [[u f]|]; simpl; [|by exists t, e].
  destruct (Z.leb_spec t u); eexists _, _; (split; [reflexivity|lia]).
Qed.

Lemma earlier_r a b : sooner (earlier a b) b.
Proof.
  intros t e ->. destruct a as [[u f]|]; simpl; [|by exists t, e].
  destruct (Z.leb_spec u t); eexists _, _; (split; [reflexivity|lia]).
Qed.

Lemma sooner_trans x y z : sooner x y → sooner y z → sooner x z.
Proof. intros H1 H2 t e (t' & e' & Hy & ?)%H2. apply H1 in Hy as (t2 & e2 & ? & ?). exists t2, e2. split; [done|lia]. Qed.

Lemma earlier_sooner a b a' b' : sooner a' a → sooner b' b → sooner (earlier a' b') (earlier a b).
Proof.
  intros Ha Hb t e H. assert (a = Some (t, e) ∨ b = Some (t, e)) as [E|E].
  { destruct a as [[u f]|], b as [[v g]|]; simpl in H; try destruct (u <=? v); naive_solver. }
  - exact (sooner_trans _ _ _ (earlier_l a' b') Ha t e E).
  - exact (sooner_trans _ _ _ (earlier_r a' b') Hb t e E).
Qed.

(** More cancellations make a context end earlier, never later. *)
Lemma ends_at_mono ctx l l' : suffix l l' → sooner (ends_at signal l' ctx) (ends_at signal l ctx).
Proof.
  intros [k ->]. induction ctx as [| |id parent IH d|parent IH]; simpl; try apply sooner_refl.
  apply earlier_sooner, earlier_sooner; [done| |apply sooner_refl].
  rewrite cancelled_at_app. destruct (cancelled_at id l); [apply sooner_refl|done].
Qed.

(** A context of its own, not cancelled, ends by its deadline or with its parent. *)
Lemma ends_at_deadline id parent d l : cancelled_at id l = None →
  ends_at signal l parent = None →
  ends_at signal l (Child id parent (Some d)) = Some (d, DeadlineExceeded).
Proof. intros H1 H2. simpl. by rewrite H1, H2. Qed.

(** The wait for [ctx] is over before the fuel is. *)
Definition brief (ctx : context) (p : process) : Prop :=
  patient = true ∨ ∃ t e, ends_at signal (cancelled p) ctx = Some (t, e) ∧ t - now p ≤ Z.of_nat fuel.

Lemma brief_later ctx p p' : later p p' → brief ctx p → brief ctx p'.
Proof.
  intros [Hn _ Hc _] [?|(t & e & Ht & Hf)]; [by left|right].
  destruct (ends_at_mono ctx _ _ Hc _ _ Ht) as (t' & e' & ? & ?). exists t', e'. split; [done|lia].
Qed.

Lemma brief_child ctx id d p : brief ctx p → brief (Child id ctx d) p.
Proof.
  intros [?|(t & e & Ht & Hf)]; [by left|right]. simpl.
  destruct (earlier_l (ends_at signal (cancelled p) ctx) (earlier ((λ t, (t, Canceled)) <$> cancelled_at id (cancelled p))
    ((λ t, (t, DeadlineExceeded)) <$> d)) _ _ Ht) as (t' & e' & ? & ?).
  exists t', e'. split; [done|lia].
Qed.

(** ** Primitive operations *)

(** What a step leaves alone: everything but the clock and the goroutines' own flags. *)
Record ticked (p p' : process) : Prop := {
  tk_now : now p ≤ now p';
  tk_ids : next_id p' = next_id p;
  tk_cancelled : cancelled p' = cancelled p;
  tk_startup : startup p' = startup p;
  tk_telemetry : telemetry p' = telemetry p;
  tk_pool : pool p' = pool p;
  tk_lifetime : http_lifetime (http p') = http_lifetime (http p);
  tk_run : consumer_run (consumer p') = consumer_run (consumer p);
  tk_events : events p' = events p;
  tk_closed : pool_closed p = true → pool_closed p' = true;
  tk_done : consumer_done (consumer p) = true → consumer_done (consumer p') = true
}.

Global Instance ticked_preorder : PreOrder ticked.
Proof.
  split.
  - intros p. split; done.
  - intros p q r [] []. split; first [lia|congruence|by auto].
Qed.

Lemma Report_ticked err p : ticked p (Report err p).
Proof. unfold Report. destruct err; [|done]. destruct (failures p); [done|]. by split. Qed.

Lemma serve_ticked n p : ticked p (serve_goroutine n p).
Proof.
  unfold serve_goroutine. destruct (serving _); [|done].
  destruct (if shut _ then _ else _) as [e|]; [|done].
  destruct (Is _ _); [by split|]. etrans; [|apply Report_ticked]. by split.
Qed.

Lemma consumer_ticked n p : ticked p (consumer_goroutine n p).
Proof.
  unfold consumer_goroutine. destruct (consuming _); [|done].
  destruct (consumer_ends n) as [e|]; [|done]. etrans; [|apply Report_ticked]. by split.
Qed.

Lemma close_ticked n p : ticked p (close_goroutine n p).
Proof. unfold close_goroutine. destruct (_ && _)%bool; [|done]. by split. Qed.

Lemma now_Report err p : now (Report err p) = now p.
Proof. destruct err; simpl; [by destruct (failures p)|done]. Qed.

Lemma tick_now p : now (tick p) = now p + Z.pos (took (p_step p)).
Proof.
  assert (∀ n p, now (close_goroutine n p) = now p) as H1.
  { intros n q. unfold close_goroutine. by destruct (_ && _)%bool. }
  assert (∀ n p, now (consumer_goroutine n p) = now p) as H2.
  { intros n q. unfold consumer_goroutine. destruct (consuming _); [|done].
    destruct (consumer_ends n); [|done]. by rewrite now_Report. }
  assert (∀ n p, now (serve_goroutine n p) = now p) as H3.
  { intros n q. unfold serve_goroutine. destruct (serving _); [|done].
    destruct (if shut _ then _ else _); [|done]. destruct (Is _ _); [done|]. by rewrite now_Report. }
  unfold tick. by rewrite H1, H2, H3.
Qed.

Lemma tick_ticked p : ticked p (tick p).
Proof.
  unfold tick. etrans; [|apply close_ticked]. etrans; [|apply consumer_ticked].
  etrans; [|apply serve_ticked]. split; simpl; try done. lia.
Qed.

Lemma runs_call (Q : option error → process → Prop) p :
  (∀ e p', ticked p p' → Q e p') → runs call Q p.
Proof. intros H. unfold runs, call. apply H, tick_ticked. Qed.

Lemma ctx_Err_ended ctx p t e : ends_at signal (cancelled p) ctx = Some (t, e) → t ≤ now p →
  ended ctx p = true.
Proof. intros H Ht. unfold ended, ctx_Err. rewrite H. destruct (Z.leb_spec t (now p)); [done|lia]. Qed.

(** A wait that [ctx] can end. *)
Lemma runs_await ctx ready (Q : unit → process → Prop) p :
  (∀ p, ended ctx p = true → ready p = true) → brief ctx p →
  (∀ p', ticked p p' → ready p' = true → Q tt p') → runs (await fuel ready) Q p.
Proof.
  intros Hctx Hb HQ. assert (Hb' : patient = true ∨ ∃ t e,
    ends_at signal (cancelled p) ctx = Some (t, e) ∧ t - now p ≤ Z.of_nat fuel) by exact Hb.
  clear Hb. revert p Hb' HQ. generalize fuel as k.
  induction k as [|k IH]; intros p Hb HQ; simpl; unfold runs; simpl.
  - destruct (ready p) eqn:E; [by apply HQ|]. destruct Hb as [?|(t & e & Ht & Hf)]; [done|].
    rewrite Hctx in E; [done|]. eapply ctx_Err_ended; [done|lia].
  - destruct (ready p) eqn:E; [by apply HQ|]. fold (runs (await k ready) Q (tick p)). apply IH.
    + destruct Hb as [?|(t & e & Ht & Hf)]; [by left|right]. exists t, e.
      rewrite (tk_cancelled _ _ (tick_ticked p)), tick_now. split; [done|lia].
    + intros p' Hp. apply HQ. etrans; [apply tick_ticked|done].
Qed.

Lemma runs_select ctx (f g : process → bool) (Q : bool → process → Prop) p :
  (∀ p, ended ctx p = true → (f p || g p)%bool = true) → brief ctx p →
  (∀ b p', ticked p p' → (if b : bool then f p' else g p') = true → Q b p') → runs (select fuel f g) Q p.
Proof.
  intros Hctx Hb HQ. unfold select. apply runs_bind, (runs_await ctx); [done..|].
  intros p' Hp Hr. unfold runs, get. apply HQ; [done|].
  destruct (f p') eqn:E1, (g p') eqn:E2; simpl in *; try done. by destruct (chance _).
Qed.

Lemma runs_get {A} (f : process → A) (Q : A → process → Prop) p : Q (f p) p → runs (get f) Q p.
Proof. done. Qed.

Lemma runs_modify (f : process → process) (Q : unit → process → Prop) p : Q tt (f p) → runs (modify f) Q p.
Proof. done. Qed.

Lemma runs_log e (Q : unit → process → Prop) p :
  Q tt (p <| events := e :: events p |>) → runs (log e) Q p.
Proof. done. Qed.

Lemma runs_child parent d (Q : context → process → Prop) p :
  Q (Child (next_id p) parent (Some (now p + d))) (p <| next_id := S (next_id p) |>) →
  runs (WithTimeout parent d) Q p.
Proof. done. Qed.

Lemma runs_cancelable parent (Q : context → process → Prop) p :
  Q (Child (next_id p) parent None) (p <| next_id := S (next_id p) |>) → runs (WithCancel parent) Q p.
Proof. done. Qed.

Lemma runs_cancel id parent d (Q : unit → process → Prop) p :
  Q tt (p <| cancelled := (id, now p) :: cancelled p |> <| events := Cancelled id :: events p |>) →
  runs (cancel (Child id parent d)) Q p.
Proof. done. Qed.

End facts.
