(* ===== verification/Commands.v ===== *)
(** * Commands: [internal/app/api/command.go], [internal/app/worker/command.go] and [cmd]

    A command of cobra has its name, the check of its arguments, what it runs, and subcommands.
    Configuration is read only when the command that needs it runs. *)
From S2P Require Import Prelude.
From S2P Require Import Text.
From S2P Require Import GoErrors.
From S2P Require Import FederationClient.
From S2P Require Import AppConfig.
From S2P Require Import Process.
From S2P Require Import Infrastructure.
From S2P Require Import Lifecycle.
From Stdlib Require Import Ascii.

(** ** cobra *)

(** [RunE] gets the context of the command. *)
Inductive Command : Type :=
| mkCommand (Use : string) (Args : list string → option error)
    (RunE : context → Proc (option error)) (commands : list Command).

Definition Use (c : Command) : string := let 'mkCommand use _ _ _ := c in use.
Definition Args (c : Command) : list string → option error := let 'mkCommand _ args _ _ := c in args.
Definition RunE (c : Command) : context → Proc (option error) := let 'mkCommand _ _ run _ := c in run.
Definition commands (c : Command) : list Command := let 'mkCommand _ _ _ cs := c in cs.

(** The command that [args] name, and what is left of them. *)
Fixpoint find_command (c : Command) (args : list string) : Command * list string :=
  match args with
  | [] => (c, [])
  | arg :: rest =>
    match List.find (λ sub, Use sub ==? arg) (commands c) with
    | Some sub => find_command sub rest
    | None => (c, args)
    end
  end.

(** Arguments without flags and empty words, that do not name a command which the library adds. *)
Definition plain (args : list string) : Prop :=
  Forall (λ arg, HasPrefix arg "-" = false ∧ arg ≠ "") args
  ∧ match args with
    | [] => True
    | arg :: _ => arg ∉ ["help"; "completion"; "__complete"; "__completeNoDesc"]
    end.

(** [ExecuteContext]. The parsing of flags, help and completion are the library's; with other
    arguments it runs the command that is named. *)
Class Cobra := {
  ExecuteContext : Command → list string → context → Proc (option error);
  Execute_runs c args ctx p : plain args →
    ExecuteContext c args ctx p =
      let '(sub, rest) := find_command c args in
      match Args sub rest with
      | Some err => Returned (Some err) p
      | None => RunE sub ctx p
      end
}.

(** ** api/command.go *)

Definition noArgs (args : list string) : option error :=
  if (length args =? 0)%nat then None else Some (EText "命令不接受额外参数，请使用 --help").

Record migrationConfig : Type := mkMigrationConfig { Migration_DatabaseURL : string }.

Definition newline : string := String (ascii_of_nat 10) "".

Definition migration_fields : list FieldParams := [mkField "DATABASE_URL" false ""].

Section commands.
  Context `{Mach : Machine, F : Fx, Url : UrlParser}.
  Context (fuel : nat).
  (** [os.LookupEnv], the conversions of the environment, the constructors of the API and the
      exported contract. *)
  Context (LookupEnv : string → option string).
  Context (parse_api : gmap string string → Config * option env_error).
  Context (parse_worker : gmap string string → WorkerConfig * option env_error).
  Context (parse_migration : gmap string string → migrationConfig * option env_error).
  Context (services : Config → res error (option error)).
  Context (OpenAPI : res error string).

(** [Load] and [Run]. *)
Definition serve (ctx : context) : Proc (option error) :=
  match Config_Parse parse_api (Some LookupEnv) with
  | (_, Some err) => mret (Some err)
  | (cfg, None) => api_Run fuel services ctx cfg
  end.

Definition openapi (_ : context) : Proc (option error) :=
  match OpenAPI with
  | Err err => mret (Some err)
  | Ok data =>
    err ← call;                                        (* OutOrStdout().Write *)
    match err with
    | Some err => mret (Some err)
    | None => _ ← log (Printed (data +:+ newline)); mret None
    end
  end.

Definition migrate (direction : string) (ctx : context) : Proc (option error) :=
  match env_Parse (mkMigrationConfig "") (Some migration_fields) parse_migration (Some LookupEnv) with
  | (_, Some err) => mret (Some err)
  | (cfg, None) =>
    match ValidateDatabaseURL (Migration_DatabaseURL cfg) with
    | Some err => mret (Some err)
    | None =>
      ctx ← WithTimeout ctx (2 * Minute);
      err ← Migrate direction;
      _ ← cancel ctx;
      mret err
    end
  end.

Definition api_NewCommand : Command :=
  mkCommand "api" noArgs serve
    [ mkCommand "serve" noArgs serve [];
      mkCommand "openapi" noArgs openapi [];
      mkCommand "migrate" noArgs (λ _, mret (Some (EText "请指定 migrate up 或 migrate down")))
        (map (λ direction, mkCommand direction noArgs (migrate direction) []) ["up"; "down"]) ].

(** ** worker/command.go *)

Definition worker_noArgs (args : list string) : option error :=
  if (length args =? 0)%nat then None else Some (EText "Worker 不接受位置参数，请使用 --help").

Definition work (ctx : context) : Proc (option error) :=
  match WorkerConfig_Parse parse_worker (Some LookupEnv) with
  | (_, Some err) => mret (Some err)
  | (cfg, None) => worker_Run fuel ctx cfg
  end.

Definition worker_NewCommand : Command := mkCommand "worker" worker_noArgs work [].

(** ** cmd *)

(** The exit status. *)
Definition main `{Cb : Cobra} (c : Command) (args : list string) : Proc Z :=
  err ← ExecuteContext c args Signalled;
  match err with
  | Some err => _ ← log (Logged "命令执行失败" [("error", error_text err)]); mret 1
  | None => mret 0
  end.

End commands.
