(* ===== verification/LifecycleParts.v ===== *)
(** * The parts of the processes start completely or not at all, and stop completely

    Each part of the API and of the worker is a hook; [standing ups p] says that exactly the
    parts [ups] are up. Starting a part adds it or leaves the process as it stood, stopping the
    latest part removes it, and a run of the hooks of an application does so for all of them. *)
From S2P Require Import Prelude.
From S2P Require Import Text.
From S2P Require Import GoErrors.
From S2P Require Import FederationClient.
From S2P Require Import AppConfig.
From S2P Require Import Process.
From S2P Require Import Infrastructure.
From S2P Require Import Lifecycle.
From S2P Require Import LifecycleFacts.

Inductive part : Type := Telemetry | DatabasePool | HTTPService | Consumer.

Global Instance part_eq_dec : EqDecision part.
Proof. solve_decision. Defined.

Definition level (x : part) : nat :=
  match x with Telemetry => 0 | DatabasePool => 1 | HTTPService | Consumer => 2 end.

Definition holds (t : option bool) (x : part) : list resource :=
  match x with
  | Telemetry => match t with Some true => [MetricExporter; TraceExporter] | _ => [] end
  | DatabasePool => [ConnectionPool]
  | HTTPService => [HTTPServer]
  | Consumer => [MailConsumer]
  end.

(** The variables that the stop function of the part reads are set. *)
Definition is_up (p : process) (x : part) : Prop :=
  match x with
  | Telemetry => is_Some (telemetry p)
  | DatabasePool => is_Some (pool p)
  | HTTPService => ∃ id parent d, http_lifetime (http p) = Some (Child id parent d) ∧ (id < next_id p)%nat
  | Consumer => ∃ id parent d, consumer_run (consumer p) = Some (Child id parent d) ∧ (id < next_id p)%nat
  end.

(** The part has ended of its own accord: requests drained, the consumer returned, the pool
    closed. *)
Definition finished (p : process) (x : part) : Prop :=
  match x with
  | Telemetry => True
  | DatabasePool => pool_closed p = true
  | HTTPService => Drained None ∈ events p
  | Consumer => consumer_done (consumer p) = true
  end.

Record standing (ups : list part) (p : process) : Prop := {
  st_sane : sane p;
  st_held : held (events p) = Some (flat_map (holds (telemetry p)) ups);
  st_up : Forall (is_up p) ups
}.

Definition above (x : part) (ups : list part) : Prop := Forall (λ y, level y < level x)%nat ups.

Lemma held_below t x ups r : above x ups → rank r = level x →
  forallb (λ y, (rank y <=? rank r)%nat) (flat_map (holds t) ups) = true.
Proof.
  intros Ha Hr. apply forallb_forall. intros y Hy. apply in_flat_map in Hy as (z & Hz & Hy).
  unfold above in Ha. rewrite Forall_forall in Ha. apply list_elem_of_In, Ha in Hz.
  assert (rank y = level z) as Hyz.
  { destruct z; simpl in Hy; [destruct t as [[]|]; simpl in Hy|..]; naive_solver. }
  apply Nat.leb_le. lia.
Qed.

(** Lower parts do not notice when the variables of a higher one change. *)
Lemma standing_frame ups p p' :
  standing ups p → sane p' → held (events p') = held (events p) →
  telemetry p' = telemetry p → Forall (is_up p') ups → standing ups p'.
Proof. intros [_ Hh _] Hs He Ht Hu. split; [done| |done]. by rewrite He, Hh, Ht. Qed.

Section parts.
  Context `{Mach : Machine}.
  Context (patient : bool) (fuel : nat).
  Context (infra : InfraConfig) (api : Config) (handler_error : option error) (work : WorkerConfig).

Definition hook_of (x : part) : Hook :=
  match x with
  | Telemetry => newTelemetry infra
  | DatabasePool => newDatabase fuel infra
  | HTTPService => newHTTPService api handler_error
  | Consumer => startMailConsumer fuel work
  end.

(** The effect of starting [x] on top of [ups]. *)
Definition started (x : part) (ups : list part) (p : process) (err : option error) (p' : process) : Prop :=
  later p p' ∧ startup p' = startup p
  ∧ standing (match err with None => x :: ups | Some _ => ups end) p'.

(** The effect of stopping it. *)
Definition taken_down (x : part) (ups : list part) (p : process) (err : option error) (p' : process) : Prop :=
  later p p' ∧ standing ups p' ∧ (err = None → finished p' x)
  ∧ ∀ y, finished p y → finished p' y.

End parts.

(** Runs the next operation of a hook. *)
Ltac hook_step :=
  lazymatch goal with
  | |- runs _ (mret _) _ _ => apply runs_ret
  | |- runs _ (_ ≫= _) _ _ => apply runs_bind
  | |- runs _ call _ _ => apply runs_call; intros [?|] ? ?
  | |- runs _ (log _) _ _ => apply runs_log
  | |- runs _ (modify _) _ _ => apply runs_modify
  | |- runs _ (get _) _ _ => apply runs_get
  | |- runs _ (WithTimeout _ _) _ _ => apply runs_child
  | |- runs _ (WithCancel _) _ _ => apply runs_cancelable
  | |- runs _ (cancel (Child _ _ _)) _ _ => apply runs_cancel
  | |- runs _ (match ?x with _ => _ end) _ _ => destruct x eqn:?
  end; cbn beta iota.

(** What a chain of steps did to the fields of the process. *)
Ltac fields_eq :=
  repeat match goal with
  | H : ticked _ _ |- _ =>
    let Hn := fresh "Hn" in destruct H as [Hn ? ? ? ? ? ? ? ? ? ?]; cbn in Hn
  end; cbn in *;
  repeat match goal with
  | H : next_id ?p = _ |- context [next_id ?p] => rewrite H
  | H : cancelled ?p = _ |- context [cancelled ?p] => rewrite H
  | H : startup ?p = _ |- context [startup ?p] => rewrite H
  | H : telemetry ?p = _ |- context [telemetry ?p] => rewrite H
  | H : pool ?p = _ |- context [pool ?p] => rewrite H
  | H : http_lifetime (http ?p) = _ |- context [http_lifetime (http ?p)] => rewrite H
  | H : consumer_run (consumer ?p) = _ |- context [consumer_run (consumer ?p)] => rewrite H
  | H : events ?p = _ |- context [events ?p] => rewrite H
  end.

Ltac solve_suffix := repeat first [apply suffix_cons_r|reflexivity].

(** Closes what remains about the clock, the identifiers and the trace. *)
Ltac close_later := split; fields_eq; [lia|lia|solve_suffix|solve_suffix].

Ltac close_sane H :=
  unfold sane in *; fields_eq;
  repeat (apply Forall_cons; split; [simpl; lia|]);
  apply (Forall_impl _ _ _ H); intros ? ?; simpl in *; lia.

(** What was up stays up. *)
Ltac close_up H :=
  apply (Forall_impl _ _ _ H); intros [] ?; cbn in *; fields_eq;
  first [assumption|by eexists
        |match goal with E : ex _ |- _ => destruct E as (? & ? & ? & ? & ?) end;
         do 3 eexists; split; [first [eassumption|reflexivity]|lia]].

(** [Hh] is what was held before; a hypothesis says that nothing of it rests on what is given
    back. *)
Ltac close_held Hh :=
  fields_eq; cbn; rewrite Hh; cbn;
  repeat match goal with H : forallb _ _ = true |- _ => rewrite H end;
  cbn; repeat case_bool_decide; done.

Section start.
  Context `{Mach : Machine}.
  Context (patient : bool) (fuel : nat).
  Context (infra : InfraConfig) (api : Config) (handler_error : option error) (work : WorkerConfig).

Lemma above_bottom ups : above Telemetry ups → ups = [].
Proof. destruct ups as [|y ups]; [done|]. intros [H _]%Forall_cons. simpl in H. lia. Qed.

Lemma start_telemetry_part ups p ctx : standing ups p → above Telemetry ups →
  runs patient (start_telemetry infra ctx) (started Telemetry ups p) p.
Proof.
  intros [Hs Hh Hu] ->%above_bottom. unfold start_telemetry, Setup. simpl in Hh. repeat hook_step.
  all: split_and!; [close_later|by fields_eq|split; [close_sane Hs|close_held Hh|]].
  all: repeat constructor; fields_eq; eauto.
Qed.

Lemma start_database_part ups p ctx : standing ups p → above DatabasePool ups →
  runs patient (start_database infra ctx) (started DatabasePool ups p) p.
Proof.
  intros [Hs Hh Hu] Ha. unfold start_database, Open.
  pose proof (held_below (telemetry p) _ _ ConnectionPool Ha eq_refl) as Hb. repeat hook_step.
  all: split_and!; [close_later|by fields_eq|split; [close_sane Hs|close_held Hh|]].
  all: try (apply Forall_cons; split; [by eexists|]); close_up Hu.
Qed.

Lemma start_http_part ups p (ctx : context) : standing ups p → above HTTPService ups →
  runs patient (start_http api handler_error) (started HTTPService ups p) p.
Proof.
  intros [Hs Hh Hu] Ha. unfold start_http.
  repeat hook_step.
  all: split_and!; [close_later|by fields_eq|split; [close_sane Hs|close_held Hh|]].
  all: try (apply Forall_cons; split; [repeat eexists; fields_eq; lia|]); close_up Hu.
Qed.

Lemma start_consumer_part ups p ctx : standing ups p → above Consumer ups →
  runs patient (start_consumer ctx) (started Consumer ups p) p.
Proof.
  intros [Hs Hh Hu] Ha. unfold start_consumer. repeat hook_step.
  all: split_and!; [close_later|by fields_eq|split; [close_sane Hs|close_held Hh|]].
  all: apply Forall_cons; split; [repeat eexists; fields_eq; lia|]; close_up Hu.
Qed.

End start.

(** What had finished has still finished. *)
Ltac close_finished :=
  intros [] ?; cbn in *; fields_eq;
  first [done|assumption|by auto 10|solve [repeat first [assumption|apply list_elem_of_further]]].

Section stop.
  Context `{Mach : Machine}.
  Context (patient : bool) (fuel : nat).
  Context (infra : InfraConfig) (api : Config) (handler_error : option error) (work : WorkerConfig).

Lemma stop_telemetry_part ups p ctx : standing (Telemetry :: ups) p → above Telemetry ups →
  runs patient (stop_telemetry ctx) (taken_down Telemetry ups p) p.
Proof.
  intros [Hs Hh Hu] ->%above_bottom. apply Forall_cons in Hu as [[b Hb] _]. simpl in Hh. rewrite Hb in Hh.
  unfold stop_telemetry. hook_step. hook_step. rewrite Hb. unfold shutdown_telemetry.
  destruct b; repeat hook_step.
  all: split_and!; [close_later|split; [close_sane Hs|close_held Hh|by constructor]|done|close_finished].
Qed.

Lemma stop_database_part ups p ctx : standing (DatabasePool :: ups) p → above DatabasePool ups →
  brief patient fuel ctx p →
  runs patient (stop_database fuel ctx) (taken_down DatabasePool ups p) p.
Proof.
  intros [Hs Hh Hu] Ha Hc. apply Forall_cons in Hu as [[c Hp] Hu]. simpl in Hh.
  pose proof (held_below (telemetry p) _ _ ConnectionPool Ha eq_refl) as Hb.
  unfold stop_database. repeat hook_step; [|simplify_eq].
  eapply (runs_select _ _ ctx); [intros q Hq; by rewrite Hq, orb_true_r|exact Hc|].
  intros closed p' Ht Hr. destruct closed; repeat hook_step.
  all: split_and!; [close_later|split; [close_sane Hs|close_held Hh|close_up Hu]| |close_finished].
  - by intros _.
  - unfold ended in Hr. by destruct (ctx_Err ctx p').
Qed.

Lemma stop_http_part ups p ctx : standing (HTTPService :: ups) p → above HTTPService ups →
  runs patient (stop_http api ctx) (taken_down HTTPService ups p) p.
Proof.
  intros [Hs Hh Hu] Ha. apply Forall_cons in Hu as [(id & parent & d & Hp & Hi) Hu]. simpl in Hh.
  pose proof (held_below (telemetry p) _ _ HTTPServer Ha eq_refl) as Hb.
  unfold stop_http. do 9 hook_step; cbn in Heqo; rewrite Hp in Heqo; simplify_eq. repeat hook_step.
  all: split_and!; [close_later|split; [close_sane Hs|close_held Hh|close_up Hu]| |close_finished].
  all: intros Hr; first [done|cbn; repeat first [apply list_elem_of_here|apply list_elem_of_further]].
Qed.

Lemma stop_consumer_part ups p ctx : standing (Consumer :: ups) p → above Consumer ups →
  brief patient fuel ctx p →
  runs patient (stop_consumer fuel work ctx) (taken_down Consumer ups p) p.
Proof.
  intros [Hs Hh Hu] Ha Hc. apply Forall_cons in Hu as [(id & parent & d & Hp & Hi) Hu]. simpl in Hh.
  pose proof (held_below (telemetry p) _ _ MailConsumer Ha eq_refl) as Hb.
  unfold stop_consumer. do 5 hook_step; cbn in Heqo; rewrite Hp in Heqo; simplify_eq. do 4 hook_step.
  hook_step. eapply runs_select.
  { intros q Hq. apply orb_true_iff. right. exact Hq. }
  { apply brief_child. eapply brief_later; [|exact Hc]. close_later. }
  intros b p' Ht Hr. destruct b; repeat hook_step.
  all: split_and!; [close_later|split; [close_sane Hs|close_held Hh|close_up Hu]| |close_finished].
  - intros _. cbn. exact Hr.
  - intros Hn. unfold ended in Hr. rewrite Hn in Hr. done.
Qed.

End stop.

(** ** Lists of hooks *)

(** Each part is above those below it in the list. *)
Fixpoint ordered (ups : list part) : Prop :=
  match ups with [] => True | x :: ups => above x ups ∧ ordered ups end.

Section lists.
  Context `{Mach : Machine}.
  Context (patient : bool) (fuel : nat).
  Context (infra : InfraConfig) (api : Config) (handler_error : option error) (work : WorkerConfig).

Definition hooked (x : part) : Hook := Append (hook_of fuel infra api handler_error work x).

Definition start_of (x : part) : context → Proc (option error) :=
  match x with
  | Telemetry => start_telemetry infra
  | DatabasePool => start_database infra
  | HTTPService => λ _, start_http api handler_error
  | Consumer => start_consumer
  end.

Definition stop_of (x : part) : context → Proc (option error) :=
  match x with
  | Telemetry => stop_telemetry
  | DatabasePool => stop_database fuel
  | HTTPService => stop_http api
  | Consumer => stop_consumer fuel work
  end.

Lemma hooked_start x : OnStart (hooked x) = Some (in_startup (start_of x)).
Proof. by destruct x. Qed.

Lemma hooked_stop x : OnStop (hooked x) = Some (stop_of x).
Proof. by destruct x. Qed.

Lemma start_part x ups p ctx : standing ups p → above x ups →
  runs patient (start_of x ctx) (started x ups p) p.
Proof.
  destruct x; simpl; [apply start_telemetry_part|apply start_database_part
    |by apply start_http_part|apply start_consumer_part].
Qed.

Lemma stop_part x ups p ctx : standing (x :: ups) p → above x ups → brief patient fuel ctx p →
  runs patient (stop_of x ctx) (taken_down x ups p) p.
Proof.
  intros Hst Ha Hb. destruct x; simpl; [by apply stop_telemetry_part|by apply stop_database_part
    |by apply stop_http_part|by apply stop_consumer_part].
Qed.

(** In the startup context: not at all when it has ended. *)
Lemma start_in_startup x ups p ctx : standing ups p → above x ups → is_Some (startup p) →
  runs patient (in_startup (start_of x) ctx) (started x ups p) p.
Proof.
  intros Hst Ha [c Hc]. unfold in_startup. apply runs_bind, runs_get. rewrite Hc.
  apply runs_bind, runs_get. destruct (ctx_Err c p); [|by apply start_part].
  apply runs_ret. done.
Qed.

(** What a list of start functions leaves up. *)
Definition all_started (xs ups : list part) (p : process) (r : option error * list Hook) (p' : process) : Prop :=
  later p p' ∧ startup p' = startup p
  ∧ ∃ ups', r.2 = map hooked ups' ∧ ordered ups' ∧ standing ups' p'
            ∧ (r.1 = None → ups' = reverse xs ++ ups).

Lemma start_list ctx xs : ∀ ups p, standing ups p → ordered (reverse xs ++ ups) → is_Some (startup p) →
  runs patient (start_hooks ctx (map hooked xs) (map hooked ups)) (all_started xs ups p) p.
Proof.
  induction xs as [|x xs IH]; intros ups p Hst Ho Hs; cbn [start_hooks map].
  - apply runs_ret. split_and!; [done|done|]. exists ups. by split_and!.
  - rewrite hooked_start. apply runs_bind.
    rewrite reverse_cons, <-(assoc_L (++)) in Ho. simpl in Ho.
    assert (above x ups ∧ ordered ups) as [Ha Hou].
    { clear -Ho. induction (reverse xs) as [|y l IHl]; simpl in Ho; [done|]. apply IHl, Ho. }
    eapply runs_mono; [by apply start_in_startup|]. intros [err|] p' (Hl & Hsp & Hst').
    + apply runs_ret. split_and!; [done|done|]. exists ups. by split_and!.
    + eapply runs_mono; [apply (IH (x :: ups)); [done|done|by rewrite Hsp]|].
      intros r p2 (Hl2 & Hsp2 & ups' & ? & ? & ? & Hend). split_and!; [by etrans|by rewrite Hsp2|].
      exists ups'. split_and!; [done|done|done|]. intros Hr. rewrite (Hend Hr).
      by rewrite reverse_cons, <-(assoc_L (++)).
Qed.

(** Everything is taken down; if no stop function fails, every part had finished. *)
Definition all_down (ups : list part) (p : process) (errs : list (option error)) (p' : process) : Prop :=
  later p p' ∧ standing [] p'
  ∧ (Forall (λ e, e = None) errs → Forall (finished p') ups)
  ∧ ∀ y, finished p y → finished p' y.

Lemma stop_list ctx ups : ∀ p, standing ups p → ordered ups → brief patient fuel ctx p →
  runs patient (stop_hooks ctx (map hooked ups)) (all_down ups p) p.
Proof.
  induction ups as [|x ups IH]; intros p Hst Ho Hb; cbn [stop_hooks map].
  - apply runs_ret. by split_and!.
  - rewrite hooked_stop. destruct Ho as [Ha Ho]. apply runs_bind.
    eapply runs_mono; [by apply stop_part|]. intros err p1 (Hl & Hst1 & Hfin & Hmono).
    apply runs_bind. eapply runs_mono; [apply IH; [done|done|by eapply brief_later]|].
    intros errs p2 (Hl2 & Hst2 & Hfin2 & Hmono2). apply runs_ret. split_and!; [by etrans|done| |auto].
    intros [He Hes]%Forall_cons. apply Forall_cons. auto.
Qed.

End lists.
