(* ===== verification/LifecycleRuns.v ===== *)
(** * Whole runs of a process

    What [appfx.Run] does for the API and for the worker, whatever fails and whenever the signal
    arrives: everything acquired is given back, in an order that respects what was built on what
    ([Run_releases]); a run without error is a graceful one ([program_graceful]); a run ends
    ([process_terminates]). *)
From S2P Require Import Prelude.
From S2P Require Import Text.
From S2P Require Import GoErrors.
From S2P Require Import FederationClient.
From S2P Require Import AppConfig.
From S2P Require Import Process.
From S2P Require Import Infrastructure.
From S2P Require Import Lifecycle.
From S2P Require Import Commands.
From S2P Require Import LifecycleFacts.
From S2P Require Import LifecycleParts.

(** [t] is reported by [r]. *)
Definition reports_error (r : option error) (t : target) : Prop := ∃ x, r = Some x ∧ Is x t = true.

Lemma reports_join e t es : reports_error e t → e ∈ es → reports_error (Join es) t.
Proof.
  intros (x & -> & Hx) Hin. destruct (Join es) as [j|] eqn:Ej.
  - exists j. split; [done|]. apply (Join_Some es j Ej). eauto.
  - apply Join_None in Ej. rewrite Forall_forall in Ej. by apply Ej in Hin.
Qed.

(** The error [r] contains [err]. *)
Definition keeps (err r : option error) : Prop :=
  (r = None → err = None) ∧ ∀ t, reports_error err t → reports_error r t.

Global Instance keeps_preorder : PreOrder keeps.
Proof. split; [by split|]. intros a b c [H1 H2] [H3 H4]. split; auto. Qed.

Lemma keeps_join e es : e ∈ es → keeps e (Join es).
Proof.
  intros He. split; [|intros t Ht; by eapply reports_join].
  intros H%Join_None. rewrite Forall_forall in H. by apply H.
Qed.

(** The process and the context in which [runApplication] calls [app.Start]. *)
Definition launched `{F : Fx} (ctx : context) (p : process) : process :=
  p <| next_id := S (next_id p) |>
    <| startup := Some (Child (next_id p) ctx (Some (now p + fx_StartTimeout))) |>
    <| next_id := S (S (next_id p)) |>.

Definition lifecycle_ctx `{F : Fx} (ctx : context) (p : process) (d : Z) : context :=
  Child (S (next_id p)) (WithoutCancel ctx) (Some (now p + (fx_StartTimeout + d))).

Section tail.
  Context `{Mach : Machine, F : Fx, L : !FxLaws}.
  Context (patient : bool) (fuel : nat).
  Context (infra : InfraConfig) (api : Config) (handler_error : option error) (work : WorkerConfig).

Local Abbreviation hooked := (hooked fuel infra api handler_error work).

(** The end of a run: all parts are down, or the time for that has run out and is reported; no
    error means that the parts had finished and that the caller's context had ended. *)
Definition run_ended (ctx : context) (ups : list part) (r : option error) (p' : process) : Prop :=
  (held (events p') = Some [] ∨ reports_error r (TSentinel ContextDeadlineExceeded))
  ∧ (r = None → Forall (finished p') ups ∧ ended ctx p' = true).

Lemma ended_later ctx p p' : later p p' → ended ctx p = true → ended ctx p' = true.
Proof.
  intros [Hn _ Hc _] H. unfold ended, ctx_Err in *.
  destruct (ends_at signal (cancelled p) ctx) as [[t e]|] eqn:E; [|done].
  destruct (ends_at_mono ctx _ _ Hc _ _ E) as (t' & e' & -> & ?).
  destruct (Z.leb_spec t (now p)); [|done]. destruct (Z.leb_spec t' (now p')); [done|lia].
Qed.

(** A fresh context over [Background] ends by its deadline only. *)
Lemma deadline_only p id p' d s : cancelled_at id (cancelled p) = None →
  cancelled_at id (cancelled p') = cancelled_at id (cancelled p) →
  ctx_Err (Child id Background (Some d)) p' = Some (ESentinel s) → s = ContextDeadlineExceeded.
Proof.
  intros H1 H2. unfold ctx_Err. simpl. rewrite H2, H1. simpl. destruct (d <=? now p'); [|done]. by intros [= <-].
Qed.

Lemma sane_fresh p : sane p → cancelled_at (next_id p) (cancelled p) = None.
Proof.
  intros H. apply cancelled_at_None. eapply Forall_impl; [exact H|]. intros [i t] Hi. simpl in *. lia.
Qed.

(** [app.Stop] with a fresh context of [d]. *)
Lemma stop_runs app ups p d : standing ups p → ordered ups → fx_up app = map hooked ups →
  patient = true ∨ d ≤ Z.of_nat fuel →
  let p1 := p <| next_id := S (next_id p) |> in
  let shutdown := Child (next_id p) Background (Some (now p + d)) in
  runs patient (fx_Stop app shutdown) (λ r p',
    reports_error r.1 (TSentinel ContextDeadlineExceeded)
    ∨ (standing [] p' ∧ later p p' ∧ (r.1 = None → Forall (finished p') ups))) p1.
Proof.
  intros Hst Ho Hup Hd p1 shutdown.
  assert (Hst1 : standing ups p1).
  { destruct Hst as [Hs Hh Hu]. split; [close_sane Hs|done|close_up Hu]. }
  destruct (Stop_runs app shutdown p1) as [(e & a & p' & s & Hr & Hc & He & Hk)|Hr].
  - unfold runs. rewrite Hr. left. exists e. split; [done|].
    rewrite <-(deadline_only p (next_id p) p' (now p + d) s); [done| |by apply (Hk _ _ _ eq_refl)|exact Hc].
    exact (sane_fresh p (st_sane _ _ Hst)).
  - pose proof (stop_list patient fuel infra api handler_error work shutdown ups p1 Hst1 Ho) as Hs.
    rewrite Hup in Hr. unfold documented, runs, mbind, Proc_bind in *.
    assert (brief patient fuel shutdown p1) as Hb.
    { destruct Hd as [?|Hd]; [by left|right]. exists (now p + d), DeadlineExceeded.
      split; [|simpl; lia]. apply ends_at_deadline; [|done]. exact (sane_fresh p (st_sane _ _ Hst)). }
    specialize (Hs Hb). destruct (stop_hooks shutdown (map hooked ups) p1) as [errs p'| |]; [|done|by rewrite Hr].
    destruct Hr as (err & app' & -> & Hcomb & _). destruct Hs as (Hl & Hst' & Hfin & _). right.
    split_and!; [done|etrans; [|exact Hl]; close_later|]. intros Hn. by apply Hfin, Hcomb.
Qed.

(** From the stop of the application on; [err] is what ended the run. *)
Lemma stopping_runs ctx app ups p err : standing ups p → ordered ups → fx_up app = map hooked ups →
  patient = true ∨ fx_StopTimeout app ≤ Z.of_nat fuel →
  (err = None → ended ctx p = true) →
  runs patient
    (shutdown ← WithTimeout Background (fx_StopTimeout app);
     '(stopped, app) ← fx_Stop app shutdown;
     _ ← cancel shutdown;
     mret (Join [err; stopped]))
    (λ r p', run_ended ctx ups r p' ∧ keeps err r) p.
Proof.
  intros Hst Ho Hup Hd He. apply runs_bind, runs_child. apply runs_bind.
  eapply runs_mono; [by apply stop_runs|]. cbn beta. intros [stopped app'] p1 H.
  apply runs_bind, runs_cancel, runs_ret. split; [|apply keeps_join; left].
  destruct H as [Hr|(Hst1 & Hl & Hf)].
  - split; [right; apply (reports_join _ _ _ Hr); right; left|].
    intros [_ [Hn _]%Forall_cons]%Join_None%Forall_cons. destruct Hr as (x & Hx & _). simpl in *. congruence.
  - split; [left; cbn; apply Hst1|].
    intros [Hn [Hn' _]%Forall_cons]%Join_None%Forall_cons. split.
    + eapply Forall_impl; [by apply Hf|]. intros [] ?; cbn in *; [done|done|by right|done].
    + eapply ended_later; [|by apply He]. etrans; [exact Hl|]. close_later.
Qed.

Lemma standing_cancelled ups p id : standing ups p → (id < next_id p)%nat →
  standing ups (p <| cancelled := (id, now p) :: cancelled p |> <| events := Cancelled id :: events p |>).
Proof. intros [Hs Hh Hu] Hi. split; [close_sane Hs|exact Hh|close_up Hu]. Qed.

Lemma standing_ticked ups p p' : standing ups p → ticked p p' → standing ups p'.
Proof. intros [Hs Hh Hu] Ht. split; [close_sane Hs|by fields_eq|close_up Hu]. Qed.

(** The wait for the signal or a failure. *)
Lemma waiting_runs ctx ups p : standing ups p → brief patient fuel ctx p →
  runs patient (wait_for_end fuel ctx) (λ err p', standing ups p' ∧ (err = None → ended ctx p' = true)) p.
Proof.
  intros Hst Hb. unfold wait_for_end. apply runs_bind. eapply runs_select; [|exact Hb|].
  { intros q Hq. by rewrite Hq. }
  intros interrupted p' Ht Hr. pose proof (standing_ticked _ _ _ Hst Ht) as Hst'.
  destruct interrupted; repeat hook_step.
  - by split.
  - destruct (failures p') as [e|] eqn:E; [|done]. split; [|done].
    clear Ht. destruct Hst' as [Hs Hh Hu]. split; [close_sane Hs|exact Hh|close_up Hu].
Qed.

Lemma end_runs ctx id parent d err app ups p : standing ups p → ordered ups →
  fx_up app = map hooked ups → (id < next_id p)%nat →
  patient = true ∨ fx_StopTimeout app ≤ Z.of_nat fuel → (err = None → brief patient fuel ctx p) →
  runs patient (end_of_run fuel ctx (Child id parent d) err app)
    (λ r p', run_ended ctx ups r p' ∧ keeps err r) p.
Proof.
  intros Hst Ho Hup Hi Hd Hb. unfold end_of_run. apply runs_bind.
  set (Q := λ err' p', p' = p ∧ keeps err err').
  apply (runs_mono _ _ Q).
  { destruct err as [e|]; [done|]. apply runs_get. split; [done|]. split; [done|]. by intros t (x & ? & _). }
  intros err1 p' [-> Hk]. apply runs_bind, runs_cancel. apply runs_bind.
  pose proof (standing_cancelled _ _ _ Hst Hi) as Hst1.
  destruct err1 as [e|].
  - apply runs_ret. eapply runs_mono; [by apply stopping_runs|]. cbn beta. intros r p2 [Hr Hm]. split; [done|by etrans].
  - eapply runs_mono; [apply waiting_runs; [exact Hst1|]|].
    { eapply brief_later; [|by apply Hb, Hk]. close_later. }
    cbn beta. intros err2 p2 [Hst2 He]. eapply runs_mono; [by apply stopping_runs|].
    cbn beta. intros r p3 [Hr Hm]. split; [done|]. rewrite (proj1 Hk eq_refl) in *. split; [done|]. by intros t (x & ? & _).
Qed.

(** What [app.Start] leaves behind: all parts up, or none. *)
Definition app_started (xs : list part) (d : Z) (p : process) (r : option error * App) (p' : process) : Prop :=
  later p p' ∧ ∃ ups, standing ups p' ∧ ordered ups ∧ fx_up r.2 = map hooked ups
    ∧ fx_StopTimeout r.2 = d ∧ (r.1 = None → ups = reverse xs).

(** What the hooks leave behind when they run one after the other. *)
Definition hooks_through (xs : list part) (p : process) (r : list (option error) * list Hook)
    (p' : process) : Prop :=
  later p p' ∧ ∃ ups, standing ups p' ∧ ordered ups ∧ r.2 = map hooked ups
    ∧ (ups = reverse xs ∨ ups = [] ∧ ¬ Forall (λ e, e = None) r.1).

Lemma hooks_run xs ctx p : standing [] p → ordered (reverse xs) → is_Some (startup p) →
  brief patient fuel ctx p →
  runs patient (start_or_roll_back ctx (map hooked xs)) (hooks_through xs p) p.
Proof.
  intros Hst Ho Hs Hb. unfold start_or_roll_back. apply runs_bind. eapply runs_mono.
  { apply (start_list patient fuel infra api handler_error work ctx xs [] p); [done| |done].
    by rewrite (right_id_L [] (++)). }
  intros [[e|] up] p1 (Hl & _ & ups & Hup & Ho1 & Hst1 & Hend); simpl in *; subst up.
  - apply runs_bind. eapply runs_mono; [apply stop_list; [done|done|by eapply brief_later]|].
    intros errs p2 (Hl2 & Hst2 & _). apply runs_ret. split; [by etrans|]. exists []. split_and!; [done|done|done|].
    right. split; [done|]. simpl. by intros [? _]%Forall_cons.
  - apply runs_ret. split; [done|]. exists ups. split_and!; [done|done|done|]. left.
    rewrite (Hend eq_refl). by rewrite (right_id_L [] (++)).
Qed.

Lemma start_runs xs d ctx p : standing [] p → ordered (reverse xs) → is_Some (startup p) →
  brief patient fuel ctx p →
  documented (start_or_roll_back ctx (map hooked xs)) (fx_Start (fx_New (map hooked xs) d) ctx p)
    (λ app up, fx_up app = up) p →
  runs patient (fx_Start (fx_New (map hooked xs) d) ctx) (app_started xs d p) p.
Proof.
  intros Hst Ho Hs Hb Hdoc. pose proof (hooks_run xs ctx p Hst Ho Hs Hb) as H.
  unfold documented, runs in *. destruct (start_or_roll_back ctx (map hooked xs) p) as [[errs up] p'| |];
    [|done|by rewrite Hdoc].
  destruct Hdoc as (err & app & Hr & [Hc _] & Hup). rewrite Hr. destruct H as (Hl & ups & ? & ? & Hu & Hor).
  split; [done|]. exists ups. simpl in *. split_and!; [done|done|congruence| |].
  - rewrite (Start_StopTimeout _ _ _ _ _ _ Hr). apply New_StopTimeout.
  - intros Hn. destruct Hor as [?|[_ Hnot]]; [done|]. by apply Hc in Hn.
Qed.

(** [runApplication] calls [app.Start] with a process and a context of which this is true. *)
Lemma launched_ready ctx p d : standing [] p →
  patient = true ∨ fx_StartTimeout + d ≤ Z.of_nat fuel →
  standing [] (launched ctx p) ∧ is_Some (startup (launched ctx p))
  ∧ brief patient fuel (lifecycle_ctx ctx p d) (launched ctx p).
Proof.
  intros Hst Hd. split_and!.
  - destruct Hst as [Hs Hh Hu]. split; [close_sane Hs|exact Hh|constructor].
  - by eexists.
  - destruct Hd as [?|Hd]; [by left|right].
    eexists _, DeadlineExceeded. split; [apply ends_at_deadline; [|done]|simpl; lia].
    apply cancelled_at_None. eapply Forall_impl; [apply Hst|]. intros [i t] Hi. simpl in *. lia.
Qed.

(** A run of an application made of the parts [xs]. *)
Lemma app_runs ctx xs p d : standing [] p → ordered (reverse xs) →
  patient = true ∨ fx_StartTimeout + d ≤ Z.of_nat fuel ∧ d ≤ Z.of_nat fuel →
  brief patient fuel ctx p →
  documented (start_or_roll_back (lifecycle_ctx ctx p d) (map hooked xs))
    (fx_Start (fx_New (map hooked xs) d) (lifecycle_ctx ctx p d) (launched ctx p))
    (λ app up, fx_up app = up) (launched ctx p) →
  runs patient (runApplication fuel ctx (fx_New (map hooked xs) d)) (run_ended ctx (reverse xs)) p.
Proof.
  intros Hst Ho Hd Hb Hdoc. unfold runApplication. rewrite New_StopTimeout. do 7 hook_step.
  destruct (launched_ready ctx p d Hst) as (Hst2 & Hs2 & Hb2); [naive_solver|].
  assert (Hl : later p (launched ctx p)) by close_later.
  eapply runs_mono; [by apply start_runs|].
  intros [err app] p3 (Hl3 & ups & Hst3 & Ho3 & Hup & Htime & Hend). cbn in Hup, Htime, Hend. cbn beta iota.
  apply runs_bind, runs_cancel.
  assert (Hi : (S (next_id p) < next_id p3)%nat) by (destruct Hl3 as [_ Hi _ _]; simpl in Hi; lia).
  cbn beta. eapply runs_mono.
  { apply end_runs; [by apply standing_cancelled|exact Ho3|exact Hup|simpl; lia| |].
    - rewrite Htime. destruct Hd as [?|[_ ?]]; [by left|by right].
    - intros _. eapply brief_later; [|exact Hb]. etrans; [exact Hl|]. etrans; [exact Hl3|]. close_later. }
  cbn beta. intros r p4 [[Hh He] [Hk _]]. split; [done|]. intros Hr.
  rewrite <-(Hend (Hk Hr)). by apply He.
Qed.

End tail.

(** ** The API and the worker *)

(** Which process is run: the API with what its constructors answer, or the worker. *)
Inductive program : Type :=
| API (services : Config → res error (option error)) (cfg : Config)
| Worker (cfg : WorkerConfig).

Definition run_program `{Mach : Machine, F : Fx, Url : UrlParser} (fuel : nat) (prog : program)
    (ctx : context) : Proc (option error) :=
  match prog with
  | API services cfg => api_Run fuel services ctx cfg
  | Worker cfg => worker_Run fuel ctx cfg
  end.

Definition parts_of (prog : program) : list part :=
  match prog with
  | API _ _ => [Telemetry; DatabasePool; HTTPService]
  | Worker _ => [Telemetry; DatabasePool; Consumer]
  end.

Definition program_infra (prog : program) : InfraConfig :=
  match prog with API _ cfg => infrastructure cfg | Worker cfg => worker_infrastructure cfg end.

Section programs.
  Context `{Mach : Machine, F : Fx, L : !FxLaws, Url : UrlParser}.

(** The configurations that the other program does not have are never looked at. *)
Definition no_api : Config := zero_config.
Definition no_worker : WorkerConfig := zero_worker_config.

(** The hooks of a program whose constructors succeed, and the time it leaves to their stop. *)
Definition program_hooks (fuel : nat) (prog : program) : list Hook :=
  match prog with
  | API services cfg =>
    match api_Module cfg (services cfg) with
    | Ok hooks => map Append ([newTelemetry (infrastructure cfg); newDatabase fuel (infrastructure cfg)] ++ hooks)
    | Err _ => []
    end
  | Worker cfg =>
    match worker_Module fuel cfg with
    | Ok hooks =>
      map Append ([newTelemetry (worker_infrastructure cfg); newDatabase fuel (worker_infrastructure cfg)] ++ hooks)
    | Err _ => []
    end
  end.

Definition stop_timeout (prog : program) : Z :=
  Infra_ShutdownTimeout (program_infra prog) + infrastructureShutdownGrace.

(** A program is refused before anything is started, or it is a run of its parts. *)
Lemma program_cases fuel prog ctx p :
  (∃ e, run_program fuel prog ctx p = Returned (Some e) p)
  ∨ ∃ infra api he work,
      program_hooks fuel prog = map (hooked fuel infra api he work) (parts_of prog)
      ∧ run_program fuel prog ctx p =
          runApplication fuel ctx (fx_New (map (hooked fuel infra api he work) (parts_of prog)) (stop_timeout prog)) p
      ∧ 0 < Infra_ShutdownTimeout (program_infra prog).
Proof.
  destruct prog as [services cfg|cfg]; simpl.
  - unfold api_Run. destruct (Config_Validate cfg) eqn:Ev; [left; by eexists|].
    unfold Run, mbind, Proc_bind, get. destruct (ctx_Err ctx p); [left; by eexists|].
    unfold api_Module. destruct (services cfg) as [he|e]; [|left; by eexists].
    right. exists (infrastructure cfg), cfg, he, no_worker. do 2 (split; [done|]).
    apply Validate_positive in Ev. simpl. lia.
  - unfold worker_Run. destruct (WorkerConfig_Validate cfg) eqn:Ev; [left; by eexists|].
    unfold Run, mbind, Proc_bind, get. destruct (ctx_Err ctx p); [left; by eexists|].
    right. exists (worker_infrastructure cfg), no_api, None, cfg. do 2 (split; [done|]).
    unfold WorkerConfig_Validate, InfraConfig_Validate in Ev. split_matches_in Ev. simpl in *. bool_to_prop. lia.
Qed.

Lemma parts_ordered prog : ordered (reverse (parts_of prog)).
Proof. destruct prog; cbn; unfold above; repeat constructor; simpl; lia. Qed.

Lemma standing_fresh t : standing [] (fresh_process t).
Proof. split; [constructor|done|constructor]. Qed.

(** What ended the run before the stop stays in its error. *)
Lemma end_of_run_keeps fuel ctx startupCtx e app p r p' :
  end_of_run fuel ctx startupCtx (Some e) app p = Returned r p' → keeps (Some e) r.
Proof.
  unfold end_of_run, mbind, Proc_bind. simpl.
  destruct (cancel startupCtx p) as [[] p1| |]; [|done..].
  destruct (fx_Stop _ _ _) as [[stopped app'] p2| |]; [|done..]. intros [= <- _].
  apply keeps_join. left.
Qed.

(** A run in which fx gives up starting reports it. *)
Lemma run_gave_up fuel ctx hooks d p r p' :
  sane p →
  gave_up (lifecycle_ctx ctx p d) (launched ctx p)
    (fx_Start (fx_New hooks d) (lifecycle_ctx ctx p d) (launched ctx p)) →
  runApplication fuel ctx (fx_New hooks d) p = Returned r p' →
  reports_error r (TSentinel ContextDeadlineExceeded).
Proof.
  intros Hs (e & app & p1 & s & Hr & Hc & He & Hk).
  unfold runApplication, mbind, Proc_bind. simpl. rewrite New_StopTimeout.
  change (fx_Start (fx_New hooks d) _ _) with (fx_Start (fx_New hooks d) (lifecycle_ctx ctx p d) (launched ctx p)).
  rewrite Hr. simpl. intros H%end_of_run_keeps. apply H. exists e. split; [done|].
  specialize (Hk _ _ _ eq_refl). unfold ctx_Err in Hc. simpl in Hc. rewrite Hk in Hc. simpl in Hc.
  rewrite cancelled_at_None in Hc.
  - simpl in Hc. destruct (_ <=? _); [|done]. by injection Hc as <-.
  - eapply Forall_impl; [exact Hs|]. intros [i t] Hi. simpl in *. lia.
Qed.

(** A run that returns has ended as it should, or says that time has run out. *)
Lemma program_ended fuel prog ctx t r p' :
  run_program fuel prog ctx (fresh_process t) = Returned r p' →
  held (events p') = Some [] ∧ r ≠ None ∨ run_ended ctx (reverse (parts_of prog)) r p'
  ∨ reports_error r (TSentinel ContextDeadlineExceeded).
Proof.
  intros H. destruct (program_cases fuel prog ctx (fresh_process t)) as
    [[e He]|(infra & api & he & work & _ & He & _)]; rewrite He in H.
  { injection H as <- <-. by left. }
  right. edestruct (Start_runs (F := F)) as [[G _]|G]; [right; eapply run_gave_up, H; [apply (standing_fresh t)|exact G]|left].
  assert (Ha : runs true (run_program fuel prog ctx) (run_ended ctx (reverse (parts_of prog))) (fresh_process t)).
  { unfold runs. rewrite He. apply app_runs; [apply standing_fresh|apply parts_ordered|by left|by left|exact G]. }
  unfold runs in Ha. by rewrite He, H in Ha.
Qed.

(** C37: Whatever fails and whenever the signal arrives, a run of the API or of the worker that
    returns has given back all that it acquired, the server or the consumer before the pool and
    the pool before telemetry, nothing twice; or its error says that the time for that ran out. *)
Theorem Run_releases fuel prog ctx t r p' :
  run_program fuel prog ctx (fresh_process t) = Returned r p' →
  held (events p') = Some [] ∨ reports_error r (TSentinel ContextDeadlineExceeded).
Proof. intros [[H _]|[[H _]|H]]%program_ended; auto. Qed.

(** A run without error is a graceful one. *)
Lemma program_graceful fuel prog ctx t p' :
  run_program fuel prog ctx (fresh_process t) = Returned None p' →
  ended ctx p' = true ∧ held (events p') = Some [] ∧ Forall (finished p') (parts_of prog).
Proof.
  intros [[_ ?]|[[[H|(x & ? & _)] Hn]|(x & ? & _)]]%program_ended; [done| |done..].
  destruct (Hn eq_refl) as [Hf He]. split_and!; [done..|].
  rewrite <-(reverse_involutive (parts_of prog)). by apply Forall_reverse.
Qed.

(** C39: A run ends, and never panics, when the signal comes at [s]: within [fuel] steps of each
    wait, where [fuel] nanoseconds cover the time up to the signal and the time-outs of start and
    stop. The calls may fail or not; but the hooks, and their roll-back if one fails, have to be
    through with the start before these time-outs are over, for fx does not wait for them. *)
Theorem process_terminates fuel prog t s :
  signal = Some s → s - t ≤ Z.of_nat fuel → 0 ≤ fx_StartTimeout →
  fx_StartTimeout + stop_timeout prog ≤ Z.of_nat fuel →
  (let ctx := lifecycle_ctx Signalled (fresh_process t) (stop_timeout prog) in
   ∀ r p', start_or_roll_back ctx (program_hooks fuel prog) (launched Signalled (fresh_process t)) = Returned r p' →
     ctx_Err ctx p' = None) →
  ∃ r p', run_program fuel prog Signalled (fresh_process t) = Returned r p'.
Proof.
  intros Hs Ht H0 Hf Hin. destruct (program_cases fuel prog Signalled (fresh_process t)) as
    [[e He]|(infra & api & he & work & Hh & He & Hpos)]; rewrite He; [by eauto|].
  cbv zeta in Hin. rewrite Hh in Hin.
  pose proof (parts_ordered prog) as Hpo.
  destruct (launched_ready false fuel Signalled (fresh_process t) (stop_timeout prog)) as (Hst & Hup & Hb);
    [apply standing_fresh|by right|].
  pose proof (hooks_run false fuel infra api he work (parts_of prog) _ _ Hst Hpo Hup Hb) as Hrun.
  destruct (Start_runs (map (hooked fuel infra api he work) (parts_of prog)) (stop_timeout prog)
    (lifecycle_ctx Signalled (fresh_process t) (stop_timeout prog)) (launched Signalled (fresh_process t)))
    as [[_ Hlate]|Hdoc].
  { unfold runs in Hrun. destruct (start_or_roll_back _ _ _) as [r p'| |]; [|done|done].
    by destruct (Hlate r p' eq_refl (Hin r p' eq_refl)). }
  assert (Ha : runs false (run_program fuel prog Signalled)
                 (run_ended Signalled (reverse (parts_of prog))) (fresh_process t)).
  { unfold runs. rewrite He. apply app_runs; [apply standing_fresh|done|right; unfold stop_timeout in *; lia| |exact Hdoc].
    right. exists s, Canceled. simpl. rewrite Hs. split; [done|lia]. }
  unfold runs in Ha. rewrite He in Ha. destruct (runApplication _ _ _ _) as [r p'| |]; [by eauto|done|done].
Qed.

(** An exit status of zero is the absence of an error. *)
Lemma main_zero `{Cb : Cobra} c args p p' : main c args p = Returned 0 p' →
  ExecuteContext c args Signalled p = Returned None p'.
Proof.
  unfold main, mbind, Proc_bind. destruct (ExecuteContext _ _ _ _) as [[e|] p1| |]; [done| |done..].
  by intros [= ->].
Qed.

(** C38: Called as [api], [api serve] or [worker], a program exits with status 0 only after a graceful
    run: its configuration was read and valid, the signal has arrived, every request was drained
    or the consumer had returned, the pool was closed, and nothing was left to give back. *)
Theorem exit_zero_graceful `{Cb : Cobra} fuel env parse_api parse_worker parse_migration services doc args t p' :
  (main (api_NewCommand fuel env parse_api parse_migration services doc) args (fresh_process t) = Returned 0 p' →
   args = [] ∨ args = ["serve"] →
   ∃ cfg, Config_Parse parse_api (Some env) = (cfg, None)
     ∧ ended Signalled p' = true ∧ held (events p') = Some []
     ∧ Drained None ∈ events p' ∧ pool_closed p' = true)
  ∧ (main (worker_NewCommand fuel env parse_worker) args (fresh_process t) = Returned 0 p' → args = [] →
     ∃ cfg, WorkerConfig_Parse parse_worker (Some env) = (cfg, None)
       ∧ ended Signalled p' = true ∧ held (events p') = Some []
       ∧ consumer_done (consumer p') = true ∧ pool_closed p' = true).
Proof.
  split.
  - intros H%main_zero Hargs.
    assert (serve fuel env parse_api services Signalled (fresh_process t) = Returned None p') as Hs.
    { rewrite Execute_runs in H; [|by destruct Hargs as [-> | ->]; (split; [repeat constructor; done|set_solver])].
      by destruct Hargs as [-> | ->]. }
    unfold serve in Hs. destruct (Config_Parse parse_api (Some env)) as [cfg [e|]]; [done|].
    apply (program_graceful fuel (API services cfg)) in Hs as (He & Hh & Hf). exists cfg.
    apply Forall_cons in Hf as [_ [Hd [Hr _]%Forall_cons]%Forall_cons]. by split_and!.
  - intros H%main_zero ->. rewrite Execute_runs in H; [|split; [constructor|done]].
    assert (work fuel env parse_worker Signalled (fresh_process t) = Returned None p') as Hs by exact H.
    unfold work in Hs. destruct (WorkerConfig_Parse parse_worker (Some env)) as [cfg [e|]]; [done|].
    apply (program_graceful fuel (Worker cfg)) in Hs as (He & Hh & Hf). exists cfg.
    apply Forall_cons in Hf as [_ [Hd [Hr _]%Forall_cons]%Forall_cons]. by split_and!.
Qed.

End programs.
