(* ===== verification/Examples.v ===== *)
(** * A concrete program

    Instances of every parameter of the model, with the laws proved, a small database and
    a session of requests on it. The witnesses of the theorems are evaluated here: the
    hash function and the generators are simple total functions, the schedule has no
    failures and no other clients, and one provider, [github], is enabled. *)
From stdpp Require Import pretty.
From S2P Require Import Prelude.
From S2P Require Import Text.
From S2P Require Import GoErrors.
From S2P Require Import Runtime.
From S2P Require Import Identity.
From S2P Require Import Schema.
From S2P Require Import Storage.
From S2P Require Import Logic.
From S2P Require Import Tables.
From S2P Require Import MailOutbox.
From S2P Require Import AccountModel.
From S2P Require Import AccountHistory.
From S2P Require Import AccountSecurity.
From Stdlib Require Import Ascii.

(** ** The environment *)

(** The first [k] characters of [s], filled up with dots. *)
Fixpoint fit (k : nat) (s : string) : string :=
  match k, s with
  | O, _ => ""
  | S k, EmptyString => String "." (fit k "")
  | S k, String c s => String c (fit k s)
  end.

Lemma length_fit k s : String.length (fit k s) = k.
Proof. revert s. induction k as [|k IH]; intros [|c s]; simpl; auto. Qed.

Definition example_uuid (n : nat) : string := "id-" +:+ pretty (N.of_nat n mod 1000)%N.

(** The database's order: any total order on text will do. *)
Definition example_le (s t : string) : bool :=
  (countable.encode s <=? countable.encode t)%positive.

Global Instance example_runtime : Runtime := {|
  sha256_Sum256 s := fit 32 s;
  mail_ParseAddress s := Some s;
  unicode_ToLower z := z;
  uuid_NewString := example_uuid;
  rand_Read n k := fit k (pretty (N.of_nat n));
  rand_IntN n m := Z.of_nat n mod m;
  url_Link base path fragment := Some (base +:+ path +:+ "#" +:+ fragment);
  collate_le := example_le
|}.

Lemma example_uuid_Identifier n : Identifier (example_uuid n) = true.
Proof.
  unfold example_uuid.
  pose proof (seqZ_forallb (λ z, Identifier ("id-" +:+ pretty (Z.to_N z))) 1000
                (Z.of_N (N.of_nat n mod 1000))) as H.
  cbv beta in H. rewrite N2Z.id in H. apply H; [vm_compute; reflexivity|].
  split; [apply N2Z.is_nonneg|]. by apply (N2Z.inj_lt _ 1000), N.mod_upper_bound.
Qed.

Global Instance example_laws : RuntimeLaws example_runtime.
Proof.
  split.
  - intros s. apply (length_fit 32).
  - intros n m Hm. by apply Z.mod_pos_bound.
  - intros n k. apply (length_fit k).
  - apply example_uuid_Identifier.
  - intros s t. change (example_le s t = true ∨ example_le t s = true).
    unfold example_le. rewrite !Pos.leb_le. lia.
  - intros s t u. change (example_le s t = true → example_le t u = true → example_le s u = true).
    unfold example_le. rewrite !Pos.leb_le. lia.
  - intros s t. change (example_le s t = true → example_le t s = true → s = t).
    unfold example_le. rewrite !Pos.leb_le. intros H1 H2. apply (inj countable.encode). lia.
Qed.

Global Instance example_schedule : Schedule := {|
  sched_fault _ := None;
  sched_env _ d := d;
  sched_tick _ := 1%nat;
  sched_skew _ := 0
|}.

Global Instance example_env (R : relation DB) `{!PreOrder R} : EnvGuar R.
Proof. intros n d. simpl. reflexivity. Qed.

Global Instance example_passwords : Passwords := {|
  Passwords_Hash _ password := Ok ("h:" +:+ password);
  Passwords_Verify _ hash password := Ok (hash ==? "h:" +:+ password, false);
  Passwords_Validate password := 8 <=? len password
|}.

Global Instance example_federation : Federation := {|
  Federation_Enabled provider := provider ==? "github";
  Federation_Version _ := "v1";
  Federation_Start _ provider state _ := Ok ("https://github.com/?state=" +:+ state, "v1");
  Federation_Verify _ _ _ code _ := Ok (mkVerifiedIdentity "https://github.com" code "Ada")
|}.

Global Instance example_options : Options := {|
  IdleTTL := Hour; MaxTTL := 24 * Hour; FrontendURL := "https://app.example"
|}.

(** The sender accepts everything; the worker is stopped at step 40. *)
Global Instance example_worker : Worker := {|
  send _ _ _ := None;
  ctx_Err n := if (n <? 40)%nat then None else Some ContextCanceled
|}.

(** ** The database at the start: one administrator with a password *)

Definition root : User :=
  mkUser "root" "Root" (Some "root@example.com") (Some "root@example.com") (Some 0) true
    UserActive RoleAdmin 1 0 0.

Definition root_account : Account :=
  mkAccount "root-password" "root" CredentialProvider "root" LocalNamespace (Some "h:correct horse")
    1 0 0 None None.

Definition db0 : DB :=
  mkDB ∅ ∅ {["root" := root]} {["root-password" := root_account]} ∅ ∅ ∅ [] ∅ ∅.

Definition world0 : World := mkWorld db0 0 0 [] [] "".

Lemma table_ok_empty {R} ok clash (id : R → string) : table_ok ok clash id ∅.
Proof.
  split_and!.
  - by intros k r []%lookup_empty_Some.
  - by intros k r []%lookup_empty_Some.
  - by intros i j a b []%lookup_empty_Some.
Qed.

Lemma table_ok_singleton {R} ok clash (id : R → string) r :
  ok r → table_ok ok clash id {[id r := r]}.
Proof.
  intros Hr. assert (H : ∀ k x, ({[id r := r]} : gmap string R) !! k = Some x → k = id r ∧ x = r).
  { intros k x [Hk Hx]%lookup_singleton_Some. done. }
  split_and!.
  - by intros k x [-> ->]%H.
  - by intros k x [_ ->]%H.
  - by intros i j a b [-> _]%H [-> _]%H _.
Qed.

Lemma db0_ok : auth_ok db0.
Proof.
  split; simpl; try exact (table_ok_empty _ _ _); try (by intros k ? []%lookup_empty_Some).
  - apply (table_ok_singleton _ _ User_ID root).
    split_and!; [by vm_compute..|right; by vm_compute|intros _; by eexists].
  - apply (table_ok_singleton _ _ Account_ID root_account). split; [simpl; lia|]. by vm_compute.
  - intros k a [<- <-]%lookup_singleton_Some. simpl. rewrite lookup_singleton_eq. by eexists.
Qed.

(** ** A session of requests *)

Definition play (ops : list account_op) (w : World) : World :=
  foldl (λ w o, (run_op o w).2) w ops.

Lemma play_served ops w : rtc served w (play ops w).
Proof.
  revert w. induction ops as [|o ops IH]; intros w; [done|]. simpl.
  eapply rtc_l; [by exists o|apply IH].
Qed.

Lemma play_ok ops : auth_ok (w_db (play ops world0)).
Proof. apply (served_history world0 _ (play_served ops world0)). exact db0_ok. Qed.

(** A run whose answer is computed. *)
Lemma run_answer {A} (m : M A) w x : (m w).1 = x → m w = (x, (m w).2).
Proof. intros <-. by destruct (m w). Qed.

Definition anonymous : Request := mkRequest (mkSubject "" "") "req-1" "10.0.0.1".
Definition as_user (uid sid : string) : Request := mkRequest (mkSubject uid sid) "req-2" "10.0.0.1".

Definition login_root : account_op := OpLogin anonymous "Root@example.com" "correct horse".

(** After the administrator has logged in. *)
Definition world1 : World := play [login_root] world0.

Definition first_session (w : World) : option UserSession :=
  match map_to_list (user_sessions (w_db w)) with (_, s) :: _ => Some s | [] => None end.

Example login_works :
  option_map UserSession_UserID (first_session world1) = Some "root".
Proof. vm_compute. reflexivity. Qed.
