(* ===== verification/Witnesses.v ===== *)
(** * The theorems at work

    Every theorem with hypotheses, applied to a run of the concrete program of [Examples]:
    the hypotheses are met there, by evaluation. *)
From S2P Require Import Prelude.
From S2P Require Import Text.
From S2P Require Import GoErrors.
From S2P Require Import Runtime.
From S2P Require Import Identity.
From S2P Require Import Pagination.
From S2P Require Import Schema.
From S2P Require Import Storage.
From S2P Require Import Logic.
From S2P Require Import Json.
From S2P Require Import Queries.
From S2P Require Import AuthQueries.
From S2P Require Import MailQueries.
From S2P Require Import Owned.
From S2P Require Import Tables.
From S2P Require Import Projects.
From S2P Require Import Tasks.
From S2P Require Import MailOutbox.
From S2P Require Import MailDelivery.
From S2P Require Import AccountModel.
From S2P Require Import AccountStore.
From S2P Require Import AccountCore.
From S2P Require Import AccountSessions.
From S2P Require Import AccountFlows.
From S2P Require Import AccountHistory.
From S2P Require Import AccountGuar.
From S2P Require Import AccountFacts.
From S2P Require Import AccountSecurity.
From S2P Require Import AccountSignOut.
From S2P Require Import AccountProofs.
From S2P Require Import AccountAuthority.
From S2P Require Import AccountLimits.
From S2P Require Import Examples.

Ltac computed := vm_compute; reflexivity.

(** ** A day in the life of an administrator *)

Definition me : Request := as_user "root" "id-9".
Definition my_token : string := (NewToken 8 SessionPrefix).1.

Definition sign_out : account_op := OpRevokeSession me "" true.
Definition world_out : World := (run_op sign_out world1).2.

Definition reset : Verification := mkVerification VerifyResetPassword "battery staple".
Definition world_forgot : World := play [OpForgotPassword anonymous "root@example.com"] world1.
Definition reset_token : string := (NewToken 20 ChallengePrefix).1.

Definition world_flow : World := play [OpStartLogin anonymous "github" FlowRegister] world1.
Definition flow_token : string := (NewToken 16 FlowPrefix).1.
Definition flow_state : string := (NewToken 17 "").1.

Definition prove (operation target : string) : account_op :=
  OpReauthenticate me (mkReauthentication MethodPassword operation "correct horse" target "").
Definition world_linked : World := play
  [prove OperationLinkAccount "github"; OpStartLink me "github" "id-26";
   OpCallback anonymous (NewToken 31 FlowPrefix).1 "ada" (NewToken 32 "").1;
   OpConfirmLink me "id-35"; prove OperationUnlinkAccount "id-70"] world1.

Lemma world1_ok : auth_ok (w_db world1).
Proof. apply play_ok. Qed.

Lemma ok_from_world1 ops : auth_ok (w_db (play ops world1)).
Proof. apply (served_history world1 _ (play_served ops world1)). exact world1_ok. Qed.

Lemma world_linked_ok : auth_ok (w_db world_linked).
Proof. apply ok_from_world1. Qed.

Lemma world_out_ok : auth_ok (w_db world_out).
Proof. exact (ok_from_world1 [sign_out]). Qed.

Lemma served_evolves_witness : auth_ok (w_db world_linked) ∧ history db0 (w_db world_linked).
Proof.
  apply (served_evolves world0 world_linked); [exact db0_ok|].
  transitivity world1; apply play_served.
Defined.

Lemma served_no_promotion_witness :
  ∃ u, users db0 !! "root" = Some u ∧ User_Role u = RoleAdmin.
Proof.
  apply (served_no_promotion world0 world1 "root" root); [exact db0_ok|apply play_served| |computed].
  vm_compute. reflexivity.
Defined.

(** The session is revoked; logging in again does not revive it. *)
Definition revoked_session : UserSession :=
  mkUserSession "id-9" "root" (Digest my_token) MethodPassword "root-password" 5 1 5 5
    3600000000005 86400000000005 (Some 15).

Lemma sign_out_final_witness :
  (AuthenticateSession my_token (play [login_root] world_out)).1 ≠ Ok ("root", "id-9").
Proof.
  apply (sign_out_final sign_out "root" world1 world_out (play [login_root] world_out)
    "id-9" revoked_session my_token).
  - exact world1_ok.
  - reflexivity.
  - apply (run_answer (run_op sign_out) world1). computed.
  - computed.
  - reflexivity.
  - computed.
  - apply play_served.
Defined.

Lemma dead_session_rejected_witness :
  (AuthenticateSession my_token (play [login_root] world_out)).1 ≠ Ok ("root", "id-9").
Proof.
  apply (dead_session_rejected my_token (Digest my_token) world_out).
  - exact world_out_ok.
  - computed.
  - exists "id-9", revoked_session. split; [computed|]. split; [reflexivity|]. left. by eexists.
  - apply play_served.
Defined.

Lemma AuthenticateSession_sound_witness :
  let d := sched_env (w_step world1) (w_db world1) in
  ∃ s u, user_sessions d !! "id-9" = Some s
    ∧ UserSession_UserID s = "root" ∧ UserSession_TokenHash s = sha256_Sum256 my_token
    ∧ UserSession_RevokedAt s = None ∧ w_clock world1 < UserSession_IdleExpiresAt s
    ∧ w_clock world1 < UserSession_AbsoluteExpiresAt s
    ∧ users d !! "root" = Some u ∧ User_Status u = UserActive
    ∧ User_AuthVersion u = UserSession_AuthVersion s.
Proof.
  apply (AuthenticateSession_sound my_token world1 "root" "id-9"
           (AuthenticateSession my_token world1).2); [exact world1_ok|].
  apply (run_answer (AuthenticateSession my_token) world1). computed.
Defined.

Definition verify_run : M unit := VerifyChallenge anonymous reset_token reset.

Lemma challenge_single_use_witness :
  (VerifyChallenge anonymous reset_token reset (verify_run world_forgot).2).1 ≠ Ok tt.
Proof.
  apply (challenge_single_use anonymous reset_token reset world_forgot
    (verify_run world_forgot).2); [apply ok_from_world1| |done].
  apply (run_answer verify_run world_forgot). computed.
Defined.

Lemma reset_signs_out_witness :
  ∃ id v, auth_verifications (w_db (verify_run world_forgot).2)
            !! id = Some v
    ∧ TokenDigest reset_token ChallengePrefix = Ok (AuthVerification_TokenHash v)
    ∧ signed_out (AuthVerification_UserID v)
        (w_db (verify_run world_forgot).2).
Proof.
  apply (reset_signs_out anonymous reset_token reset world_forgot);
    [apply ok_from_world1|done|]. apply (run_answer verify_run world_forgot). computed.
Defined.

Definition callback_run : M CallbackResult := Callback anonymous flow_token "ada" flow_state.

Lemma callback_single_use_witness :
  (Callback anonymous flow_token "ada" flow_state (callback_run world_flow).2).1
  ≠ Ok (sessionCallback (mkSessionCredentials my_token "id-9" 0 0)).
Proof.
  eapply (callback_single_use anonymous flow_token "ada" flow_state world_flow _
    (callback_run world_flow).2); [apply ok_from_world1| |done].
  apply (run_answer callback_run world_flow). computed.
Defined.

Definition login_run : M SessionCredentials := Login anonymous "Root@example.com" "correct horse".
Definition my_credentials : SessionCredentials :=
  mkSessionCredentials my_token "id-9" 3600000000005 86400000000005.

Lemma Login_sound_witness :
  ∃ address w0 u a upgrade,
    normalizeEmail "Root@example.com" = Ok address ∧ entryLimit anonymous "login" address world0 = (Ok tt, w0)
    ∧ let w1 := advance (arrive w0) in
      let w2 := advance (arrive w1) in
      let w3 := if (upgrade : bool) then advance (advance w2) else advance w2 in
      (users (w_db w1) !! User_ID u = Some u ∧ User_EmailNormalized u = Some address
       ∧ User_Status u = UserActive ∧ is_Some (User_EmailVerifiedAt u))
      ∧ (accounts (w_db w2) !! Account_ID a = Some a ∧ Account_UserID a = User_ID u
         ∧ Account_ProviderID a = CredentialProvider ∧ Account_RevokedAt a = None)
      ∧ Passwords_Verify (w_step w2) (text (Account_PasswordHash a)) "correct horse" = Ok (true, upgrade)
      ∧ ∃ u' a' row,
          (users (w_db (arrive w3)) !! User_ID u = Some u' ∧ User_Status u' = UserActive
           ∧ User_AuthVersion u' = User_AuthVersion u)
          ∧ (accounts (w_db (arrive w3)) !! Account_ID a = Some a' ∧ Account_UserID a' = User_ID u
             ∧ Account_RevokedAt a' = None ∧ Account_Version a' = Account_Version a)
          ∧ users (w_db (login_run world0).2) !! User_ID u = Some u'
          ∧ opened (w_clock w3) my_credentials u' MethodPassword a' row (w_db (login_run world0).2).
Proof.
  apply (Login_sound anonymous "Root@example.com" "correct horse" world0 my_credentials (login_run world0).2);
    [exact db0_ok|]. apply (run_answer login_run world0). computed.
Defined.

Lemma login_authenticates_witness :
  ∃ uid w, AuthenticateSession my_token (login_run world0).2 = (Ok (uid, "id-9"), w).
Proof.
  apply (login_authenticates login_root my_credentials world0 (login_run world0).2).
  - exact db0_ok.
  - apply (run_answer login_run world0). computed.
  - intros n d _. by split.
  - computed.
Defined.

Definition world_unlinked : World := (Unlink me "id-70" "id-91" world_linked).2.

Lemma unlink_works : Unlink me "id-70" "id-91" world_linked = (Ok tt, world_unlinked).
Proof. apply (run_answer (Unlink me "id-70" "id-91") world_linked). computed. Qed.

Lemma Unlink_safe_witness :
  ∃ proof, entitles (w_clock world_linked) (sched_env (w_step world_linked) (w_db world_linked)) me
             OperationUnlinkAccount "id-70" None proof
    ∧ AuthFlow_ID proof = "id-91"
    ∧ AuthFlow_AccountID proof ≠ Some "id-70"
    ∧ (∃ f, auth_flows (w_db world_unlinked) !! "id-91" = Some f
        ∧ AuthFlow_Status f = FlowConsumed)
    ∧ (∃ a, accounts (w_db world_unlinked) !! "id-70" = Some a
        ∧ is_Some (Account_RevokedAt a))
    ∧ ∃ k b, k ≠ "id-70" ∧ accounts (w_db world_unlinked) !! k = Some b
        ∧ Account_UserID b = r_UserID me ∧ Account_RevokedAt b = None ∧ accountEnabled b = true.
Proof.
  apply (Unlink_safe me "id-70" "id-91" world_linked world_unlinked);
    [exact world_linked_ok|exact unlink_works].
Defined.

Lemma MapError_keeps_cause_witness :
  Is (MapError (EPg "23505" "accounts_provider_identity_key") AccountModel.storageErrors)
     (TBusiness AccountModel.ErrConflict) = true
  ∧ Is (MapError (ESentinel PgxErrNoRows) AccountModel.storageErrors) (TSentinel PgxErrNoRows) = true.
Proof.
  split; [computed|]. apply MapError_keeps_cause. computed.
Defined.

Lemma RateLimit_window_witness :
  attempts "k" 60 [0; 1; Second; 59 * Second] db0 = [1; 2; 3; 4].
Proof.
  rewrite (RateLimit_window "k" 60 [1; Second; 59 * Second] 0 db0); [reflexivity| | |reflexivity].
  - intros r [=].
  - repeat constructor.
Defined.

Definition limit_run : M unit := limit "login.ip" "10.0.0.1" 60 Minute.

Lemma limit_outcome_witness :
  (∃ bucket, auth_rate_limits (w_db (limit_run world1).2)
       !! sha256_Sum256 ("login.ip" +:+ String NUL "" +:+ "10.0.0.1") = Some bucket
     ∧ AuthRateLimit_Count bucket ≤ 60)
  ∨ ∃ e, Ok tt = Err e ∧ As asBusiness e = Some ErrUnavailable.
Proof.
  apply (limit_outcome "login.ip" "10.0.0.1" 60 Minute world1 (Ok tt)).
  apply (run_answer limit_run world1). computed.
Defined.

(** A password is guessed eleven times more, from as many addresses, after the one login. *)
Definition guesses : list (Request * string) :=
  (λ c, (mkRequest (mkSubject "" "") "req" ("10.0.0." +:+ String c ""), "root@example.com"))
  <$> String.list_ascii_of_string "23456789abc".

Definition guess_run : M (list (res error unit)) := entry_attempts "login" guesses.

Definition guess_answers : list (res error unit) :=
  match (guess_run world1).1 with Ok answers => answers | Err _ => [] end.

Definition guess_bucket : AuthRateLimit := mkAuthRateLimit 1 900000000001.

Lemma entry_attempts_bounded_witness :
  passed (λ q, q.2 ==? "root@example.com") guesses guess_answers ≤ 9.
Proof.
  pose proof (entry_attempts_bounded "login" guesses world1 guess_answers (guess_run world1).2) as H.
  destruct H as [H _]; [apply (run_answer guess_run world1); computed|].
  apply (H "root@example.com" guess_bucket).
  - computed.
  - computed.
  - intros k n d _ Hc. exact Hc.
Defined.

(** ** Projects and tasks *)

Lemma no_projects k p : projects (w_db world0) !! k = Some p → False.
Proof. exact (lookup_empty_Some k p). Qed.

Lemma no_tasks k t : tasks (w_db world0) !! k = Some t → False.
Proof. exact (lookup_empty_Some k t). Qed.

Definition my_context : context := WithSubject "root".
Definition create_project : Projects.op := Projects.OpCreate "compiler" "".
Definition world_project : World := (Projects.serve my_context create_project world0).2.

Lemma project_serve_refines_witness :
  let '(r, w) := Projects.serve my_context create_project world0 in
  (∃ d now, seen world0 d ∧ w_clock world0 ≤ now ≤ w_clock w
     ∧ implements projects Project_OwnerID Projects.fromRow Projects.storageErrors "root" d (w_db w) r
         (Projects.spec now (NewID 0) create_project (projects_of "root" d)))
  ∨ ∃ d, seen world0 d ∧ Projects.id_collision create_project world0 d r w.
Proof.
  destruct (Projects.serve my_context create_project world0) as [r w] eqn:E.
  apply (project_serve_refines my_context create_project world0 r w); [computed| |exact E].
  by intros k p []%no_projects.
Defined.

Lemma project_serve_wf_witness : projects_wf (w_db world_project).
Proof.
  apply (project_serve_wf my_context create_project world0).
  split; [by intros k p []%no_projects|by intros i j p q []%no_projects].
Defined.

Definition create_task : Tasks.op := Tasks.OpCreate (mkDetails "write proofs" "" "").
Definition world_task : World := (Tasks.serve my_context create_task world0).2.

Lemma task_serve_refines_witness :
  let '(r, w) := Tasks.serve my_context create_task world0 in
  (∃ d now, seen world0 d ∧ w_clock world0 ≤ now ≤ w_clock w
     ∧ implements tasks Task_OwnerID Tasks.fromRow Tasks.storageErrors "root" d (w_db w) r
         (Tasks.spec now (NewID 0) create_task (tasks_of "root" d)))
  ∨ ∃ d, seen world0 d ∧ Tasks.id_collision create_task world0 d r w.
Proof.
  destruct (Tasks.serve my_context create_task world0) as [r w] eqn:E.
  apply (task_serve_refines my_context create_task world0 r w); [computed| |exact E].
  by intros k p []%no_tasks.
Defined.

Lemma task_serve_wf_witness : tasks_wf (w_db world_task).
Proof.
  apply (task_serve_wf my_context create_task world0).
  split; by intros k p []%no_tasks.
Defined.

(** ** Mail *)

Definition greeting : EnqueueMailParams :=
  mkEnqueueMailParams "m1" "greeting" "ada@example.com" "Hello" "<p>Hello</p>" Hour.
Definition world_mail : World := mkWorld (EnqueueMail greeting 0 db0).2 0 0 [] [] "".

Lemma outbox_ok_db0 : outbox_ok db0.
Proof. split; by intros k m []%(lookup_empty_Some (A := MailOutbox) k m). Qed.

Lemma world_mail_ok : outbox_ok (w_db world_mail).
Proof. exact (proj1 (EnqueueMail_live greeting 0 db0 outbox_ok_db0)). Qed.

Definition worker_run : M (option unit) := Run_ 50 Second.

Lemma Run_live_witness :
  outbox_ok (w_db (worker_run world_mail).2)
  ∧ ∀ k m, mail_outbox (w_db world_mail) !! k = Some m →
      ∃ m', mail_outbox (w_db (worker_run world_mail).2) !! k = Some m' ∧ rtc mail_step m m'
        ∧ MailOutbox_Attempts m ≤ MailOutbox_Attempts m' ≤ maxDeliveryAttempts.
Proof. exact (Run_live 50 Second world_mail world_mail_ok). Defined.

Lemma Run_terminates_witness : ∃ w, Run_ 50 Second world_mail = (Ok (Some tt), w).
Proof.
  apply (Run_terminates 40); [|reflexivity|lia|simpl; lia].
  intros n Hn. simpl. destruct (Nat.ltb_spec n 40); [lia|discriminate].
Defined.

Example worker_sends : (w_sent (worker_run world_mail).2).*1 = ["m1"].
Proof. computed. Qed.

Lemma ProcessOne_sends_witness : ∃ row deadline,
  w_sent (ProcessOne world_mail).2 = w_sent world_mail ++ [(MailOutbox_ID row, deadline)]
  ∧ MailOutbox_LeaseID row = Some (NewID 1) ∧ deadline ≤ MailOutbox_ExpiresAt row.
Proof.
  destruct (ProcessOne_sends world_mail true None (ProcessOne world_mail).2)
    as [H|(m & row & deadline & H & _ & _ & _ & _ & _ & Hrow & _ & Hd & _)].
  - exact world_mail_ok.
  - apply (run_answer ProcessOne world_mail). computed.
  - vm_compute in H. discriminate H.
  - exists row, deadline. split; [exact H|]. split; [by rewrite Hrow|].
    rewrite Hd. etransitivity; [apply Z.le_min_l|apply Z.le_min_r].
Defined.

(** A worker that goes on for a while, with a sender that refuses every mail but one. *)
Definition patient_worker : Worker := {|
  send _ message _ := if Message_ID message ==? "m1" then None else Some (EText "refused");
  ctx_Err n := if (n <? 500)%nat then None else Some ContextCanceled
|}.

Definition refused : EnqueueMailParams :=
  mkEnqueueMailParams "m0" "greeting" "bob@example.com" "Hello" "<p>Hello</p>" Hour.
Definition world_mails : World :=
  mkWorld (EnqueueMail greeting 0 (EnqueueMail refused 0 db0).2).2 0 1 [] [] "".

Lemma world_mails_ok : outbox_ok (w_db world_mails).
Proof. apply EnqueueMail_live, EnqueueMail_live, outbox_ok_db0. Qed.

Lemma due_mail_delivered_witness : delivered "m1" (Run_ (Wk := patient_worker) 11 Second world_mails).2.
Proof.
  apply (due_mail_delivered (Wk := patient_worker) 1 0 Second "m1" (mail_row greeting 0) 11 world_mails).
  - split; [done|done|intros n; reflexivity|intros n; by split|reflexivity].
  - reflexivity.
  - vm_compute. lia.
  - exact world_mails_ok.
  - computed.
  - intros n deadline. reflexivity.
  - split; [reflexivity|vm_compute; discriminate|reflexivity|vm_compute; reflexivity].
  - intros n Hn. simpl. destruct (Nat.ltb_spec n 500) as [|Hge]; [done|].
    replace (budget (w_db world_mails)) with 10%nat in Hn by computed. simpl in Hn. lia.
Defined.

(** A mail that a worker has leased, and one that it has not: it records the one as sent, and
    leaves the other. *)
Definition leased_mail : MailOutbox :=
  (mail_row greeting 0) <| MailOutbox_Status := StatusProcessing |> <| MailOutbox_Attempts := 1 |>
    <| MailOutbox_LeaseID := Some "lease" |> <| MailOutbox_LeasedUntil := Some (60 * Second) |>.

Definition world_leased : World :=
  mkWorld (ClaimMail (Some "lease") 60 5 0 (w_db world_mail)).2 1 1 [] [] "".

Lemma finishDelivery_fenced_witness :
  (∃ w, finishDelivery leased_mail "lease" None world_leased = (Ok None, w)
     ∧ option_map MailOutbox_Status (mail_outbox (w_db w) !! "m1") = Some StatusSent)
  ∧ ∃ err w, finishDelivery leased_mail "lease" None world_mail = (Ok err, w) ∧ w_db w = w_db world_mail.
Proof.
  split.
  - destruct (finishDelivery_fenced leased_mail "lease" None world_leased) as (err & w & E & H).
    destruct H as [H _]. destruct (H leased_mail) as [Herr Hw].
    + split_and!; [computed|reflexivity|reflexivity|]. exists (60 * Second). split; [reflexivity|computed].
    + exists w. split; [|by rewrite Hw]. by rewrite E, (proj2 Herr).
  - destruct (finishDelivery_fenced leased_mail "lease" None world_mail) as (err & w & E & H).
    destruct H as [_ H]. exists err, w. split; [exact E|]. apply H.
    intros m (Hm & Hl & _). vm_compute in Hm. injection Hm as <-. discriminate Hl.
Defined.

(** After the run the mail is sent; a second run leaves it alone. *)
Definition world_sent : World := (worker_run world_mail).2.
Definition sent_mail : MailOutbox :=
  clear_payload (mail_row greeting 0) <| MailOutbox_Status := StatusSent |>
    <| MailOutbox_Attempts := 1 |> <| MailOutbox_CompletedAt := Some 8 |>.

Lemma world_sent_ok : outbox_ok (w_db world_sent).
Proof. exact (proj1 (Run_guar mails_live 50 Second world_mail world_mail_ok)). Qed.

Lemma final_mail_untouched_witness :
  mail_outbox (w_db (worker_run world_sent).2) !! "m1" = Some sent_mail ∧ MailOutbox_Body sent_mail = "".
Proof.
  apply (final_mail_untouched 50 Second world_sent "m1"); [exact world_sent_ok| |computed].
  vm_compute. reflexivity.
Defined.

(** ** Lists and text *)

Lemma walk_pages_all_witness :
  walk_pages 6 [1; 2; 3; 4; 5] {| Limit := 2; Offset := 0 |} Z.succ = [2; 3; 4; 5; 6].
Proof. rewrite walk_pages_all; [reflexivity|vm_compute; intuition discriminate..]. Defined.

(** ** Administration *)

Definition disable_root : account_op := OpSetStatus me "root" UserDisabled.

Lemma admin_only_witness :
  ∃ u s, let d := sched_env (w_step world1) (w_db world1) in
    users d !! r_UserID me = Some u ∧ User_Role u = RoleAdmin
    ∧ user_sessions d !! r_SessionID me = Some s ∧ UserSession_UserID s = User_ID u
    ∧ session_valid (w_clock world1) u s = true.
Proof.
  apply (admin_only disable_root me world1 (run_op disable_root world1).2); [reflexivity|].
  apply (run_answer (run_op disable_root) world1). computed.
Defined.
