(* ===== verification/AppWitnesses.v ===== *)
(** * The theorems of the HTTP layer and of the platform at work

    As [Witnesses], for the API, the identity providers, password hashing, the distributed
    lock and the configuration. *)
From stdpp Require Import pretty.
From S2P Require Import Prelude.
From S2P Require Import Text.
From S2P Require Import GoErrors.
From S2P Require Import Runtime.
From S2P Require Import Identity.
From S2P Require Import Pagination.
From S2P Require Import Schema.
From S2P Require Import Storage.
From S2P Require Import Logic.
From S2P Require Import HttpApi.
From S2P Require FederationClient.
From S2P Require Import Locker.
From S2P Require LockerExecution.
From S2P Require LockerPostgres.
From S2P Require Password.
From S2P Require AppConfig.
From S2P Require Import Tables.
From S2P Require Projects.
From S2P Require Tasks.
From S2P Require Import MailOutbox.
From S2P Require Import AccountModel.
From S2P Require Import AccountSessions.
From S2P Require Import AccountFlows.
From S2P Require AccountHttp.
From S2P Require Import AccountHistory.
From S2P Require Import AccountGuar.
From S2P Require Import AccountFacts.
From S2P Require Import AccountSecurity.
From S2P Require Import Api.
From S2P Require Import Identifiers.
From S2P Require Import AccountDisclosure.
From S2P Require Import System.
From S2P Require Dto.
From S2P Require DtoFacts.
From S2P Require Contract.
From S2P Require Replies.
From S2P Require Import Examples.
From Stdlib Require Import Ascii.

Ltac computed := vm_compute; reflexivity.

(** ** Requests to the API *)

Global Instance example_deadlines : Deadlines := {| ctx_done _ := None |}.

Definition deps : Dependencies := mkDependencies sessionAuthenticator (mret tt).

Definition no_route : BoundRoute :=
  mkBound unit (mkRoute (mkOperation (operation_spec "" "" "" [] 0) Public) unit unit false
    (λ _ _ _, mret None)) tt [].

(** [GET /v1/me] *)
Definition get_me : BoundRoute := List.nth 8 (routes_or_nil (NewHandler deps)) no_route.

Definition parse_nothing (_ : string) : res ErrorModel (Route_I (bound_route get_me)) := Ok tt.

Definition serve_me : handler (Route_D (bound_route get_me)) :=
  match serve get_me parse_nothing with Ok h => h | Err _ => λ c, mret (WriteErr c 500 "") end.

Definition my_token : string := (NewToken 8 SessionPrefix).1.

Definition request_with (authorization : string) : HContext :=
  mkHContext (mkCtx None None) authorization "" ∅.

Lemma get_me_in : List.In get_me (routes_or_nil (NewHandler deps)).
Proof. apply List.nth_In, Nat.ltb_lt. vm_compute. reflexivity. Qed.

Lemma world1_valid : auth_ok (w_db world1).
Proof. apply play_ok. Qed.

Definition status_of {D} (x : res error (reply D)) : Z :=
  match x with Ok r => Reply_Status r | Err _ => 0 end.

Example api_answers :
  (status_of (serve_me (request_with ("bearer  " +:+ my_token)) world1).1,
   status_of (serve_me (request_with "Basic Zm9v") world1).1,
   status_of (serve_me (request_with ("Bearer x" +:+ my_token)) world1).1) = (200, 401, 401).
Proof. computed. Qed.

Definition my_request : HContext := request_with ("Bearer " +:+ my_token).

Lemma protected_routes_guarded_witness : ∃ r, (serve_me my_request world1).1 = Ok r
  ∧ ((refusal r
      ∧ w_db (serve_me my_request world1).2
        = w_db (looked_up (Auth := sessionAuthenticator) my_request world1))
     ∨ ∃ p c' w1, presents_session world1 my_request p ∧ on_behalf_of p my_request c'
         ∧ huma_handler (bound_route get_me) (bound_service get_me) parse_nothing c' w1
           = (Ok r, (serve_me my_request world1).2)).
Proof.
  apply (protected_routes_guarded (mret tt) get_me parse_nothing serve_me my_request world1).
  - exact world1_valid.
  - exact get_me_in.
  - reflexivity.
  - reflexivity.
  - by destruct (serve_me my_request world1).
Defined.

Lemma protected_routes_serve_witness : ∃ c',
  on_behalf_of {| Principal_Subject := "root"; Principal_SessionID := "id-9" |} my_request c'
  ∧ serve_me my_request world1
    = huma_handler (bound_route get_me) (bound_service get_me) parse_nothing c'
        (advance (AuthenticateSession my_token world1).2).
Proof.
  apply (protected_routes_serve (mret tt) get_me parse_nothing serve_me my_request world1 my_token
    "root" "id-9" (AuthenticateSession my_token world1).2).
  - exact world1_valid.
  - exact get_me_in.
  - reflexivity.
  - reflexivity.
  - reflexivity.
  - apply (run_answer (AuthenticateSession my_token) world1). computed.
  - discriminate.
  - discriminate.
Defined.

(** [POST /v1/auth/login], then an iteration of the mail worker. *)
Definition login_route : BoundRoute := List.nth 3 (routes_or_nil (NewHandler deps)) no_route.

Definition parse_login (_ : string) : res ErrorModel (Route_I (bound_route login_route)) :=
  Ok (AccountHttp.mkLoginInput "Root@example.com" "correct horse").

Definition serve_login : handler (Route_D (bound_route login_route)) :=
  match serve login_route parse_login with Ok h => h | Err _ => λ c, mret (WriteErr c 500 "") end.

Definition logged_in : World := (Requests "10.0.0.1:5000" serve_login (request_with "") world0).2.

Example login_answers :
  status_of (Requests "10.0.0.1:5000" serve_login (request_with "") world0).1 = 200.
Proof. computed. Qed.

Lemma db0_system_ok : system_ok (w_db world0).
Proof.
  split; [exact db0_ok|split; by intros ?**; simplify_map_eq..|].
  split; unfold named; apply (bool_decide_unpack _); vm_compute; exact I.
Qed.

(** The same moment when nobody has an account. *)
Definition nobody : World := mkWorld emptyDB 0 0 [] [] "".

Lemma nobody_ok : auth_ok (w_db nobody).
Proof.
  split; first [exact (table_ok_empty _ _ _)|intros k r; simpl; by intros []%lookup_empty_Some].
Qed.

Lemma every_mail_fits n : (n < 12)%nat → mails_fit n.
Proof.
  intros Hn purpose Hp. unfold VerificationPurpose_Valid in Hp. bool_to_prop.
  rewrite !elem_of_cons, elem_of_nil in Hp. destruct Hp as [-> |[-> |[-> |[]]]]; (eexists; split; [reflexivity|]);
    do 12 (destruct n as [|n]; [vm_compute; reflexivity|]); lia.
Qed.

Lemma entry_undisclosed_witness :
  (Register anonymous "root@example.com" world0).1 = (Register anonymous "root@example.com" nobody).1
  ∧ (ForgotPassword anonymous "root@example.com" world0).1 = (ForgotPassword anonymous "root@example.com" nobody).1.
Proof.
  apply (entry_undisclosed anonymous "root@example.com" world0 nobody).
  - intros n d _. by split.
  - by split.
  - split; [exact db0_ok|exact (ok_ids _ db0_system_ok)|done|..]; simpl; intros n [_ Hn]; unfold draws in Hn; simpl in Hn.
    + do 12 (destruct n as [|n]; [split_and!; vm_compute; reflexivity|]); lia.
    + do 12 (destruct n as [|n]; [vm_compute; reflexivity|]); lia.
    + by apply every_mail_fits.
  - split; [exact nobody_ok|exact ids_empty|done|..]; simpl; intros n [_ Hn]; unfold draws in Hn; simpl in Hn.
    + by split_and!.
    + done.
    + by apply every_mail_fits.
  - intros e He. assert (normalizeEmail "root@example.com" = Ok "root@example.com") as E by computed.
    rewrite E in He. injection He as <-. computed.
Defined.

Lemma system_run_witness :
  system_ok (w_db (Run_ 9 Second logged_in).2) ∧ history db0 (w_db (Run_ 9 Second logged_in).2).
Proof.
  destruct (system_run (mret tt) world0 (Run_ 9 Second logged_in).2) as (H1 & H2 & _).
  - intros w. reflexivity.
  - exact db0_system_ok.
  - eapply rtc_l; [|eapply rtc_l; [|apply rtc_refl]].
    + left. exists login_route, parse_login, serve_login, "10.0.0.1:5000", (request_with "").
      split; [apply List.nth_In, Nat.ltb_lt; vm_compute; reflexivity|]. split; reflexivity.
    + right. exists 9%nat, Second. reflexivity.
  - split; [exact H1|exact H2].
Defined.

(** The same login, with its body as it travels. *)
Definition any_format (_ _ : string) : bool := true.

Definition login_call : Replies.call :=
  Replies.LoginUser (Dto.VObject [("email", Dto.VString "Root@example.com");
                                  ("password", Dto.VString "correct horse")]).

Definition login_reply : res error Dto.value * World :=
  Replies.call_reply (mkCtx None None) login_call world0.

Definition replied : Dto.value := match login_reply.1 with Ok v => v | Err _ => Dto.VNull end.

Lemma replies_conform_witness :
  Dto.get_string replied "token_type" = "Bearer"
  ∧ Dto.conforms any_format (Replies.call_type login_call) replied = true
  ∧ ∃ c, Replies.call_operation c = "update-task".
Proof.
  destruct (Replies.replies_conform any_format) as [Hall Hcalls].
  destruct (Hcalls (mkCtx None None) login_call) as [_ H].
  split_and!; [computed| |].
  - apply (H world0 replied login_reply.2); [exact db0_system_ok|].
    assert (login_reply.1 = Ok replied) as <- by computed. exact (surjective_pairing login_reply).
  - apply Hall. apply (list_elem_of_lookup_2 _ 17%nat). computed.
Defined.

(** A reset of a password and its body. *)
Definition reset_input : AccountHttp.VerifyInput :=
  AccountHttp.mkVerifyInput "ct_abc" VerifyResetPassword "a long enough password".

Lemma request_alternatives_witness :
  Dto.conforms any_format Dto.account.UserVerifyRequest_Schema (DtoFacts.verify_body reset_input) = true
  ∧ DtoFacts.verify_described (Dto.VerifyInput (DtoFacts.verify_body reset_input)).
Proof.
  destruct (DtoFacts.request_alternatives any_format) as (Hs & Hc & _).
  destruct (Hc reset_input) as [H _].
  - split; [split; vm_compute; discriminate|]. left. split; [right; left|split; vm_compute; discriminate].
  - split; [exact H|]. by apply Hs.
Defined.

(** A new project and a new password as they travel. *)
Lemma contract_agrees_witness :
  Dto.conforms any_format Dto.account.UserPasswordSetRequest
    (Contract.object [("new_password", "a long enough password")]) = true
  ∧ Projects.validate "  Atlas " "A map." = Ok "Atlas"
  ∧ Params_Validate (PageQuery_Params (mkPageQuery 20 40)) = None.
Proof.
  destruct (Contract.contract_agrees any_format) as (_ & _ & Hpassword & _ & Hproject & _ & _ & Hpage & _).
  split_and!.
  - rewrite <-Hpassword; computed.
  - apply (Hproject (Contract.object [("name", "  Atlas "); ("description", "A map.")])); [computed| |by split; computed].
    split; [by split; computed|vm_compute; discriminate].
  - apply (Hpage None (Some 40)). computed.
Defined.

(** The readiness check of a service that is going down: its reason stays inside. *)
Definition going_down : M unit := fail (EText "postgres://root:secret@db is shutting down").

Definition no_health_route : Route (M unit) :=
  mkRoute (mkOperation (operation_spec "" "" "" [] 0) Public) unit unit false (λ _ _ _, mret None).

Definition ready_route : Route (M unit) :=
  match List.nth 1 HealthRoutes (Err (EText "")) with Ok r => r | Err _ => no_health_route end.

Definition not_ready : error := EStatus 503 "service not ready".

Lemma failed_reply_discloses_witness : ∃ r w' status detail,
  huma_handler ready_route going_down (λ _, Ok tt) my_request world0 = (Ok r, w')
  ∧ w_db w' = w_db world0 ∧ Reply_Status r = status
  ∧ Reply_Body r = Problem_ (NewError status detail []) ∧ disclosed not_ready status detail.
Proof.
  apply (failed_reply_discloses ready_route going_down (λ _, Ok tt) my_request tt world0 not_ready world0);
    reflexivity.
Defined.

(** ** An identity provider *)

Global Instance example_urls : FederationClient.UrlParser := {|
  FederationClient.url_Parse raw :=
    if HasPrefix raw "https://" then Some (FederationClient.mkURL "https" (drop_string 8 raw) None "")
    else if HasPrefix raw "postgres://" then Some (FederationClient.mkURL "postgres" (drop_string 11 raw) None "")
    else None
|}.

(** Every code is good for a token; the token belongs to the user 42. *)
Global Instance example_oauth : FederationClient.OAuth := {|
  FederationClient.AuthCodeURL c state _ := FederationClient.oauth2_AuthURL c +:+ "?state=" +:+ state;
  FederationClient.Exchange _ _ code _ := Ok ("gh-" +:+ code);
  FederationClient.GetUser _ _ _ := Ok (200, Ok (FederationClient.mkGithubUser 42 "ada"))
|}.

Global Instance example_contexts : FederationContexts := {|
  asked _ := FederationClient.mkAsked None None
|}.

Definition github : FederationClient.Config :=
  FederationClient.mkConfig "github" FederationClient.ProtocolGitHub "client" "secret" "/run/secret"
    "https://app.example/auth/callback".

Definition registry : FederationClient.Registry :=
  match FederationClient.New [github] with Ok r => r | Err _ => ∅ end.

Definition github_version : string := FederationClient.Version registry "github".

Definition ada : VerifiedIdentity := mkVerifiedIdentity "https://api.github.com" "42" "ada".

Lemma federationAdapter_refines_witness :
  Federation_Verify (Federation := federationAdapter registry) 0 "github" github_version "code" "v" = Ok ada
  ∧ identity_ok ada = true
  ∧ Federation_Version (Federation := federationAdapter registry) "github" = github_version
  ∧ Federation_Enabled (Federation := federationAdapter registry) "github" = true
  ∧ ∃ token user, FederationClient.GetUser 0 FederationClient.githubUserEndpoint token = Ok (200, Ok user)
    ∧ ∀ user', pretty (FederationClient.github_ID user') = Identity_Subject ada →
               FederationClient.github_ID user' = FederationClient.github_ID user.
Proof.
  pose proof (federationAdapter_refines registry 0 "github" github_version "code" "v") as H.
  assert (Hv : Federation_Verify (Federation := federationAdapter registry) 0 "github" github_version
                 "code" "v" = Ok ada) by computed.
  split; [exact Hv|]. rewrite Hv in H. apply H. intros m token st user [= <- <-]. reflexivity.
Defined.

(** ** Passwords *)

(** A hash is a dollar sign and the password, filled up to 32 characters; the parameters are the
    default ones. A text that starts with a zero decodes too, but to no iterations, and comparing
    with it panics. *)
Global Instance example_argon2 : Password.Argon2 := {|
  Password.CreateHash _ password params :=
    if bool_decide (params = Password.default_params) then Ok (String "$" (fit 32 password))
    else Err "parameters";
  Password.DecodeHash hash :=
    match hash with
    | String "$" _ => Some Password.default_params
    | String "0" _ => Some (Password.mkArgon2Params 19456 0 1 16 32)
    | _ => None
    end;
  Password.ComparePasswordAndHash password hash :=
    match hash with String "$" text => Some (text ==? fit 32 password) | _ => None end
|}.

Global Instance example_argon2_laws : Password.Argon2Laws example_argon2.
Proof.
  split; simpl.
  - intros n v p h. case_bool_decide; [|done]. by intros [= <-]; subst.
  - intros n v p h. case_bool_decide; [|done]. intros [= <-]. by rewrite bool_decide_eq_true_2.
  - intros n v p h. case_bool_decide; [|done]. intros [= <-] _ _ _ _ _.
    pose proof (length_fit 32 v) as Hl. unfold len. simpl String.length in *. lia.
  - intros v [|c h] p; [done|]. destruct c as [[] [] [] [] [] [] [] []]; try done.
    intros [= <-]. simpl. lia.
Qed.

Definition hasher : Password.Hasher :=
  match Password.New_ 0 4 with Ok h => h | Err _ => Password.mkHasher 0 "" end.

Lemma Verify_exact_witness :
  Password.Verify hasher Password.undisturbed (String "$" (fit 32 "correct horse battery")) "correct horse battery"
  = Ok (true, false).
Proof.
  apply (Password.Verify_exact 0 4 hasher) with (m := Password.undisturbed) (k := 7%nat); computed.
Defined.

(** Two calls and one slot: the second waits until the first is done. *)
Definition one_waits : Password.Slots.state :=
  Password.Slots.mkState 1 [Password.Slots.Computing; Password.Slots.Waiting].

Lemma one_waits_reachable : rtc (Password.Slots.step 1) Password.Slots.start one_waits.
Proof.
  eapply rtc_l; [apply Password.Slots.step_call|]. eapply rtc_l; [apply Password.Slots.step_call|].
  eapply rtc_l; [by apply (Password.Slots.step_wait _ _ _ 0)|].
  eapply rtc_l; [by apply (Password.Slots.step_wait _ _ _ 1)|].
  eapply rtc_l; [by apply (Password.Slots.step_send _ _ _ 0); [|lia]|].
  eapply rtc_l; [by apply (Password.Slots.step_compute _ _ _ 0)|]. apply rtc_refl.
Qed.

Lemma slots_bounded_witness : (Password.Slots.computing (Password.Slots.calls one_waits) ≤ 1)%nat
  ∧ ∃ s, Password.Slots.step 1 one_waits s
      ∧ (Password.Slots.calls s !! 1%nat = Some Password.Slots.Taken
         ∨ (Password.Slots.used s < 1)%nat ∧ Password.Slots.calls s !! 1%nat = Some Password.Slots.Waiting).
Proof.
  pose proof (Password.Slots.slots_bounded 1 one_waits) as H.
  destruct H as (H1 & _ & H2); [lia|exact one_waits_reachable|]. split; [exact H1|by apply H2].
Defined.

(** ** A distributed lock *)

Definition boom : error := EText "boom".
Definition gone : error := EText "connection reset".
Definition lost : error := Wrap ErrLockLost (Some gone).

(** The connection breaks while the task runs; the task gives up and the release fails. *)
Definition lock_lost : LockerExecution.state :=
  LockerExecution.mkState None (Some lost) true LockerExecution.WatchDone None LockerExecution.Left true
    (Join (Join [Some boom; Some lost; Some lost] :: LockerExecution.release_error (Some gone)))
    [LockerExecution.Released (Some gone); LockerExecution.TaskReturned (Some boom);
     LockerExecution.LeaseLost lost; LockerExecution.TaskStarted].

Lemma lock_lost_reachable : LockerExecution.reachable lock_lost.
Proof.
  exists None. eapply rtc_l; [apply LockerExecution.step_task|].
  eapply rtc_l; [apply (LockerExecution.step_watch _ _ _ _ _ _ _ _ (Some gone))|].
  eapply rtc_l; [apply LockerExecution.step_judge|].
  eapply rtc_l; [apply LockerExecution.step_lost|].
  eapply rtc_l; [apply LockerExecution.step_send|].
  eapply rtc_l; [apply (LockerExecution.step_return _ _ _ _ _ _ _ _ (Some boom))|].
  eapply rtc_l; [apply LockerExecution.step_stop|].
  eapply rtc_l; [apply LockerExecution.step_receive|].
  eapply rtc_l; [apply LockerExecution.step_join|].
  eapply rtc_l; [apply (LockerExecution.step_release _ _ _ _ _ _ _ _ (Some gone))|]. apply rtc_refl.
Qed.

Lemma execute_truthful_witness : ∃ x, LockerExecution.result lock_lost = Some x
  ∧ Is x (TSentinel LockerErrLockLost) = true ∧ ∀ t, Is lost t = true → Is x t = true.
Proof.
  apply (LockerExecution.execute_truthful lock_lost lock_lost_reachable eq_refl).
  right. right. left.
Defined.

Lemma release_exclusive_witness :
  LockerExecution.watcher lock_lost = LockerExecution.WatchDone
  ∧ LockerExecution.stopped lock_lost = true
  ∧ LockerExecution.count LockerExecution.is_over (LockerExecution.trace lock_lost)
    = LockerExecution.count LockerExecution.is_started (LockerExecution.trace lock_lost).
Proof. apply (LockerExecution.release_exclusive lock_lost lock_lost_reachable). by right. Defined.

Definition lock_start : LockerExecution.state := LockerExecution.start None.

Lemma execute_terminates_witness :
  Acc (λ s2 s1, LockerExecution.step s1 s2) lock_start
  ∧ ∃ s, LockerExecution.due lock_start s.
Proof.
  pose proof (LockerExecution.execute_terminates lock_start) as H.
  destruct H as [H1 H2]; [exists None; apply rtc_refl|]. split; [exact H1|by apply H2].
Defined.

(** A server with its table of locks and its living sessions. *)
Record lock_table : Type := mkLockTable {
  locks : gmap LockerPostgres.lockKey (LockerPostgres.conn * nat);
  sessions : gset LockerPostgres.conn
}.

Definition set_holder (k : LockerPostgres.lockKey) (x : LockerPostgres.conn * nat) (s : lock_table) : lock_table :=
  mkLockTable (<[k := x]> (locks s)) (sessions s).

Global Instance example_locks : LockerPostgres.AdvisoryLocks := {|
  LockerPostgres.server := lock_table;
  LockerPostgres.no_sessions := mkLockTable ∅ ∅;
  LockerPostgres.alive c s := c ∈ sessions s;
  LockerPostgres.holder s k := locks s !! k;
  LockerPostgres.connect c s := mkLockTable (locks s) ({[c]} ∪ sessions s);
  LockerPostgres.try_lock c k s :=
    match locks s !! k with
    | None => (true, set_holder k (c, 1%nat) s)
    | Some (h, n) => if h ==? c then (true, set_holder k (c, S n) s) else (false, s)
    end;
  LockerPostgres.unlock c k s :=
    match locks s !! k with
    | Some (h, S O) =>
      if h ==? c then (true, mkLockTable (delete k (locks s)) (sessions s)) else (false, s)
    | Some (h, S n) => if h ==? c then (true, set_holder k (c, n) s) else (false, s)
    | _ => (false, s)
    end;
  LockerPostgres.end_session c s := mkLockTable (filter (λ x, x.2.1 ≠ c) (locks s)) (sessions s ∖ {[c]})
|}.

Lemma lookup_insert_if {A} (m : gmap LockerPostgres.lockKey A) k k' x :
  <[k := x]> m !! k' = if k' ==? k then Some x else m !! k'.
Proof. case_bool_decide; [subst; apply lookup_insert_eq|by apply lookup_insert_ne]. Qed.

Global Instance example_locks_laws : LockerPostgres.AdvisoryLocksLaws example_locks.
Proof.
  split; simpl.
  - intros k. apply lookup_empty.
  - set_solver.
  - done.
  - set_solver.
  - intros c k s ->. split; [done|]. intros k'. apply lookup_insert_if.
  - intros c k s n ->. rewrite bool_decide_eq_true_2 by done. split; [done|]. intros k'. apply lookup_insert_if.
  - intros c k s c' n -> Hne. by rewrite bool_decide_eq_false_2.
  - intros c k s c'. destruct (locks s !! k) as [[h n]|]; [|done]. by case_bool_decide.
  - intros c k s ->. rewrite bool_decide_eq_true_2 by done. split; [done|]. intros k'. simpl.
    case_bool_decide; [subst; apply lookup_delete_eq|by apply lookup_delete_ne].
  - intros c k s c'. destruct (locks s !! k) as [[h [|[|n]]]|]; try done; by case_bool_decide.
  - intros c s k x. rewrite map_lookup_filter_Some. done.
  - set_solver.
Qed.

(** Two connections ask for the same lock; the first has it. *)
Definition lock_key : LockerPostgres.lockKey := LockerPostgres.keyFor "jobs:nightly".

Definition contended : LockerPostgres.state :=
  LockerPostgres.mkState
    (<[1%nat := LockerPostgres.Asking lock_key]> (<[0%nat := LockerPostgres.Leased lock_key]>
      (<[0%nat := LockerPostgres.Asking lock_key]> (<[1%nat := LockerPostgres.Idle]>
        (<[0%nat := LockerPostgres.Idle]> ∅)))))
    (mkLockTable (<[lock_key := (0%nat, 1%nat)]> ∅) ({[1%nat]} ∪ ({[0%nat]} ∪ ∅))).

Lemma contended_reachable : rtc LockerPostgres.step LockerPostgres.start contended.
Proof.
  eapply rtc_l; [by apply (LockerPostgres.step_connect _ _ 0%nat)|].
  eapply rtc_l; [by apply (LockerPostgres.step_connect _ _ 1%nat)|].
  eapply rtc_l; [by apply (LockerPostgres.step_take _ _ 0%nat lock_key)|].
  eapply rtc_l; [apply (LockerPostgres.step_try _ _ 0%nat lock_key true); [done|simpl; set_solver]|].
  eapply rtc_l; [by apply (LockerPostgres.step_take _ _ 1%nat lock_key)|]. apply rtc_refl.
Qed.

Lemma leases_exclusive_witness :
  (LockerPostgres.try_lock 1%nat lock_key (LockerPostgres.srv contended)).1 = true
  ↔ LockerPostgres.holder (LockerPostgres.srv contended) lock_key = None.
Proof.
  pose proof (LockerPostgres.leases_exclusive contended contended_reachable) as (_ & _ & H).
  apply H. apply lookup_insert_eq.
Defined.

(** ** Configuration *)

Definition variables (key : string) : option string :=
  if key ==? "DATABASE_URL" then Some "postgres://db/app"
  else if key ==? "FRONTEND_URL" then Some "https://app.example" else None.

Definition my_config (values : gmap string string) : AppConfig.Config :=
  AppConfig.mkApiConfig "production" "127.0.0.1:8080" (default "" (values !! "DATABASE_URL")) 10 0
    (15 * Second) (10 * Second) false "" (30 * Minute) (24 * Hour)
    (default "" (values !! "FRONTEND_URL")) false "".

Definition convert (values : gmap string string) : AppConfig.Config * option AppConfig.env_error :=
  match values !! "DATABASE_URL" with
  | Some _ => (my_config values, None)
  | None => (AppConfig.zero_config, Some (AppConfig.AggregateError [AppConfig.VarIsNotSetError "DATABASE_URL"]))
  end.

Definition started : AppConfig.Config :=
  my_config (<["FRONTEND_URL" := "https://app.example"]> (<["DATABASE_URL" := "postgres://db/app"]> ∅)).

Lemma Parse_starts_witness :
  NewService (AppConfig.config_options started) = Ok (AppConfig.config_options started).
Proof.
  apply (AppConfig.Parse_starts convert variables started).
  - intros values cfg err. unfold convert. destruct (values !! "DATABASE_URL"); [done|]. by intros [= <- <-].
  - vm_compute. reflexivity.
Defined.

Definition lock_options : Locker.Options := Locker.mkOptions "jobs" (5 * Second) (5 * Second) (50 * Millisecond) Second.

(** The lock is taken for three attempts, and no wait is cut short. *)
Definition lock_taken (n : nat) (key : string) : res error (option unit) :=
  Ok (if (n <? 3)%nat then None else Some tt).

Definition lock_waits : list Z * ending :=
  Locker.Run_ lock_taken (λ _ _, None) (λ _ _, (true, None)) 5 lock_options [] "nightly" false None.

Lemma backoff_exact_witness : ∃ t, lock_waits.1 !! 2%nat = Some t
  ∧ 100 * Millisecond ≤ t ≤ 200 * Millisecond.
Proof.
  destruct lock_waits as [timers r] eqn:E.
  pose proof (backoff_exact lock_taken (λ _ _, None) (λ _ _, (true, None)) false lock_options lock_options
    5 [] "nightly" "jobs:nightly" false None timers r) as H.
  destruct H as (_ & H1 & H2); [vm_compute; reflexivity..|exact E|].
  destruct (H2 2%nat) as [t Ht]; [lia| |done|].
  - intros i Hi. unfold acquire, lock_taken. destruct (Nat.ltb_spec i 3); [done|lia].
  - exists t. split; [exact Ht|]. destruct (H1 2%nat t Ht) as (_ & (_ & Hl & Hh) & _).
    split; [etransitivity; [|exact Hl]|etransitivity; [exact Hh|]]; vm_compute; discriminate.
Defined.
