(* ===== verification/LifecycleWitnesses.v ===== *)
(** * The theorems of the life cycle at work

    A concrete machine, an fx and a cobra that satisfy their laws, and runs of the API and of
    the worker on them. *)
From S2P Require Import Prelude.
From S2P Require Import Text.
From S2P Require Import GoErrors.
From S2P Require Import FederationClient.
From S2P Require Import AppConfig.
From S2P Require Import Process.
From S2P Require Import Infrastructure.
From S2P Require Import Lifecycle.
From S2P Require Import Commands.
From S2P Require Import LifecycleFacts.
From S2P Require Import LifecycleParts.
From S2P Require Import LifecycleRuns.
From S2P Require Import AppWitnesses.

(** Every step takes a nanosecond and every call succeeds; the signal comes at 40. *)
Global Instance quiet_machine : Machine := {|
  took _ := 1%positive;
  signal := Some 40;
  answer _ := None;
  chance _ := true;
  serve_ends _ := None; listener_Addr := "127.0.0.1:8080";
  consumer_ends n := if (20 <? n)%nat then Some None else None;
  pool_closes _ := true
|}.

(** The hooks of the application, those that are up, and the time-out of its stop. *)
Global Instance example_fx : Fx := {|
  App := list Hook * list Hook * Z;
  fx_New hooks d := (hooks, [], d);
  fx_StopTimeout app := app.2;
  fx_StartTimeout := 15 * Second;
  fx_Start app ctx :=
    '(errs, up) ← start_or_roll_back ctx app.1.1;
    mret (Join errs, (app.1.1, up, app.2));
  fx_Stop app ctx :=
    errs ← stop_hooks ctx app.1.2;
    mret (Join errs, (app.1.1, [], app.2))
|}.

Lemma Join_combines errs : combines errs (Join errs).
Proof.
  split; [apply Join_None|]. intros e t He Ht.
  apply (reports_join (Some e)); [by exists e|done].
Qed.

Global Instance example_fx_laws `{Mach : Machine} : FxLaws (F := example_fx).
Proof.
  refine {| fx_up := λ app : App, app.1.2 |}.
  - done.
  - intros app ctx p err app' p'. simpl. unfold mbind, Proc_bind.
    destruct (start_or_roll_back ctx app.1.1 p) as [[errs up] p1| |]; [|done..]. by intros [= _ <- _].
  - intros hooks d ctx p. right. simpl. unfold documented, mbind, Proc_bind. simpl.
    destruct (start_or_roll_back ctx hooks p) as [[errs up] p1| |]; [|done..].
    eexists _, _. split; [reflexivity|]. split; [apply Join_combines|done].
  - intros app ctx p. right. simpl. unfold documented, mbind, Proc_bind.
    destruct (stop_hooks ctx app.1.2 p) as [errs p1| |]; [|done..].
    eexists _, _. split; [reflexivity|]. split; [apply Join_combines|done].
Defined.

Global Instance plain_dec args : Decision (plain args).
Proof. unfold plain. destruct args; apply _. Defined.

(** With a flag it prints help, as for the commands that the library adds. *)
Global Instance example_cobra : Cobra.
Proof.
  refine {| ExecuteContext c args ctx :=
    if bool_decide (plain args) then
      let '(sub, rest) := find_command c args in
      match Args sub rest with
      | Some err => mret (Some err)
      | None => RunE sub ctx
      end
    else mret None |}.
  intros c args ctx p H. rewrite bool_decide_eq_true_2 by done.
  destruct (find_command c args) as [sub rest]. by destruct (Args sub rest).
Defined.

Definition worker_config (values : gmap string string) : WorkerConfig :=
  mkWorkerConfig (default "" (values !! "DATABASE_URL")) 5 Second 0 (10 * Second) false "".

Definition convert_worker (values : gmap string string) : WorkerConfig * option env_error :=
  (worker_config values, None).

Definition convert_migration (values : gmap string string) : migrationConfig * option env_error :=
  (mkMigrationConfig (default "" (values !! "DATABASE_URL")), None).

(** The constructors succeed. *)
Definition assemble (_ : Config) : res error (option error) := Ok None.

Definition api_command (fuel : nat) : Command :=
  api_NewCommand fuel variables convert convert_migration assemble (Ok "{}").

Definition worker_command (fuel : nat) : Command := worker_NewCommand fuel variables convert_worker.

Definition final {A} (r : outcome A) : process :=
  match r with Returned _ p => p | _ => fresh_process 0 end.

Definition result {A} (r : outcome A) : option A :=
  match r with Returned a _ => Some a | _ => None end.

Definition serve_run : outcome Z := main (api_command 100) ["serve"] (fresh_process 0).
Definition worker_run : outcome Z := main (worker_command 100) [] (fresh_process 0).

Example serve_exits : result serve_run = Some 0.
Proof. vm_compute. reflexivity. Qed.
Example worker_exits : result worker_run = Some 0.
Proof. vm_compute. reflexivity. Qed.
Example migrate_exits : result (main (api_command 100) ["migrate"; "up"] (fresh_process 0)) = Some 0.
Proof. vm_compute. reflexivity. Qed.
Example migrate_needs_direction : result (main (api_command 100) ["migrate"] (fresh_process 0)) = Some 1.
Proof. vm_compute. reflexivity. Qed.
Example help_exits : result (main (api_command 100) ["help"] (fresh_process 0)) = Some 0.
Proof. vm_compute. reflexivity. Qed.
Example unknown_command : result (main (api_command 100) ["server"] (fresh_process 0)) = Some 1.
Proof. vm_compute. reflexivity. Qed.

(** The same process when the n-th call fails. *)
Definition failing (n : nat) : Machine := {|
  took _ := 1%positive; signal := Some 40;
  answer m := if (m =? n)%nat then Some (EText "refused") else None;
  chance _ := true; serve_ends _ := None; listener_Addr := "127.0.0.1:8080";
  consumer_ends n := if (20 <? n)%nat then Some None else None;
  pool_closes _ := true
|}.

Definition failing_run (n : nat) : outcome Z :=
  main
    (api_NewCommand (Mach := failing n) 100 variables convert convert_migration assemble (Ok "{}"))
    [] (fresh_process 0).

Example failing_exits : map (λ n, result (failing_run n)) (seq 0 5) = List.repeat (Some 1) 4 ++ [Some 0].
Proof. vm_compute. reflexivity. Qed.

Lemma exit_zero_graceful_witness :
  (ended Signalled (final serve_run) = true ∧ held (events (final serve_run)) = Some []
   ∧ Drained None ∈ events (final serve_run))
  ∧ held (events (final worker_run)) = Some [] ∧ consumer_done (consumer (final worker_run)) = true.
Proof.
  split.
  - destruct (exit_zero_graceful 100 variables convert convert_worker convert_migration assemble (Ok "{}")
      ["serve"] 0 (final serve_run)) as [H _].
    destruct H as (cfg & _ & H1 & H2 & H3 & _); [vm_compute; reflexivity|right; reflexivity|exact (conj H1 (conj H2 H3))].
  - destruct (exit_zero_graceful 100 variables convert convert_worker convert_migration assemble (Ok "{}")
      [] 0 (final worker_run)) as [_ H].
    destruct H as (cfg & _ & H1 & H2 & H3 & _); [vm_compute; reflexivity|reflexivity|exact (conj H2 H3)].
Defined.

Definition the_api : program := API assemble AppWitnesses.started.
Definition api_outcome : outcome (option error) := run_program 100 the_api Signalled (fresh_process 0).

Lemma Run_releases_witness : result api_outcome = Some None ∧ held (events (final api_outcome)) = Some [].
Proof.
  split; [vm_compute; reflexivity|].
  destruct (Run_releases 100 the_api Signalled 0 None (final api_outcome)) as [H|(x & Hx & _)];
    [vm_compute; reflexivity|exact H|discriminate Hx].
Defined.

(** The API has started long before the time-outs are over. *)
Lemma the_api_starts fuel r p' :
  let ctx := lifecycle_ctx Signalled (fresh_process 0) (stop_timeout the_api) in
  start_or_roll_back ctx (program_hooks fuel the_api) (launched Signalled (fresh_process 0)) = Returned r p' →
  ctx_Err ctx p' = None.
Proof.
  intros ctx H.
  assert (match start_or_roll_back ctx (program_hooks fuel the_api) (launched Signalled (fresh_process 0)) with
          | Returned _ p1 => ctx_Err ctx p1 | _ => None end = None) as Hn by (vm_compute; reflexivity).
  by rewrite H in Hn.
Qed.

Lemma process_terminates_witness :
  ∃ r p', run_program (Z.to_nat 100000000000) the_api Signalled (fresh_process 0) = Returned r p'.
Proof.
  apply (process_terminates _ the_api 0 40).
  - done.
  - rewrite Z2Nat.id by lia. lia.
  - done.
  - rewrite Z2Nat.id by lia. vm_compute. discriminate.
  - apply the_api_starts.
Defined.
